(** * Guardrail tool backends: the restricted command executor and the
      SSRF-hardened fetcher (mcp/exec-server/core.mjs, mcp/fetch-server/core.mjs)

    A shallow embedding of the two cores and of the request handlers that
    call them, followed by the properties of the specification.

    Conventions of the embedding.
    - A JavaScript string is a [string]; a character stands for one UTF-16
      code unit in the range 0..255.
    - A JavaScript number is [NumInt z] when [Number.isInteger] holds of it
      and [NumOther] otherwise (fractions, NaN, the infinities): the code
      under study only ever throws on the latter.
    - An exception is a value of [exn]; a function that may throw returns a
      [result].
    - Platform functions that are not part of the repository (the WHATWG URL
      parser, the DNS resolver, the HTTP transport, the UTF-8 decoder, the
      child process) are fields of an explicit platform record or an
      explicit list of notifications. *)

From Stdlib Require Import ZArith String Ascii List Lia ZifyBool Bool DecimalString.
From stdpp Require Import gmap strings.

Set Warnings "-register-all".

(** ** JavaScript values *)

Inductive jsnumber :=
| NumInt (n : Z)
| NumOther.

Inductive value :=
| VUndefined
| VNull
| VBool (b : bool)
| VNumber (n : jsnumber)
| VString (s : string)
| VArray (xs : list value)
| VObject (m : gmap string value).

(** [raw.k]: own-property lookup; a missing property reads as [undefined]. *)
Definition getProp (raw : gmap string value) (k : string) : value :=
  match raw !! k with
  | Some v => v
  | None => VUndefined
  end.

(** String(n) for an integral number. *)
Definition numToString (n : Z) : string :=
  NilZero.string_of_int (Z.to_int n).

Definition VInt (n : Z) : value := VNumber (NumInt n).

(** ** Errors *)

Inductive error_kind :=
| INVALID_INPUT | COMMAND_NOT_ALLOWED | DISALLOWED_ARGUMENT | SPAWN_FAILED
| EXEC_FAILED | TIMEOUT | NON_ZERO_EXIT | ABORTED
| INVALID_URL | SSRF_BLOCKED | DNS_FAILED | FETCH_FAILED | TOO_MANY_REDIRECTS
| INTERNAL_ERROR | UNKNOWN_TOOL.

(** [class ToolError extends Error { code; details }]; [OtherError] is any
    exception that is not a ToolError (a TypeError of the platform). *)
Inductive exn :=
| ToolError (code : error_kind) (message : string) (details : value)
| OtherError (message : string).

Inductive result (A : Type) :=
| Ok (a : A)
| Throw (e : exn).
Arguments Ok {A} a.
Arguments Throw {A} e.

Definition rbind {A B} (r : result A) (k : A -> result B) : result B :=
  match r with
  | Ok a => k a
  | Throw e => Throw e
  end.

Notation "'do' x <- r ; k" := (rbind r (fun x => k))
  (at level 10, x name, r at level 100, k at level 200).
Notation "'do' ' p <- r ; k" := (rbind r (fun x => let 'p := x in k))
  (at level 10, p pattern, r at level 100, k at level 200).

Definition errorCode (e : exn) : option error_kind :=
  match e with
  | ToolError c _ _ => Some c
  | OtherError _ => None
  end.

(** The kind a result fails with, if it fails with a ToolError. *)
Definition failsWith {A} (r : result A) (k : error_kind) : Prop :=
  exists msg details, r = Throw (ToolError k msg details).

Definition isOk {A} (r : result A) : bool :=
  match r with
  | Ok _ => true
  | Throw _ => false
  end.

(** ** JavaScript string operations *)

Definition strlen (s : string) : Z := Z.of_nat (String.length s).

(** [a.startsWith(p)] *)
Definition startsWith (a p : string) : bool := String.prefix p a.

(** [s.split(sep)] for a non-empty separator: cut at the leftmost
    occurrences, scanning left to right.  [skip] counts the characters of a
    separator just matched that remain to be stepped over; [cur] is the
    piece being built, reversed. *)
Fixpoint split_go (sep : string) (skip : nat) (cur : list ascii) (s : string)
  : list string :=
  match s with
  | EmptyString => [string_of_list_ascii (rev cur)]
  | String c r =>
      match skip with
      | S k => split_go sep k cur r
      | O =>
          if String.prefix sep s
          then string_of_list_ascii (rev cur)
                 :: split_go sep (String.length sep - 1) [] r
          else split_go sep 0 (c :: cur) r
      end
  end.

Definition split (sep s : string) : list string := split_go sep 0 [] s.

(** [s.includes(sub)] *)
Fixpoint includes (s sub : string) : bool :=
  String.prefix sub s ||
  match s with
  | EmptyString => false
  | String _ r => includes r sub
  end.

(** [s.lastIndexOf(c)] for a one-character needle; -1 when absent. *)
Fixpoint lastIndexOf_go (c : ascii) (s : string) (i : Z) (found : Z) : Z :=
  match s with
  | EmptyString => found
  | String x r => lastIndexOf_go c r (i + 1) (if Ascii.eqb x c then i else found)
  end.

Definition lastIndexOf (s : string) (c : ascii) : Z := lastIndexOf_go c s 0 (-1).

(** [s.slice(a)] and [s.slice(0, b)] for indices within [0, length]. *)
Fixpoint drop_str (n : nat) (s : string) : string :=
  match n, s with
  | O, _ => s
  | S k, EmptyString => EmptyString
  | S k, String _ r => drop_str k r
  end.

Fixpoint take_str (n : nat) (s : string) : string :=
  match n, s with
  | O, _ => EmptyString
  | S k, EmptyString => EmptyString
  | S k, String c r => String c (take_str k r)
  end.

Definition sliceFrom (s : string) (a : Z) : string := drop_str (Z.to_nat a) s.
Definition sliceTo (s : string) (b : Z) : string :=
  if (b <? 0)%Z
  then take_str (Z.to_nat (strlen s + b)) s
  else take_str (Z.to_nat b) s.

(** [a.endsWith(suf)] *)
Definition endsWith (a suf : string) : bool :=
  (String.length suf <=? String.length a)%nat &&
  String.eqb (drop_str (String.length a - String.length suf) a) suf.

(** [c.toLowerCase()] on a code unit below 256: A-Z, and the Latin-1
    capitals U+00C0..U+00DE except the multiplication sign U+00D7. *)
Definition lowerChar (c : ascii) : ascii :=
  let n := nat_of_ascii c in
  if ((65 <=? n) && (n <=? 90))%nat then ascii_of_nat (n + 32)
  else if ((192 <=? n) && (n <=? 222) && negb (n =? 215))%nat then ascii_of_nat (n + 32)
  else c.

Fixpoint toLowerCase (s : string) : string :=
  match s with
  | EmptyString => EmptyString
  | String c r => String (lowerChar c) (toLowerCase r)
  end.

Fixpoint forallb_str (p : ascii -> bool) (s : string) : bool :=
  match s with
  | EmptyString => true
  | String c r => p c && forallb_str p r
  end.

(** [Buffer.byteLength(s, 'utf8')] on code units below 256: one byte below
    U+0080, two bytes from there on. *)
Fixpoint utf8ByteLength (s : string) : Z :=
  match s with
  | EmptyString => 0
  | String c r => (if (nat_of_ascii c <? 128)%nat then 1 else 2) + utf8ByteLength r
  end.

Definition bytes := list Byte.byte.

(** ** JavaScript 32-bit integer operators *)

Definition toUint32 (z : Z) : Z := (z mod 2 ^ 32)%Z.
Definition toInt32 (z : Z) : Z := ((z + 2 ^ 31) mod 2 ^ 32 - 2 ^ 31)%Z.

(** [a << n], [a >>> n], [a | b], [a & b], [~a]: the operands are wrapped to
    32 bits (the shift count to 5 bits), and so is the result. *)
Definition js_shl (a n : Z) : Z := toInt32 (Z.shiftl (toInt32 a) (toUint32 n mod 32)).
Definition js_ushr (a n : Z) : Z := Z.shiftr (toUint32 a) (toUint32 n mod 32).
Definition js_or (a b : Z) : Z := toInt32 (Z.lor (toInt32 a) (toInt32 b)).
Definition js_and (a b : Z) : Z := toInt32 (Z.land (toInt32 a) (toInt32 b)).
Definition js_not (a : Z) : Z := toInt32 (Z.lnot (toInt32 a)).

(** ** node:net, [net.isIP]

    A platform function.  It is modelled after the regular expressions of
    Node's lib/internal/net.js, which a small matcher by derivatives
    runs. *)

Module Net.

Inductive regex :=
| Void
| Eps
| Class (p : ascii -> bool)
| Cat (a b : regex)
| Alt (a b : regex).

Fixpoint nullable (r : regex) : bool :=
  match r with
  | Void => false
  | Eps => true
  | Class _ => false
  | Cat a b => nullable a && nullable b
  | Alt a b => nullable a || nullable b
  end.

Definition cat (a b : regex) : regex :=
  match a, b with
  | Void, _ => Void
  | _, Void => Void
  | Eps, _ => b
  | _, _ => Cat a b
  end.

Definition alt (a b : regex) : regex :=
  match a, b with
  | Void, _ => b
  | _, Void => a
  | _, _ => Alt a b
  end.

Fixpoint deriv (c : ascii) (r : regex) : regex :=
  match r with
  | Void => Void
  | Eps => Void
  | Class p => if p c then Eps else Void
  | Cat a b =>
      if nullable a
      then alt (cat (deriv c a) b) (deriv c b)
      else cat (deriv c a) b
  | Alt a b => alt (deriv c a) (deriv c b)
  end.

Fixpoint matches (r : regex) (s : string) : bool :=
  match s with
  | EmptyString => nullable r
  | String c t => matches (deriv c r) t
  end.

Definition chr (c : ascii) : regex := Class (Ascii.eqb c).
Definition range (lo hi : ascii) : regex :=
  Class (fun c => Ascii.leb lo c && Ascii.leb c hi).
Definition opt (r : regex) : regex := Alt r Eps.

(** [r{n}] *)
Fixpoint times (n : nat) (r : regex) : regex :=
  match n with
  | O => Eps
  | S k => Cat r (times k r)
  end.

(** [r{0,n}] *)
Fixpoint upto (n : nat) (r : regex) : regex :=
  match n with
  | O => Eps
  | S k => opt (Cat r (upto k r))
  end.

(** [r{m,n}] with m <= n *)
Definition between (m n : nat) (r : regex) : regex :=
  Cat (times m r) (upto (n - m) r).

Definition digit : regex := range "0" "9".

(** (?:25[0-5]|2[0-4]\d|1\d\d|[1-9]\d|\d) *)
Definition v4Seg : regex :=
  Alt (Cat (chr "2") (Cat (chr "5") (range "0" "5")))
  (Alt (Cat (chr "2") (Cat (range "0" "4") digit))
  (Alt (Cat (chr "1") (Cat digit digit))
  (Alt (Cat (range "1" "9") digit)
       digit))).

(** (?:${v4Seg}\.){3}${v4Seg} *)
Definition v4Str : regex := Cat (times 3 (Cat v4Seg (chr "."))) v4Seg.

Definition isHexDigit (c : ascii) : bool :=
  (Ascii.leb "0" c && Ascii.leb c "9")
  || (Ascii.leb "a" c && Ascii.leb c "f")
  || (Ascii.leb "A" c && Ascii.leb c "F").

(** (?:[0-9a-fA-F]{1,4}) *)
Definition v6Seg : regex := between 1 4 (Class isHexDigit).

Definition colon : regex := chr ":".
Definition segColon : regex := Cat v6Seg colon.
Definition colonSeg : regex := Cat colon v6Seg.

(** The eight alternatives of IPv6Reg, by the number of leading
    "segment colon" groups. *)
Definition v6Body : regex :=
  Alt (Cat (times 7 segColon) (Alt v6Seg colon))
  (Alt (Cat (times 6 segColon) (Alt v4Str (Alt colonSeg colon)))
  (Alt (Cat (times 5 segColon)
          (Alt (Cat colon v4Str) (Alt (between 1 2 colonSeg) colon)))
  (Alt (Cat (times 4 segColon)
          (Alt (Cat (upto 1 colonSeg) (Cat colon v4Str))
               (Alt (between 1 3 colonSeg) colon)))
  (Alt (Cat (times 3 segColon)
          (Alt (Cat (upto 2 colonSeg) (Cat colon v4Str))
               (Alt (between 1 4 colonSeg) colon)))
  (Alt (Cat (times 2 segColon)
          (Alt (Cat (upto 3 colonSeg) (Cat colon v4Str))
               (Alt (between 1 5 colonSeg) colon)))
  (Alt (Cat (times 1 segColon)
          (Alt (Cat (upto 4 colonSeg) (Cat colon v4Str))
               (Alt (between 1 6 colonSeg) colon)))
       (Cat colon
          (Alt (Cat (upto 5 colonSeg) (Cat colon v4Str))
               (Alt (between 1 7 colonSeg) colon))))))))).

(** [0-9a-zA-Z-.:] *)
Definition isZoneChar (c : ascii) : bool :=
  (Ascii.leb "0" c && Ascii.leb c "9")
  || (Ascii.leb "a" c && Ascii.leb c "z")
  || (Ascii.leb "A" c && Ascii.leb c "Z")
  || Ascii.eqb c "-" || Ascii.eqb c "." || Ascii.eqb c ":".

(** The zone suffix (?:%[0-9a-zA-Z-.:]{1,})? is the one unbounded
    repetition of the expression; it is matched after the address part, on
    the text from the first percent sign on. *)
Fixpoint beforePercent (s : string) : string :=
  match s with
  | EmptyString => EmptyString
  | String c r => if Ascii.eqb c "%" then EmptyString else String c (beforePercent r)
  end.

Fixpoint fromPercent (s : string) : option string :=
  match s with
  | EmptyString => None
  | String c r => if Ascii.eqb c "%" then Some r else fromPercent r
  end.

Definition isIPv4 (s : string) : bool := matches v4Str s.

Definition isIPv6 (s : string) : bool :=
  matches v6Body (beforePercent s) &&
  match fromPercent s with
  | None => true
  | Some zone => negb (String.eqb zone "") && forallb_str isZoneChar zone
  end.

Definition isIP (s : string) : Z :=
  if isIPv4 s then 4 else if isIPv6 s then 6 else 0.

End Net.

(** * The exec core (mcp/exec-server/core.mjs) *)

Module Exec.

Definition EXEC_TOOL_NAME : string := "exec".
Definition WORKSPACE_CWD : string := "/workspace".

(** [new Set(['git', 'npm', 'node'])], in insertion order. *)
Definition ALLOWED_COMMANDS : list string := ["git"; "npm"; "node"].
Definition ALLOWED_COMMANDS_has (c : string) : bool :=
  bool_decide (c ∈ ALLOWED_COMMANDS).

Definition DEFAULT_TIMEOUT_MS : Z := 60000.
Definition MAX_TIMEOUT_MS : Z := 120000.
Definition DEFAULT_MAX_OUTPUT_BYTES : Z := 200000.
Definition MAX_MAX_OUTPUT_BYTES : Z := 1000000.
Definition MAX_ARGS : Z := 64.
Definition MAX_ARG_LENGTH : Z := 8192.
Definition MAX_STDIN_BYTES : Z := 200000.

Definition parseBoundedInt (v : value) (field : string) (min max defaultValue : Z)
  : result Z :=
  match v with
  | VUndefined => Ok defaultValue
  | VNumber (NumInt n) =>
      if ((n <? min) || (n >? max))%Z
      then Throw (ToolError INVALID_INPUT
                    (field +:+ " must be between " +:+ numToString min
                       +:+ " and " +:+ numToString max)
                    (VObject (<["field" := VString field]>
                               (<["min" := VInt min]> (<["max" := VInt max]> ∅)))))
      else Ok n
  | _ => Throw (ToolError INVALID_INPUT (field +:+ " must be an integer")
                  (VObject (<["field" := VString field]> ∅)))
  end.

(** [value.some((v) => typeof v !== 'string')] fails: every element is a
    string. *)
Fixpoint asStrings (xs : list value) : option (list string) :=
  match xs with
  | [] => Some []
  | VString s :: r =>
      match asStrings r with
      | Some l => Some (s :: l)
      | None => None
      end
  | _ :: _ => None
  end.

Definition NUL : string := String zero EmptyString.

Fixpoint checkArgs (args : list string) : result unit :=
  match args with
  | [] => Ok tt
  | arg :: rest =>
      if (strlen arg >? MAX_ARG_LENGTH)%Z
      then Throw (ToolError INVALID_INPUT
                    ("arg too long (>" +:+ numToString MAX_ARG_LENGTH +:+ ")")
                    (VObject (<["maxArgLength" := VInt MAX_ARG_LENGTH]> ∅)))
      else if includes arg NUL
      then Throw (ToolError INVALID_INPUT "args must not contain NUL bytes" VUndefined)
      else checkArgs rest
  end.

Definition parseArgs (v : value) : result (list string) :=
  match v with
  | VUndefined => Ok []
  | VArray xs =>
      match asStrings xs with
      | None => Throw (ToolError INVALID_INPUT "args must be an array of strings" VUndefined)
      | Some args =>
          if (Z.of_nat (length args) >? MAX_ARGS)%Z
          then Throw (ToolError INVALID_INPUT
                        ("args length must be <= " +:+ numToString MAX_ARGS)
                        (VObject (<["maxArgs" := VInt MAX_ARGS]> ∅)))
          else do _ <- checkArgs args; Ok args
      end
  | _ => Throw (ToolError INVALID_INPUT "args must be an array of strings" VUndefined)
  end.

Definition deny (arg reason : string) : exn :=
  ToolError DISALLOWED_ARGUMENT ("Disallowed argument: " +:+ arg)
    (VObject (<["reason" := VString reason]> ∅)).

Definition isExact (a target : string) : bool := String.eqb a target.
Definition isPrefixed (a prefix : string) : bool := startsWith a prefix.

(** The body of the loop over the git arguments. *)
Definition gitArg (a : string) : result unit :=
  if isExact a "-C" || (isPrefixed a "-C" && (strlen a >? 2)%Z)
  then Throw (deny a "cwd override")
  else if isExact a "--git-dir" || isPrefixed a "--git-dir="
  then Throw (deny a "cwd override")
  else if isExact a "--work-tree" || isPrefixed a "--work-tree="
  then Throw (deny a "cwd override")
  else Ok tt.

Fixpoint gitLoop (args : list string) : result unit :=
  match args with
  | [] => Ok tt
  | a :: rest => do _ <- gitArg a; gitLoop rest
  end.

(** The body of the loop over the npm arguments; [next] is [args[i + 1]],
    [undefined] past the end. *)
Definition npmArg (a : string) (next : option string) : result unit :=
  if isExact a "--prefix" || isPrefixed a "--prefix="
  then Throw (deny a "cwd override")
  else if isExact a "--global" || isExact a "-g" || isPrefixed a "--location=global"
  then Throw (deny a "global location")
  else if isExact a "--location" &&
          match next with Some n => String.eqb n "global" | None => false end
  then Throw (deny "--location global" "global location")
  else Ok tt.

Fixpoint npmLoop (args : list string) : result unit :=
  match args with
  | [] => Ok tt
  | a :: rest => do _ <- npmArg a (head rest); npmLoop rest
  end.

Definition validateDisallowedCwdArgs (command : string) (args : list string)
  : result unit :=
  do _ <- (if String.eqb command "git" then gitLoop args else Ok tt);
  if String.eqb command "npm" then npmLoop args else Ok tt.

Record ExecCommand := {
  command : string;
  args : list string;
  stdin : option string;
  timeoutMs : Z;
  maxOutputBytes : Z
}.

Definition parseExecToolInput (raw : value) : result ExecCommand :=
  match raw with
  | VObject o =>
      match getProp o "command" with
      | VString cmd =>
          if ALLOWED_COMMANDS_has cmd then
            do a <- parseArgs (getProp o "args");
            do _ <- validateDisallowedCwdArgs cmd a;
            do t <- parseBoundedInt (getProp o "timeoutMs") "timeoutMs"
                      1 MAX_TIMEOUT_MS DEFAULT_TIMEOUT_MS;
            do m <- parseBoundedInt (getProp o "maxOutputBytes") "maxOutputBytes"
                      1024 MAX_MAX_OUTPUT_BYTES DEFAULT_MAX_OUTPUT_BYTES;
            match getProp o "stdin" with
            | VUndefined =>
                Ok {| command := cmd; args := a; stdin := None;
                      timeoutMs := t; maxOutputBytes := m |}
            | VString s =>
                if negb (String.eqb s "") && (utf8ByteLength s >? MAX_STDIN_BYTES)%Z
                then Throw (ToolError INVALID_INPUT
                              ("stdin too large (>" +:+ numToString MAX_STDIN_BYTES
                                 +:+ " bytes)")
                              (VObject (<["maxStdinBytes" := VInt MAX_STDIN_BYTES]> ∅)))
                else Ok {| command := cmd; args := a; stdin := Some s;
                           timeoutMs := t; maxOutputBytes := m |}
            | _ => Throw (ToolError INVALID_INPUT "stdin must be a string" VUndefined)
            end
          else Throw (ToolError COMMAND_NOT_ALLOWED "command must be one of: git, npm, node"
                        (VObject (<["allowed" := VArray (map VString ALLOWED_COMMANDS)]> ∅)))
      | _ => Throw (ToolError COMMAND_NOT_ALLOWED "command must be one of: git, npm, node"
                      (VObject (<["allowed" := VArray (map VString ALLOWED_COMMANDS)]> ∅)))
      end
  | _ => Throw (ToolError INVALID_INPUT "arguments must be an object" VUndefined)
  end.

(** *** The byte-bounded collector *)

Inductive chunk :=
| BufferChunk (b : bytes)
| StringChunk (s : string).

Definition byteLength (b : bytes) : Z := Z.of_nat (length b).

(** The state captured by the closures of [createCollector(maxBytes)]. *)
Record Collector := {
  maxBytes : Z;
  chunks : list bytes;
  bytesSeen : Z;
  truncated : bool
}.

Definition createCollector (maxBytes : Z) : Collector :=
  {| maxBytes := maxBytes; chunks := []; bytesSeen := 0; truncated := false |}.

Definition onData (c : Collector) (ch : chunk) : Collector :=
  match ch with
  | StringChunk _ => c
  | BufferChunk b =>
      if (bytesSeen c >=? maxBytes c)%Z
      then {| maxBytes := maxBytes c; chunks := chunks c;
              bytesSeen := bytesSeen c; truncated := true |}
      else
        let remaining := (maxBytes c - bytesSeen c)%Z in
        if (byteLength b >? remaining)%Z
        then {| maxBytes := maxBytes c;
                chunks := chunks c ++ [firstn (Z.to_nat remaining) b];
                bytesSeen := maxBytes c; truncated := true |}
        else {| maxBytes := maxBytes c; chunks := chunks c ++ [b];
                bytesSeen := (bytesSeen c + byteLength b)%Z;
                truncated := truncated c |}
  end.

(** [Buffer.concat(chunks)], the bytes that [text()] decodes. *)
Definition collected (c : Collector) : bytes := concat (chunks c).

Definition stats (c : Collector) : Z * bool := (bytesSeen c, truncated c).

(** *** The process runner *)

(** What the runner does to the outside world, in order. *)
Inductive effect :=
| SpawnCall (command : string) (args : list string) (cwd : string)
| ProcessKill (pid : Z) (sig : string)
| ChildKill (sig : string)
| StdinWrite (s : string)
| StdinEnd
| SetTimeout (ms : Z)
| ClearTimeout
| AddAbortListener
| RemoveAbortListener.

(** What the outside world tells the runner once the child is set up, in the
    order the callbacks run. *)
Inductive notification :=
| TimerFired
| AbortFired
| StdoutData (ch : chunk)
| StderrData (ch : chunk)
| ChildError (message : string)
| ChildClose (code : option Z) (sig : option string).

Record Child := { pid : option Z }.

Record Platform := {
  (** [spawn(command, args, options)]: a child, or a synchronous throw. *)
  spawn : string -> list string -> result Child;
  (** whether [process.kill(pid, 'SIGKILL')] returns (true) or throws, given
      what has been done so far *)
  processKill : list effect -> Z -> bool;
  (** [buffer.toString('utf8')] *)
  decodeUtf8 : bytes -> string;
  (** the two readings of [Date.now()] *)
  startedAt : Z;
  finishedAt : Z
}.

(** [killProcessGroup(child)], as the effects it adds. An exception of
    [child.kill] is swallowed, so the fallback adds its call either way. *)
Definition killProcessGroup (P : Platform) (child : Child) (effs : list effect)
  : list effect :=
  match pid child with
  | None => effs
  | Some p =>
      if (p =? 0)%Z then effs
      else if processKill P effs (- p)%Z
      then effs ++ [ProcessKill (- p) "SIGKILL"]
      else effs ++ [ProcessKill (- p) "SIGKILL"; ChildKill "SIGKILL"]
  end.

Record ExecOutcome := {
  o_cwd : string;
  o_command : string;
  o_args : list string;
  o_exitCode : option Z;
  o_signal : option string;
  o_timedOut : bool;
  o_durationMs : Z;
  o_stdout : string;
  o_stderr : string;
  o_stdoutTruncated : bool;
  o_stderrTruncated : bool
}.

Definition outcomeToValue (o : ExecOutcome) : value :=
  VObject
    (<["cwd" := VString (o_cwd o)]>
    (<["command" := VString (o_command o)]>
    (<["args" := VArray (map VString (o_args o))]>
    (<["exitCode" := match o_exitCode o with Some c => VInt c | None => VNull end]>
    (<["signal" := match o_signal o with Some s => VString s | None => VNull end]>
    (<["timedOut" := VBool (o_timedOut o)]>
    (<["durationMs" := VInt (o_durationMs o)]>
    (<["stdout" := VString (o_stdout o)]>
    (<["stderr" := VString (o_stderr o)]>
    (<["stdoutTruncated" := VBool (o_stdoutTruncated o)]>
    (<["stderrTruncated" := VBool (o_stderrTruncated o)]> ∅))))))))))).

(** The variables of [runExecTool] that its callbacks read and write. *)
Record RunState := {
  stdoutCollector : Collector;
  stderrCollector : Collector;
  timedOut : bool;
  timerArmed : bool;
  abortListening : bool;
  effects : list effect
}.

(** The tail of [runExecTool], after the promise resolved with
    [{ code, signal: sig }]. *)
Definition finish (P : Platform) (input : ExecCommand) (hasSignal : bool)
    (st : RunState) (code : option Z) (sig : option string)
  : list effect * result ExecOutcome :=
  let effs := effects st ++ [ClearTimeout]
                ++ (if hasSignal then [RemoveAbortListener] else []) in
  let res :=
    {| o_cwd := WORKSPACE_CWD;
       o_command := command input;
       o_args := args input;
       o_exitCode := code;
       o_signal := sig;
       o_timedOut := timedOut st;
       o_durationMs := (finishedAt P - startedAt P)%Z;
       o_stdout := decodeUtf8 P (collected (stdoutCollector st));
       o_stderr := decodeUtf8 P (collected (stderrCollector st));
       o_stdoutTruncated := snd (stats (stdoutCollector st));
       o_stderrTruncated := snd (stats (stderrCollector st)) |} in
  if timedOut st
  then (effs, Throw (ToolError TIMEOUT
                       ("Process timed out after " +:+ numToString (timeoutMs input) +:+ "ms")
                       (outcomeToValue res)))
  else match code with
       | Some 0%Z => (effs, Ok res)
       | _ => (effs, Throw (ToolError NON_ZERO_EXIT "Process exited with non-zero status"
                              (outcomeToValue res)))
       end.

(** The callbacks, run in the order of the notifications, until the promise
    settles.  [None]: the notifications ended with the promise still
    pending, and the call never returns. *)
Fixpoint await (P : Platform) (input : ExecCommand) (hasSignal : bool)
    (child : Child) (st : RunState) (ns : list notification)
  : list effect * option (result ExecOutcome) :=
  match ns with
  | [] => (effects st, None)
  | n :: rest =>
      match n with
      | TimerFired =>
          if timerArmed st
          then await P input hasSignal child
                 {| stdoutCollector := stdoutCollector st;
                    stderrCollector := stderrCollector st;
                    timedOut := true;
                    timerArmed := false;
                    abortListening := abortListening st;
                    effects := killProcessGroup P child (effects st) |} rest
          else await P input hasSignal child st rest
      | AbortFired =>
          if abortListening st
          then await P input hasSignal child
                 {| stdoutCollector := stdoutCollector st;
                    stderrCollector := stderrCollector st;
                    timedOut := timedOut st;
                    timerArmed := timerArmed st;
                    abortListening := false;
                    effects := killProcessGroup P child (effects st) |} rest
          else await P input hasSignal child st rest
      | StdoutData ch =>
          await P input hasSignal child
            {| stdoutCollector := onData (stdoutCollector st) ch;
               stderrCollector := stderrCollector st;
               timedOut := timedOut st;
               timerArmed := timerArmed st;
               abortListening := abortListening st;
               effects := effects st |} rest
      | StderrData ch =>
          await P input hasSignal child
            {| stdoutCollector := stdoutCollector st;
               stderrCollector := onData (stderrCollector st) ch;
               timedOut := timedOut st;
               timerArmed := timerArmed st;
               abortListening := abortListening st;
               effects := effects st |} rest
      | ChildError message =>
          (effects st,
           Some (Throw (ToolError EXEC_FAILED "Process execution failed"
                          (VObject (<["message" := VString message]> ∅)))))
      | ChildClose code sig =>
          let '(effs, r) := finish P input hasSignal st code sig in
          (effs, Some r)
      end
  end.

(** [runExecTool(input, { signal })].  [signal] is [None] when the caller
    passed no signal, and [Some b] when it passed one whose [aborted] reads
    [b] at the check after the spawn. *)
Definition runExecTool (P : Platform) (input : ExecCommand) (signal : option bool)
    (ns : list notification)
  : list effect * option (result ExecOutcome) :=
  let effs0 := [SpawnCall (command input) (args input) WORKSPACE_CWD] in
  match spawn P (command input) (args input) with
  | Throw e =>
      (effs0,
       Some (Throw (ToolError SPAWN_FAILED "Failed to spawn process"
                      (VObject (<["message" :=
                                   VString match e with
                                           | ToolError _ m _ => m
                                           | OtherError m => m
                                           end]> ∅)))))
  | Ok child =>
      let effs1 := effs0 ++ [SetTimeout (timeoutMs input)] in
      match signal with
      | Some true =>
          (killProcessGroup P child (effs1 ++ [ClearTimeout]),
           Some (Throw (ToolError ABORTED "Request aborted" VUndefined)))
      | _ =>
          let hasSignal := match signal with Some _ => true | None => false end in
          let effs2 := effs1 ++ (if hasSignal then [AddAbortListener] else []) in
          let effs3 := effs2 ++ match stdin input with
                                | Some s => [StdinWrite s]
                                | None => []
                                end ++ [StdinEnd] in
          await P input hasSignal child
            {| stdoutCollector := createCollector (maxOutputBytes input);
               stderrCollector := createCollector (maxOutputBytes input);
               timedOut := false;
               timerArmed := true;
               abortListening := hasSignal;
               effects := effs3 |} ns
      end
  end.

End Exec.

(** * The result envelope (mcp/shared/mcp-result.mjs) *)

Definition kindName (k : error_kind) : string :=
  match k with
  | INVALID_INPUT => "INVALID_INPUT"
  | COMMAND_NOT_ALLOWED => "COMMAND_NOT_ALLOWED"
  | DISALLOWED_ARGUMENT => "DISALLOWED_ARGUMENT"
  | SPAWN_FAILED => "SPAWN_FAILED"
  | EXEC_FAILED => "EXEC_FAILED"
  | TIMEOUT => "TIMEOUT"
  | NON_ZERO_EXIT => "NON_ZERO_EXIT"
  | ABORTED => "ABORTED"
  | INVALID_URL => "INVALID_URL"
  | SSRF_BLOCKED => "SSRF_BLOCKED"
  | DNS_FAILED => "DNS_FAILED"
  | FETCH_FAILED => "FETCH_FAILED"
  | TOO_MANY_REDIRECTS => "TOO_MANY_REDIRECTS"
  | INTERNAL_ERROR => "INTERNAL_ERROR"
  | UNKNOWN_TOOL => "UNKNOWN_TOOL"
  end.

(** The object handed to [jsonText], with the [isError] flag of the
    envelope. *)
Record CallToolResult := {
  isError : bool;
  payload : value
}.

(** [{ ok: true, ...value }] *)
Definition okResult (v : value) : CallToolResult :=
  {| isError := false;
     payload := match v with
                | VObject m => VObject (m ∪ <["ok" := VBool true]> ∅)
                | _ => VObject (<["ok" := VBool true]> ∅)
                end |}.

Definition errorResult (code : error_kind) (message : string) (details : value)
  : CallToolResult :=
  let error :=
    match details with
    | VUndefined =>
        <["code" := VString (kindName code)]> (<["message" := VString message]> ∅)
    | _ =>
        <["code" := VString (kindName code)]>
          (<["message" := VString message]> (<["details" := details]> ∅))
    end in
  {| isError := true;
     payload := VObject (<["ok" := VBool false]> (<["error" := VObject error]> ∅)) |}.

(** The [catch] of both request handlers. *)
Definition caught (e : exn) : CallToolResult :=
  match e with
  | ToolError code message details => errorResult code message details
  | OtherError message => errorResult INTERNAL_ERROR message VUndefined
  end.

(** * The exec request handler (mcp/exec-server/index.mjs) *)

Module ExecServer.

Definition callTool (P : Exec.Platform) (name : string) (arguments : value)
    (signal : option bool) (ns : list Exec.notification)
  : list Exec.effect * option CallToolResult :=
  if negb (String.eqb name Exec.EXEC_TOOL_NAME)
  then ([], Some (errorResult UNKNOWN_TOOL ("Unknown tool: " +:+ name) VUndefined))
  else
    match Exec.parseExecToolInput arguments with
    | Throw e => ([], Some (caught e))
    | Ok input =>
        let '(effs, r) := Exec.runExecTool P input signal ns in
        (effs,
         match r with
         | None => None
         | Some (Ok out) => Some (okResult (Exec.outcomeToValue out))
         | Some (Throw e) => Some (caught e)
         end)
    end.

End ExecServer.

(** * The fetch core (mcp/fetch-server/core.mjs) *)

Module Fetch.

Definition FETCH_TOOL_NAME : string := "fetch".

Definition DEFAULT_TIMEOUT_MS : Z := 15000.
Definition MAX_TIMEOUT_MS : Z := 30000.
Definition DEFAULT_MAX_BYTES : Z := 500000.
Definition MAX_MAX_BYTES : Z := 1000000.
Definition DEFAULT_MAX_REDIRECTS : Z := 3.
Definition MAX_MAX_REDIRECTS : Z := 5.
Definition USER_AGENT : string := "LibreChat-MCP-Fetch/0.1".

Definition parseBoundedInt (v : value) (field : string) (min max defaultValue : Z)
  : result Z :=
  match v with
  | VUndefined => Ok defaultValue
  | VNumber (NumInt n) =>
      if ((n <? min) || (n >? max))%Z
      then Throw (ToolError INVALID_INPUT
                    (field +:+ " must be between " +:+ numToString min
                       +:+ " and " +:+ numToString max)
                    (VObject (<["field" := VString field]>
                               (<["min" := VInt min]> (<["max" := VInt max]> ∅)))))
      else Ok n
  | _ => Throw (ToolError INVALID_INPUT (field +:+ " must be an integer")
                  (VObject (<["field" := VString field]> ∅)))
  end.

Record FetchRequest := {
  url : string;
  timeoutMs : Z;
  maxBytes : Z;
  maxRedirects : Z
}.

Definition parseFetchToolInput (raw : value) : result FetchRequest :=
  match raw with
  | VObject o =>
      match getProp o "url" with
      | VString u =>
          if String.eqb u ""
          then Throw (ToolError INVALID_INPUT "url must be a non-empty string" VUndefined)
          else
            do t <- parseBoundedInt (getProp o "timeoutMs") "timeoutMs"
                      1 MAX_TIMEOUT_MS DEFAULT_TIMEOUT_MS;
            do b <- parseBoundedInt (getProp o "maxBytes") "maxBytes"
                      1024 MAX_MAX_BYTES DEFAULT_MAX_BYTES;
            do r <- parseBoundedInt (getProp o "maxRedirects") "maxRedirects"
                      0 MAX_MAX_REDIRECTS DEFAULT_MAX_REDIRECTS;
            Ok {| url := u; timeoutMs := t; maxBytes := b; maxRedirects := r |}
      | _ => Throw (ToolError INVALID_INPUT "url must be a non-empty string" VUndefined)
      end
  | _ => Throw (ToolError INVALID_INPUT "arguments must be an object" VUndefined)
  end.

(** *** Address arithmetic *)

Definition isDigit (c : ascii) : bool := Ascii.leb "0" c && Ascii.leb c "9".

(** /^[0-9]{1,3}$/.test(p) *)
Definition testOctet (p : string) : bool :=
  (1 <=? String.length p)%nat && (String.length p <=? 3)%nat && forallb_str isDigit p.

Definition digitValue (c : ascii) : Z := Z.of_nat (nat_of_ascii c) - 48.

(** [Number(p)] for a string of decimal digits. *)
Fixpoint numberOfDigits (p : string) (acc : Z) : Z :=
  match p with
  | EmptyString => acc
  | String c r => numberOfDigits r (10 * acc + digitValue c)
  end.

Fixpoint ipv4Loop (parts : list string) (v : Z) : option Z :=
  match parts with
  | [] => Some v
  | p :: rest =>
      if negb (testOctet p) then None
      else
        let n := numberOfDigits p 0 in
        if ((n <? 0) || (n >? 255))%Z then None
        else ipv4Loop rest (js_or (js_shl v 8) n)
  end.

(** [null] is [None]. *)
Definition ipv4ToInt (ip : string) : option Z :=
  let parts := split "." ip in
  if negb (length parts =? 4)%nat then None
  else
    match ipv4Loop parts 0 with
    | None => None
    | Some v => Some (js_ushr v 0)
    end.

Definition isLowerHexDigit (c : ascii) : bool :=
  (Ascii.leb "0" c && Ascii.leb c "9") || (Ascii.leb "a" c && Ascii.leb c "f").

(** /^[0-9a-f]{1,4}$/.test(h) *)
Definition testHextet (h : string) : bool :=
  (1 <=? String.length h)%nat && (String.length h <=? 4)%nat
  && forallb_str isLowerHexDigit h.

Definition hexDigitValue (c : ascii) : Z :=
  if isDigit c then Z.of_nat (nat_of_ascii c) - 48
  else Z.of_nat (nat_of_ascii c) - 87.

(** [parseInt(h, 16)] for a string of lower-case hexadecimal digits. *)
Fixpoint parseHex (h : string) (acc : Z) : Z :=
  match h with
  | EmptyString => acc
  | String c r => parseHex r (16 * acc + hexDigitValue c)
  end.

Definition invalidIPv6 : exn := ToolError INVALID_INPUT "Invalid IPv6 address" VUndefined.

(** [list.map(h => ...)] with the callback that throws on a bad group. *)
Fixpoint hextetNums (l : list string) : result (list Z) :=
  match l with
  | [] => Ok []
  | h :: rest =>
      if negb (testHextet h) then Throw invalidIPv6
      else do ns <- hextetNums rest; Ok (parseHex h 0 :: ns)
  end.

(** [raw ? raw.split(':').filter((s) => s.length > 0) : []]; [None] is
    [undefined]. *)
Definition groupsOf (raw : option string) : list string :=
  match raw with
  | None => []
  | Some r =>
      if String.eqb r "" then []
      else List.filter (fun x => negb (String.eqb x "")) (split ":" r)
  end.

(** [a[i] = v] on an array that may have holes ([None]); an index past the
    end extends the array. *)
Fixpoint arraySet (a : list (option Z)) (i : nat) (v : Z) : list (option Z) :=
  match i, a with
  | O, [] => [Some v]
  | O, _ :: t => Some v :: t
  | S k, [] => None :: arraySet [] k v
  | S k, h :: t => h :: arraySet t k v
  end.

(** The final loop; [BigInt(undefined)] throws a TypeError. *)
Fixpoint foldHextets (hs : list (option Z)) (acc : Z) : result Z :=
  match hs with
  | [] => Ok acc
  | Some h :: rest => foldHextets rest (Z.shiftl acc 16 + h)
  | None :: _ => Throw (OtherError "Cannot convert undefined to a BigInt")
  end.

Definition ipv6ToBigInt (ip : string) : result Z :=
  let input := toLowerCase ip in
  let ipv4Index := lastIndexOf input "." in
  let hasEmbeddedIpv4 := negb (ipv4Index =? -1)%Z in
  do '(left_, embeddedV4Hextets) <-
    (if hasEmbeddedIpv4 then
       let lastColon := lastIndexOf input ":" in
       let v4Part := sliceFrom input (lastColon + 1) in
       match ipv4ToInt v4Part with
       | None => Throw invalidIPv6
       | Some v4Int =>
           Ok (sliceTo input lastColon +:+ ":0:0",
               Some (js_and (js_ushr v4Int 16) 65535, js_and v4Int 65535))
       end
     else Ok (input, None));
  let pieces := split "::" left_ in
  let head := groupsOf (pieces !! 0%nat) in
  let tail := groupsOf (pieces !! 1%nat) in
  if negb (includes left_ "::") && negb (length head + length tail =? 8)%nat
  then Throw invalidIPv6
  else
    do headNums <- hextetNums head;
    do tailNums <- hextetNums tail;
    do hextets <-
      (if includes left_ "::" then
         let missing := (8 - Z.of_nat (length headNums + length tailNums))%Z in
         if (missing <? 0)%Z then Throw invalidIPv6
         else Ok (headNums ++ repeat 0%Z (Z.to_nat missing) ++ tailNums)
       else Ok (headNums ++ tailNums));
    let hextets' :=
      match embeddedV4Hextets with
      | Some (e0, e1) => arraySet (arraySet (map Some hextets) 6 e0) 7 e1
      | None => map Some hextets
      end in
    if negb (length hextets' =? 8)%nat then Throw invalidIPv6
    else foldHextets hextets' 0.

(** BigInt arithmetic is exact. *)
Definition ipv6InCidr (addr prefix bits : Z) : bool :=
  let shift := (128 - bits)%Z in
  (Z.shiftr addr shift =? Z.shiftr prefix shift)%Z.

(** The closures [inCidr] and [base] of the IPv4 branch. *)
Definition inCidr (v base maskBits : Z) : bool :=
  let mask := if (maskBits =? 0)%Z then 0%Z
              else js_shl (js_ushr (js_not 0) (32 - maskBits)) (32 - maskBits) in
  (js_and v mask =? js_and base mask)%Z.

Definition base (a b c d : Z) : Z :=
  js_ushr (js_or (js_or (js_or (js_shl a 24) (js_shl b 16)) (js_shl c 8)) d) 0.

Definition privateV4 (v : Z) : bool :=
  inCidr v (base 0 0 0 0) 8 ||
  inCidr v (base 10 0 0 0) 8 ||
  inCidr v (base 100 64 0 0) 10 ||
  inCidr v (base 127 0 0 0) 8 ||
  inCidr v (base 169 254 0 0) 16 ||
  inCidr v (base 172 16 0 0) 12 ||
  inCidr v (base 192 168 0 0) 16 ||
  inCidr v (base 192 0 0 0) 24 ||
  inCidr v (base 192 0 2 0) 24 ||
  inCidr v (base 198 18 0 0) 15 ||
  inCidr v (base 198 51 100 0) 24 ||
  inCidr v (base 203 0 113 0) 24 ||
  inCidr v (base 224 0 0 0) 4 ||
  inCidr v (base 240 0 0 0) 4.

Definition fc00 : Z := 0xfc000000000000000000000000000000.
Definition fe80 : Z := 0xfe800000000000000000000000000000.
Definition ff00 : Z := 0xff000000000000000000000000000000.
Definition doc : Z := 0x20010db8000000000000000000000000.

(** The template literal that prints the embedded IPv4 address. *)
Definition ip4OfNumber (v4 : Z) : string :=
  numToString (js_and (js_ushr v4 24) 255) +:+ "." +:+
  numToString (js_and (js_ushr v4 16) 255) +:+ "." +:+
  numToString (js_and (js_ushr v4 8) 255) +:+ "." +:+
  numToString (js_and v4 255).

(** [isPrivateIp] calls itself on the address embedded in an IPv4-mapped
    one; [fuel] bounds the depth of the calls, [None] is fuel exhausted. *)
Fixpoint isPrivateIpFuel (fuel : nat) (ip : string) : option (result bool) :=
  match fuel with
  | O => None
  | S fuel' =>
      let version := Net.isIP ip in
      if (version =? 4)%Z then
        match ipv4ToInt ip with
        | None => Some (Ok true)
        | Some v => Some (Ok (privateV4 v))
        end
      else if (version =? 6)%Z then
        match ipv6ToBigInt ip with
        | Throw e => Some (Throw e)
        | Ok addr =>
            if ((addr =? 0) || (addr =? 1))%Z then Some (Ok true)
            else if (Z.shiftr addr 32 =? 65535)%Z then
              let v4 := Z.land addr 4294967295 in
              isPrivateIpFuel fuel' (ip4OfNumber v4)
            else
              Some (Ok (ipv6InCidr addr fc00 7 ||
                        ipv6InCidr addr fe80 10 ||
                        ipv6InCidr addr ff00 8 ||
                        ipv6InCidr addr doc 32))
        end
      else Some (Ok true)
  end.

(** Two levels of calls always suffice (see [isPrivateIpFuel_enough]); the
    last branch is what unbounded recursion would end in. *)
Definition isPrivateIp (ip : string) : result bool :=
  match isPrivateIpFuel 2 ip with
  | Some r => r
  | None => Throw (OtherError "Maximum call stack size exceeded")
  end.

(** *** Network policy *)

(** [hostname.replace(/\.$/, '').toLowerCase()] *)
Definition normalizeHostname (hostname : string) : string :=
  toLowerCase (if endsWith hostname "." then sliceTo hostname (-1) else hostname).

Definition isBlockedHostname (hostname : string) : bool :=
  let h := normalizeHostname hostname in
  if String.eqb h "localhost" then true
  else endsWith h ".local" || endsWith h ".internal".

(** The fields of a parsed URL that the code reads; [href] is what
    [toString()] returns. *)
Record URL := {
  protocol : string;
  username : string;
  password : string;
  hostname : string;
  href : string
}.

(** What one [reader.read()] after the other yields. *)
Inductive BodyStream :=
| ReadDone
| ReadValue (v : option bytes) (rest : BodyStream)
| ReadFails (message : string).

Record Response := {
  status : Z;
  statusText : string;
  ok : bool;
  (** [headers.entries()], names in lower case *)
  headers : list (string * string);
  body : option BodyStream
}.

(** What the fetcher does to the network, in order, each call with what it
    answered; [PolicyPassed] marks a return of [assertUrlAllowed]. *)
Inductive event :=
| DnsLookup (hostname : string) (answer : result (list string))
| PolicyPassed (urlString : string) (u : URL)
| HttpGet (url : string) (answer : result Response).

(** The platform, over a type [W] of states of the outside world. *)
Record Platform (W : Type) := {
  (** [new URL(s)]; [None] when it throws *)
  parseURL : string -> option URL;
  (** [new URL(location, base)] *)
  resolveURL : string -> URL -> option URL;
  (** [lookup(hostname, { all: true, verbatim: true })]: the addresses, or
      a rejection with its message *)
  lookup : string -> W -> W * result (list string);
  (** [fetchImpl(url, { method: 'GET', redirect: 'manual', ... })], absent
      when [typeof fetchImpl !== 'function'] *)
  fetchImpl : option (string -> W -> W * result Response);
  (** [signal.aborted], absent when no signal was passed *)
  signalAborted : option (W -> bool);
  (** [TextDecoder('utf-8')] over the whole input *)
  decodeUtf8 : bytes -> string
}.
Arguments parseURL {W} _ _.
Arguments resolveURL {W} _ _ _.
Arguments lookup {W} _ _ _.
Arguments fetchImpl {W} _.
Arguments signalAborted {W} _.
Arguments decodeUtf8 {W} _ _.

(** Computations that read and change the world, log events and may
    throw. *)
Definition M (W A : Type) : Type := W * list event -> (W * list event) * result A.

Definition ret {W A} (a : A) : M W A := fun st => (st, Ok a).
Definition throw {W A} (e : exn) : M W A := fun st => (st, Throw e).
Definition bind {W A B} (m : M W A) (k : A -> M W B) : M W B :=
  fun st =>
    match m st with
    | (st', Ok a) => k a st'
    | (st', Throw e) => (st', Throw e)
    end.
Definition emit {W} (e : event) : M W unit :=
  fun st => ((fst st, snd st ++ [e]), Ok tt).
Definition lift {W A} (r : result A) : M W A := fun st => (st, r).

Notation "'run' x <- m ; k" := (bind m (fun x => k))
  (at level 10, x name, m at level 100, k at level 200).

(** The loop over the resolved addresses. *)
Fixpoint checkAddrs (hostname : string) (addrs : list string) : result unit :=
  match addrs with
  | [] => Ok tt
  | a :: rest =>
      do b <- isPrivateIp a;
      if b : bool
      then Throw (ToolError SSRF_BLOCKED "Blocked resolved IP address"
                    (VObject (<["hostname" := VString hostname]>
                               (<["address" := VString a]> ∅))))
      else checkAddrs hostname rest
  end.

Definition assertUrlAllowed {W} (P : Platform W) (urlString : string) : M W URL :=
  match parseURL P urlString with
  | None => throw (ToolError INVALID_URL "Invalid URL" VUndefined)
  | Some u =>
      if negb (String.eqb (protocol u) "http:") && negb (String.eqb (protocol u) "https:")
      then throw (ToolError INVALID_URL "Only http:// and https:// URLs are allowed"
                    (VObject (<["protocol" := VString (protocol u)]> ∅)))
      else if negb (String.eqb (username u) "") || negb (String.eqb (password u) "")
      then throw (ToolError INVALID_URL "Userinfo in URL is not allowed" VUndefined)
      else if String.eqb (hostname u) ""
      then throw (ToolError INVALID_URL "URL hostname is required" VUndefined)
      else if isBlockedHostname (hostname u)
      then throw (ToolError SSRF_BLOCKED "Blocked hostname"
                    (VObject (<["hostname" := VString (hostname u)]> ∅)))
      else if negb (Net.isIP (hostname u) =? 0)%Z
      then
        run b <- lift (isPrivateIp (hostname u));
        if b : bool
        then throw (ToolError SSRF_BLOCKED "Blocked IP address"
                      (VObject (<["host" := VString (hostname u)]> ∅)))
        else run _ <- emit (PolicyPassed urlString u); ret u
      else
        run addrs <-
          (fun st =>
             match lookup P (hostname u) (fst st) with
             | (w', Ok addrs) =>
                 ((w', snd st ++ [DnsLookup (hostname u) (Ok addrs)]), Ok addrs)
             | (w', Throw e) =>
                 ((w', snd st ++ [DnsLookup (hostname u) (Throw e)]),
                  Throw (ToolError DNS_FAILED "DNS lookup failed"
                           (VObject (<["hostname" := VString (hostname u)]>
                                      (<["message" :=
                                          VString match e with
                                                  | ToolError _ m _ => m
                                                  | OtherError m => m
                                                  end]> ∅)))))
             end);
        run _ <- lift (checkAddrs (hostname u) addrs);
        run _ <- emit (PolicyPassed urlString u);
        ret u
  end.

(** *** The body reader *)

Record BodyRead := {
  r_kept : bytes;
  r_truncated : bool;
  r_bytesRead : Z
}.

(** The [while (true)] loop of [readBodyText]; [kept] is the input of the
    decoder so far. *)
Fixpoint readLoop (maxBytes : Z) (s : BodyStream) (kept : bytes)
    (truncated : bool) (bytesRead : Z) : result BodyRead :=
  match s with
  | ReadDone =>
      Ok {| r_kept := kept; r_truncated := truncated; r_bytesRead := bytesRead |}
  | ReadFails message => Throw (OtherError message)
  | ReadValue None rest => readLoop maxBytes rest kept truncated bytesRead
  | ReadValue (Some v) rest =>
      let remaining := (maxBytes - bytesRead)%Z in
      if (remaining <=? 0)%Z
      then Ok {| r_kept := kept; r_truncated := true; r_bytesRead := bytesRead |}
      else if (Exec.byteLength v >? remaining)%Z
      then Ok {| r_kept := kept ++ firstn (Z.to_nat remaining) v;
                 r_truncated := true;
                 r_bytesRead := (bytesRead + remaining)%Z |}
      else readLoop maxBytes rest (kept ++ v) truncated
             (bytesRead + Exec.byteLength v)%Z
  end.

Record BodyText := {
  t_body : string;
  t_truncated : bool;
  t_bytesRead : Z
}.

(** The pieces decoded in streaming mode and the final flush add up to the
    decoding of the bytes kept. *)
Definition readBodyText {W} (P : Platform W) (response : Response) (maxBytes : Z)
  : result BodyText :=
  match body response with
  | None => Ok {| t_body := ""; t_truncated := false; t_bytesRead := 0 |}
  | Some s =>
      do r <- readLoop maxBytes s [] false 0;
      Ok {| t_body := decodeUtf8 P (r_kept r);
            t_truncated := r_truncated r;
            t_bytesRead := r_bytesRead r |}
  end.

(** *** The guarded redirect fetcher *)

Definition isRedirectStatus (status : Z) : bool :=
  ((status =? 301) || (status =? 302) || (status =? 303)
   || (status =? 307) || (status =? 308))%Z.

(** [out[k.toLowerCase()] = v] on the object literal [out]: the key
    __proto__ is the accessor that [out] inherits from [Object.prototype],
    whose setter ignores a string, so that nothing is stored under it;
    every other key becomes, or overwrites, an own property. *)
Definition headersToRecord (headers : list (string * string)) : gmap string string :=
  fold_left (fun out kv =>
               let k := toLowerCase (fst kv) in
               if String.eqb k "__proto__" then out else <[k := snd kv]> out)
    headers ∅.

(** [headers.get(name)]; [null] is [None]. *)
Definition headersGet (headers : list (string * string)) (name : string)
  : option string :=
  match find (fun kv => String.eqb (fst kv) name) headers with
  | Some kv => Some (snd kv)
  | None => None
  end.

Record FetchOutcome := {
  f_url : string;
  f_status : Z;
  f_statusText : string;
  f_ok : bool;
  f_headers : gmap string string;
  f_body : string;
  f_truncated : bool;
  f_bytesRead : Z;
  f_redirects : list (Z * string)
}.

(** One call of the transport. A rejection, whether by the timeout, by the
    caller's signal or by the network, is a FETCH_FAILED. *)
Definition httpGet {W} (fetchFn : string -> W -> W * result Response)
    (target : string) : M W Response :=
  fun st =>
    match fetchFn target (fst st) with
    | (w', Ok response) =>
        ((w', snd st ++ [HttpGet target (Ok response)]), Ok response)
    | (w', Throw e) =>
        ((w', snd st ++ [HttpGet target (Throw e)]),
         Throw (ToolError FETCH_FAILED "Fetch failed"
                  (VObject (<["message" :=
                               VString match e with
                                       | ToolError _ m _ => m
                                       | OtherError m => m
                                       end]>
                             (<["url" := VString target]> ∅)))))
    end.

(** [if (signal) { if (signal.aborted) throw ... }] *)
Definition checkSignal {W} (P : Platform W) : M W unit :=
  fun st =>
    match signalAborted P with
    | Some aborted =>
        if aborted (fst st)
        then (st, Throw (ToolError ABORTED "Request aborted" VUndefined))
        else (st, Ok tt)
    | None => (st, Ok tt)
    end.

Definition redirectsToValue (redirects : list (Z * string)) : value :=
  VArray (map (fun r => VObject (<["status" := VInt (fst r)]>
                                   (<["location" := VString (snd r)]> ∅)))
            redirects).

(** The [for] loop of [fetchWithGuards]: [n] iterations remain. *)
Fixpoint fetchLoop {W} (P : Platform W)
    (fetchFn : string -> W -> W * result Response) (input : FetchRequest)
    (n : nat) (current : string) (redirects : list (Z * string))
  : M W FetchOutcome :=
  match n with
  | O =>
      throw (ToolError TOO_MANY_REDIRECTS "Too many redirects"
               (VObject (<["maxRedirects" := VInt (maxRedirects input)]>
                          (<["redirects" := redirectsToValue redirects]> ∅))))
  | S n' =>
      run allowedUrl <- assertUrlAllowed P current;
      run _ <- checkSignal P;
      run response <- httpGet fetchFn (href allowedUrl);
      if isRedirectStatus (status response) then
        match headersGet (headers response) "location" with
        | None =>
            throw (ToolError FETCH_FAILED "Redirect response missing Location header"
                     (VObject (<["status" := VInt (status response)]> ∅)))
        | Some location =>
            if String.eqb location ""
            then throw (ToolError FETCH_FAILED "Redirect response missing Location header"
                          (VObject (<["status" := VInt (status response)]> ∅)))
            else
              match resolveURL P location allowedUrl with
              | None => throw (OtherError "Invalid URL")
              | Some nextUrl =>
                  let next := href nextUrl in
                  fetchLoop P fetchFn input n' next
                    (redirects ++ [(status response, next)])
              end
        end
      else
        run t <- lift (readBodyText P response (maxBytes input));
        ret {| f_url := href allowedUrl;
               f_status := status response;
               f_statusText := statusText response;
               f_ok := ok response;
               f_headers := headersToRecord (headers response);
               f_body := t_body t;
               f_truncated := t_truncated t;
               f_bytesRead := t_bytesRead t;
               f_redirects := redirects |}
  end.

Definition fetchWithGuards {W} (P : Platform W) (input : FetchRequest)
  : M W FetchOutcome :=
  match fetchImpl P with
  | None => throw (ToolError INTERNAL_ERROR "fetch is not available in this runtime"
                     VUndefined)
  | Some fetchFn =>
      fetchLoop P fetchFn input (Z.to_nat (maxRedirects input + 1)) (url input) []
  end.

End Fetch.

(** * The fetch request handler (mcp/fetch-server/index.mjs) *)

Module FetchServer.

(** The object that [fetchWithGuards] returns, as [okResult] spreads it. *)
Definition outcomeToValue (o : Fetch.FetchOutcome) : value :=
  VObject
    (<["url" := VString (Fetch.f_url o)]>
    (<["status" := VInt (Fetch.f_status o)]>
    (<["statusText" := VString (Fetch.f_statusText o)]>
    (<["ok" := VBool (Fetch.f_ok o)]>
    (<["headers" := VObject (VString <$> Fetch.f_headers o)]>
    (<["body" := VString (Fetch.f_body o)]>
    (<["truncated" := VBool (Fetch.f_truncated o)]>
    (<["bytesRead" := VInt (Fetch.f_bytesRead o)]>
    (<["redirects" := Fetch.redirectsToValue (Fetch.f_redirects o)]> ∅))))))))).

(** The handler of a tool call: the answer, and what the call did to the
    world and the trace. The caller's signal is the one of the platform. *)
Definition callTool {W} (P : Fetch.Platform W) (name : string) (arguments : value)
    (st : W * list Fetch.event) : (W * list Fetch.event) * CallToolResult :=
  if negb (String.eqb name Fetch.FETCH_TOOL_NAME)
  then (st, errorResult UNKNOWN_TOOL ("Unknown tool: " +:+ name) VUndefined)
  else
    match Fetch.parseFetchToolInput arguments with
    | Throw e => (st, caught e)
    | Ok input =>
        match Fetch.fetchWithGuards P input st with
        | (st', Ok out) => (st', okResult (outcomeToValue out))
        | (st', Throw e) => (st', caught e)
        end
    end.

End FetchServer.

(** * Specification-side definitions *)

(** A request object, written as its list of fields. *)
Definition obj (l : list (string * value)) : value := VObject (list_to_map l).

(** The recognized fields of the two parsers. *)
Definition execFields : list string :=
  ["command"; "args"; "stdin"; "timeoutMs"; "maxOutputBytes"].
Definition fetchFields : list string :=
  ["url"; "timeoutMs"; "maxBytes"; "maxRedirects"].

(** The git arguments of the specification: -C, -C<path>, --git-dir,
    --git-dir=..., --work-tree, --work-tree=... *)
Definition gitDisallowed (a : string) : Prop :=
  a = "-C"
  \/ (exists path, path <> "" /\ a = "-C" +:+ path)
  \/ a = "--git-dir"
  \/ (exists v, a = "--git-dir=" +:+ v)
  \/ a = "--work-tree"
  \/ (exists v, a = "--work-tree=" +:+ v).

(** The one-token npm arguments of the specification: --prefix,
    --prefix=..., -g, --global, --location=global. *)
Definition npmDisallowed (a : string) : Prop :=
  a = "--prefix"
  \/ (exists v, a = "--prefix=" +:+ v)
  \/ a = "-g"
  \/ a = "--global"
  \/ a = "--location=global".

(** The two-token sequence --location global somewhere in the list. *)
Definition hasLocationGlobal (args : list string) : Prop :=
  exists pre post, args = pre ++ "--location" :: "global" :: post.


(** A platform to run the exec model on: spawn gives child 4242, killing
    works, bytes decode as Latin-1. *)
Definition sampleExecPlatform : Exec.Platform :=
  {| Exec.spawn := fun _ _ => Ok {| Exec.pid := Some 4242%Z |};
     Exec.processKill := fun _ _ => true;
     Exec.decodeUtf8 := fun b => string_of_list_ascii (map ascii_of_byte b);
     Exec.startedAt := 1000;
     Exec.finishedAt := 1250 |}.


(** The bytes a sequence of data notifications carries, in order. *)
Fixpoint bufferBytes (chs : list Exec.chunk) : bytes :=
  match chs with
  | [] => []
  | Exec.BufferChunk b :: rest => b ++ bufferBytes rest
  | Exec.StringChunk _ :: rest => bufferBytes rest
  end.

(** A collector of the given cap after the chunks arrived. *)
Definition feed (cap : Z) (chs : list Exec.chunk) : Exec.Collector :=
  fold_left Exec.onData chs (Exec.createCollector cap).

Definition nonEmptyChunk (ch : Exec.chunk) : Prop :=
  match ch with
  | Exec.BufferChunk b => b <> []
  | Exec.StringChunk _ => True
  end.

(** The bytes of a response body, whether or not they are all read. *)
Fixpoint streamBytes (s : Fetch.BodyStream) : bytes :=
  match s with
  | Fetch.ReadDone => []
  | Fetch.ReadValue (Some v) rest => v ++ streamBytes rest
  | Fetch.ReadValue None rest => streamBytes rest
  | Fetch.ReadFails _ => []
  end.

Fixpoint nonEmptyStream (s : Fetch.BodyStream) : Prop :=
  match s with
  | Fetch.ReadValue (Some v) rest => v <> [] /\ nonEmptyStream rest
  | Fetch.ReadValue None rest => nonEmptyStream rest
  | _ => True
  end.


(** Notifications other than the timer and the settling of the promise. *)
Definition calm (n : Exec.notification) : Prop :=
  match n with
  | Exec.AbortFired | Exec.StdoutData _ | Exec.StderrData _ => True
  | _ => False
  end.

Definition sampleCommand : Exec.ExecCommand :=
  {| Exec.command := "node"; Exec.args := ["-v"]; Exec.stdin := None;
     Exec.timeoutMs := 60000; Exec.maxOutputBytes := 200000 |}.


(** The checks of the network policy that do not involve addresses. *)
Definition staticallyAllowed {W} (P : Fetch.Platform W) (urlString : string)
    (u : Fetch.URL) : Prop :=
  Fetch.parseURL P urlString = Some u
  /\ (Fetch.protocol u = "http:" \/ Fetch.protocol u = "https:")
  /\ Fetch.username u = ""
  /\ Fetch.password u = ""
  /\ Fetch.hostname u <> ""
  /\ Fetch.isBlockedHostname (Fetch.hostname u) = false.

(** A URL that reaches the resolver: its host is not a literal address. *)
Definition nonLiteralHost {W} (P : Fetch.Platform W) (urlString : string)
    (u : Fetch.URL) : Prop :=
  staticallyAllowed P urlString u /\ Net.isIP (Fetch.hostname u) = 0%Z.

(** The addresses the classifier gives an answer for. *)
Definition classified (a : string) : Prop := exists b, Fetch.isPrivateIp a = Ok b.

Definition allPublic (addrs : list string) : Prop :=
  Forall (fun a => Fetch.isPrivateIp a = Ok false) addrs.

(** [u], parsed from [urlString], passed the policy, the trace [before]
    being what happened until then: a literal address outside the tables,
    or a name the resolver was just asked about and whose addresses are
    all outside the tables. *)
Definition passedPolicy {W} (P : Fetch.Platform W) (urlString : string)
    (u : Fetch.URL) (before : list Fetch.event) : Prop :=
  staticallyAllowed P urlString u
  /\ ((Net.isIP (Fetch.hostname u) <> 0%Z
       /\ Fetch.isPrivateIp (Fetch.hostname u) = Ok false)
      \/ (Net.isIP (Fetch.hostname u) = 0%Z
          /\ exists before' addrs,
              before = before' ++ [Fetch.DnsLookup (Fetch.hostname u) (Ok addrs)]
              /\ allPublic addrs)).

(** Events among which there is no request. *)
Definition noRequest (evs : list Fetch.event) : Prop :=
  forall target answer, ~ In (Fetch.HttpGet target answer) evs.

(** Where the target [urlString] of a validation comes from, the trace
    [before] being what happened until the validation passed: it is the
    URL of the request, [start], when no request was made yet; otherwise
    the last request was answered by a redirect, and the target is its
    Location resolved against the URL that request went to. *)
Definition origin {W} (P : Fetch.Platform W) (start : string)
    (before : list Fetch.event) (urlString : string) : Prop :=
  (noRequest before /\ urlString = start)
  \/ exists pre0 us0 u0 response mid location nextUrl,
       before = pre0 ++ [Fetch.PolicyPassed us0 u0;
                         Fetch.HttpGet (Fetch.href u0) (Ok response)] ++ mid
       /\ noRequest mid
       /\ Fetch.isRedirectStatus (Fetch.status response) = true
       /\ Fetch.headersGet (Fetch.headers response) "location" = Some location
       /\ location <> ""
       /\ Fetch.resolveURL P location u0 = Some nextUrl
       /\ urlString = Fetch.href nextUrl.

(** Every request of a trace goes to the URL whose validation is the event
    just before it, and what was validated is the initial URL or the
    target of the redirect that the request before answered with. *)
Definition everyRequestValidated {W} (P : Fetch.Platform W) (start : string)
    (tr : list Fetch.event) : Prop :=
  forall pre target answer post,
    tr = pre ++ Fetch.HttpGet target answer :: post ->
    exists pre' urlString u,
      pre = pre' ++ [Fetch.PolicyPassed urlString u]
      /\ target = Fetch.href u
      /\ passedPolicy P urlString u pre'
      /\ origin P start pre' urlString.

(** A platform to run the fetch model on; the world counts the calls
    made. A public page redirects to a private address, a name resolves to
    a public decoy followed by a private address. *)
Definition sampleURL (scheme host rest : string) : Fetch.URL :=
  {| Fetch.protocol := scheme; Fetch.username := ""; Fetch.password := "";
     Fetch.hostname := host; Fetch.href := scheme +:+ "//" +:+ host +:+ rest |}.

Definition sampleParse (s : string) : option Fetch.URL :=
  if String.eqb s "http://public.example/start"
  then Some (sampleURL "http:" "public.example" "/start")
  else if String.eqb s "http://10.0.0.1/admin"
  then Some (sampleURL "http:" "10.0.0.1" "/admin")
  else if String.eqb s "https://example.com/"
  then Some (sampleURL "https:" "example.com" "/")
  else if String.eqb s "http://decoy.example/"
  then Some (sampleURL "http:" "decoy.example" "/")
  else if String.eqb s "http://gone.example/"
  then Some (sampleURL "http:" "gone.example" "/")
  else None.

Definition sampleResponse (status : Z) (headers : list (string * string))
    (body : bytes) : Fetch.Response :=
  {| Fetch.status := status; Fetch.statusText := "";
     Fetch.ok := ((200 <=? status) && (status <=? 299))%Z;
     Fetch.headers := headers;
     Fetch.body := Some (Fetch.ReadValue (Some body) Fetch.ReadDone) |}.

Definition sampleFetchPlatform : Fetch.Platform nat :=
  {| Fetch.parseURL := sampleParse;
     Fetch.resolveURL := fun location _ => sampleParse location;
     Fetch.lookup := fun host w =>
       (S w,
        if String.eqb host "public.example" then Ok ["93.184.216.34"]
        else if String.eqb host "example.com" then Ok ["93.184.216.34"]
        else if String.eqb host "decoy.example" then Ok ["93.184.216.34"; "10.0.0.1"]
        else Throw (OtherError "getaddrinfo ENOTFOUND"));
     Fetch.fetchImpl := Some (fun target w =>
       (S w,
        if String.eqb target "http://public.example/start"
        then Ok (sampleResponse 302 [("location", "http://10.0.0.1/admin")] [])
        else if String.eqb target "https://example.com/"
        then Ok (sampleResponse 200 [("content-type", "text/html")]
                   [Byte.x45; Byte.x78; Byte.x61; Byte.x6d; Byte.x70; Byte.x6c; Byte.x65])
        else Throw (OtherError "fetch failed")));
     Fetch.signalAborted := None;
     Fetch.decodeUtf8 := fun b => string_of_list_ascii (map ascii_of_byte b) |}.

Definition sampleRequest (u : string) : Fetch.FetchRequest :=
  {| Fetch.url := u; Fetch.timeoutMs := 15000; Fetch.maxBytes := 500000;
     Fetch.maxRedirects := 3 |}.


(** The address a.b.c.d and its text. *)
Definition v4num (a b c d : Z) : Z := (a * 2 ^ 24 + b * 2 ^ 16 + c * 2 ^ 8 + d)%Z.

Definition dotted (a b c d : Z) : string :=
  numToString a +:+ "." +:+ numToString b +:+ "." +:+ numToString c +:+ "."
    +:+ numToString d.

Definition octet (n : Z) : Prop := (0 <= n <= 255)%Z.

(** The block base/len of the 32-bit addresses: the addresses from base to
    base + 2^(32 - len) - 1. *)
Definition inBlock4 (base len v : Z) : bool :=
  ((base <=? v) && (v <? base + 2 ^ (32 - len)))%Z.

(** The IPv4 table of the specification. *)
Definition specPrivateV4 (v : Z) : bool :=
  inBlock4 (v4num 0 0 0 0) 8 v
  || inBlock4 (v4num 10 0 0 0) 8 v
  || inBlock4 (v4num 100 64 0 0) 10 v
  || inBlock4 (v4num 127 0 0 0) 8 v
  || inBlock4 (v4num 169 254 0 0) 16 v
  || inBlock4 (v4num 172 16 0 0) 12 v
  || inBlock4 (v4num 192 168 0 0) 16 v
  || inBlock4 (v4num 192 0 0 0) 24 v
  || inBlock4 (v4num 192 0 2 0) 24 v
  || inBlock4 (v4num 198 18 0 0) 15 v
  || inBlock4 (v4num 198 51 100 0) 24 v
  || inBlock4 (v4num 203 0 113 0) 24 v
  || inBlock4 (v4num 224 0 0 0) 4 v
  || inBlock4 (v4num 240 0 0 0) 4 v.

(** The address of eight 16-bit groups, most significant first. *)
Definition v6num (hs : list Z) : Z :=
  fold_left (fun acc h => (acc * 2 ^ 16 + h)%Z) hs 0%Z.

Definition inBlock6 (base len v : Z) : bool :=
  ((base <=? v) && (v <? base + 2 ^ (128 - len)))%Z.

(** The IPv6 table of the specification: the unspecified address, the
    loopback, fc00::/7, fe80::/10, ff00::/8, 2001:db8::/32, and the
    IPv4-mapped addresses ::ffff:a.b.c.d whose a.b.c.d is in the IPv4
    table. *)
Definition specPrivateV6 (v : Z) : bool :=
  (v =? 0)%Z
  || (v =? 1)%Z
  || inBlock6 (v6num [0xfc00; 0; 0; 0; 0; 0; 0; 0]%Z) 7 v
  || inBlock6 (v6num [0xfe80; 0; 0; 0; 0; 0; 0; 0]%Z) 10 v
  || inBlock6 (v6num [0xff00; 0; 0; 0; 0; 0; 0; 0]%Z) 8 v
  || inBlock6 (v6num [0x2001; 0x0db8; 0; 0; 0; 0; 0; 0]%Z) 32 v
  || (inBlock6 (v6num [0; 0; 0; 0; 0; 0xffff; 0; 0]%Z) 96 v
      && specPrivateV4 (v - v6num [0; 0; 0; 0; 0; 0xffff; 0; 0]%Z)).


(** The language of a regular expression. *)
Fixpoint den (r : Net.regex) (s : string) : Prop :=
  match r with
  | Net.Void => False
  | Net.Eps => s = ""
  | Net.Class p => exists c, s = String c "" /\ p c = true
  | Net.Cat a b => exists s1 s2, s = s1 +:+ s2 /\ den a s1 /\ den b s2
  | Net.Alt a b => den a s \/ den b s
  end.

(** A character that is no separator and that [toLowerCase] keeps. *)
Definition plainChar (c : ascii) : bool :=
  negb (Ascii.eqb c ".") && negb (Ascii.eqb c ":") && negb (Ascii.eqb c "%")
  && Ascii.eqb (lowerChar c) c.

(** What is known of the text of every octet. *)
Definition octetText (n : Z) : bool :=
  Fetch.testOctet (numToString n)
  && (Fetch.numberOfDigits (numToString n) 0 =? n)%Z
  && forallb_str plainChar (numToString n)
  && negb (String.eqb (numToString n) "")
  && Net.matches Net.v4Seg (numToString n).


(** *** IPv6 addresses in text (RFC 4291, section 2.2) *)

(** The value of a hexadecimal digit, in either case. *)
Definition hexVal (c : ascii) : option Z :=
  let n := Z.of_nat (nat_of_ascii c) in
  if ((48 <=? n) && (n <=? 57))%Z then Some (n - 48)%Z
  else if ((97 <=? n) && (n <=? 102))%Z then Some (n - 87)%Z
  else if ((65 <=? n) && (n <=? 70))%Z then Some (n - 55)%Z
  else None.

(** A group: one to four hexadecimal digits. *)
Definition isGroup (g : string) : Prop :=
  (1 <= String.length g <= 4)%nat
  /\ forallb_str (fun c => match hexVal c with Some _ => true | None => false end) g = true.

Fixpoint groupValueFrom (g : string) (acc : Z) : Z :=
  match g with
  | EmptyString => acc
  | String c r =>
      groupValueFrom r (16 * acc + match hexVal c with Some v => v | None => 0 end)%Z
  end.

Definition groupValue (g : string) : Z := groupValueFrom g 0.

(** Groups written one after the other, a colon between two of them. *)
Fixpoint joinColon (gs : list string) : string :=
  match gs with
  | [] => ""
  | g :: rest =>
      match rest with
      | [] => g
      | _ :: _ => g +:+ ":" +:+ joinColon rest
      end
  end.

(** The text forms: eight groups; groups around one "::" that stands for
    the groups of zeros left out; and both with the last two groups
    written as a dotted quad. *)
Inductive V6Text :=
| Plain (gs : list string)
| Elided (hs ts : list string)
| PlainV4 (gs : list string) (a b c d : Z)
| ElidedV4 (hs ts : list string) (a b c d : Z).

Definition renderV6 (x : V6Text) : string :=
  match x with
  | Plain gs => joinColon gs
  | Elided hs ts => joinColon hs +:+ "::" +:+ joinColon ts
  | PlainV4 gs a b c d => joinColon gs +:+ ":" +:+ dotted a b c d
  | ElidedV4 hs ts a b c d => joinColon hs +:+ "::" +:+ joinColon (ts ++ [dotted a b c d])
  end.

Definition wellFormedV6 (x : V6Text) : Prop :=
  match x with
  | Plain gs => Forall isGroup gs /\ length gs = 8%nat
  | Elided hs ts =>
      Forall isGroup hs /\ Forall isGroup ts /\ (length hs + length ts <= 7)%nat
  | PlainV4 gs a b c d =>
      Forall isGroup gs /\ length gs = 6%nat
      /\ octet a /\ octet b /\ octet c /\ octet d
  | ElidedV4 hs ts a b c d =>
      Forall isGroup hs /\ Forall isGroup ts /\ (length hs + length ts <= 5)%nat
      /\ octet a /\ octet b /\ octet c /\ octet d
  end.

(** The eight 16-bit groups a text stands for. *)
Definition hextetsOf (x : V6Text) : list Z :=
  match x with
  | Plain gs => map groupValue gs
  | Elided hs ts =>
      map groupValue hs ++ repeat 0%Z (8 - length hs - length ts) ++ map groupValue ts
  | PlainV4 gs a b c d =>
      map groupValue gs ++ [a * 256 + b; c * 256 + d]%Z
  | ElidedV4 hs ts a b c d =>
      map groupValue hs ++ repeat 0%Z (6 - length hs - length ts)
        ++ map groupValue ts ++ [a * 256 + b; c * 256 + d]%Z
  end.

Definition addressOf (x : V6Text) : Z := v6num (hextetsOf x).


(** What is known of every character that is a hexadecimal digit. *)
Definition hexCharText (c : ascii) : bool :=
  match hexVal c with
  | Some v =>
      Fetch.isLowerHexDigit (lowerChar c)
      && (Fetch.hexDigitValue (lowerChar c) =? v)%Z
      && (0 <=? v)%Z && (v <? 16)%Z
  | None => true
  end.

(** A character of a group in lower case. *)
Definition groupChar (c : ascii) : bool :=
  Fetch.isLowerHexDigit c && plainChar c.


(** Every colon of the text is followed by a character that is no colon. *)
Fixpoint tame (s : string) : bool :=
  match s with
  | EmptyString => true
  | String c r =>
      (if Ascii.eqb ":" c
       then match r with
            | String d _ => negb (Ascii.eqb ":" d)
            | EmptyString => false
            end
       else true)
      && tame r
  end.

(** Groups in lower case, as the code tests them. *)
Definition lowGroups (gs : list string) : Prop :=
  Forall (fun g => Fetch.testHextet g = true) gs.

(** The piece that [split] cuts when [cur], reversed, and then [s] were
    read. *)
Definition pieceOf (cur : list ascii) (s : string) : string :=
  string_of_list_ascii (rev cur) +:+ s.


(** The two halves of [ipv6ToBigInt], to reason about them one at a time:
    what it takes as the groups' text and as the embedded IPv4 groups, and
    what it makes of them (see [ipv6ToBigInt_halves]). *)
Definition ipv6Left (input : string) : result (string * option (Z * Z)) :=
  if negb (lastIndexOf input "." =? -1)%Z then
    let lastColon := lastIndexOf input ":" in
    match Fetch.ipv4ToInt (sliceFrom input (lastColon + 1)) with
    | None => Throw Fetch.invalidIPv6
    | Some v4Int =>
        Ok (sliceTo input lastColon +:+ ":0:0",
            Some (js_and (js_ushr v4Int 16) 65535, js_and v4Int 65535))
    end
  else Ok (input, None).

Definition ipv6Rest (left_ : string) (embeddedV4Hextets : option (Z * Z)) : result Z :=
  let pieces := split "::" left_ in
  let head := Fetch.groupsOf (pieces !! 0%nat) in
  let tail := Fetch.groupsOf (pieces !! 1%nat) in
  if negb (includes left_ "::") && negb (length head + length tail =? 8)%nat
  then Throw Fetch.invalidIPv6
  else
    do headNums <- Fetch.hextetNums head;
    do tailNums <- Fetch.hextetNums tail;
    do hextets <-
      (if includes left_ "::" then
         let missing := (8 - Z.of_nat (length headNums + length tailNums))%Z in
         if (missing <? 0)%Z then Throw Fetch.invalidIPv6
         else Ok (headNums ++ repeat 0%Z (Z.to_nat missing) ++ tailNums)
       else Ok (headNums ++ tailNums));
    let hextets' :=
      match embeddedV4Hextets with
      | Some (e0, e1) => Fetch.arraySet (Fetch.arraySet (map Some hextets) 6 e0) 7 e1
      | None => map Some hextets
      end in
    if negb (length hextets' =? 8)%nat then Throw Fetch.invalidIPv6
    else Fetch.foldHextets hextets' 0.

(** The groups the code reads from a list of texts. *)
Definition parsedGroups (gs : list string) : list Z :=
  map (fun g => Fetch.parseHex g 0) gs.

(** What holds of a collector of cap [cap] that has seen the bytes [inp]. *)
Definition collects (cap : Z) (c : Exec.Collector) (inp : bytes) : Prop :=
  Exec.maxBytes c = cap
  /\ Exec.collected c = firstn (Z.to_nat cap) inp
  /\ Exec.bytesSeen c = Exec.byteLength (Exec.collected c)
  /\ (Exec.truncated c = true -> (cap <= Exec.byteLength inp)%Z)
  /\ ((cap < Exec.byteLength inp)%Z -> Exec.truncated c = true).

(** Texts written one after the other. *)
Fixpoint concatStr (ss : list string) : string :=
  match ss with
  | [] => ""
  | s :: rest => s +:+ concatStr rest
  end.

(** Every group followed by a colon; every group with a colon before. *)
Definition colonAfter (gs : list string) : string :=
  concatStr (map (fun g => g +:+ ":") gs).
Definition colonBefore (gs : list string) : string :=
  concatStr (map (fun g => ":" +:+ g) gs).

(** A group, as the one-character texts of its digits. *)
Fixpoint digitsOf (g : string) : list string :=
  match g with
  | EmptyString => []
  | String c r => String c "" :: digitsOf r
  end.

(** The text after the leading groups of an elided form: a colon, or the
    trailing groups, a colon before each. *)
Definition tailText (ts : list string) : string :=
  match ts with
  | [] => ":"
  | _ :: _ => colonBefore ts
  end.

(** The 256 code units, and a predicate that holds of each of them. *)
Definition allAscii : list ascii := map ascii_of_nat (seq 0 256).
Definition everyChar (p : ascii -> bool) : bool := forallb p allAscii.

(** The characters of the strings of an expression all satisfy [P]. *)
Fixpoint classesWithin (P : ascii -> bool) (r : Net.regex) : bool :=
  match r with
  | Net.Void | Net.Eps => true
  | Net.Class p => everyChar (fun c => implb (p c) (P c))
  | Net.Cat a b | Net.Alt a b => classesWithin P a && classesWithin P b
  end.

(** Every string of an expression has a character that satisfies [q]. *)
Fixpoint alwaysHas (q : ascii -> bool) (r : Net.regex) : bool :=
  match r with
  | Net.Void => true
  | Net.Eps => false
  | Net.Class p => everyChar (fun c => implb (p c) (q c))
  | Net.Cat a b => alwaysHas q a || alwaysHas q b
  | Net.Alt a b => alwaysHas q a && alwaysHas q b
  end.

(** The strings of an expression, listed. *)
Fixpoint enum (r : Net.regex) : list string :=
  match r with
  | Net.Void => []
  | Net.Eps => [""]
  | Net.Class p => map (fun c => String c "") (List.filter p allAscii)
  | Net.Cat a b => flat_map (fun s1 => map (fun s2 => s1 +:+ s2) (enum b)) (enum a)
  | Net.Alt a b => enum a ++ enum b
  end.

(** The characters of a dotted quad; the characters of an IPv6 text. *)
Definition v4Char (c : ascii) : bool := Fetch.isDigit c || Ascii.eqb c ".".
Definition v6Char (c : ascii) : bool :=
  Net.isHexDigit c || Ascii.eqb c ":" || Ascii.eqb c ".".

(** *** What the parsers accept *)

(** A bounded integer field: absent, and then the default, or an integer
    within the inclusive range. *)
Definition boundedField (v : value) (min max defaultValue n : Z) : Prop :=
  (v = VUndefined /\ n = defaultValue) \/ (v = VInt n /\ (min <= n <= max)%Z).

(** At most 64 arguments, each of at most 8192 code units and without a
    NUL. *)
Definition argsWithinLimits (args : list string) : Prop :=
  (Z.of_nat (length args) <= 64)%Z
  /\ Forall (fun a => (strlen a <= 8192)%Z /\ includes a Exec.NUL = false) args.

(** The request object [o] and the command [c] it is parsed into. *)
Definition execAccepts (o : gmap string value) (c : Exec.ExecCommand) : Prop :=
  getProp o "command" = VString (Exec.command c)
  /\ Exec.command c ∈ ["git"; "npm"; "node"]
  /\ ((getProp o "args" = VUndefined /\ Exec.args c = [])
      \/ getProp o "args" = VArray (map VString (Exec.args c)))
  /\ argsWithinLimits (Exec.args c)
  /\ Exec.validateDisallowedCwdArgs (Exec.command c) (Exec.args c) = Ok tt
  /\ boundedField (getProp o "timeoutMs") 1 120000 60000 (Exec.timeoutMs c)
  /\ boundedField (getProp o "maxOutputBytes") 1024 1000000 200000 (Exec.maxOutputBytes c)
  /\ ((getProp o "stdin" = VUndefined /\ Exec.stdin c = None)
      \/ exists s, getProp o "stdin" = VString s /\ Exec.stdin c = Some s
                   /\ (utf8ByteLength s <= 200000)%Z).

Definition fetchAccepts (o : gmap string value) (r : Fetch.FetchRequest) : Prop :=
  getProp o "url" = VString (Fetch.url r)
  /\ Fetch.url r <> ""
  /\ boundedField (getProp o "timeoutMs") 1 30000 15000 (Fetch.timeoutMs r)
  /\ boundedField (getProp o "maxBytes") 1024 1000000 500000 (Fetch.maxBytes r)
  /\ boundedField (getProp o "maxRedirects") 0 5 3 (Fetch.maxRedirects r).

(** The one-token npm arguments the loop throws on: those of
    [npmDisallowed], and everything that starts with --location=global. *)
Definition npmRejected (a : string) : Prop :=
  a = "--prefix"
  \/ (exists v, a = "--prefix=" +:+ v)
  \/ a = "-g"
  \/ a = "--global"
  \/ (exists v, a = "--location=global" +:+ v).


(** *** Runs of the process runner *)

(** Notifications that leave the promise of the runner pending. *)
Definition pending (n : Exec.notification) : Prop :=
  match n with
  | Exec.ChildError _ | Exec.ChildClose _ _ => False
  | _ => True
  end.

(** Data notifications only. *)
Definition dataOnly (n : Exec.notification) : Prop :=
  match n with
  | Exec.StdoutData _ | Exec.StderrData _ => True
  | _ => False
  end.

(** The chunks that arrived on either stream, in order. *)
Definition stdoutChunks (ns : list Exec.notification) : list Exec.chunk :=
  flat_map (fun n => match n with Exec.StdoutData ch => [ch] | _ => [] end) ns.
Definition stderrChunks (ns : list Exec.notification) : list Exec.chunk :=
  flat_map (fun n => match n with Exec.StderrData ch => [ch] | _ => [] end) ns.

(** The effects that signal a process, and those that undo the set-up. *)
Definition isKill (e : Exec.effect) : Prop :=
  match e with
  | Exec.ProcessKill _ _ | Exec.ChildKill _ => True
  | _ => False
  end.
Definition isCleanup (e : Exec.effect) : Prop :=
  match e with
  | Exec.ClearTimeout | Exec.RemoveAbortListener => True
  | _ => False
  end.

(** A signal sent to the group of [child], and to nothing else. *)
Definition killsOnly (child : Exec.Child) (e : Exec.effect) : Prop :=
  match e with
  | Exec.ProcessKill q sig =>
      exists p, Exec.pid child = Some p /\ p <> 0%Z /\ q = (- p)%Z /\ sig = "SIGKILL"
  | Exec.ChildKill sig => sig = "SIGKILL"
  | _ => True
  end.

(** A caller's signal that is not aborted when the runner checks it. *)
Definition notAborted (signal : option bool) : Prop := signal <> Some true.

Definition hasSignal (signal : option bool) : bool :=
  match signal with Some _ => true | None => false end.


(** The state of the runner when it starts to wait for the child: both
    collectors empty, the timer armed, the listener attached when there is
    a signal, stdin written and closed. *)
Definition started (input : Exec.ExecCommand) (signal : option bool) : Exec.RunState :=
  {| Exec.stdoutCollector := Exec.createCollector (Exec.maxOutputBytes input);
     Exec.stderrCollector := Exec.createCollector (Exec.maxOutputBytes input);
     Exec.timedOut := false;
     Exec.timerArmed := true;
     Exec.abortListening := hasSignal signal;
     Exec.effects :=
       (([Exec.SpawnCall (Exec.command input) (Exec.args input) Exec.WORKSPACE_CWD]
           ++ [Exec.SetTimeout (Exec.timeoutMs input)])
          ++ (if hasSignal signal then [Exec.AddAbortListener] else []))
         ++ match Exec.stdin input with
            | Some s => [Exec.StdinWrite s]
            | None => []
            end ++ [Exec.StdinEnd] |}.

(** A field of an object; [undefined] when absent or not an object. *)
Definition field (v : value) (k : string) : value :=
  match v with
  | VObject m => getProp m k
  | _ => VUndefined
  end.


(** The platform of [sampleFetchPlatform] with a transport that answers
    every request with 404 and an empty body. *)
Definition notFoundPlatform : Fetch.Platform nat :=
  {| Fetch.parseURL := sampleParse;
     Fetch.resolveURL := fun location _ => sampleParse location;
     Fetch.lookup := Fetch.lookup sampleFetchPlatform;
     Fetch.fetchImpl := Some (fun _ w => (S w, Ok (sampleResponse 404 [] [])));
     Fetch.signalAborted := None;
     Fetch.decodeUtf8 := Fetch.decodeUtf8 sampleFetchPlatform |}.


(** *** Traces of the fetcher *)

(** The requests of a trace with their answers, the targets that passed the
    policy with the URL they were parsed into, and the names the resolver
    was asked about, each in order. *)
Definition requestsOf (tr : list Fetch.event) : list (string * result Fetch.Response) :=
  flat_map (fun e => match e with Fetch.HttpGet t a => [(t, a)] | _ => [] end) tr.
Definition validatedOf (tr : list Fetch.event) : list (string * Fetch.URL) :=
  flat_map (fun e => match e with Fetch.PolicyPassed s u => [(s, u)] | _ => [] end) tr.
Definition lookupsOf (tr : list Fetch.event) : list string :=
  flat_map (fun e => match e with Fetch.DnsLookup h _ => [h] | _ => [] end) tr.

(** A request answered by a redirect with a Location, as the loop records
    it: the status and the next target. *)
Definition redirected (req : string * result Fetch.Response) (entry : Z * string)
  : Prop :=
  exists response,
    snd req = Ok response
    /\ Fetch.status response = fst entry
    /\ Fetch.isRedirectStatus (fst entry) = true.


(** The platform of [sampleFetchPlatform] under a caller's signal that is
    aborted from the start. *)
Definition abortedPlatform : Fetch.Platform nat :=
  {| Fetch.parseURL := sampleParse;
     Fetch.resolveURL := fun location _ => sampleParse location;
     Fetch.lookup := Fetch.lookup sampleFetchPlatform;
     Fetch.fetchImpl := Fetch.fetchImpl sampleFetchPlatform;
     Fetch.signalAborted := Some (fun _ => true);
     Fetch.decodeUtf8 := Fetch.decodeUtf8 sampleFetchPlatform |}.


(** The platform of [sampleFetchPlatform] with a URL class that also knows
    http://[::1]/, whose host it prints in brackets. *)
Definition bracketPlatform : Fetch.Platform nat :=
  {| Fetch.parseURL := fun s =>
       if String.eqb s "http://[::1]/"
       then Some (sampleURL "http:" "[::1]" "/")
       else sampleParse s;
     Fetch.resolveURL := fun location _ => sampleParse location;
     Fetch.lookup := Fetch.lookup sampleFetchPlatform;
     Fetch.fetchImpl := Fetch.fetchImpl sampleFetchPlatform;
     Fetch.signalAborted := None;
     Fetch.decodeUtf8 := Fetch.decodeUtf8 sampleFetchPlatform |}.


(** *** Texts with a zone *)

Definition noPercent (s : string) : bool :=
  forallb_str (fun x => negb (Ascii.eqb "%" x)) s.

Definition noColon (s : string) : bool :=
  forallb_str (fun x => negb (Ascii.eqb ":" x)) s.

(** The address part of a text: no "::", or one, with nothing but single
    colons on either side. *)
Definition oneGap (b : string) : Prop :=
  tame b = true
  \/ exists h t, b = h +:+ "::" +:+ t /\ tame h = true /\ tame t = true.

(** A text that [net.isIP] takes for an IPv6 address and that carries a
    zone: a percent sign and what follows it. *)
Definition zoned (ip : string) : Prop :=
  Net.isIP ip = 6%Z /\ Net.fromPercent ip <> None.

(** The platform of [sampleFetchPlatform] with a resolver that answers, for
    zoned.example, a link-local address with a zone followed by a private
    address. *)
Definition zonedPlatform : Fetch.Platform nat :=
  {| Fetch.parseURL := fun s =>
       if String.eqb s "http://zoned.example/"
       then Some (sampleURL "http:" "zoned.example" "/")
       else sampleParse s;
     Fetch.resolveURL := fun location _ => sampleParse location;
     Fetch.lookup := fun host w =>
       if String.eqb host "zoned.example"
       then (S w, Ok ["fe80::1%eth0"; "10.0.0.1"])
       else Fetch.lookup sampleFetchPlatform host w;
     Fetch.fetchImpl := Fetch.fetchImpl sampleFetchPlatform;
     Fetch.signalAborted := None;
     Fetch.decodeUtf8 := Fetch.decodeUtf8 sampleFetchPlatform |}.


(** * Properties *)

(** ** The tests of the repository, on the model *)

Example exec_parse_allowlisted_only :
  isOk (Exec.parseExecToolInput
          (obj [("command", VString "bash"); ("args", VArray [])])) = false
  /\ isOk (Exec.parseExecToolInput
             (obj [("command", VString "git"); ("args", VArray [VString "status"])])) = true.
Proof. split; vm_compute; reflexivity. Qed.

Example exec_parse_blocks_cwd_override :
  isOk (Exec.parseExecToolInput
          (obj [("command", VString "git"); ("args", VArray [VString "-C"; VString "/"])])) = false
  /\ isOk (Exec.parseExecToolInput
             (obj [("command", VString "npm"); ("args", VArray [VString "--prefix"; VString "/"])])) = false.
Proof. split; vm_compute; reflexivity. Qed.

(** ** Generic facts *)

Lemma failsWith_Throw {A} (k : error_kind) m d :
  failsWith (A := A) (Throw (ToolError k m d)) k.
Proof. exists m, d. reflexivity. Qed.


Lemma failsWith_not_Ok {A} (r : result A) k : failsWith r k -> isOk r = false.
Proof. intros (m & d & ->). reflexivity. Qed.

Lemma prefix_append (p x : string) : String.prefix p (p +:+ x) = true.
Proof.
  induction p as [|c p IH]; simpl.
  - destruct x; reflexivity.
  - destruct (ascii_dec c c) as [_|n]; [exact IH | contradiction].
Qed.

Lemma getProp_insert_ne (o : gmap string value) k k' v :
  k <> k' -> getProp (<[k := v]> o) k' = getProp o k'.
Proof. intros Hne. unfold getProp. rewrite lookup_insert_ne; auto. Qed.

(** ** Bounded input parser *)

(** Neither parser looks at a field outside its set: adding one changes
    nothing. *)
Lemma parseExecToolInput_extra_field (o : gmap string value) k v :
  k ∉ execFields ->
  Exec.parseExecToolInput (VObject (<[k := v]> o)) = Exec.parseExecToolInput (VObject o).
Proof.
  intros Hk. unfold Exec.parseExecToolInput.
  assert (forall f, f ∈ execFields -> getProp (<[k := v]> o) f = getProp o f) as E.
  { intros f Hf. apply getProp_insert_ne. intros ->. contradiction. }
  rewrite !E by (unfold execFields; set_solver). reflexivity.
Qed.

Lemma parseFetchToolInput_extra_field (o : gmap string value) k v :
  k ∉ fetchFields ->
  Fetch.parseFetchToolInput (VObject (<[k := v]> o)) = Fetch.parseFetchToolInput (VObject o).
Proof.
  intros Hk. unfold Fetch.parseFetchToolInput.
  assert (forall f, f ∈ fetchFields -> getProp (<[k := v]> o) f = getProp o f) as E.
  { intros f Hf. apply getProp_insert_ne. intros ->. contradiction. }
  rewrite !E by (unfold fetchFields; set_solver). reflexivity.
Qed.

(** C2, at the failing inputs. Both tool definitions declare
    [additionalProperties: false], yet a request with a field outside the
    recognized set ("shell" for exec, "method" for fetch) is parsed into a
    command: the field is dropped without an error instead of being
    rejected with INVALID_INPUT. *)
Theorem unrecognized_field_accepted :
  Exec.parseExecToolInput
    (obj [("command", VString "node"); ("args", VArray [VString "-v"]);
          ("shell", VBool true)])
  = Ok {| Exec.command := "node"; Exec.args := ["-v"]; Exec.stdin := None;
          Exec.timeoutMs := 60000; Exec.maxOutputBytes := 200000 |}
  /\ Fetch.parseFetchToolInput
       (obj [("url", VString "https://example.com"); ("method", VString "POST")])
     = Ok {| Fetch.url := "https://example.com"; Fetch.timeoutMs := 15000;
             Fetch.maxBytes := 500000; Fetch.maxRedirects := 3 |}.
Proof. split; vm_compute; reflexivity. Qed.

Lemma exec_parseBoundedInt_range v field min max d n :
  Exec.parseBoundedInt v field min max d = Ok n ->
  (v = VUndefined /\ n = d) \/ (v = VInt n /\ min <= n <= max)%Z.
Proof.
  unfold Exec.parseBoundedInt. destruct v as [| | |[k|]| | |]; try discriminate.
  - intros [= <-]. left. auto.
  - destruct (k <? min)%Z eqn:E1; [discriminate|].
    destruct (k >? max)%Z eqn:E2; [discriminate|]. simpl.
    intros [= <-]. right. split; [reflexivity|]. lia.
Qed.

Lemma fetch_parseBoundedInt_range v field min max d n :
  Fetch.parseBoundedInt v field min max d = Ok n ->
  (v = VUndefined /\ n = d) \/ (v = VInt n /\ min <= n <= max)%Z.
Proof. apply exec_parseBoundedInt_range. Qed.

Lemma exec_parseBoundedInt_over v field min max d n :
  v = VInt n -> (max < n)%Z ->
  failsWith (Exec.parseBoundedInt v field min max d) INVALID_INPUT.
Proof.
  intros -> H. unfold Exec.parseBoundedInt, VInt.
  replace (n >? max)%Z with true by lia. rewrite orb_true_r.
  apply failsWith_Throw.
Qed.

Lemma rbind_Ok {A B} (r : result A) (k : A -> result B) b :
  rbind r k = Ok b -> exists a, r = Ok a /\ k a = Ok b.
Proof. destruct r; simpl; [eauto | discriminate]. Qed.

Lemma rbind_not_Ok {A B} (r : result A) (k : A -> result B) :
  isOk r = false -> isOk (rbind r k) = false.
Proof. destruct r; simpl; [discriminate | reflexivity]. Qed.

Lemma exec_parse_Ok raw c :
  Exec.parseExecToolInput raw = Ok c ->
  exists o,
    raw = VObject o
    /\ getProp o "command" = VString (Exec.command c)
    /\ Exec.ALLOWED_COMMANDS_has (Exec.command c) = true
    /\ Exec.parseArgs (getProp o "args") = Ok (Exec.args c)
    /\ Exec.validateDisallowedCwdArgs (Exec.command c) (Exec.args c) = Ok tt
    /\ Exec.parseBoundedInt (getProp o "timeoutMs") "timeoutMs" 1
         Exec.MAX_TIMEOUT_MS Exec.DEFAULT_TIMEOUT_MS = Ok (Exec.timeoutMs c)
    /\ Exec.parseBoundedInt (getProp o "maxOutputBytes") "maxOutputBytes" 1024
         Exec.MAX_MAX_OUTPUT_BYTES Exec.DEFAULT_MAX_OUTPUT_BYTES = Ok (Exec.maxOutputBytes c).
Proof.
  unfold Exec.parseExecToolInput.
  destruct raw as [| | | | | |o]; try discriminate.
  destruct (getProp o "command") as [| | | |cmd| |] eqn:Ec; try discriminate.
  destruct (Exec.ALLOWED_COMMANDS_has cmd) eqn:Ea; [|discriminate].
  intros H.
  apply rbind_Ok in H as (a & Ha & H).
  apply rbind_Ok in H as ([] & Hv & H).
  apply rbind_Ok in H as (t & Ht & H).
  apply rbind_Ok in H as (m & Hm & H).
  exists o.
  destruct (getProp o "stdin") as [| | | |s| |]; try discriminate.
  - injection H as <-. simpl. auto 10.
  - destruct (negb (String.eqb s "") && (utf8ByteLength s >? Exec.MAX_STDIN_BYTES)%Z);
      [discriminate|].
    injection H as <-. simpl. auto 10.
Qed.

Lemma fetch_parse_Ok raw r :
  Fetch.parseFetchToolInput raw = Ok r ->
  exists o,
    raw = VObject o
    /\ getProp o "url" = VString (Fetch.url r)
    /\ Fetch.url r <> ""
    /\ Fetch.parseBoundedInt (getProp o "timeoutMs") "timeoutMs" 1
         Fetch.MAX_TIMEOUT_MS Fetch.DEFAULT_TIMEOUT_MS = Ok (Fetch.timeoutMs r)
    /\ Fetch.parseBoundedInt (getProp o "maxBytes") "maxBytes" 1024
         Fetch.MAX_MAX_BYTES Fetch.DEFAULT_MAX_BYTES = Ok (Fetch.maxBytes r)
    /\ Fetch.parseBoundedInt (getProp o "maxRedirects") "maxRedirects" 0
         Fetch.MAX_MAX_REDIRECTS Fetch.DEFAULT_MAX_REDIRECTS = Ok (Fetch.maxRedirects r).
Proof.
  unfold Fetch.parseFetchToolInput.
  destruct raw as [| | | | | |o]; try discriminate.
  destruct (getProp o "url") as [| | | |u| |] eqn:Eu; try discriminate.
  destruct (String.eqb u "") eqn:Ee; [discriminate|].
  intros H.
  apply rbind_Ok in H as (t & Ht & H).
  apply rbind_Ok in H as (b & Hb & H).
  apply rbind_Ok in H as (m & Hm & H).
  injection H as <-. exists o. simpl.
  apply String.eqb_neq in Ee. auto 10.
Qed.

(** C3, as stated, fails: a timeout above the maximum is not clamped to
    120000, the request is rejected with INVALID_INPUT and no command with
    an effective cap results. The same holds for the fetch redirect cap. *)
Lemma over_max_is_not_clamped :
  failsWith (Exec.parseExecToolInput
               (obj [("command", VString "node"); ("timeoutMs", VInt 120001)]))
    INVALID_INPUT
  /\ ~ (exists c,
          Exec.parseExecToolInput
            (obj [("command", VString "node"); ("timeoutMs", VInt 120001)]) = Ok c
          /\ Exec.timeoutMs c = Exec.MAX_TIMEOUT_MS)
  /\ failsWith (Fetch.parseFetchToolInput
                  (obj [("url", VString "https://example.com"); ("maxRedirects", VInt 6)]))
       INVALID_INPUT.
Proof.
  split; [|split].
  - vm_compute. eexists _, _. reflexivity.
  - intros (c & H & _). vm_compute in H. discriminate.
  - vm_compute. eexists _, _. reflexivity.
Qed.

(** C3, amended. A timeoutMs, maxOutputBytes, maxBytes or maxRedirects above
    the system maximum makes the bounded-integer check fail with
    INVALID_INPUT and the request is not parsed; every command that parsing
    does produce has its caps inside the inclusive ranges, so no cap ever
    exceeds the system maximum (exec: timeout 120000, output 1000000;
    fetch: timeout 30000, body 1000000, redirects 5). *)
Theorem caps_never_exceed_maxima :
  (forall field min max d n,
      (max < n)%Z ->
      failsWith (Exec.parseBoundedInt (VInt n) field min max d) INVALID_INPUT
      /\ failsWith (Fetch.parseBoundedInt (VInt n) field min max d) INVALID_INPUT)
  /\ (forall o n,
        (getProp o "timeoutMs" = VInt n /\ (Exec.MAX_TIMEOUT_MS < n)%Z)
        \/ (getProp o "maxOutputBytes" = VInt n /\ (Exec.MAX_MAX_OUTPUT_BYTES < n)%Z) ->
        isOk (Exec.parseExecToolInput (VObject o)) = false)
  /\ (forall o n,
        (getProp o "timeoutMs" = VInt n /\ (Fetch.MAX_TIMEOUT_MS < n)%Z)
        \/ (getProp o "maxBytes" = VInt n /\ (Fetch.MAX_MAX_BYTES < n)%Z)
        \/ (getProp o "maxRedirects" = VInt n /\ (Fetch.MAX_MAX_REDIRECTS < n)%Z) ->
        isOk (Fetch.parseFetchToolInput (VObject o)) = false)
  /\ (forall raw c,
        Exec.parseExecToolInput raw = Ok c ->
        (1 <= Exec.timeoutMs c <= 120000)%Z
        /\ (1024 <= Exec.maxOutputBytes c <= 1000000)%Z)
  /\ (forall raw r,
        Fetch.parseFetchToolInput raw = Ok r ->
        (1 <= Fetch.timeoutMs r <= 30000)%Z
        /\ (1024 <= Fetch.maxBytes r <= 1000000)%Z
        /\ (0 <= Fetch.maxRedirects r <= 5)%Z).
Proof.
  assert (forall raw c,
        Exec.parseExecToolInput raw = Ok c ->
        (1 <= Exec.timeoutMs c <= 120000)%Z
        /\ (1024 <= Exec.maxOutputBytes c <= 1000000)%Z) as HE.
  { intros raw c H.
    apply exec_parse_Ok in H as (o & -> & _ & _ & _ & _ & Ht & Hm).
    apply exec_parseBoundedInt_range in Ht, Hm.
    unfold Exec.MAX_TIMEOUT_MS, Exec.DEFAULT_TIMEOUT_MS,
      Exec.MAX_MAX_OUTPUT_BYTES, Exec.DEFAULT_MAX_OUTPUT_BYTES in *.
    destruct Ht as [[_ ->]|[_ ?]], Hm as [[_ ->]|[_ ?]]; lia. }
  assert (forall raw r,
        Fetch.parseFetchToolInput raw = Ok r ->
        (1 <= Fetch.timeoutMs r <= 30000)%Z
        /\ (1024 <= Fetch.maxBytes r <= 1000000)%Z
        /\ (0 <= Fetch.maxRedirects r <= 5)%Z) as HF.
  { intros raw r H.
    apply fetch_parse_Ok in H as (o & -> & _ & _ & Ht & Hb & Hm).
    apply fetch_parseBoundedInt_range in Ht, Hb, Hm.
    unfold Fetch.MAX_TIMEOUT_MS, Fetch.DEFAULT_TIMEOUT_MS, Fetch.MAX_MAX_BYTES,
      Fetch.DEFAULT_MAX_BYTES, Fetch.MAX_MAX_REDIRECTS, Fetch.DEFAULT_MAX_REDIRECTS in *.
    destruct Ht as [[_ ->]|[_ ?]], Hb as [[_ ->]|[_ ?]], Hm as [[_ ->]|[_ ?]]; lia. }
  split; [|split; [|split; [|split]]]; auto.
  - intros field min max d n Hn.
    split; eapply exec_parseBoundedInt_over; eauto.
  - intros o n Hn.
    destruct (Exec.parseExecToolInput (VObject o)) as [c|e] eqn:E; [|reflexivity].
    pose proof (HE _ _ E) as [Ht Hm].
    apply exec_parse_Ok in E as (o' & [= <-] & _ & _ & _ & _ & Pt & Pm).
    apply exec_parseBoundedInt_range in Pt, Pm.
    unfold Exec.MAX_TIMEOUT_MS, Exec.MAX_MAX_OUTPUT_BYTES, VInt in *.
    destruct Hn as [[Hg Hn]|[Hg Hn]]; rewrite Hg in *.
    + destruct Pt as [[? _]|[[= Heq] _]]; [discriminate | lia].
    + destruct Pm as [[? _]|[[= Heq] _]]; [discriminate | lia].
  - intros o n Hn.
    destruct (Fetch.parseFetchToolInput (VObject o)) as [r|e] eqn:E; [|reflexivity].
    pose proof (HF _ _ E) as (Ht & Hb & Hm).
    apply fetch_parse_Ok in E as (o' & [= <-] & _ & _ & Pt & Pb & Pm).
    apply fetch_parseBoundedInt_range in Pt, Pb, Pm.
    unfold Fetch.MAX_TIMEOUT_MS, Fetch.MAX_MAX_BYTES, Fetch.MAX_MAX_REDIRECTS, VInt in *.
    destruct Hn as [[Hg Hn]|[[Hg Hn]|[Hg Hn]]]; rewrite Hg in *.
    + destruct Pt as [[? _]|[[= Heq] _]]; [discriminate | lia].
    + destruct Pb as [[? _]|[[= Heq] _]]; [discriminate | lia].
    + destruct Pm as [[? _]|[[= Heq] _]]; [discriminate | lia].
Qed.

Lemma caps_never_exceed_maxima_witness :
  failsWith (Exec.parseBoundedInt (VInt 120001) "timeoutMs" 1 120000 60000) INVALID_INPUT
  /\ isOk (Fetch.parseFetchToolInput
             (obj [("url", VString "https://example.com"); ("maxBytes", VInt 1000001)])) = false
  /\ (1 <= 30000 <= 120000)%Z.
Proof.
  destruct caps_never_exceed_maxima as (H1 & _ & H3 & H4 & _).
  split; [|split].
  - apply (H1 "timeoutMs" 1 120000 60000 120001)%Z. reflexivity.
  - apply (H3 _ 1000001%Z). right. left. split; vm_compute; reflexivity.
  - apply (H4 (obj [("command", VString "node"); ("timeoutMs", VInt 30000)])
             {| Exec.command := "node"; Exec.args := []; Exec.stdin := None;
                Exec.timeoutMs := 30000; Exec.maxOutputBytes := 200000 |}).
    vm_compute. reflexivity.
Defined.

(** ** Command policy *)

Lemma ALLOWED_COMMANDS_has_false c :
  c ∉ Exec.ALLOWED_COMMANDS -> Exec.ALLOWED_COMMANDS_has c = false.
Proof. intros H. unfold Exec.ALLOWED_COMMANDS_has. apply bool_decide_eq_false. exact H. Qed.

Lemma killProcessGroup_extends P child effs :
  exists tl, Exec.killProcessGroup P child effs = effs ++ tl.
Proof.
  unfold Exec.killProcessGroup.
  destruct (Exec.pid child) as [p|]; [|exists []; rewrite app_nil_r; reflexivity].
  destruct (p =? 0)%Z; [exists []; rewrite app_nil_r; reflexivity|].
  destruct (Exec.processKill P effs (- p)%Z); eauto.
Qed.

Lemma await_extends P input hs child ns :
  forall st, exists tl,
    fst (Exec.await P input hs child st ns) = Exec.effects st ++ tl.
Proof.
  induction ns as [|n ns IH]; intros st; simpl.
  - exists []. rewrite app_nil_r. reflexivity.
  - destruct n as [| |ch|ch|m|code sig].
    + destruct (Exec.timerArmed st); [|apply IH].
      destruct (killProcessGroup_extends P child (Exec.effects st)) as [t1 E1].
      edestruct IH as [t2 E2]. rewrite E2. simpl. rewrite E1, <- app_assoc. eauto.
    + destruct (Exec.abortListening st); [|apply IH].
      destruct (killProcessGroup_extends P child (Exec.effects st)) as [t1 E1].
      edestruct IH as [t2 E2]. rewrite E2. simpl. rewrite E1, <- app_assoc. eauto.
    + edestruct IH as [t2 E2]. rewrite E2. simpl. eauto.
    + edestruct IH as [t2 E2]. rewrite E2. simpl. eauto.
    + simpl. exists []. rewrite app_nil_r. reflexivity.
    + unfold Exec.finish.
      destruct (Exec.timedOut st); simpl; [eauto|].
      destruct code as [[| |]|]; simpl; eauto.
Qed.

Lemma runExecTool_starts_with_spawn P input signal ns :
  exists tl,
    fst (Exec.runExecTool P input signal ns)
    = Exec.SpawnCall (Exec.command input) (Exec.args input) Exec.WORKSPACE_CWD :: tl.
Proof.
  unfold Exec.runExecTool.
  destruct (Exec.spawn P _ _) as [child|e]; [|simpl; eauto].
  assert (forall b : option bool, match b with Some true => False | _ => True end ->
    exists tl,
      fst (Exec.await P input (match b with Some _ => true | None => false end) child
             {| Exec.stdoutCollector := Exec.createCollector (Exec.maxOutputBytes input);
                Exec.stderrCollector := Exec.createCollector (Exec.maxOutputBytes input);
                Exec.timedOut := false; Exec.timerArmed := true;
                Exec.abortListening := match b with Some _ => true | None => false end;
                Exec.effects :=
                  (([Exec.SpawnCall (Exec.command input) (Exec.args input) Exec.WORKSPACE_CWD]
                      ++ [Exec.SetTimeout (Exec.timeoutMs input)])
                     ++ (if match b with Some _ => true | None => false end
                         then [Exec.AddAbortListener] else []))
                    ++ match Exec.stdin input with
                       | Some s => [Exec.StdinWrite s]
                       | None => []
                       end ++ [Exec.StdinEnd] |} ns)
      = Exec.SpawnCall (Exec.command input) (Exec.args input) Exec.WORKSPACE_CWD :: tl) as HA.
  { intros b _. edestruct await_extends as [tl E]. rewrite E. simpl. eauto. }
  destruct signal as [[|]|].
  - cbn [fst].
    edestruct killProcessGroup_extends as [tl E]. rewrite E. simpl. eauto.
  - apply (HA (Some false)). exact I.
  - apply (HA None). exact I.
Qed.

(** C6. A request object whose command is missing, not a string, or a string
    other than git, npm and node fails in parsing with COMMAND_NOT_ALLOWED,
    and the handler answers with that error without any effect: no call of
    spawn, no timer, no kill. The same holds for every failure of parsing,
    whereas a request that parses does reach the call of spawn. *)
Theorem command_outside_allowlist_rejected (P : Exec.Platform)
    (signal : option bool) (ns : list Exec.notification) :
  (forall o,
      (forall cmd, getProp o "command" = VString cmd -> cmd ∉ ["git"; "npm"; "node"]) ->
      failsWith (Exec.parseExecToolInput (VObject o)) COMMAND_NOT_ALLOWED
      /\ exists r,
          ExecServer.callTool P "exec" (VObject o) signal ns = ([], Some r)
          /\ isError r = true
          /\ exists details,
              payload r
              = VObject (<["ok" := VBool false]>
                           (<["error" :=
                               VObject (<["code" := VString "COMMAND_NOT_ALLOWED"]>
                                          (<["message" :=
                                              VString "command must be one of: git, npm, node"]>
                                             (<["details" := details]> ∅)))]> ∅)))
  /\ (forall raw e,
        Exec.parseExecToolInput raw = Throw e ->
        ExecServer.callTool P "exec" raw signal ns = ([], Some (caught e)))
  /\ (forall raw c,
        Exec.parseExecToolInput raw = Ok c ->
        exists tl,
          fst (ExecServer.callTool P "exec" raw signal ns)
          = Exec.SpawnCall (Exec.command c) (Exec.args c) "/workspace" :: tl).
Proof.
  assert (forall raw e,
        Exec.parseExecToolInput raw = Throw e ->
        ExecServer.callTool P "exec" raw signal ns = ([], Some (caught e))) as HT.
  { intros raw e H. unfold ExecServer.callTool. simpl. rewrite H. reflexivity. }
  split; [|split]; auto.
  - intros o Hc.
    assert (Exec.parseExecToolInput (VObject o)
            = Throw (ToolError COMMAND_NOT_ALLOWED "command must be one of: git, npm, node"
                       (VObject (<["allowed" := VArray (map VString Exec.ALLOWED_COMMANDS)]> ∅))))
      as E.
    { unfold Exec.parseExecToolInput.
      destruct (getProp o "command") as [| | | |cmd| |] eqn:Ec; try reflexivity.
      rewrite ALLOWED_COMMANDS_has_false; [reflexivity|]. apply Hc. reflexivity. }
    split; [rewrite E; apply failsWith_Throw|].
    eexists. split; [apply HT; exact E|].
    split; [reflexivity|]. simpl. eexists. reflexivity.
  - intros raw c H. unfold ExecServer.callTool. simpl. rewrite H.
    destruct (runExecTool_starts_with_spawn P c signal ns) as [tl E].
    destruct (Exec.runExecTool P c signal ns) as [effs r]. simpl in *.
    exists tl. exact E.
Qed.

Lemma command_outside_allowlist_rejected_witness :
  failsWith (Exec.parseExecToolInput
               (obj [("command", VString "bash"); ("args", VArray [VString "-lc"])]))
    COMMAND_NOT_ALLOWED
  /\ failsWith (Exec.parseExecToolInput (obj [("args", VArray [])])) COMMAND_NOT_ALLOWED
  /\ ExecServer.callTool sampleExecPlatform "exec" (VString "ls") None []
     = ([], Some (errorResult INVALID_INPUT "arguments must be an object" VUndefined)).
Proof.
  destruct (command_outside_allowlist_rejected sampleExecPlatform None [])
    as (H1 & H2 & _).
  unfold obj. split; [|split].
  - apply H1. intros cmd E. vm_compute in E. injection E as <-.
    apply (proj1 (bool_decide_eq_false _)). vm_compute. reflexivity.
  - apply H1. intros cmd E. vm_compute in E. discriminate.
  - apply (H2 (VString "ls")
             (ToolError INVALID_INPUT "arguments must be an object" VUndefined)).
    reflexivity.
Defined.

Lemma gitArg_cases a :
  Exec.gitArg a = Ok tt \/ failsWith (Exec.gitArg a) DISALLOWED_ARGUMENT.
Proof.
  unfold Exec.gitArg, Exec.deny.
  repeat match goal with
         | |- context [if ?c then _ else _] => destruct c
         end; (left; reflexivity) || (right; apply failsWith_Throw).
Qed.

Lemma npmArg_cases a next :
  Exec.npmArg a next = Ok tt \/ failsWith (Exec.npmArg a next) DISALLOWED_ARGUMENT.
Proof.
  unfold Exec.npmArg, Exec.deny.
  repeat match goal with
         | |- context [if ?c then _ else _] => destruct c
         end; (left; reflexivity) || (right; apply failsWith_Throw).
Qed.

Lemma gitArg_disallowed a :
  gitDisallowed a -> failsWith (Exec.gitArg a) DISALLOWED_ARGUMENT.
Proof.
  intros H. destruct (gitArg_cases a) as [E|]; [exfalso|assumption].
  unfold Exec.gitArg, Exec.isExact, Exec.isPrefixed, startsWith in E.
  destruct H as [->|[(path & Hp & ->)|[->|[(v & ->)|[->|(v & ->)]]]]];
    try (vm_compute in E; discriminate).
  - rewrite (prefix_append "-C" path) in E.
    replace (strlen ("-C" +:+ path) >? 2)%Z with true in E.
    + rewrite orb_true_r in E. discriminate.
    + destruct path; [contradiction|]. symmetry. apply Z.gtb_lt.
      unfold strlen. simpl. lia.
  - rewrite (prefix_append "--git-dir=" v), orb_true_r in E.
    repeat match type of E with
           | context [if ?c then _ else _] => destruct c
           end; discriminate.
  - rewrite (prefix_append "--work-tree=" v), orb_true_r in E.
    repeat match type of E with
           | context [if ?c then _ else _] => destruct c
           end; discriminate.
Qed.

Lemma npmArg_disallowed a next :
  npmDisallowed a -> failsWith (Exec.npmArg a next) DISALLOWED_ARGUMENT.
Proof.
  intros H. destruct (npmArg_cases a next) as [E|]; [exfalso|assumption].
  unfold Exec.npmArg, Exec.isExact, Exec.isPrefixed, startsWith in E.
  destruct H as [-> | [(v & ->) | [-> | [-> | ->]]]];
    try (vm_compute in E; discriminate).
  rewrite (prefix_append "--prefix=" v), orb_true_r in E.
  repeat match type of E with
         | context [if ?c then _ else _] => destruct c
         end; discriminate.
Qed.

Lemma gitLoop_cases args :
  Exec.gitLoop args = Ok tt \/ failsWith (Exec.gitLoop args) DISALLOWED_ARGUMENT.
Proof.
  induction args as [|a args IH]; simpl; [left; reflexivity|].
  destruct (gitArg_cases a) as [->|(m & d & ->)]; simpl; [exact IH|].
  right. apply failsWith_Throw.
Qed.

Lemma npmLoop_cases args :
  Exec.npmLoop args = Ok tt \/ failsWith (Exec.npmLoop args) DISALLOWED_ARGUMENT.
Proof.
  induction args as [|a args IH]; simpl; [left; reflexivity|].
  destruct (npmArg_cases a (head args)) as [->|(m & d & ->)]; simpl; [exact IH|].
  right. apply failsWith_Throw.
Qed.

Lemma gitLoop_In args a :
  In a args -> failsWith (Exec.gitArg a) DISALLOWED_ARGUMENT ->
  failsWith (Exec.gitLoop args) DISALLOWED_ARGUMENT.
Proof.
  induction args as [|b args IH]; simpl; [contradiction|].
  intros [->|Hin] Ha.
  - destruct Ha as (m & d & ->). simpl. apply failsWith_Throw.
  - destruct (gitArg_cases b) as [->|(m & d & ->)]; simpl; [auto|apply failsWith_Throw].
Qed.

Lemma npmLoop_In args a :
  In a args -> (forall next, failsWith (Exec.npmArg a next) DISALLOWED_ARGUMENT) ->
  failsWith (Exec.npmLoop args) DISALLOWED_ARGUMENT.
Proof.
  induction args as [|b args IH]; simpl; [contradiction|].
  intros [->|Hin] Ha.
  - destruct (Ha (head args)) as (m & d & ->). simpl. apply failsWith_Throw.
  - destruct (npmArg_cases b (head args)) as [->|(m & d & ->)]; simpl;
      [auto|apply failsWith_Throw].
Qed.

Lemma npmLoop_location_global pre post :
  failsWith (Exec.npmLoop (pre ++ "--location" :: "global" :: post)) DISALLOWED_ARGUMENT.
Proof.
  induction pre as [|b pre IH]; simpl.
  - vm_compute. eexists _, _. reflexivity.
  - destruct (npmArg_cases b (head (pre ++ "--location" :: "global" :: post)))
      as [->|(m & d & ->)]; simpl; [exact IH|apply failsWith_Throw].
Qed.

(** C7. The command policy engine fails with DISALLOWED_ARGUMENT whenever a
    git argument list contains -C, -C<path>, --git-dir, --git-dir=...,
    --work-tree or --work-tree=..., and whenever an npm argument list
    contains --prefix, --prefix=..., -g, --global, --location=global, or
    --location followed by global; and so does the parser, for every
    request whose argument array passes the array checks. *)
Theorem disallowed_arguments_rejected :
  (forall args a,
      In a args -> gitDisallowed a ->
      failsWith (Exec.validateDisallowedCwdArgs "git" args) DISALLOWED_ARGUMENT)
  /\ (forall args a,
        In a args -> npmDisallowed a ->
        failsWith (Exec.validateDisallowedCwdArgs "npm" args) DISALLOWED_ARGUMENT)
  /\ (forall args,
        hasLocationGlobal args ->
        failsWith (Exec.validateDisallowedCwdArgs "npm" args) DISALLOWED_ARGUMENT)
  /\ (forall o cmd args,
        getProp o "command" = VString cmd ->
        Exec.parseArgs (getProp o "args") = Ok args ->
        failsWith (Exec.validateDisallowedCwdArgs cmd args) DISALLOWED_ARGUMENT ->
        failsWith (Exec.parseExecToolInput (VObject o)) DISALLOWED_ARGUMENT).
Proof.
  split; [|split; [|split]].
  - intros args a Hin Ha. unfold Exec.validateDisallowedCwdArgs. simpl.
    pose proof (gitLoop_In args a Hin (gitArg_disallowed a Ha)) as (m & d & ->).
    simpl. apply failsWith_Throw.
  - intros args a Hin Ha. unfold Exec.validateDisallowedCwdArgs. simpl.
    apply (npmLoop_In args a Hin). intros next. apply npmArg_disallowed, Ha.
  - intros args (pre & post & ->). unfold Exec.validateDisallowedCwdArgs. simpl.
    apply npmLoop_location_global.
  - intros o cmd args Hc Ha Hv. unfold Exec.parseExecToolInput. rewrite Hc, Ha.
    assert (Exec.ALLOWED_COMMANDS_has cmd = true) as ->.
    { unfold Exec.validateDisallowedCwdArgs in Hv.
      destruct (String.eqb cmd "git") eqn:Eg.
      - apply String.eqb_eq in Eg. subst. reflexivity.
      - destruct (String.eqb cmd "npm") eqn:En.
        + apply String.eqb_eq in En. subst. reflexivity.
        + destruct Hv as (m & d & Hv). discriminate. }
    simpl. destruct Hv as (m & d & ->). simpl. apply failsWith_Throw.
Qed.

Lemma disallowed_arguments_rejected_witness :
  failsWith (Exec.validateDisallowedCwdArgs "git" ["status"; "-C/etc"]) DISALLOWED_ARGUMENT
  /\ failsWith (Exec.validateDisallowedCwdArgs "npm" ["install"; "--prefix=/"]) DISALLOWED_ARGUMENT
  /\ failsWith (Exec.validateDisallowedCwdArgs "npm" ["install"; "--location"; "global"])
       DISALLOWED_ARGUMENT
  /\ failsWith (Exec.parseExecToolInput
                  (obj [("command", VString "git");
                        ("args", VArray [VString "--work-tree"; VString "/"])]))
       DISALLOWED_ARGUMENT.
Proof.
  destruct disallowed_arguments_rejected as (H1 & H2 & H3 & H4).
  unfold obj. split; [|split; [|split]].
  - apply (H1 _ "-C/etc"); [simpl; auto|].
    right. left. exists "/etc". split; [discriminate|reflexivity].
  - apply (H2 _ "--prefix=/"); [simpl; auto|].
    right. left. exists "/". reflexivity.
  - apply H3. exists ["install"], []. reflexivity.
  - apply (H4 _ "git" ["--work-tree"; "/"]); [reflexivity|reflexivity|].
    apply (H1 _ "--work-tree"); [simpl; auto|].
    do 4 right. left. reflexivity.
Defined.

(** ** Byte-bounded collectors *)

Section Collector.

Variable cap : Z.
Hypothesis cap_nonneg : (0 <= cap)%Z.

Lemma firstn_cap_app (inp b : bytes) :
  (Z.of_nat (length inp) < cap)%Z ->
  firstn (Z.to_nat cap) (inp ++ b)
  = inp ++ firstn (Z.to_nat (cap - Z.of_nat (length inp))) b.
Proof.
  intros H. rewrite firstn_app.
  rewrite firstn_all2 by lia. f_equal. f_equal. lia.
Qed.

Lemma firstn_cap_full (inp b : bytes) :
  (cap <= Z.of_nat (length inp))%Z ->
  firstn (Z.to_nat cap) (inp ++ b) = firstn (Z.to_nat cap) inp.
Proof.
  intros H. rewrite firstn_app.
  replace (Z.to_nat cap - length inp)%nat with 0%nat by lia.
  simpl. apply app_nil_r.
Qed.

Ltac lens :=
  unfold Exec.byteLength in *;
  rewrite ?length_app, ?length_firstn in *; lia.

Lemma onData_collects c inp b :
  collects cap c inp -> collects cap (Exec.onData c (Exec.BufferChunk b)) (inp ++ b).
Proof.
  unfold collects, Exec.collected, Exec.onData.
  intros (Hm & Hc & Hb & Ht & Hd).
  rewrite Hm, Hb, Hc.
  destruct (_ >=? cap)%Z eqn:E1; cbn [Exec.maxBytes Exec.chunks Exec.bytesSeen Exec.truncated].
  - assert (cap <= Z.of_nat (length inp))%Z by lens.
    rewrite Hc, firstn_cap_full by assumption.
    repeat split; auto; intros; try lens.
  - assert (Z.of_nat (length inp) < cap)%Z as Hlt by lens.
    assert (firstn (Z.to_nat cap) inp = inp) as Hall by (apply firstn_all2; lia).
    rewrite Hall in *.
    destruct (_ >? _)%Z eqn:E2; cbn [Exec.maxBytes Exec.chunks Exec.bytesSeen Exec.truncated];
      rewrite concat_app, Hc; cbn [concat]; rewrite app_nil_r, firstn_cap_app by assumption.
    + repeat split; auto; intros; try lens.
    + rewrite (firstn_all2 b) by lens.
      repeat split; auto; intros; try lens.
Qed.

Lemma createCollector_collects : collects cap (Exec.createCollector cap) [].
Proof.
  unfold collects, Exec.createCollector, Exec.collected, Exec.byteLength. simpl.
  rewrite firstn_nil. repeat split; auto; try lia; discriminate.
Qed.

Lemma fold_onData_collects chs :
  forall c inp,
    collects cap c inp ->
    collects cap (fold_left Exec.onData chs c) (inp ++ bufferBytes chs).
Proof.
  induction chs as [|ch chs IH]; intros c inp H; simpl.
  - rewrite app_nil_r. exact H.
  - destruct ch as [b|s].
    + rewrite app_assoc. apply IH, onData_collects, H.
    + apply IH. exact H.
Qed.

Lemma feed_collects chs : collects cap (feed cap chs) (bufferBytes chs).
Proof. apply (fold_onData_collects chs _ []), createCollector_collects. Qed.

(** With no empty chunk, the flag is raised only for bytes really lost. *)
Lemma fold_onData_strict chs :
  Forall nonEmptyChunk chs ->
  forall c inp,
    collects cap c inp ->
    (Exec.truncated c = true -> (cap < Exec.byteLength inp)%Z) ->
    Exec.truncated (fold_left Exec.onData chs c) = true ->
    (cap < Exec.byteLength (inp ++ bufferBytes chs))%Z.
Proof.
  induction 1 as [|ch chs Hne _ IH]; intros c inp Hc Hs; simpl.
  - rewrite app_nil_r. exact Hs.
  - destruct ch as [b|s]; [|apply IH; assumption].
    rewrite app_assoc. apply IH; [apply onData_collects, Hc|].
    destruct Hc as (Hm & Hcol & Hb & Ht & Hd).
    unfold Exec.onData, Exec.collected in *. rewrite Hm, Hb, Hcol.
    assert (0 < length b)%nat by (destruct b; [contradiction|simpl; lia]).
    destruct (_ >=? cap)%Z eqn:E1; cbn [Exec.truncated]; [intros; lens|].
    destruct (_ >? _)%Z eqn:E2; cbn [Exec.truncated]; [intros; lens|].
    intros Htr. specialize (Hs Htr). lens.
Qed.

(** The same for the loop of the body reader. *)
Lemma readLoop_collects s :
  forall kept tr r,
    (Exec.byteLength kept <= cap)%Z ->
    Fetch.readLoop cap s kept tr (Exec.byteLength kept) = Ok r ->
    Fetch.r_kept r = firstn (Z.to_nat cap) (kept ++ streamBytes s)
    /\ Fetch.r_bytesRead r = Exec.byteLength (Fetch.r_kept r)
    /\ (Fetch.r_truncated r = true ->
        tr = true \/ (cap <= Exec.byteLength (kept ++ streamBytes s))%Z)
    /\ ((cap < Exec.byteLength (kept ++ streamBytes s))%Z ->
        Fetch.r_truncated r = true)
    /\ (nonEmptyStream s -> Fetch.r_truncated r = true ->
        tr = true \/ (cap < Exec.byteLength (kept ++ streamBytes s))%Z).
Proof.
  induction s as [|[v|] rest IH|m]; intros kept tr r Hk; simpl.
  - intros [= <-]. simpl. rewrite !app_nil_r, firstn_all2 by lens.
    repeat split; auto. intros; lens.
  - destruct (_ <=? 0)%Z eqn:E1.
    + intros [= <-]. simpl.
      rewrite firstn_cap_full, firstn_all2 by lens.
      repeat split; auto; try (intros; right; lens).
      intros [Hv _] _. right.
      assert (0 < length v)%nat by (destruct v; [contradiction|simpl; lia]).
      lens.
    + destruct (_ >? _)%Z eqn:E2.
      * intros [= <-]. simpl.
        rewrite firstn_cap_app by lens.
        assert (firstn (Z.to_nat (cap - Z.of_nat (length kept))) (v ++ streamBytes rest)
                = firstn (Z.to_nat (cap - Exec.byteLength kept)) v) as ->.
        { rewrite firstn_app.
          replace (Z.to_nat (cap - Z.of_nat (length kept)) - length v)%nat with 0%nat
            by lens.
          simpl. apply app_nil_r. }
        repeat split; auto; try lens; intros; right; lens.
      * intros H.
        replace (Exec.byteLength kept + Exec.byteLength v)%Z
          with (Exec.byteLength (kept ++ v)) in H by lens.
        apply IH in H; [|lens].
        rewrite <- app_assoc in H.
        destruct H as (H1 & H2 & H3 & H4 & H5).
        repeat split; auto. intros [_ Hn]. auto.
  - apply IH. exact Hk.
  - discriminate.
Qed.

End Collector.


(** C8, as stated, fails on the flag: when a collector (or the body reader)
    is exactly full and one more chunk arrives that is empty, the flag is
    raised although every byte of the input was kept. *)
Lemma truncated_without_dropped_input :
  Exec.truncated
    (feed 4 [Exec.BufferChunk [Byte.x61; Byte.x62; Byte.x63; Byte.x64]; Exec.BufferChunk []]) = true
  /\ Exec.collected
       (feed 4 [Exec.BufferChunk [Byte.x61; Byte.x62; Byte.x63; Byte.x64]; Exec.BufferChunk []])
     = bufferBytes [Exec.BufferChunk [Byte.x61; Byte.x62; Byte.x63; Byte.x64]; Exec.BufferChunk []]
  /\ ~ (Exec.truncated
          (feed 4 [Exec.BufferChunk [Byte.x61; Byte.x62; Byte.x63; Byte.x64]; Exec.BufferChunk []]) = true
        <-> (4 < Exec.byteLength
                   (bufferBytes [Exec.BufferChunk [Byte.x61; Byte.x62; Byte.x63; Byte.x64];
                                 Exec.BufferChunk []]))%Z)
  /\ Fetch.readLoop 4
       (Fetch.ReadValue (Some [Byte.x61; Byte.x62; Byte.x63; Byte.x64])
          (Fetch.ReadValue (Some []) Fetch.ReadDone)) [] false 0
     = Ok {| Fetch.r_kept := [Byte.x61; Byte.x62; Byte.x63; Byte.x64];
             Fetch.r_truncated := true;
             Fetch.r_bytesRead := 4 |}.
Proof.
  split; [|split; [|split]]; try (vm_compute; reflexivity).
  intros [H _]. specialize (H eq_refl). vm_compute in H. discriminate.
Qed.

(** C8, amended. For every byte cap (not negative) and every sequence of
    chunks, a collector and the body reader keep exactly the first cap
    bytes of the input: never more than cap bytes, a chunk that crosses
    the boundary is cut at the boundary with its prefix kept, and for any N
    up to the cap the first N bytes kept are the first N bytes of the
    input. The flag is raised whenever input beyond the cap was dropped,
    and only when the input reached the cap; if no chunk is empty, it is
    raised if and only if input beyond the cap was dropped. *)
Theorem collectors_keep_first_cap_bytes (cap : Z) (Hcap : (0 <= cap)%Z) :
  (forall chs,
      Exec.collected (feed cap chs) = firstn (Z.to_nat cap) (bufferBytes chs)
      /\ Exec.bytesSeen (feed cap chs) = Exec.byteLength (Exec.collected (feed cap chs))
      /\ (Exec.byteLength (Exec.collected (feed cap chs)) <= cap)%Z
      /\ (forall N, (N <= Z.to_nat cap)%nat ->
                    firstn N (Exec.collected (feed cap chs)) = firstn N (bufferBytes chs))
      /\ ((cap < Exec.byteLength (bufferBytes chs))%Z ->
          Exec.truncated (feed cap chs) = true)
      /\ (Exec.truncated (feed cap chs) = true ->
          (cap <= Exec.byteLength (bufferBytes chs))%Z)
      /\ (Forall nonEmptyChunk chs ->
          (Exec.truncated (feed cap chs) = true
           <-> (cap < Exec.byteLength (bufferBytes chs))%Z)))
  /\ (forall s r,
        Fetch.readLoop cap s [] false 0 = Ok r ->
        Fetch.r_kept r = firstn (Z.to_nat cap) (streamBytes s)
        /\ Fetch.r_bytesRead r = Exec.byteLength (Fetch.r_kept r)
        /\ (Fetch.r_bytesRead r <= cap)%Z
        /\ (forall N, (N <= Z.to_nat cap)%nat ->
                      firstn N (Fetch.r_kept r) = firstn N (streamBytes s))
        /\ ((cap < Exec.byteLength (streamBytes s))%Z -> Fetch.r_truncated r = true)
        /\ (Fetch.r_truncated r = true -> (cap <= Exec.byteLength (streamBytes s))%Z)
        /\ (nonEmptyStream s ->
            (Fetch.r_truncated r = true <-> (cap < Exec.byteLength (streamBytes s))%Z)))
  /\ (forall W (P : Fetch.Platform W) response s t,
        Fetch.body response = Some s ->
        Fetch.readBodyText P response cap = Ok t ->
        Fetch.t_body t = Fetch.decodeUtf8 P (firstn (Z.to_nat cap) (streamBytes s))
        /\ Fetch.t_bytesRead t = Z.min cap (Exec.byteLength (streamBytes s))).
Proof.
  assert (forall (inp : bytes) N, (N <= Z.to_nat cap)%nat ->
            firstn N (firstn (Z.to_nat cap) inp) = firstn N inp) as Hpre.
  { intros inp N HN. rewrite firstn_firstn. f_equal. lia. }
  assert (forall s r,
        Fetch.readLoop cap s [] false 0 = Ok r ->
        Fetch.r_kept r = firstn (Z.to_nat cap) (streamBytes s)
        /\ Fetch.r_bytesRead r = Exec.byteLength (Fetch.r_kept r)
        /\ (Fetch.r_truncated r = true -> (cap <= Exec.byteLength (streamBytes s))%Z)
        /\ ((cap < Exec.byteLength (streamBytes s))%Z -> Fetch.r_truncated r = true)
        /\ (nonEmptyStream s -> Fetch.r_truncated r = true ->
            (cap < Exec.byteLength (streamBytes s))%Z)) as HR.
  { intros s r H.
    apply (readLoop_collects cap Hcap s [] false r) in H;
      [|unfold Exec.byteLength; simpl; lia].
    simpl in H. destruct H as (H1 & H2 & H3 & H4 & H5).
    repeat split; auto.
    - intros Ht. destruct (H3 Ht); [discriminate|assumption].
    - intros Hn Ht. destruct (H5 Hn Ht); [discriminate|assumption]. }
  split; [|split].
  - intros chs.
    destruct (feed_collects cap Hcap chs) as (Hm & Hc & Hb & Ht & Hd).
    split; [exact Hc|]. split; [exact Hb|].
    split; [rewrite Hc; unfold Exec.byteLength; rewrite length_firstn; lia|].
    split; [intros N HN; rewrite Hc; auto|].
    split; [exact Hd|]. split; [exact Ht|].
    intros Hne. split; [|exact Hd]. intros Htr.
    apply (fold_onData_strict cap Hcap chs Hne (Exec.createCollector cap) []);
      [apply createCollector_collects, Hcap|discriminate|exact Htr].
  - intros s r H. destruct (HR s r H) as (H1 & H2 & H3 & H4 & H5).
    split; [exact H1|]. split; [exact H2|].
    split; [rewrite H2, H1; unfold Exec.byteLength; rewrite length_firstn; lia|].
    split; [intros N HN; rewrite H1; auto|].
    split; [exact H4|]. split; [exact H3|].
    intros Hne. split; [apply H5, Hne|exact H4].
  - intros W P response s t Hb H. unfold Fetch.readBodyText in H. rewrite Hb in H.
    apply rbind_Ok in H as (r & Hr & [= <-]). simpl.
    destruct (HR s r Hr) as (H1 & H2 & _). rewrite H2, H1.
    split; [reflexivity|]. unfold Exec.byteLength. rewrite length_firstn. lia.
Qed.

Lemma collectors_keep_first_cap_bytes_witness :
  Exec.collected
    (feed 3 [Exec.BufferChunk [Byte.x61; Byte.x62]; Exec.StringChunk "x";
             Exec.BufferChunk [Byte.x63; Byte.x64; Byte.x65]])
  = firstn 3 [Byte.x61; Byte.x62; Byte.x63; Byte.x64; Byte.x65].
Proof.
  apply (collectors_keep_first_cap_bytes 3 ltac:(lia)).
Defined.

(** ** Cancellation of the process runner *)

Lemma killProcessGroup_kills P child p effs :
  Exec.pid child = Some p -> p <> 0%Z ->
  In (Exec.ProcessKill (- p) "SIGKILL") (Exec.killProcessGroup P child effs).
Proof.
  intros Hp Hz. unfold Exec.killProcessGroup. rewrite Hp.
  destruct (p =? 0)%Z eqn:E; [lia|].
  destruct (Exec.processKill P effs (- p)%Z); apply in_or_app; right; simpl; auto.
Qed.

Lemma await_keeps_effects P input hs child ns st e :
  In e (Exec.effects st) -> In e (fst (Exec.await P input hs child st ns)).
Proof.
  intros H. destruct (await_extends P input hs child ns st) as [tl ->].
  apply in_or_app. left. exact H.
Qed.







(** ** Network policy *)

Section Policy.

Context {W : Type} (P : Fetch.Platform W).

Lemma checkAddrs_public h addrs :
  allPublic addrs <-> Fetch.checkAddrs h addrs = Ok tt.
Proof.
  unfold allPublic. induction addrs as [|a addrs IH]; cbn -[Fetch.isPrivateIp].
  - split; auto.
  - split.
    + intros H. inversion H as [|? ? Ha Hr]; subst. rewrite Ha. simpl. apply IH, Hr.
    + destruct (Fetch.isPrivateIp a) as [[|]|e] eqn:E; simpl; try discriminate.
      intros H. constructor; [exact E|apply IH, H].
Qed.

Lemma checkAddrs_private h addrs a :
  In a addrs -> Fetch.isPrivateIp a = Ok true ->
  Forall classified addrs ->
  failsWith (Fetch.checkAddrs h addrs) SSRF_BLOCKED.
Proof.
  intros Hin Ha Hc.
  induction Hc as [|x addrs [b Hx] _ IH]; cbn -[Fetch.isPrivateIp]; [contradiction|].
  rewrite Hx. simpl. destruct b; [apply failsWith_Throw|].
  destruct Hin as [->|Hin]; [congruence|auto].
Qed.

Lemma checkAddrs_blocks h addrs a :
  In a addrs -> Fetch.isPrivateIp a = Ok true ->
  isOk (Fetch.checkAddrs h addrs) = false.
Proof.
  intros Hin Ha.
  destruct (Fetch.checkAddrs h addrs) as [[]|e] eqn:E; [|reflexivity].
  apply checkAddrs_public in E. unfold allPublic in E.
  rewrite List.Forall_forall in E. apply E in Hin. congruence.
Qed.

(** What [assertUrlAllowed] does with a URL whose host is a name. *)
Lemma assertUrlAllowed_name urlString u st :
  nonLiteralHost P urlString u ->
  Fetch.assertUrlAllowed P urlString st
  = match Fetch.lookup P (Fetch.hostname u) (fst st) with
    | (w', Ok addrs) =>
        match Fetch.checkAddrs (Fetch.hostname u) addrs with
        | Ok _ =>
            ((w', (snd st ++ [Fetch.DnsLookup (Fetch.hostname u) (Ok addrs)])
                    ++ [Fetch.PolicyPassed urlString u]), Ok u)
        | Throw e =>
            ((w', snd st ++ [Fetch.DnsLookup (Fetch.hostname u) (Ok addrs)]), Throw e)
        end
    | (w', Throw e) =>
        ((w', snd st ++ [Fetch.DnsLookup (Fetch.hostname u) (Throw e)]),
         Throw (ToolError DNS_FAILED "DNS lookup failed"
                  (VObject (<["hostname" := VString (Fetch.hostname u)]>
                             (<["message" :=
                                 VString match e with
                                         | ToolError _ m _ => m
                                         | OtherError m => m
                                         end]> ∅)))))
    end.
Proof.
  intros ((Hp & Hs & Hu & Hpw & Hh & Hb) & Hip).
  unfold Fetch.assertUrlAllowed. rewrite Hp, Hu, Hpw, Hb, Hip.
  replace (negb (String.eqb (Fetch.protocol u) "http:")
           && negb (String.eqb (Fetch.protocol u) "https:")) with false
    by (destruct Hs as [-> | ->]; reflexivity).
  replace (String.eqb (Fetch.hostname u) "") with false
    by (symmetry; apply String.eqb_neq, Hh).
  cbn -[Fetch.checkAddrs]. unfold Fetch.bind.
  destruct (Fetch.lookup P (Fetch.hostname u) (fst st)) as [w' [addrs|e]]; [|reflexivity].
  unfold Fetch.lift, Fetch.emit, Fetch.ret. cbn -[Fetch.checkAddrs].
  destruct (Fetch.checkAddrs (Fetch.hostname u) addrs); reflexivity.
Qed.

End Policy.

(** ** The guarded redirect fetcher *)

Section Fetcher.

Context {W : Type} (P : Fetch.Platform W).

Variable start : string.

Lemma noRequest_app evs1 evs2 :
  noRequest evs1 -> noRequest evs2 -> noRequest (evs1 ++ evs2).
Proof.
  intros H1 H2 t a Hin. apply in_app_or in Hin as [Hin|Hin];
    [exact (H1 t a Hin)|exact (H2 t a Hin)].
Qed.

Lemma origin_app tr evs urlString :
  origin P start tr urlString -> noRequest evs -> origin P start (tr ++ evs) urlString.
Proof.
  intros [[Hno ->]|(pre0 & us0 & u0 & response & mid & location & nextUrl
                    & -> & Hmid & Hred & Hloc & Hne & Hres & ->)] Hevs.
  - left. split; [apply noRequest_app; assumption|reflexivity].
  - right. exists pre0, us0, u0, response, (mid ++ evs), location, nextUrl.
    split; [rewrite <- !app_assoc; reflexivity|].
    split; [apply noRequest_app; assumption|auto 10].
Qed.

Lemma everyRequestValidated_nil : everyRequestValidated P start [].
Proof. intros pre t a post H. destruct pre; discriminate. Qed.

Lemma everyRequestValidated_app tr evs :
  everyRequestValidated P start tr -> noRequest evs ->
  everyRequestValidated P start (tr ++ evs).
Proof.
  intros Htr Hno pre t a post E.
  apply app_eq_app in E as [l [[E1 E2]|[E1 E2]]].
  - destruct l as [|x l].
    + simpl in E2. exfalso. apply (Hno t a). rewrite <- E2. left. reflexivity.
    + injection E2 as <- E2. apply (Htr pre t a l). exact E1.
  - exfalso. apply (Hno t a). rewrite E2. apply in_or_app. right. left. reflexivity.
Qed.

Lemma everyRequestValidated_request tr urlString u answer :
  everyRequestValidated P start (tr ++ [Fetch.PolicyPassed urlString u]) ->
  passedPolicy P urlString u tr ->
  origin P start tr urlString ->
  everyRequestValidated P start
    ((tr ++ [Fetch.PolicyPassed urlString u]) ++ [Fetch.HttpGet (Fetch.href u) answer]).
Proof.
  intros Htr Hp Ho pre t a post E.
  apply app_eq_app in E as [l [[E1 E2]|[E1 E2]]].
  - destruct l as [|x l].
    + simpl in E2. injection E2 as -> -> ->. rewrite app_nil_r in E1. subst pre.
      exists tr, urlString, u. auto.
    + injection E2 as <- E2. apply (Htr pre t a l). exact E1.
  - destruct l as [|x l].
    + simpl in E2. injection E2 as <- <- <-. rewrite app_nil_r in E1. subst pre.
      exists tr, urlString, u. auto.
    + injection E2 as _ E2. destruct l; discriminate.
Qed.

(** What [assertUrlAllowed] adds to the trace: no request; and when it
    returns, the validation of the URL it returns, as the last event. *)
Lemma assertUrlAllowed_trace urlString st :
  exists mid,
    noRequest mid
    /\ match snd (Fetch.assertUrlAllowed P urlString st) with
       | Ok u =>
           snd (fst (Fetch.assertUrlAllowed P urlString st))
           = (snd st ++ mid) ++ [Fetch.PolicyPassed urlString u]
           /\ passedPolicy P urlString u (snd st ++ mid)
       | Throw _ =>
           snd (fst (Fetch.assertUrlAllowed P urlString st)) = snd st ++ mid
       end.
Proof.
  assert (noRequest []) as Hnil by (intros t a []).
  unfold Fetch.assertUrlAllowed.
  destruct (Fetch.parseURL P urlString) as [u|] eqn:Hp;
    [|exists []; split; [exact Hnil|simpl; rewrite app_nil_r; reflexivity]].
  destruct (negb (String.eqb (Fetch.protocol u) "http:")
            && negb (String.eqb (Fetch.protocol u) "https:")) eqn:Hs;
    [exists []; split; [exact Hnil|simpl; rewrite app_nil_r; reflexivity]|].
  destruct (negb (String.eqb (Fetch.username u) "")
            || negb (String.eqb (Fetch.password u) "")) eqn:Hu;
    [exists []; split; [exact Hnil|simpl; rewrite app_nil_r; reflexivity]|].
  destruct (String.eqb (Fetch.hostname u) "") eqn:Hh;
    [exists []; split; [exact Hnil|simpl; rewrite app_nil_r; reflexivity]|].
  destruct (Fetch.isBlockedHostname (Fetch.hostname u)) eqn:Hb;
    [exists []; split; [exact Hnil|simpl; rewrite app_nil_r; reflexivity]|].
  assert (staticallyAllowed P urlString u) as Hstatic.
  { repeat split; auto.
    - apply andb_false_iff in Hs as [Hs|Hs]; apply negb_false_iff, String.eqb_eq in Hs; auto.
    - apply orb_false_iff in Hu as [Hu _]. apply negb_false_iff, String.eqb_eq in Hu. exact Hu.
    - apply orb_false_iff in Hu as [_ Hu]. apply negb_false_iff, String.eqb_eq in Hu. exact Hu.
    - apply String.eqb_neq. exact Hh. }
  destruct (negb (Net.isIP (Fetch.hostname u) =? 0)%Z) eqn:Hip.
  - unfold Fetch.bind, Fetch.lift, Fetch.emit, Fetch.ret, Fetch.throw.
    cbn -[Fetch.isPrivateIp].
    destruct (Fetch.isPrivateIp (Fetch.hostname u)) as [[|]|e] eqn:Hpriv;
      cbn -[Fetch.isPrivateIp];
      try (exists []; split; [exact Hnil|rewrite app_nil_r; reflexivity]).
    exists []. split; [exact Hnil|]. rewrite app_nil_r. split; [reflexivity|].
    split; [exact Hstatic|]. left. split; [lia|exact Hpriv].
  - unfold Fetch.bind, Fetch.lift, Fetch.emit, Fetch.ret, Fetch.throw.
    cbn -[Fetch.checkAddrs].
    destruct (Fetch.lookup P (Fetch.hostname u) (fst st)) as [w' [addrs|e]];
      cbn -[Fetch.checkAddrs].
    + assert (noRequest [Fetch.DnsLookup (Fetch.hostname u) (Ok addrs)]) as Hdns.
      { intros t a [H|[]]. discriminate. }
      destruct (Fetch.checkAddrs (Fetch.hostname u) addrs) as [[]|e] eqn:Hc;
        cbn -[Fetch.checkAddrs].
      * exists [Fetch.DnsLookup (Fetch.hostname u) (Ok addrs)].
        split; [exact Hdns|]. split; [reflexivity|].
        split; [exact Hstatic|]. right. split; [lia|].
        exists (snd st), addrs. split; [reflexivity|].
        apply (checkAddrs_public (Fetch.hostname u)). exact Hc.
      * exists [Fetch.DnsLookup (Fetch.hostname u) (Ok addrs)].
        split; [exact Hdns|reflexivity].
    + exists [Fetch.DnsLookup (Fetch.hostname u) (Throw e)].
      split; [|reflexivity]. intros t a [H|[]]. discriminate.
Qed.

Lemma fetchLoop_trace fetchFn input n :
  forall current redirects st,
    everyRequestValidated P start (snd st) ->
    origin P start (snd st) current ->
    everyRequestValidated P start
      (snd (fst (Fetch.fetchLoop P fetchFn input n current redirects st))).
Proof.
  induction n as [|n IH]; intros current redirects st Hst Horg; [exact Hst|].
  cbn [Fetch.fetchLoop]. unfold Fetch.bind at 1.
  destruct (assertUrlAllowed_trace current st) as (mid & Hmid & Hres).
  destruct (Fetch.assertUrlAllowed P current st) as [st1 [u|e]]; cbn [fst snd] in *.
  2:{ rewrite Hres. apply everyRequestValidated_app; assumption. }
  destruct Hres as [Htr Hpol].
  pose proof (origin_app _ _ _ Horg Hmid) as Horg1.
  assert (everyRequestValidated P start (snd st1)) as Hst1.
  { rewrite Htr, <- app_assoc. apply everyRequestValidated_app; [exact Hst|].
    intros t a Hin. apply in_app_or in Hin as [Hin|[Hin|[]]]; [|discriminate].
    exact (Hmid t a Hin). }
  unfold Fetch.bind at 1, Fetch.checkSignal.
  destruct (match Fetch.signalAborted P with
            | Some aborted =>
                if aborted (fst st1)
                then (st1, Throw (ToolError ABORTED "Request aborted" VUndefined))
                else (st1, Ok tt)
            | None => (st1, Ok tt)
            end) as [st2 [[]|e]] eqn:Hsig.
  2:{ cbn [fst snd].
      destruct (Fetch.signalAborted P) as [ab|]; [destruct (ab (fst st1))|];
        injection Hsig as <- _; exact Hst1. }
  assert (st2 = st1) as ->.
  { destruct (Fetch.signalAborted P) as [ab|]; [destruct (ab (fst st1))|];
      injection Hsig as <-; reflexivity. }
  unfold Fetch.bind at 1, Fetch.httpGet.
  destruct (fetchFn (Fetch.href u) (fst st1)) as [w2 [response|e]]; cbn [fst snd].
  2:{ rewrite Htr. apply everyRequestValidated_request; [rewrite <- Htr| |]; assumption. }
  assert (everyRequestValidated P start
            (snd st1 ++ [Fetch.HttpGet (Fetch.href u) (Ok response)]))
    as Hst3.
  { rewrite Htr. apply everyRequestValidated_request; [rewrite <- Htr| |]; assumption. }
  destruct (Fetch.isRedirectStatus (Fetch.status response)) eqn:Hred.
  - destruct (Fetch.headersGet (Fetch.headers response) "location") as [location|] eqn:Hloc;
      [|exact Hst3].
    destruct (String.eqb location "") eqn:Hne; [exact Hst3|].
    destruct (Fetch.resolveURL P location u) as [nextUrl|] eqn:Hnext; [|exact Hst3].
    apply IH; [exact Hst3|]. cbn [fst snd].
    right. exists (snd st ++ mid), current, u, response, [], location, nextUrl.
    split; [rewrite Htr, <- !app_assoc; reflexivity|].
    split; [intros t a []|]. apply String.eqb_neq in Hne. auto 10.
  - unfold Fetch.bind, Fetch.lift, Fetch.ret.
    destruct (Fetch.readBodyText P response (Fetch.maxBytes input)); exact Hst3.
Qed.

End Fetcher.

(** C1. Whatever the request, the resolver, the transport and the chain of
    redirects, every GET that [fetchWithGuards] issues goes to the URL
    that [assertUrlAllowed] returned as the event just before it, in the
    same iteration. What was validated is the current target: the URL of
    the request on the first hop, and on every later hop the Location of
    the redirect that answered the request before, resolved against the
    URL of that request. The validated URL has an http or https scheme, no
    userinfo and a host name that is not blocked, and its host is a
    literal address outside the private tables or a name all of whose
    addresses, resolved for this very hop, are outside them. *)
Theorem every_hop_validated_before_request {W : Type} (P : Fetch.Platform W)
    (input : Fetch.FetchRequest) (w : W) :
  everyRequestValidated P (Fetch.url input)
    (snd (fst (Fetch.fetchWithGuards P input (w, [])))).
Proof.
  unfold Fetch.fetchWithGuards.
  destruct (Fetch.fetchImpl P) as [fetchFn|].
  - apply fetchLoop_trace; [apply everyRequestValidated_nil|].
    left. split; [intros t a []|reflexivity].
  - apply everyRequestValidated_nil.
Qed.

(** The test of the design notes: a public page that redirects to a
    private address. The second hop is validated afresh and blocked; the
    only request is the one to the public page. *)
Example public_then_private_redirect :
  exists w tr,
    Fetch.fetchWithGuards sampleFetchPlatform
      (sampleRequest "http://public.example/start") (0%nat, [])
    = ((w, tr ++ [Fetch.HttpGet "http://public.example/start"
                    (Ok (sampleResponse 302 [("location", "http://10.0.0.1/admin")] []))]),
       Throw (ToolError SSRF_BLOCKED "Blocked IP address"
                (VObject (<["host" := VString "10.0.0.1"]> ∅))))
    /\ forall t a, ~ In (Fetch.HttpGet t a) tr.
Proof.
  eexists _, [_; _]. split; [vm_compute; reflexivity|].
  intros t a [H|[H|[]]]; discriminate.
Qed.

(** ** Address arithmetic *)

Local Open Scope Z_scope.

Lemma toInt32_mod z : toUint32 (toInt32 z) = toUint32 z.
Proof.
  unfold toUint32, toInt32.
  rewrite (Z.mod_eq (z + 2 ^ 31) (2 ^ 32)) by lia.
  replace (z + 2 ^ 31 - 2 ^ 32 * ((z + 2 ^ 31) / 2 ^ 32) - 2 ^ 31)
    with (z + (- ((z + 2 ^ 31) / 2 ^ 32)) * 2 ^ 32) by lia.
  apply Z_mod_plus_full.
Qed.

Lemma toInt32_range z : - 2 ^ 31 <= toInt32 z < 2 ^ 31.
Proof. unfold toInt32. pose proof (Z.mod_pos_bound (z + 2 ^ 31) (2 ^ 32)). lia. Qed.

Lemma toInt32_id z : - 2 ^ 31 <= z < 2 ^ 31 -> toInt32 z = z.
Proof. intros H. unfold toInt32. rewrite Z.mod_small; lia. Qed.

Lemma toUint32_id z : 0 <= z < 2 ^ 32 -> toUint32 z = z.
Proof. intros H. unfold toUint32. apply Z.mod_small. lia. Qed.

Lemma toInt32_inj x y : toInt32 x = toInt32 y <-> toUint32 x = toUint32 y.
Proof.
  split; intros H.
  - rewrite <- (toInt32_mod x), <- (toInt32_mod y), H. reflexivity.
  - unfold toInt32, toUint32 in *.
    rewrite <- (Z.add_mod_idemp_l x), <- (Z.add_mod_idemp_l y), H by lia. reflexivity.
Qed.

Lemma toUint32_lor x y : toUint32 (Z.lor x y) = Z.lor (toUint32 x) (toUint32 y).
Proof.
  unfold toUint32. rewrite <- !Z.land_ones by lia. apply Z.land_lor_distr_l.
Qed.

Lemma toUint32_land x y : toUint32 (Z.land x y) = Z.land (toUint32 x) (toUint32 y).
Proof.
  unfold toUint32. rewrite <- !Z.land_ones by lia.
  apply Z.bits_inj'. intros n Hn. rewrite !Z.land_spec.
  destruct (Z.testbit x n), (Z.testbit y n), (Z.testbit (Z.ones 32) n); reflexivity.
Qed.

Lemma toUint32_shl8 x : toUint32 (Z.shiftl x 8) = (toUint32 x * 256) mod 2 ^ 32.
Proof.
  unfold toUint32. rewrite Z.shiftl_mul_pow2 by lia.
  change (2 ^ 8) with 256. rewrite Z.mul_mod_idemp_l by lia. reflexivity.
Qed.

Lemma lor_low8 k n : 0 <= n < 256 -> Z.lor (k * 256) n = k * 256 + n.
Proof.
  intros Hn. rewrite <- Z.lxor_lor, <- Z.add_nocarry_lxor; auto.
  - apply Z.bits_inj'. intros i Hi. rewrite Z.land_spec, Z.bits_0.
    destruct (Z.lt_ge_cases i 8).
    + change 256 with (2 ^ 8). rewrite Z.mul_pow2_bits_low by lia. reflexivity.
    + replace (Z.testbit n i) with false; [apply andb_false_r|].
      symmetry. destruct (Z.eq_dec n 0) as [->|]; [apply Z.bits_0|].
      apply Z.bits_above_log2; [lia|].
      apply Z.log2_lt_pow2; [lia|]. 
      apply Z.lt_le_trans with (2 ^ 8); [lia|]. apply Z.pow_le_mono_r; lia.
  - apply Z.bits_inj'. intros i Hi. rewrite Z.land_spec, Z.bits_0.
    destruct (Z.lt_ge_cases i 8).
    + change 256 with (2 ^ 8). rewrite Z.mul_pow2_bits_low by lia. reflexivity.
    + replace (Z.testbit n i) with false; [apply andb_false_r|].
      symmetry. destruct (Z.eq_dec n 0) as [->|]; [apply Z.bits_0|].
      apply Z.bits_above_log2; [lia|].
      apply Z.log2_lt_pow2; [lia|]. 
      apply Z.lt_le_trans with (2 ^ 8); [lia|]. apply Z.pow_le_mono_r; lia.
Qed.

(** One round of the loop of [ipv4ToInt]. *)
Lemma ipv4_step v acc n :
  toUint32 v = acc -> 0 <= acc < 2 ^ 24 -> 0 <= n < 256 ->
  toUint32 (js_or (js_shl v 8) n) = acc * 256 + n.
Proof.
  intros Hv Ha Hn. unfold js_or, js_shl.
  rewrite toInt32_mod, toUint32_lor, !toInt32_mod.
  change (toUint32 8 mod 32) with 8.
  rewrite toUint32_shl8, toInt32_mod, Hv.
  rewrite (Z.mod_small (acc * 256)) by lia.
  rewrite (toUint32_id n) by lia. apply lor_low8. lia.
Qed.

Lemma land_neg_pow2 x k : 0 <= k -> Z.land x (- 2 ^ k) = 2 ^ k * (x / 2 ^ k).
Proof.
  intros Hk.
  replace (- 2 ^ k) with (Z.lnot (Z.ones k))
    by (rewrite Z.ones_equiv; unfold Z.lnot; lia).
  rewrite <- Z.ldiff_land, Z.ldiff_ones_r by lia.
  rewrite Z.shiftl_mul_pow2, Z.shiftr_div_pow2 by lia. lia.
Qed.

Lemma toInt32_uint v :
  0 <= v < 2 ^ 32 -> toInt32 v = if v <? 2 ^ 31 then v else v - 2 ^ 32.
Proof.
  intros H. unfold toInt32. destruct (v <? 2 ^ 31) eqn:E.
  - rewrite Z.mod_small; lia.
  - replace (v + 2 ^ 31) with (v - 2 ^ 31 + 1 * 2 ^ 32) by lia.
    rewrite Z_mod_plus_full, Z.mod_small; lia.
Qed.

(** The mask of [inCidr], for the prefix lengths 1 to 32. *)
Lemma inCidr_mask m :
  1 <= m <= 32 ->
  js_shl (js_ushr (js_not 0) (32 - m)) (32 - m) = - 2 ^ (32 - m).
Proof.
  intros H.
  assert (forallb (fun m => js_shl (js_ushr (js_not 0) (32 - m)) (32 - m)
                            =? - 2 ^ (32 - m))
            (map Z.of_nat (seq 1 32)) = true) as Hall by (vm_compute; reflexivity).
  rewrite forallb_forall in Hall.
  apply Z.eqb_eq, Hall, in_map_iff. exists (Z.to_nat m).
  split; [lia|]. apply in_seq. lia.
Qed.

Lemma inCidr_div v b m :
  0 <= v < 2 ^ 32 -> 0 <= b < 2 ^ 32 -> 1 <= m <= 32 ->
  Fetch.inCidr v b m = (v / 2 ^ (32 - m) =? b / 2 ^ (32 - m)).
Proof.
  intros Hv Hb Hm. unfold Fetch.inCidr.
  replace (m =? 0) with false by lia.
  rewrite inCidr_mask by lia. unfold js_and.
  set (k := 32 - m). assert (0 <= k <= 31) as Hk by lia.
  assert (0 < 2 ^ k <= 2 ^ 31) as Hp.
  { split; [apply Z.pow_pos_nonneg; lia|apply Z.pow_le_mono_r; lia]. }
  rewrite (toInt32_id (- 2 ^ k)) by lia.
  rewrite !land_neg_pow2 by lia.
  assert (forall x, 0 <= x < 2 ^ 32 ->
            toInt32 (2 ^ k * (toInt32 x / 2 ^ k))
            = 2 ^ k * (x / 2 ^ k) - (if x <? 2 ^ 31 then 0 else 2 ^ 32)) as E.
  { intros x Hx. rewrite (toInt32_uint x Hx).
    assert (2 ^ 32 = 2 ^ (32 - k) * 2 ^ k) as E32
        by (rewrite <- Z.pow_add_r by lia; f_equal; lia).
    destruct (x <? 2 ^ 31) eqn:Ex.
    - pose proof (Z.mul_div_le x (2 ^ k) ltac:(lia)).
      pose proof (Z.div_pos x (2 ^ k) ltac:(lia) ltac:(lia)).
      rewrite toInt32_id; nia.
    - replace (x - 2 ^ 32) with (x + (- 2 ^ (32 - k)) * 2 ^ k) by lia.
      rewrite Z.div_add by lia.
      pose proof (Z.mul_div_le x (2 ^ k) ltac:(lia)).
      assert (2 ^ 31 <= 2 ^ k * (x / 2 ^ k)).
      { assert (2 ^ 31 = 2 ^ (31 - k) * 2 ^ k) as E31
            by (rewrite <- Z.pow_add_r by lia; f_equal; lia).
        assert (2 ^ (31 - k) <= x / 2 ^ k).
        { apply Z.div_le_lower_bound; lia. }
        nia. }
      rewrite toInt32_id; nia. }
  rewrite (E v Hv), (E b Hb).
  pose proof (Z.mul_div_le v (2 ^ k) ltac:(lia)).
  pose proof (Z.mul_div_le b (2 ^ k) ltac:(lia)).
  assert (forall x, 0 <= x < 2 ^ 32 -> (x <? 2 ^ 31) = (2 ^ k * (x / 2 ^ k) <? 2 ^ 31)) as Hside.
  { intros x Hx.
    assert (2 ^ 31 = 2 ^ (31 - k) * 2 ^ k) as E31
        by (rewrite <- Z.pow_add_r by lia; f_equal; lia).
    pose proof (Z.mul_div_le x (2 ^ k) ltac:(lia)).
    destruct (x <? 2 ^ 31) eqn:Ex; symmetry.
    - lia.
    - assert (2 ^ (31 - k) <= x / 2 ^ k) by (apply Z.div_le_lower_bound; lia).
      apply Z.ltb_ge. nia. }
  rewrite (Hside v Hv), (Hside b Hb).
  destruct (v / 2 ^ k =? b / 2 ^ k) eqn:Eq.
  - apply Z.eqb_eq in Eq. rewrite Eq. apply Z.eqb_refl.
  - apply Z.eqb_neq in Eq. apply Z.eqb_neq. intros Hc.
    apply Eq.
    pose proof (Z.div_pos v (2 ^ k) ltac:(lia) ltac:(lia)).
    pose proof (Z.div_pos b (2 ^ k) ltac:(lia) ltac:(lia)).
    apply (Z.mul_reg_l _ _ (2 ^ k)); [lia|].
    destruct (2 ^ k * (v / 2 ^ k) <? 2 ^ 31) eqn:E1,
             (2 ^ k * (b / 2 ^ k) <? 2 ^ 31) eqn:E2; nia.
Qed.

Lemma inCidr_block v b m :
  0 <= v < 2 ^ 32 -> 0 <= b < 2 ^ 32 -> 1 <= m <= 32 ->
  b mod 2 ^ (32 - m) = 0 ->
  Fetch.inCidr v b m = inBlock4 b m v.
Proof.
  intros Hv Hb Hm Hal. rewrite inCidr_div by assumption. unfold inBlock4.
  set (p := 2 ^ (32 - m)) in *.
  assert (0 < p) as Hp by (apply Z.pow_pos_nonneg; lia).
  pose proof (Z.div_mod b p ltac:(lia)) as Eb. rewrite Hal, Z.add_0_r in Eb.
  pose proof (Z.div_mod v p ltac:(lia)) as Ev.
  pose proof (Z.mod_pos_bound v p Hp) as Hr.
  destruct (v / p =? b / p) eqn:E.
  - apply Z.eqb_eq in E. symmetry. apply andb_true_iff. split; nia.
  - apply Z.eqb_neq in E. symmetry. apply andb_false_iff.
    destruct (Z.lt_ge_cases v b); [left; lia|right].
    apply Z.ltb_ge. nia.
Qed.

Lemma privateV4_spec v : 0 <= v < 2 ^ 32 -> Fetch.privateV4 v = specPrivateV4 v.
Proof.
  intros Hv. unfold Fetch.privateV4, specPrivateV4.
  repeat match goal with
         | |- context [Fetch.inCidr v (Fetch.base ?a ?b ?c ?d) ?m] =>
             rewrite (inCidr_block v (Fetch.base a b c d) m Hv
                        ltac:(vm_compute; split; [discriminate|reflexivity])
                        ltac:(lia) ltac:(vm_compute; reflexivity));
             change (Fetch.base a b c d) with (v4num a b c d)
         end.
  reflexivity.
Qed.

Local Close Scope Z_scope.

(** ** Strings *)

Lemma append_nil_l (s : string) : "" +:+ s = s.
Proof. reflexivity. Qed.

Lemma append_cons (c : ascii) (s t : string) : String c s +:+ t = String c (s +:+ t).
Proof. reflexivity. Qed.

Lemma append_nil_r (s : string) : s +:+ "" = s.
Proof. induction s as [|c s IH]; [reflexivity|]. rewrite append_cons, IH. reflexivity. Qed.

Lemma append_assoc (a b c : string) : (a +:+ b) +:+ c = a +:+ (b +:+ c).
Proof.
  induction a as [|x a IH]; [reflexivity|]. rewrite !append_cons, IH. reflexivity.
Qed.

Ltac sapp := rewrite ?append_nil_l, ?append_cons in *.

(** ** The matcher accepts the language of its expression *)

Lemma den_nullable r : den r "" -> Net.nullable r = true.
Proof.
  induction r as [| |p|a IHa b IHb|a IHa b IHb]; simpl.
  - contradiction.
  - reflexivity.
  - intros (c & H & _). discriminate.
  - intros (s1 & s2 & H & H1 & H2).
    destruct s1; [|discriminate]. sapp. subst s2.
    rewrite IHa, IHb by assumption. reflexivity.
  - intros [H|H]; [rewrite IHa by assumption|rewrite IHb by assumption];
      [reflexivity|apply orb_true_r].
Qed.

Lemma den_cat a b s : den (Net.Cat a b) s -> den (Net.cat a b) s.
Proof.
  simpl. intros (s1 & s2 & -> & H1 & H2).
  destruct a; try contradiction; destruct b; try contradiction; simpl in *;
    try (subst s1; sapp; first [exact H2 | eauto]); eauto 10.
Qed.

Lemma den_alt a b s : den (Net.Alt a b) s -> den (Net.alt a b) s.
Proof.
  simpl. intros [H|H]; destruct a; try contradiction; destruct b; try contradiction;
    simpl in *; auto.
Qed.

Lemma den_deriv r : forall c s, den r (String c s) -> den (Net.deriv c r) s.
Proof.
  induction r as [| |p|a IHa b IHb|a IHa b IHb]; intros c s; simpl.
  - contradiction.
  - discriminate.
  - intros (x & [= -> ->] & Hp). rewrite Hp. reflexivity.
  - intros (s1 & s2 & E & H1 & H2).
    destruct s1 as [|x s1]; sapp.
    + subst s2. rewrite (den_nullable a H1).
      apply den_alt. right. apply IHb. exact H2.
    + injection E as <- ->.
      assert (den (Net.cat (Net.deriv c a) b) (s1 +:+ s2)) as Hc.
      { apply den_cat. exists s1, s2. auto. }
      destruct (Net.nullable a); [apply den_alt; left|]; exact Hc.
  - intros [H|H]; apply den_alt; [left; apply IHa|right; apply IHb]; exact H.
Qed.

Lemma den_matches s : forall r, den r s -> Net.matches r s = true.
Proof.
  induction s as [|c s IH]; intros r H; simpl.
  - apply den_nullable, H.
  - apply IH, den_deriv, H.
Qed.

Lemma nullable_den r : Net.nullable r = true -> den r "".
Proof.
  induction r as [| |p|a IHa b IHb|a IHa b IHb]; simpl; try discriminate.
  - reflexivity.
  - intros H. apply andb_true_iff in H as [Ha Hb]. exists "", "". auto.
  - intros H. apply orb_true_iff in H as [H|H]; auto.
Qed.

Lemma cat_den a b s : den (Net.cat a b) s -> den (Net.Cat a b) s.
Proof.
  destruct a; simpl; try contradiction;
    destruct b; simpl; try contradiction; try (intros; assumption);
    try (intros H; exists "", s; repeat split; solve [auto | exact H]).
Qed.

Lemma alt_den a b s : den (Net.alt a b) s -> den (Net.Alt a b) s.
Proof.
  destruct a; simpl; try contradiction; try (intros; right; assumption);
    destruct b; simpl; try contradiction; try (intros; left; assumption);
    try (intros; assumption); try (intros; right; assumption).
Qed.

Lemma deriv_den r : forall c s, den (Net.deriv c r) s -> den r (String c s).
Proof.
  induction r as [| |p|a IHa b IHb|a IHa b IHb]; intros c s; simpl.
  - contradiction.
  - contradiction.
  - destruct (p c) eqn:Hp; simpl; [|contradiction].
    intros ->. exists c. auto.
  - assert (den (Net.cat (Net.deriv c a) b) s ->
            exists s1 s2, String c s = s1 +:+ s2 /\ den a s1 /\ den b s2) as Hc.
    { intros H. apply cat_den in H. simpl in H. destruct H as (s1 & s2 & -> & H1 & H2).
      exists (String c s1), s2. rewrite append_cons. auto. }
    destruct (Net.nullable a) eqn:Hn; [|exact Hc].
    intros H. apply alt_den in H. simpl in H. destruct H as [H|H]; [auto|].
    exists "", (String c s). rewrite append_nil_l.
    split; [reflexivity|]. split; [apply nullable_den, Hn|apply IHb, H].
  - intros H. apply alt_den in H. simpl in H. destruct H as [H|H]; auto.
Qed.

Lemma matches_den s : forall r, Net.matches r s = true -> den r s.
Proof.
  induction s as [|c s IH]; intros r H; simpl in H.
  - apply nullable_den, H.
  - apply deriv_den, IH, H.
Qed.

(** ** Octets and dotted quads *)

Lemma octetText_all n : octet n -> octetText n = true.
Proof.
  intros Hn.
  assert (forallb octetText (map Z.of_nat (seq 0 256)) = true) as Hall
      by (vm_compute; reflexivity).
  rewrite forallb_forall in Hall. apply Hall, in_map_iff.
  exists (Z.to_nat n). unfold octet in Hn. split; [lia|]. apply in_seq. lia.
Qed.

Lemma octet_facts n :
  octet n ->
  Fetch.testOctet (numToString n) = true
  /\ Fetch.numberOfDigits (numToString n) 0 = n
  /\ forallb_str plainChar (numToString n) = true
  /\ numToString n <> ""
  /\ den Net.v4Seg (numToString n).
Proof.
  intros Hn. pose proof (octetText_all n Hn) as H. unfold octetText in H.
  apply andb_true_iff in H as [H H5]. apply andb_true_iff in H as [H H4].
  apply andb_true_iff in H as [H H3]. apply andb_true_iff in H as [H1 H2].
  split; [exact H1|]. split; [apply Z.eqb_eq, H2|]. split; [exact H3|].
  split; [|apply matches_den, H5].
  intros E. rewrite E in H4. discriminate.
Qed.

Lemma pieceOf_cons x cur s : pieceOf (x :: cur) s = pieceOf cur (String x s).
Proof.
  unfold pieceOf. simpl rev.
  induction (rev cur) as [|y l IH]; [reflexivity|].
  simpl string_of_list_ascii. rewrite !append_cons, IH. reflexivity.
Qed.

Lemma pieceOf_nil s : pieceOf [] s = s.
Proof. reflexivity. Qed.

Lemma prefix_char c x r :
  String.prefix (String c "") (String x r) = Ascii.eqb c x.
Proof.
  simpl. destruct (ascii_dec c x) as [->|Hn].
  - rewrite Ascii.eqb_refl. destruct r; reflexivity.
  - symmetry. apply Ascii.eqb_neq. exact Hn.
Qed.

(** Splitting at a one-character separator. *)
Lemma split_go_free c s :
  forall cur,
    forallb_str (fun x => negb (Ascii.eqb c x)) s = true ->
    split_go (String c "") 0 cur s = [pieceOf cur s].
Proof.
  induction s as [|x s IH]; intros cur H.
  - simpl. unfold pieceOf. rewrite append_nil_r. reflexivity.
  - simpl in H. apply andb_true_iff in H as [Hx Hs].
    cbn [split_go]. rewrite prefix_char.
    apply negb_true_iff in Hx. rewrite Hx.
    rewrite IH by assumption. rewrite pieceOf_cons. reflexivity.
Qed.

Lemma split_go_sep c s rest :
  forall cur,
    forallb_str (fun x => negb (Ascii.eqb c x)) s = true ->
    split_go (String c "") 0 cur (s +:+ String c rest)
    = pieceOf cur s :: split_go (String c "") 0 [] rest.
Proof.
  induction s as [|x s IH]; intros cur H.
  - rewrite append_nil_l. cbn [split_go]. rewrite prefix_char, Ascii.eqb_refl.
    unfold pieceOf. rewrite append_nil_r. reflexivity.
  - simpl in H. apply andb_true_iff in H as [Hx Hs].
    rewrite append_cons. cbn [split_go]. rewrite prefix_char.
    apply negb_true_iff in Hx. rewrite Hx.
    rewrite IH by assumption. rewrite pieceOf_cons. reflexivity.
Qed.

Lemma forallb_str_impl (p q : ascii -> bool) s :
  (forall c, p c = true -> q c = true) ->
  forallb_str p s = true -> forallb_str q s = true.
Proof.
  intros Hpq. induction s as [|c s IH]; simpl; [reflexivity|].
  intros H. apply andb_true_iff in H as [Hc Hs].
  rewrite (Hpq c Hc), IH by assumption. reflexivity.
Qed.

Lemma plain_no_dot s :
  forallb_str plainChar s = true ->
  forallb_str (fun x => negb (Ascii.eqb "." x)) s = true.
Proof.
  apply forallb_str_impl. intros c H. unfold plainChar in H.
  repeat (apply andb_true_iff in H as [H ?]).
  rewrite Ascii.eqb_sym. exact H.
Qed.

Lemma plain_no_colon s :
  forallb_str plainChar s = true ->
  forallb_str (fun x => negb (Ascii.eqb ":" x)) s = true.
Proof.
  apply forallb_str_impl. intros c H. unfold plainChar in H.
  repeat (apply andb_true_iff in H as [H ?]).
  rewrite Ascii.eqb_sym. assumption.
Qed.

Lemma split_dotted a b c d :
  octet a -> octet b -> octet c -> octet d ->
  split "." (dotted a b c d)
  = [numToString a; numToString b; numToString c; numToString d].
Proof.
  intros Ha Hb Hc Hd.
  destruct (octet_facts a Ha) as (_ & _ & Pa & _).
  destruct (octet_facts b Hb) as (_ & _ & Pb & _).
  destruct (octet_facts c Hc) as (_ & _ & Pc & _).
  destruct (octet_facts d Hd) as (_ & _ & Pd & _).
  unfold split, dotted. rewrite !append_cons, !append_nil_l.
  rewrite !split_go_sep by (apply plain_no_dot; assumption).
  rewrite split_go_free by (apply plain_no_dot; assumption).
  reflexivity.
Qed.

Lemma ipv4ToInt_dotted a b c d :
  octet a -> octet b -> octet c -> octet d ->
  Fetch.ipv4ToInt (dotted a b c d) = Some (v4num a b c d).
Proof.
  intros Ha Hb Hc Hd. unfold Fetch.ipv4ToInt.
  rewrite split_dotted by assumption. cbn [length Nat.eqb negb Fetch.ipv4Loop].
  destruct (octet_facts a Ha) as (Ta & Na & _).
  destruct (octet_facts b Hb) as (Tb & Nb & _).
  destruct (octet_facts c Hc) as (Tc & Nc & _).
  destruct (octet_facts d Hd) as (Td & Nd & _).
  rewrite Ta, Tb, Tc, Td, Na, Nb, Nc, Nd. cbn [negb].
  unfold octet in *.
  replace ((a <? 0) || (a >? 255))%Z with false by lia.
  replace ((b <? 0) || (b >? 255))%Z with false by lia.
  replace ((c <? 0) || (c >? 255))%Z with false by lia.
  replace ((d <? 0) || (d >? 255))%Z with false by lia.
  f_equal. unfold js_ushr. change (toUint32 0 mod 32)%Z with 0%Z. rewrite Z.shiftr_0_r.
  assert (toUint32 (js_or (js_shl 0 8) a) = a) as E1.
  { rewrite (ipv4_step 0 0 a); [lia|reflexivity|lia|lia]. }
  assert (toUint32 (js_or (js_shl (js_or (js_shl 0 8) a) 8) b) = a * 256 + b)%Z as E2.
  { apply ipv4_step; [exact E1|lia|lia]. }
  assert (toUint32 (js_or (js_shl (js_or (js_shl (js_or (js_shl 0 8) a) 8) b) 8) c)
          = (a * 256 + b) * 256 + c)%Z as E3.
  { apply ipv4_step; [exact E2|lia|lia]. }
  rewrite (ipv4_step _ ((a * 256 + b) * 256 + c)%Z d); [unfold v4num; lia|exact E3|lia|lia].
Qed.

Lemma v4num_range a b c d :
  octet a -> octet b -> octet c -> octet d -> (0 <= v4num a b c d < 2 ^ 32)%Z.
Proof. unfold octet, v4num. lia. Qed.

Lemma den_chr c : den (Net.chr c) (String c "").
Proof. exists c. split; [reflexivity|apply Ascii.eqb_refl]. Qed.

Lemma den_dotted a b c d :
  octet a -> octet b -> octet c -> octet d -> den Net.v4Str (dotted a b c d).
Proof.
  intros Ha Hb Hc Hd.
  destruct (octet_facts a Ha) as (_ & _ & _ & _ & Da).
  destruct (octet_facts b Hb) as (_ & _ & _ & _ & Db).
  destruct (octet_facts c Hc) as (_ & _ & _ & _ & Dc).
  destruct (octet_facts d Hd) as (_ & _ & _ & _ & Dd).
  unfold Net.v4Str. cbn [den Net.times].
  exists ((numToString a +:+ ".") +:+ (numToString b +:+ ".")
            +:+ (numToString c +:+ ".") +:+ ""), (numToString d).
  split; [unfold dotted; rewrite !append_assoc, ?append_nil_l; reflexivity|].
  split; [|exact Dd].
  exists (numToString a +:+ "."), ((numToString b +:+ ".") +:+ (numToString c +:+ ".") +:+ "").
  split; [reflexivity|]. split; [exists (numToString a), "."; auto using den_chr|].
  exists (numToString b +:+ "."), ((numToString c +:+ ".") +:+ "").
  split; [reflexivity|]. split; [exists (numToString b), "."; auto using den_chr|].
  exists (numToString c +:+ "."), "".
  split; [reflexivity|]. split; [exists (numToString c), "."; auto using den_chr|].
  reflexivity.
Qed.

Lemma isIP_dotted a b c d :
  octet a -> octet b -> octet c -> octet d -> Net.isIP (dotted a b c d) = 4%Z.
Proof.
  intros Ha Hb Hc Hd. unfold Net.isIP, Net.isIPv4.
  rewrite (den_matches _ _ (den_dotted a b c d Ha Hb Hc Hd)). reflexivity.
Qed.

(** The IPv4 branch of [isPrivateIp], at any depth of the calls. *)
Lemma isPrivateIpFuel_dotted fuel a b c d :
  octet a -> octet b -> octet c -> octet d ->
  Fetch.isPrivateIpFuel (S fuel) (dotted a b c d)
  = Some (Ok (specPrivateV4 (v4num a b c d))).
Proof.
  intros Ha Hb Hc Hd. cbn [Fetch.isPrivateIpFuel].
  rewrite isIP_dotted, ipv4ToInt_dotted by assumption. cbn [Z.eqb Pos.eqb].
  rewrite privateV4_spec by (apply v4num_range; assumption). reflexivity.
Qed.

(** ** Groups of hexadecimal digits *)

Lemma hexCharText_all c : hexCharText c = true.
Proof. destruct c as [[] [] [] [] [] [] [] []]; vm_compute; reflexivity. Qed.

Lemma lowerHex_groupChar c : Fetch.isLowerHexDigit c = true -> groupChar c = true.
Proof.
  destruct c as [[] [] [] [] [] [] [] []]; vm_compute; intros H;
    first [reflexivity | discriminate].
Qed.

Lemma hexVal_lower c v :
  hexVal c = Some v ->
  Fetch.isLowerHexDigit (lowerChar c) = true
  /\ Fetch.hexDigitValue (lowerChar c) = v
  /\ (0 <= v < 16)%Z.
Proof.
  intros H. pose proof (hexCharText_all c) as Hc. unfold hexCharText in Hc.
  rewrite H in Hc.
  apply andb_true_iff in Hc as [Hc H4]. apply andb_true_iff in Hc as [Hc H3].
  apply andb_true_iff in Hc as [H1 H2].
  split; [exact H1|]. split; lia.
Qed.

Lemma length_toLowerCase s : String.length (toLowerCase s) = String.length s.
Proof. induction s as [|c s IH]; simpl; [reflexivity|]. rewrite IH. reflexivity. Qed.

Lemma toLowerCase_append a b : toLowerCase (a +:+ b) = toLowerCase a +:+ toLowerCase b.
Proof.
  induction a as [|c a IH]; [reflexivity|].
  rewrite append_cons. simpl. rewrite IH, append_cons. reflexivity.
Qed.

Lemma toLowerCase_plain s : forallb_str plainChar s = true -> toLowerCase s = s.
Proof.
  induction s as [|c s IH]; simpl; [reflexivity|].
  intros H. apply andb_true_iff in H as [Hc Hs]. rewrite IH by assumption.
  unfold plainChar in Hc. apply andb_true_iff in Hc as [_ Hc].
  apply Ascii.eqb_eq in Hc. rewrite Hc. reflexivity.
Qed.

Lemma group_chars g acc :
  forallb_str (fun c => match hexVal c with Some _ => true | None => false end) g = true ->
  (0 <= acc)%Z ->
  forallb_str Fetch.isLowerHexDigit (toLowerCase g) = true
  /\ Fetch.parseHex (toLowerCase g) acc = groupValueFrom g acc
  /\ (16 ^ Z.of_nat (String.length g) * acc <= groupValueFrom g acc
      < 16 ^ Z.of_nat (String.length g) * (acc + 1))%Z.
Proof.
  revert acc. induction g as [|c g IH]; intros acc H Hacc.
  - simpl. repeat split; lia.
  - simpl in H. apply andb_true_iff in H as [Hc Hg].
    destruct (hexVal c) as [v|] eqn:Hv; [|discriminate].
    destruct (hexVal_lower c v Hv) as (L1 & L2 & L3).
    destruct (IH (16 * acc + v)%Z Hg ltac:(lia)) as (I1 & I2 & I3).
    cbn [toLowerCase forallb_str Fetch.parseHex groupValueFrom String.length].
    rewrite Hv, L1, L2, I1, I2.
    replace (Z.of_nat (S (String.length g))) with (Z.of_nat (String.length g) + 1)%Z by lia.
    rewrite Z.pow_add_r by lia.
    assert (0 < 16 ^ Z.of_nat (String.length g))%Z by (apply Z.pow_pos_nonneg; lia).
    repeat split; try reflexivity; nia.
Qed.

Lemma group_lower g :
  isGroup g ->
  Fetch.testHextet (toLowerCase g) = true
  /\ Fetch.parseHex (toLowerCase g) 0 = groupValue g
  /\ (0 <= groupValue g < 65536)%Z.
Proof.
  intros [Hlen Hch].
  destruct (group_chars g 0 Hch ltac:(lia)) as (H1 & H2 & H3).
  unfold Fetch.testHextet, groupValue. rewrite length_toLowerCase, H1.
  split; [|split; [exact H2|]].
  - apply andb_true_iff. split; [|reflexivity]. lia.
  - assert (16 ^ Z.of_nat (String.length g) <= 16 ^ 4)%Z
      by (apply Z.pow_le_mono_r; lia).
    lia.
Qed.

(** A group in lower case, as the code tests it. *)
Lemma testHextet_chars g :
  Fetch.testHextet g = true -> g <> "" /\ forallb_str groupChar g = true.
Proof.
  unfold Fetch.testHextet. intros H.
  apply andb_true_iff in H as [H H3]. apply andb_true_iff in H as [H1 H2].
  split; [intros ->; discriminate|].
  revert H3. apply forallb_str_impl, lowerHex_groupChar.
Qed.

(** ** Texts of colon-separated groups *)

Lemma prefix_dcolon a r :
  String.prefix "::" (String a r)
  = Ascii.eqb ":" a && match r with
                       | String b _ => Ascii.eqb ":" b
                       | EmptyString => false
                       end.
Proof.
  change "::" with (String ":" (String ":" "")). cbn [String.prefix].
  destruct (ascii_dec ":" a) as [<-|Hn].
  - rewrite Ascii.eqb_refl. cbn [andb]. destruct r as [|b r]; [reflexivity|].
    cbn [String.prefix].
    destruct (ascii_dec ":" b) as [<-|Hb].
    + rewrite Ascii.eqb_refl. destruct r; reflexivity.
    + symmetry. apply Ascii.eqb_neq. exact Hb.
  - apply Ascii.eqb_neq in Hn. rewrite Hn. reflexivity.
Qed.

Lemma tame_no_prefix c r : tame (String c r) = true -> String.prefix "::" (String c r) = false.
Proof.
  intros H. rewrite prefix_dcolon. cbn [tame] in H. apply andb_true_iff in H as [H _].
  destruct (Ascii.eqb ":" c); [|reflexivity].
  destruct r as [|d r]; [discriminate|]. apply negb_true_iff in H. rewrite H. reflexivity.
Qed.

Lemma tame_tail c r : tame (String c r) = true -> tame r = true.
Proof. cbn [tame]. intros H. apply andb_true_iff in H as [_ H]. exact H. Qed.

Lemma tame_no_prefix_app c s r :
  tame (String c s) = true ->
  String.prefix "::" (String c (s +:+ "::" +:+ r)) = false.
Proof.
  intros H. rewrite prefix_dcolon. cbn [tame] in H. apply andb_true_iff in H as [H _].
  destruct (Ascii.eqb ":" c); [|reflexivity].
  destruct s as [|d s]; [discriminate|]. rewrite append_cons.
  apply negb_true_iff in H. rewrite H. reflexivity.
Qed.

Lemma split2_end s :
  forall cur, tame s = true -> split_go "::" 0 cur s = [pieceOf cur s].
Proof.
  induction s as [|c s IH]; intros cur H.
  - simpl. unfold pieceOf. rewrite append_nil_r. reflexivity.
  - cbn [split_go]. rewrite (tame_no_prefix c s H).
    rewrite IH by (apply (tame_tail c s H)). rewrite pieceOf_cons. reflexivity.
Qed.

Lemma split2_mid s r :
  forall cur,
    tame s = true ->
    split_go "::" 0 cur (s +:+ "::" +:+ r) = pieceOf cur s :: split_go "::" 0 [] r.
Proof.
  induction s as [|c s IH]; intros cur H.
  - rewrite append_nil_l. change ("::" +:+ r) with (String ":" (String ":" r)).
    cbn [split_go]. rewrite prefix_dcolon. cbn.
    unfold pieceOf. rewrite append_nil_r. reflexivity.
  - rewrite append_cons. cbn [split_go]. rewrite (tame_no_prefix_app c s r H).
    rewrite IH by (apply (tame_tail c s H)). rewrite pieceOf_cons. reflexivity.
Qed.

Lemma includes_tame s : tame s = true -> includes s "::" = false.
Proof.
  induction s as [|c s IH]; intros H; [reflexivity|].
  cbn [includes]. rewrite (tame_no_prefix c s H), IH by (apply (tame_tail c s H)).
  reflexivity.
Qed.

Lemma includes_mid s r : includes (s +:+ "::" +:+ r) "::" = true.
Proof.
  induction s as [|c s IH].
  - rewrite append_nil_l. destruct r; reflexivity.
  - rewrite append_cons. cbn [includes]. rewrite IH. apply orb_true_r.
Qed.

Lemma groupChar_plain s : forallb_str groupChar s = true -> forallb_str plainChar s = true.
Proof.
  apply forallb_str_impl. intros c H. unfold groupChar in H.
  apply andb_true_iff in H as [_ H]. exact H.
Qed.

(** A text without colons, then possibly a colon and a tame rest that does
    not start with a colon. *)
Lemma tame_free s : forallb_str plainChar s = true -> tame s = true.
Proof.
  induction s as [|c s IH]; cbn [tame forallb_str]; [reflexivity|].
  intros H. apply andb_true_iff in H as [Hc Hs]. rewrite IH by assumption.
  unfold plainChar in Hc. repeat (apply andb_true_iff in Hc as [Hc ?]).
  rewrite Ascii.eqb_sym.
  match goal with H : negb (Ascii.eqb c ":") = true |- _ =>
    apply negb_true_iff in H; rewrite H end.
  reflexivity.
Qed.

Lemma tame_app_colon s x r :
  forallb_str plainChar s = true -> plainChar x = true -> tame (String x r) = true ->
  tame (s +:+ ":" +:+ String x r) = true.
Proof.
  intros Hs Hx Hr. induction s as [|c s IH].
  - rewrite append_nil_l.
    change (tame (":" +:+ String x r))
      with ((if Ascii.eqb ":" ":" then negb (Ascii.eqb ":" x) else true)
            && tame (String x r)).
    rewrite Ascii.eqb_refl, Hr.
    unfold plainChar in Hx. repeat (apply andb_true_iff in Hx as [Hx ?]).
    rewrite Ascii.eqb_sym.
    match goal with H : negb (Ascii.eqb x ":") = true |- _ => rewrite H end.
    reflexivity.
  - cbn [forallb_str] in Hs. apply andb_true_iff in Hs as [Hc Hs].
    rewrite append_cons.
    change (tame (String c (s +:+ ":" +:+ String x r)))
      with ((if Ascii.eqb ":" c
             then match s +:+ ":" +:+ String x r with
                  | String d _ => negb (Ascii.eqb ":" d)
                  | EmptyString => false
                  end
             else true) && tame (s +:+ ":" +:+ String x r)).
    rewrite (IH Hs).
    unfold plainChar in Hc. repeat (apply andb_true_iff in Hc as [Hc ?]).
    rewrite Ascii.eqb_sym.
    match goal with H : negb (Ascii.eqb c ":") = true |- _ =>
      apply negb_true_iff in H; rewrite H end.
    reflexivity.
Qed.

Lemma lowGroup_first g :
  Fetch.testHextet g = true ->
  forallb_str plainChar g = true
  /\ exists x r, g = String x r /\ plainChar x = true.
Proof.
  intros H. destruct (testHextet_chars g H) as [Hne Hch].
  apply groupChar_plain in Hch. split; [exact Hch|].
  destruct g as [|x r]; [contradiction|]. exists x, r. split; [reflexivity|].
  cbn [forallb_str] in Hch. apply andb_true_iff in Hch as [Hx _]. exact Hx.
Qed.

Lemma joinColon_cons g g2 rest :
  joinColon (g :: g2 :: rest) = g +:+ String ":" (joinColon (g2 :: rest)).
Proof. reflexivity. Qed.

Lemma joinColon_tame gs :
  lowGroups gs ->
  tame (joinColon gs) = true
  /\ (gs <> [] -> exists x r, joinColon gs = String x r /\ plainChar x = true).
Proof.
  induction 1 as [|g rest Hg Hrest IH]; [split; [reflexivity|contradiction]|].
  destruct (lowGroup_first g Hg) as (Hplain & x & r & -> & Hx).
  destruct rest as [|g2 rest].
  - split; [apply tame_free, Hplain|]. intros _. exists x, r. auto.
  - destruct IH as [IH1 IH2]. destruct (IH2 ltac:(discriminate)) as (y & r2 & E & Hy).
    rewrite joinColon_cons, E. split.
    + apply (tame_app_colon (String x r) y r2 Hplain Hy). rewrite <- E. exact IH1.
    + intros _. exists x, (r +:+ String ":" (String y r2)). auto.
Qed.

Lemma split_colon_join gs :
  lowGroups gs -> gs <> [] -> split ":" (joinColon gs) = gs.
Proof.
  induction 1 as [|g rest Hg Hrest IH]; [contradiction|]. intros _.
  destruct (lowGroup_first g Hg) as (Hplain & _).
  apply plain_no_colon in Hplain. unfold split in *.
  destruct rest as [|g2 rest].
  - cbn [joinColon]. rewrite split_go_free by assumption. reflexivity.
  - rewrite joinColon_cons, split_go_sep by assumption.
    rewrite IH by discriminate. reflexivity.
Qed.

Lemma groupsOf_join gs :
  lowGroups gs -> Fetch.groupsOf (Some (joinColon gs)) = gs.
Proof.
  intros H. unfold Fetch.groupsOf. destruct gs as [|g rest]; [reflexivity|].
  destruct (joinColon_tame _ H) as [_ Hf].
  destruct (Hf ltac:(discriminate)) as (x & r & E & _). rewrite E at 1.
  cbn [String.eqb]. rewrite split_colon_join by (assumption || discriminate).
  clear E Hf. induction H as [|g' rest' Hg' _ IH]; [reflexivity|].
  cbn [List.filter]. destruct (testHextet_chars g' Hg') as [Hne _].
  replace (String.eqb g' "") with false by (symmetry; apply String.eqb_neq, Hne).
  cbn [negb]. rewrite IH. reflexivity.
Qed.

Lemma split_dcolon_plain gs :
  lowGroups gs -> split "::" (joinColon gs) = [joinColon gs].
Proof.
  intros H. unfold split. rewrite split2_end by (apply joinColon_tame, H). reflexivity.
Qed.

Lemma split_dcolon_elided hs ts :
  lowGroups hs -> lowGroups ts ->
  split "::" (joinColon hs +:+ "::" +:+ joinColon ts) = [joinColon hs; joinColon ts].
Proof.
  intros Hh Ht. unfold split.
  rewrite split2_mid by (apply joinColon_tame, Hh).
  rewrite split2_end by (apply joinColon_tame, Ht). reflexivity.
Qed.

(** ** The IPv6 parser *)

Lemma ipv6ToBigInt_halves ip :
  Fetch.ipv6ToBigInt ip
  = rbind (ipv6Left (toLowerCase ip)) (fun le => ipv6Rest (fst le) (snd le)).
Proof.
  unfold Fetch.ipv6ToBigInt, ipv6Left, ipv6Rest.
  destruct (negb (lastIndexOf (toLowerCase ip) "." =? -1)%Z); [|reflexivity].
  destruct (Fetch.ipv4ToInt _); reflexivity.
Qed.

Lemma hextetNums_low gs :
  lowGroups gs -> Fetch.hextetNums gs = Ok (parsedGroups gs).
Proof.
  induction 1 as [|g rest Hg _ IH]; [reflexivity|].
  cbn [Fetch.hextetNums]. rewrite Hg, IH. reflexivity.
Qed.

Lemma foldHextets_Some l :
  forall acc,
    Fetch.foldHextets (map Some l) acc
    = Ok (fold_left (fun a h => (a * 2 ^ 16 + h)%Z) l acc).
Proof.
  induction l as [|h l IH]; intros acc; [reflexivity|].
  cbn [map Fetch.foldHextets fold_left]. rewrite IH, Z.shiftl_mul_pow2 by lia.
  reflexivity.
Qed.

Lemma arraySet_last_two (l : list Z) e0 e1 :
  length l = 8%nat ->
  Fetch.arraySet (Fetch.arraySet (map Some l) 6 e0) 7 e1
  = map Some (firstn 6 l ++ [e0; e1]).
Proof.
  intros H. do 8 (destruct l as [|? l]; [discriminate|]).
  destruct l; [reflexivity|discriminate].
Qed.

Lemma parsedGroups_length gs : length (parsedGroups gs) = length gs.
Proof. apply length_map. Qed.

Lemma parsedGroups_app a b : parsedGroups (a ++ b) = parsedGroups a ++ parsedGroups b.
Proof. apply map_app. Qed.

(** The second half, on eight groups. *)
Lemma ipv6Rest_plain gs emb :
  lowGroups gs -> length gs = 8%nat ->
  ipv6Rest (joinColon gs) emb
  = Ok (v6num match emb with
              | Some (e0, e1) => firstn 6 (parsedGroups gs) ++ [e0; e1]
              | None => parsedGroups gs
              end).
Proof.
  intros Hg Hlen. unfold ipv6Rest.
  rewrite split_dcolon_plain by assumption. cbn [lookup list_lookup].
  rewrite groupsOf_join by assumption. cbn [Fetch.groupsOf].
  rewrite includes_tame by (apply joinColon_tame, Hg).
  rewrite Hlen. cbn [negb andb Nat.add Nat.eqb length].
  rewrite hextetNums_low by assumption. cbn [rbind Fetch.hextetNums].
  rewrite app_nil_r.
  destruct emb as [[e0 e1]|].
  - rewrite arraySet_last_two by (rewrite parsedGroups_length; exact Hlen).
    rewrite length_map, length_app, length_firstn, parsedGroups_length, Hlen.
    cbn [negb Nat.min length Nat.add Nat.eqb]. rewrite foldHextets_Some. reflexivity.
  - rewrite length_map, parsedGroups_length, Hlen. cbn [negb Nat.eqb].
    rewrite foldHextets_Some. reflexivity.
Qed.

(** The second half, on groups around "::". *)
Lemma ipv6Rest_elided hs ts emb :
  lowGroups hs -> lowGroups ts -> (length hs + length ts <= 8)%nat ->
  ipv6Rest (joinColon hs +:+ "::" +:+ joinColon ts) emb
  = Ok (v6num match emb with
              | Some (e0, e1) =>
                  firstn 6 (parsedGroups hs
                              ++ repeat 0%Z (8 - length hs - length ts)
                              ++ parsedGroups ts) ++ [e0; e1]
              | None =>
                  parsedGroups hs ++ repeat 0%Z (8 - length hs - length ts)
                    ++ parsedGroups ts
              end).
Proof.
  intros Hh Ht Hlen. unfold ipv6Rest.
  rewrite split_dcolon_elided by assumption. cbn [lookup list_lookup].
  rewrite !groupsOf_join by assumption.
  rewrite includes_mid. cbn [negb andb].
  rewrite !hextetNums_low by assumption. cbn [rbind].
  rewrite !parsedGroups_length.
  replace (8 - Z.of_nat (length hs + length ts) <? 0)%Z with false by lia.
  replace (Z.to_nat (8 - Z.of_nat (length hs + length ts)))
    with (8 - length hs - length ts)%nat by lia.
  assert (length (parsedGroups hs ++ repeat 0%Z (8 - length hs - length ts)
                    ++ parsedGroups ts) = 8%nat) as Hl.
  { rewrite !length_app, repeat_length, !parsedGroups_length. lia. }
  cbn [rbind].
  destruct emb as [[e0 e1]|].
  - rewrite arraySet_last_two by exact Hl.
    rewrite length_map, length_app, length_firstn, Hl.
    cbn [negb Nat.min length Nat.add Nat.eqb]. rewrite foldHextets_Some. reflexivity.
  - rewrite length_map, Hl. cbn [negb Nat.eqb].
    rewrite foldHextets_Some. reflexivity.
Qed.

(** ** Searching and cutting *)

Lemma lastIndexOf_go_append c a :
  forall b i f,
    lastIndexOf_go c (a +:+ b) i f
    = lastIndexOf_go c b (i + strlen a)%Z (lastIndexOf_go c a i f).
Proof.
  induction a as [|x a IH]; intros b i f.
  - rewrite append_nil_l. unfold strlen. simpl. rewrite Z.add_0_r. reflexivity.
  - rewrite append_cons. cbn [lastIndexOf_go]. rewrite IH. f_equal.
    unfold strlen. cbn [String.length]. lia.
Qed.

Lemma lastIndexOf_go_free c s :
  forall i f,
    forallb_str (fun x => negb (Ascii.eqb c x)) s = true ->
    lastIndexOf_go c s i f = f.
Proof.
  induction s as [|x s IH]; intros i f H; [reflexivity|].
  cbn [forallb_str] in H. apply andb_true_iff in H as [Hx Hs].
  cbn [lastIndexOf_go]. rewrite IH by assumption.
  rewrite Ascii.eqb_sym. apply negb_true_iff in Hx. rewrite Hx. reflexivity.
Qed.

Lemma lastIndexOf_go_nonneg c s :
  forall i f, (0 <= i)%Z -> (0 <= f)%Z -> (0 <= lastIndexOf_go c s i f)%Z.
Proof.
  induction s as [|x s IH]; intros i f Hi Hf; [exact Hf|].
  cbn [lastIndexOf_go]. apply IH; [lia|]. destruct (Ascii.eqb x c); lia.
Qed.

Lemma strlen_nonneg s : (0 <= strlen s)%Z.
Proof. unfold strlen. lia. Qed.

Lemma lastIndexOf_last a c d :
  forallb_str (fun x => negb (Ascii.eqb c x)) d = true ->
  lastIndexOf (a +:+ String c d) c = strlen a.
Proof.
  intros H. unfold lastIndexOf. rewrite lastIndexOf_go_append.
  cbn [lastIndexOf_go]. rewrite Ascii.eqb_refl, lastIndexOf_go_free by assumption.
  lia.
Qed.

Lemma lastIndexOf_present a c d : (0 <= lastIndexOf (a +:+ String c d) c)%Z.
Proof.
  unfold lastIndexOf. rewrite lastIndexOf_go_append. cbn [lastIndexOf_go].
  rewrite Ascii.eqb_refl. pose proof (strlen_nonneg a).
  apply lastIndexOf_go_nonneg; lia.
Qed.

Lemma lastIndexOf_absent s c :
  forallb_str (fun x => negb (Ascii.eqb c x)) s = true -> lastIndexOf s c = (-1)%Z.
Proof. intros H. unfold lastIndexOf. apply lastIndexOf_go_free, H. Qed.

Lemma drop_str_append a b : drop_str (String.length a) (a +:+ b) = b.
Proof. induction a as [|x a IH]; [destruct b; reflexivity|]. rewrite append_cons. exact IH. Qed.

Lemma take_str_append a b : take_str (String.length a) (a +:+ b) = a.
Proof.
  induction a as [|x a IH]; [destruct b; reflexivity|].
  rewrite append_cons. cbn [String.length take_str]. rewrite IH. reflexivity.
Qed.

Lemma sliceFrom_after a c d : sliceFrom (a +:+ String c d) (strlen a + 1) = d.
Proof.
  unfold sliceFrom, strlen.
  replace (Z.to_nat (Z.of_nat (String.length a) + 1)) with (S (String.length a)) by lia.
  replace (a +:+ String c d) with ((a +:+ String c "") +:+ d)
    by (rewrite append_assoc; reflexivity).
  replace (S (String.length a)) with (String.length (a +:+ String c "")).
  - apply drop_str_append.
  - clear. induction a as [|x a IH]; [reflexivity|].
    rewrite append_cons. cbn [String.length]. rewrite IH. reflexivity.
Qed.

Lemma sliceTo_before a b : sliceTo (a +:+ b) (strlen a) = a.
Proof.
  unfold sliceTo. pose proof (strlen_nonneg a).
  replace (strlen a <? 0)%Z with false by lia.
  unfold strlen. rewrite Nat2Z.id. apply take_str_append.
Qed.

Lemma forallb_str_append p a b :
  forallb_str p (a +:+ b) = forallb_str p a && forallb_str p b.
Proof.
  induction a as [|x a IH]; [reflexivity|].
  rewrite append_cons. cbn [forallb_str]. rewrite IH. apply andb_assoc.
Qed.

(** ** The embedded IPv4 groups *)

Local Open Scope Z_scope.

Lemma js_ushr_uint v k :
  0 <= v < 2 ^ 32 -> 0 <= k < 32 -> js_ushr v k = v / 2 ^ k.
Proof.
  intros Hv Hk. unfold js_ushr. rewrite (toUint32_id v Hv), (toUint32_id k) by lia.
  rewrite Z.mod_small by lia. apply Z.shiftr_div_pow2. lia.
Qed.

Lemma js_and_ones x k :
  0 <= k <= 16 -> js_and x (2 ^ k - 1) = x mod 2 ^ k.
Proof.
  intros Hk.
  assert (0 < 2 ^ k <= 2 ^ 16) as Hp
      by (split; [apply Z.pow_pos_nonneg; lia|apply Z.pow_le_mono_r; lia]).
  unfold js_and. rewrite (toInt32_id (2 ^ k - 1)) by lia.
  replace (2 ^ k - 1) with (Z.ones k) by (rewrite Z.ones_equiv; lia).
  rewrite Z.land_ones by lia.
  pose proof (Z.mod_pos_bound (toInt32 x) (2 ^ k) ltac:(lia)).
  rewrite toInt32_id by lia.
  unfold toInt32.
  rewrite (Z.mod_eq (x + 2 ^ 31) (2 ^ 32)) by lia.
  assert (2 ^ 32 = 2 ^ (32 - k) * 2 ^ k) as E
      by (rewrite <- Z.pow_add_r by lia; f_equal; lia).
  set (q := (x + 2 ^ 31) / 2 ^ 32).
  replace (x + 2 ^ 31 - 2 ^ 32 * q - 2 ^ 31)
    with (x + (- (2 ^ (32 - k) * q)) * 2 ^ k)
    by (transitivity (x - 2 ^ 32 * q); [rewrite E; ring|lia]).
  apply Z_mod_plus_full.
Qed.

Lemma embedded_hextets a b c d :
  octet a -> octet b -> octet c -> octet d ->
  js_and (js_ushr (v4num a b c d) 16) 65535 = a * 256 + b
  /\ js_and (v4num a b c d) 65535 = c * 256 + d.
Proof.
  intros Ha Hb Hc Hd. pose proof (v4num_range a b c d Ha Hb Hc Hd) as Hv.
  rewrite js_ushr_uint by lia.
  change 65535 with (2 ^ 16 - 1). rewrite !js_and_ones by lia.
  unfold octet, v4num in *. split.
  - replace (a * 2 ^ 24 + b * 2 ^ 16 + c * 2 ^ 8 + d)
      with ((c * 256 + d) + (a * 256 + b) * 2 ^ 16) by lia.
    rewrite Z.div_add by lia. rewrite (Z.div_small (c * 256 + d)) by lia.
    rewrite Z.mod_small; lia.
  - replace (a * 2 ^ 24 + b * 2 ^ 16 + c * 2 ^ 8 + d)
      with ((c * 256 + d) + (a * 256 + b) * 2 ^ 16) by lia.
    rewrite Z_mod_plus_full. apply Z.mod_small. lia.
Qed.

Local Close Scope Z_scope.

(** ** The first half of the IPv6 parser *)

Lemma plain_no_dot_char c : plainChar c = true -> negb (Ascii.eqb "." c) = true.
Proof.
  unfold plainChar. intros H. repeat (apply andb_true_iff in H as [H ?]).
  rewrite Ascii.eqb_sym. exact H.
Qed.

Lemma joinColon_no_dot gs :
  lowGroups gs ->
  forallb_str (fun x => negb (Ascii.eqb "." x)) (joinColon gs) = true.
Proof.
  induction 1 as [|g rest Hg _ IH]; [reflexivity|].
  destruct (lowGroup_first g Hg) as (Hplain & _). apply plain_no_dot in Hplain.
  destruct rest as [|g2 rest]; [exact Hplain|].
  rewrite joinColon_cons, forallb_str_append, Hplain. cbn [forallb_str andb].
  exact IH.
Qed.

Lemma ipv6Left_no_dot input :
  forallb_str (fun x => negb (Ascii.eqb "." x)) input = true ->
  ipv6Left input = Ok (input, None).
Proof.
  intros H. unfold ipv6Left. rewrite lastIndexOf_absent by assumption. reflexivity.
Qed.

Lemma dotted_shape a b c d :
  octet a -> octet b -> octet c -> octet d ->
  forallb_str (fun x => negb (Ascii.eqb ":" x)) (dotted a b c d) = true
  /\ forallb_str plainChar (numToString a) = true
  /\ toLowerCase (dotted a b c d) = dotted a b c d
  /\ exists rest, dotted a b c d = numToString a +:+ String "." rest.
Proof.
  intros Ha Hb Hc Hd.
  destruct (octet_facts a Ha) as (_ & _ & Pa & _).
  destruct (octet_facts b Hb) as (_ & _ & Pb & _).
  destruct (octet_facts c Hc) as (_ & _ & Pc & _).
  destruct (octet_facts d Hd) as (_ & _ & Pd & _).
  unfold dotted. split; [|split; [exact Pa|split]].
  - rewrite !forallb_str_append.
    rewrite (plain_no_colon _ Pa), (plain_no_colon _ Pb), (plain_no_colon _ Pc),
      (plain_no_colon _ Pd).
    reflexivity.
  - rewrite !toLowerCase_append.
    rewrite (toLowerCase_plain _ Pa), (toLowerCase_plain _ Pb),
      (toLowerCase_plain _ Pc), (toLowerCase_plain _ Pd).
    reflexivity.
  - eexists. reflexivity.
Qed.

Lemma ipv6Left_v4 pre a b c d :
  octet a -> octet b -> octet c -> octet d ->
  ipv6Left (pre +:+ String ":" (dotted a b c d))
  = Ok (pre +:+ ":0:0", Some (a * 256 + b, c * 256 + d)%Z).
Proof.
  intros Ha Hb Hc Hd.
  destruct (dotted_shape a b c d Ha Hb Hc Hd) as (Hcol & _ & _ & rest & Erest).
  unfold ipv6Left.
  assert (lastIndexOf (pre +:+ String ":" (dotted a b c d)) "." <> -1)%Z as Hdot.
  { rewrite Erest.
    replace (pre +:+ String ":" (numToString a +:+ String "." rest))
      with ((pre +:+ String ":" (numToString a)) +:+ String "." rest)
      by (rewrite append_assoc, append_cons; reflexivity).
    pose proof (lastIndexOf_present (pre +:+ String ":" (numToString a)) "." rest). lia. }
  replace (lastIndexOf (pre +:+ String ":" (dotted a b c d)) "." =? -1)%Z with false by lia.
  cbn [negb]. rewrite lastIndexOf_last by exact Hcol.
  rewrite sliceFrom_after, ipv4ToInt_dotted by assumption.
  rewrite sliceTo_before.
  destruct (embedded_hextets a b c d Ha Hb Hc Hd) as [-> ->]. reflexivity.
Qed.

(** ** From the text forms to the address *)

Lemma toLowerCase_joinColon gs :
  toLowerCase (joinColon gs) = joinColon (map toLowerCase gs).
Proof.
  induction gs as [|g rest IH]; [reflexivity|].
  destruct rest as [|g2 rest]; [reflexivity|].
  rewrite joinColon_cons. cbn [map]. rewrite joinColon_cons.
  rewrite toLowerCase_append. cbn [toLowerCase]. rewrite IH. reflexivity.
Qed.

Lemma groups_lower gs :
  Forall isGroup gs ->
  lowGroups (map toLowerCase gs)
  /\ parsedGroups (map toLowerCase gs) = map groupValue gs.
Proof.
  induction 1 as [|g rest Hg _ [IH1 IH2]]; [split; [constructor|reflexivity]|].
  destruct (group_lower g Hg) as (H1 & H2 & _).
  split; [constructor; assumption|].
  cbn [map parsedGroups]. fold (parsedGroups (map toLowerCase rest)).
  rewrite H2, IH2. reflexivity.
Qed.

Lemma joinColon_snoc gs g :
  gs <> [] -> joinColon (gs ++ [g]) = joinColon gs +:+ String ":" g.
Proof.
  induction gs as [|x rest IH]; [contradiction|]. intros _.
  destruct rest as [|y rest]; [reflexivity|].
  transitivity (x +:+ String ":" (joinColon ((y :: rest) ++ [g]))); [reflexivity|].
  rewrite IH by discriminate.
  rewrite joinColon_cons, append_assoc, append_cons. reflexivity.
Qed.

Lemma lowGroups_zeros : lowGroups ["0"; "0"].
Proof. repeat constructor. Qed.

Lemma lowGroups_app a b : lowGroups a -> lowGroups b -> lowGroups (a ++ b).
Proof. apply Forall_app_2. Qed.

Lemma firstn_exact {A} (n : nat) (a b : list A) :
  length a = n -> firstn n (a ++ b) = a.
Proof.
  intros <-. rewrite firstn_app, firstn_all, Nat.sub_diag. simpl. apply app_nil_r.
Qed.

Lemma joinColon_zeros gs :
  gs <> [] -> joinColon gs +:+ ":0:0" = joinColon (gs ++ ["0"; "0"]).
Proof.
  intros H. change (gs ++ ["0"; "0"]) with (gs ++ ["0"] ++ ["0"]).
  rewrite app_assoc, joinColon_snoc by (destruct gs; [contradiction|discriminate]).
  rewrite joinColon_snoc by assumption.
  rewrite append_assoc. reflexivity.
Qed.

(** The parser reads every text form as the address it stands for. *)
Lemma ipv6ToBigInt_text x :
  wellFormedV6 x -> Fetch.ipv6ToBigInt (renderV6 x) = Ok (addressOf x).
Proof.
  intros Hwf. rewrite ipv6ToBigInt_halves. unfold addressOf.
  destruct x as [gs|hs ts|gs a b c d|hs ts a b c d]; cbn [renderV6 hextetsOf wellFormedV6] in *.
  - destruct Hwf as [Hg Hlen]. destruct (groups_lower gs Hg) as [Hlow Hval].
    rewrite toLowerCase_joinColon, ipv6Left_no_dot by (apply joinColon_no_dot, Hlow).
    cbn [rbind fst snd].
    rewrite ipv6Rest_plain by (rewrite ?length_map; assumption).
    rewrite Hval. reflexivity.
  - destruct Hwf as (Hh & Ht & Hlen).
    destruct (groups_lower hs Hh) as [Lh Vh]. destruct (groups_lower ts Ht) as [Lt Vt].
    rewrite !toLowerCase_append, !toLowerCase_joinColon.
    change (toLowerCase "::") with "::".
    rewrite ipv6Left_no_dot
      by (rewrite !forallb_str_append, !joinColon_no_dot by assumption; reflexivity).
    cbn [rbind fst snd].
    rewrite ipv6Rest_elided by (rewrite ?length_map; assumption || lia).
    rewrite Vh, Vt, !length_map. reflexivity.
  - destruct Hwf as (Hg & Hlen & Ha & Hb & Hc & Hd).
    destruct (groups_lower gs Hg) as [Hlow Hval].
    destruct (dotted_shape a b c d Ha Hb Hc Hd) as (_ & _ & Elow & _).
    rewrite !toLowerCase_append, toLowerCase_joinColon, Elow.
    change (toLowerCase ":") with ":". rewrite append_cons, append_nil_l.
    rewrite ipv6Left_v4 by assumption. cbn [rbind fst snd].
    assert (map toLowerCase gs <> []) as Hne by (destruct gs; [discriminate|discriminate]).
    rewrite joinColon_zeros by exact Hne.
    rewrite ipv6Rest_plain
      by (first [apply lowGroups_app; [assumption|apply lowGroups_zeros]
                | rewrite ?length_app, ?length_map; cbn [length]; lia]).
    rewrite parsedGroups_app, firstn_exact
      by (rewrite parsedGroups_length, length_map; exact Hlen).
    rewrite Hval. reflexivity.
  - destruct Hwf as (Hh & Ht & Hlen & Ha & Hb & Hc & Hd).
    destruct (groups_lower hs Hh) as [Lh Vh]. destruct (groups_lower ts Ht) as [Lt Vt].
    destruct (dotted_shape a b c d Ha Hb Hc Hd) as (_ & _ & Elow & _).
    rewrite !toLowerCase_append, !toLowerCase_joinColon, map_app. cbn [map].
    rewrite Elow. change (toLowerCase "::") with "::".
    assert (ipv6Left (joinColon (map toLowerCase hs) +:+ "::"
                        +:+ joinColon (map toLowerCase ts ++ [dotted a b c d]))
            = Ok (joinColon (map toLowerCase hs) +:+ "::"
                    +:+ joinColon (map toLowerCase ts ++ ["0"; "0"]),
                  Some (a * 256 + b, c * 256 + d)%Z)) as ->.
    { destruct (map toLowerCase ts) as [|t0 lts] eqn:Ets.
      - cbn [app joinColon].
        replace (joinColon (map toLowerCase hs) +:+ "::" +:+ dotted a b c d)
          with ((joinColon (map toLowerCase hs) +:+ ":") +:+ String ":" (dotted a b c d))
          by (rewrite append_assoc; reflexivity).
        rewrite ipv6Left_v4 by assumption. rewrite append_assoc. reflexivity.
      - rewrite joinColon_snoc by discriminate.
        replace (joinColon (map toLowerCase hs) +:+ "::"
                   +:+ joinColon (t0 :: lts) +:+ String ":" (dotted a b c d))
          with ((joinColon (map toLowerCase hs) +:+ "::" +:+ joinColon (t0 :: lts))
                  +:+ String ":" (dotted a b c d))
          by (rewrite !append_assoc; reflexivity).
        rewrite ipv6Left_v4 by assumption.
        rewrite <- joinColon_zeros by discriminate. rewrite !append_assoc. reflexivity. }
    cbn [rbind fst snd].
    rewrite ipv6Rest_elided
      by (first [assumption
                | apply lowGroups_app; [assumption|apply lowGroups_zeros]
                | rewrite ?length_app, ?length_map; cbn [length]; lia]).
    rewrite parsedGroups_app, length_app, !length_map. cbn [length].
    replace (8 - length hs - (length ts + 2))%nat with (6 - length hs - length ts)%nat by lia.
    rewrite Vh, Vt.
    replace (map groupValue hs ++ repeat 0%Z (6 - length hs - length ts)
               ++ map groupValue ts ++ parsedGroups ["0"; "0"])
      with ((map groupValue hs ++ repeat 0%Z (6 - length hs - length ts)
               ++ map groupValue ts) ++ parsedGroups ["0"; "0"])
      by (rewrite <- !app_assoc; reflexivity).
    rewrite firstn_exact by (rewrite !length_app, repeat_length, !length_map; lia).
    rewrite <- !app_assoc. reflexivity.
Qed.

(** ** The IPv6 branch of the classifier *)

Local Open Scope Z_scope.

Lemma ip4OfNumber_dotted v :
  0 <= v < 2 ^ 32 ->
  exists a b c d,
    octet a /\ octet b /\ octet c /\ octet d
    /\ Fetch.ip4OfNumber v = dotted a b c d
    /\ v4num a b c d = v.
Proof.
  intros Hv. unfold Fetch.ip4OfNumber.
  rewrite !js_ushr_uint by lia.
  change 255 with (2 ^ 8 - 1). rewrite !js_and_ones by lia.
  exists ((v / 2 ^ 24) mod 2 ^ 8), ((v / 2 ^ 16) mod 2 ^ 8),
    ((v / 2 ^ 8) mod 2 ^ 8), (v mod 2 ^ 8).
  unfold octet, v4num.
  change (2 ^ 32) with 4294967296 in *. change (2 ^ 24) with 16777216.
  change (2 ^ 16) with 65536. change (2 ^ 8) with 256.
  replace (v / 16777216) with (v / 256 / 256 / 256)
    by (rewrite !Z.div_div by lia; reflexivity).
  replace (v / 65536) with (v / 256 / 256)
    by (rewrite !Z.div_div by lia; reflexivity).
  repeat split; try reflexivity; Z.div_mod_to_equations; lia.
Qed.

Lemma ipv6InCidr_block addr prefix bits :
  0 <= bits <= 128 -> prefix mod 2 ^ (128 - bits) = 0 ->
  Fetch.ipv6InCidr addr prefix bits = inBlock6 prefix bits addr.
Proof.
  intros Hb Hal. unfold Fetch.ipv6InCidr, inBlock6.
  rewrite !Z.shiftr_div_pow2 by lia.
  set (p := 2 ^ (128 - bits)) in *.
  assert (0 < p) as Hp by (apply Z.pow_pos_nonneg; lia).
  pose proof (Z.div_mod prefix p ltac:(lia)) as Eb. rewrite Hal, Z.add_0_r in Eb.
  pose proof (Z.div_mod addr p ltac:(lia)) as Ev.
  pose proof (Z.mod_pos_bound addr p Hp) as Hr.
  destruct (addr / p =? prefix / p) eqn:E.
  - apply Z.eqb_eq in E. symmetry. apply andb_true_iff. split; nia.
  - apply Z.eqb_neq in E. symmetry. apply andb_false_iff.
    destruct (Z.lt_ge_cases addr prefix); [left; lia|right].
    apply Z.ltb_ge. nia.
Qed.

Lemma isPrivateIpFuel_unfold fuel ip :
  Fetch.isPrivateIpFuel (S fuel) ip
  = if Net.isIP ip =? 4 then
      match Fetch.ipv4ToInt ip with
      | None => Some (Ok true)
      | Some v => Some (Ok (Fetch.privateV4 v))
      end
    else if Net.isIP ip =? 6 then
      match Fetch.ipv6ToBigInt ip with
      | Throw e => Some (Throw e)
      | Ok addr =>
          if (addr =? 0) || (addr =? 1) then Some (Ok true)
          else if Z.shiftr addr 32 =? 65535 then
            Fetch.isPrivateIpFuel fuel (Fetch.ip4OfNumber (Z.land addr 4294967295))
          else
            Some (Ok (Fetch.ipv6InCidr addr Fetch.fc00 7 ||
                      Fetch.ipv6InCidr addr Fetch.fe80 10 ||
                      Fetch.ipv6InCidr addr Fetch.ff00 8 ||
                      Fetch.ipv6InCidr addr Fetch.doc 32))
      end
    else Some (Ok true).
Proof. reflexivity. Qed.

Lemma isPrivateIpFuel_v6 ip addr fuel :
  Net.isIP ip = 6 -> Fetch.ipv6ToBigInt ip = Ok addr ->
  Fetch.isPrivateIpFuel (S (S fuel)) ip = Some (Ok (specPrivateV6 addr)).
Proof.
  intros Hip Hparse.
  rewrite isPrivateIpFuel_unfold, Hip, Hparse.
  change (6 =? 4) with false. change (6 =? 6) with true. cbv iota.
  unfold specPrivateV6.
  rewrite (ipv6InCidr_block addr Fetch.fc00 7),
    (ipv6InCidr_block addr Fetch.fe80 10),
    (ipv6InCidr_block addr Fetch.ff00 8),
    (ipv6InCidr_block addr Fetch.doc 32) by (vm_compute; first [reflexivity|split; discriminate]).
  change (v6num [64512; 0; 0; 0; 0; 0; 0; 0]) with Fetch.fc00.
  change (v6num [65152; 0; 0; 0; 0; 0; 0; 0]) with Fetch.fe80.
  change (v6num [65280; 0; 0; 0; 0; 0; 0; 0]) with Fetch.ff00.
  change (v6num [8193; 3512; 0; 0; 0; 0; 0; 0]) with Fetch.doc.
  change (v6num [0; 0; 0; 0; 0; 65535; 0; 0]) with 281470681743360.
  destruct ((addr =? 0) || (addr =? 1)) eqn:E01; [reflexivity|].
  cbn [orb].
  rewrite Z.shiftr_div_pow2 by lia.
  destruct (addr / 2 ^ 32 =? 65535) eqn:Emap.
  - change 4294967295 with (Z.ones 32). rewrite Z.land_ones by lia.
    destruct (ip4OfNumber_dotted (addr mod 2 ^ 32)) as (a & b & c & d & Ha & Hb & Hc & Hd & -> & Ev);
      [apply Z.mod_pos_bound; lia|].
    rewrite isPrivateIpFuel_dotted by assumption. rewrite Ev.
    f_equal. f_equal.
    change (2 ^ 32) with 4294967296 in *.
    assert (281470681743360 <= addr < 281474976710656) as Hr
        by (Z.div_mod_to_equations; lia).
    replace (addr - 281470681743360) with (addr mod 4294967296)
      by (Z.div_mod_to_equations; lia).
    unfold inBlock6, Fetch.fc00, Fetch.fe80, Fetch.ff00, Fetch.doc.
    destruct (specPrivateV4 (addr mod 4294967296)); lia.
  - f_equal. f_equal.
    change (2 ^ 32) with 4294967296 in *.
    assert (~ 281470681743360 <= addr < 281474976710656) as Hr
        by (Z.div_mod_to_equations; lia).
    unfold inBlock6, Fetch.fc00, Fetch.fe80, Fetch.ff00, Fetch.doc.
    destruct (specPrivateV4 (addr - 281470681743360)); lia.
Qed.

Local Close Scope Z_scope.

(** ** The classifier *)

(** ** The text forms are what [net.isIP] takes for IPv6 addresses *)

Lemma den_times r ss :
  Forall (den r) ss -> den (Net.times (length ss) r) (concatStr ss).
Proof.
  induction 1 as [|s ss Hs _ IH]; [reflexivity|].
  cbn [length Net.times concatStr den]. exists s, (concatStr ss). auto.
Qed.

Lemma den_upto r ss :
  Forall (den r) ss ->
  forall m, (length ss <= m)%nat -> den (Net.upto m r) (concatStr ss).
Proof.
  induction 1 as [|s ss Hs _ IH]; intros m Hm.
  - destruct m; [reflexivity|]. cbn [Net.upto Net.opt den concatStr]. right. reflexivity.
  - destruct m; [cbn [length] in Hm; lia|].
    cbn [Net.upto Net.opt den concatStr]. left.
    exists s, (concatStr ss). split; [reflexivity|]. split; [exact Hs|].
    apply IH. cbn [length] in Hm. lia.
Qed.

Lemma concatStr_app a b : concatStr (a ++ b) = concatStr a +:+ concatStr b.
Proof.
  induction a as [|s a IH]; [reflexivity|].
  cbn [app concatStr]. rewrite IH, append_assoc. reflexivity.
Qed.

Lemma den_between r ss m n :
  Forall (den r) ss -> (m <= length ss <= n)%nat ->
  den (Net.between m n r) (concatStr ss).
Proof.
  intros H Hlen. unfold Net.between. cbn [den].
  exists (concatStr (firstn m ss)), (concatStr (skipn m ss)).
  split; [rewrite <- concatStr_app, firstn_skipn; reflexivity|].
  split.
  - replace m with (length (firstn m ss)) at 1 by (rewrite length_firstn; lia).
    apply den_times. apply Forall_take, H.
  - apply den_upto; [apply Forall_drop, H|]. rewrite length_skipn. lia.
Qed.

Lemma hexVal_isHexDigit c v : hexVal c = Some v -> Net.isHexDigit c = true.
Proof.
  destruct c as [[] [] [] [] [] [] [] []]; vm_compute; intros H;
    first [reflexivity | discriminate].
Qed.

Lemma hexVal_v6Char c v :
  hexVal c = Some v -> v6Char c = true /\ negb (Ascii.eqb c "%") = true.
Proof.
  destruct c as [[] [] [] [] [] [] [] []]; vm_compute; intros H;
    first [split; reflexivity | discriminate].
Qed.

Lemma concatStr_digitsOf g : concatStr (digitsOf g) = g.
Proof. induction g as [|c g IH]; [reflexivity|]. cbn [digitsOf concatStr]. rewrite IH. reflexivity. Qed.

Lemma length_digitsOf g : length (digitsOf g) = String.length g.
Proof. induction g as [|c g IH]; [reflexivity|]. cbn [digitsOf length String.length]. rewrite IH. reflexivity. Qed.

Lemma den_v6Seg g : isGroup g -> den Net.v6Seg g.
Proof.
  intros [Hlen Hch]. rewrite <- (concatStr_digitsOf g). unfold Net.v6Seg.
  apply den_between; [|rewrite length_digitsOf; exact Hlen].
  clear Hlen. induction g as [|c g IH]; [constructor|].
  cbn [forallb_str] in Hch. apply andb_true_iff in Hch as [Hc Hg].
  cbn [digitsOf]. constructor; [|apply IH, Hg].
  exists c. split; [reflexivity|].
  destruct (hexVal c) as [v|] eqn:Hv; [|discriminate].
  apply (hexVal_isHexDigit c v Hv).
Qed.

Lemma den_segColon g : isGroup g -> den Net.segColon (g +:+ ":").
Proof.
  intros H. exists g, ":". split; [reflexivity|]. split; [apply den_v6Seg, H|apply den_chr].
Qed.

Lemma den_colonSeg g : isGroup g -> den Net.colonSeg (":" +:+ g).
Proof.
  intros H. exists ":", g. split; [reflexivity|]. split; [apply den_chr|apply den_v6Seg, H].
Qed.

Lemma Forall_segColon gs :
  Forall isGroup gs -> Forall (den Net.segColon) (map (fun g => g +:+ ":") gs).
Proof. induction 1; constructor; [apply den_segColon|]; assumption. Qed.

Lemma Forall_colonSeg gs :
  Forall isGroup gs -> Forall (den Net.colonSeg) (map (fun g => ":" +:+ g) gs).
Proof. induction 1; constructor; [apply den_colonSeg|]; assumption. Qed.

Lemma den_colonAfter gs :
  Forall isGroup gs -> den (Net.times (length gs) Net.segColon) (colonAfter gs).
Proof.
  intros H. unfold colonAfter.
  replace (length gs) with (length (map (fun g => g +:+ ":") gs)) by apply length_map.
  apply den_times, Forall_segColon, H.
Qed.

Lemma colonAfter_cons g gs : colonAfter (g :: gs) = (g +:+ ":") +:+ colonAfter gs.
Proof. reflexivity. Qed.

Lemma colonBefore_cons g gs : colonBefore (g :: gs) = (":" +:+ g) +:+ colonBefore gs.
Proof. reflexivity. Qed.

Lemma joinColon_colonAfter gs :
  gs <> [] -> joinColon gs +:+ ":" = colonAfter gs.
Proof.
  induction gs as [|g rest IH]; [contradiction|]. intros _.
  destruct rest as [|g2 rest].
  - rewrite colonAfter_cons. unfold colonAfter. cbn [joinColon map concatStr].
    rewrite append_nil_r. reflexivity.
  - rewrite joinColon_cons, colonAfter_cons, <- IH by discriminate.
    rewrite !append_assoc. reflexivity.
Qed.

Lemma joinColon_colonBefore gs :
  gs <> [] -> ":" +:+ joinColon gs = colonBefore gs.
Proof.
  induction gs as [|g rest IH]; [contradiction|]. intros _.
  destruct rest as [|g2 rest].
  - rewrite colonBefore_cons. unfold colonBefore. cbn [joinColon map concatStr].
    rewrite append_nil_r. reflexivity.
  - rewrite joinColon_cons, colonBefore_cons, <- IH by discriminate.
    rewrite !append_assoc. reflexivity.
Qed.

Lemma den_tailText V m ts :
  Forall isGroup ts -> (1 <= m)%nat -> (length ts <= m)%nat ->
  den (Net.Alt V (Net.Alt (Net.between 1 m Net.colonSeg) Net.colon)) (tailText ts).
Proof.
  intros H Hm Hlen. cbn [den]. right. destruct ts as [|t ts].
  - right. apply den_chr.
  - left. unfold tailText, colonBefore. apply den_between.
    + apply Forall_colonSeg, H.
    + rewrite length_map. cbn [length] in *. lia.
Qed.

(** The same before a dotted quad. *)
Lemma den_tailV4 W m ts a b c d :
  Forall isGroup ts -> (length ts <= m)%nat ->
  octet a -> octet b -> octet c -> octet d ->
  den (Net.Alt (Net.Cat (Net.upto m Net.colonSeg) (Net.Cat Net.colon Net.v4Str)) W)
    (colonBefore ts +:+ ":" +:+ dotted a b c d).
Proof.
  intros H Hlen Ha Hb Hc Hd. cbn [den]. left.
  exists (colonBefore ts), (":" +:+ dotted a b c d). split; [reflexivity|]. split.
  - unfold colonBefore. apply den_upto; [apply Forall_colonSeg, H|].
    rewrite length_map. exact Hlen.
  - exists ":", (dotted a b c d). split; [reflexivity|].
    split; [apply den_chr|apply den_dotted; assumption].
Qed.

Lemma elided_text hs ts :
  joinColon hs +:+ "::" +:+ joinColon ts
  = match hs with
    | [] => ":" +:+ tailText ts
    | _ :: _ => colonAfter hs +:+ tailText ts
    end.
Proof.
  assert (":" +:+ joinColon ts = tailText ts) as E.
  { destruct ts as [|t ts]; [reflexivity|]. apply joinColon_colonBefore. discriminate. }
  destruct hs as [|h hs].
  - rewrite append_nil_l. change ("::" +:+ joinColon ts) with (":" +:+ ":" +:+ joinColon ts).
    rewrite E. reflexivity.
  - rewrite <- joinColon_colonAfter by discriminate.
    rewrite append_assoc.
    change ("::" +:+ joinColon ts) with (":" +:+ ":" +:+ joinColon ts).
    rewrite E. reflexivity.
Qed.

Lemma elidedV4_text hs ts D :
  joinColon hs +:+ "::" +:+ joinColon (ts ++ [D])
  = match hs with
    | [] => ":" +:+ colonBefore ts +:+ ":" +:+ D
    | _ :: _ => colonAfter hs +:+ colonBefore ts +:+ ":" +:+ D
    end.
Proof.
  assert (":" +:+ joinColon (ts ++ [D]) = colonBefore ts +:+ ":" +:+ D) as E.
  { rewrite joinColon_colonBefore by (destruct ts; discriminate).
    unfold colonBefore. rewrite map_app, concatStr_app. cbn [map concatStr].
    rewrite append_nil_r. reflexivity. }
  destruct hs as [|h hs].
  - rewrite append_nil_l.
    change ("::" +:+ joinColon (ts ++ [D])) with (":" +:+ ":" +:+ joinColon (ts ++ [D])).
    rewrite E. reflexivity.
  - rewrite <- joinColon_colonAfter by discriminate.
    rewrite append_assoc.
    change ("::" +:+ joinColon (ts ++ [D])) with (":" +:+ ":" +:+ joinColon (ts ++ [D])).
    rewrite E. reflexivity.
Qed.

Lemma den_Alt_l a b s : den a s -> den (Net.Alt a b) s.
Proof. intros H. left. exact H. Qed.

Lemma den_Alt_r a b s : den b s -> den (Net.Alt a b) s.
Proof. intros H. right. exact H. Qed.

Lemma den_Cat a b s1 s2 : den a s1 -> den b s2 -> den (Net.Cat a b) (s1 +:+ s2).
Proof. intros H1 H2. exists s1, s2. auto. Qed.

Lemma Forall_isGroup_inv g gs : Forall isGroup (g :: gs) -> isGroup g /\ Forall isGroup gs.
Proof. intros H. inversion H; auto. Qed.

(** Every text form is in the language of the IPv6 expression. *)
Lemma den_v6Body x : wellFormedV6 x -> den Net.v6Body (renderV6 x).
Proof.
  destruct x as [gs|hs ts|gs a b c d|hs ts a b c d]; cbn [wellFormedV6 renderV6].
  - intros [Hg Hlen].
    do 8 (destruct gs as [|? gs]; [discriminate|]). destruct gs; [|discriminate].
    match goal with
    | |- den _ (joinColon [?g1; ?g2; ?g3; ?g4; ?g5; ?g6; ?g7; ?g8]) =>
        replace (joinColon [g1; g2; g3; g4; g5; g6; g7; g8])
          with (colonAfter [g1; g2; g3; g4; g5; g6; g7] +:+ g8)
          by (unfold colonAfter; cbn [map concatStr joinColon];
              rewrite !append_assoc, ?append_nil_l; reflexivity);
        assert (Forall isGroup [g1; g2; g3; g4; g5; g6; g7] /\ isGroup g8) as [H7 H8]
    end.
    { repeat (apply Forall_isGroup_inv in Hg as [? Hg]). split; [repeat (apply List.Forall_cons; [assumption|]); apply List.Forall_nil|assumption]. }
    unfold Net.v6Body. apply den_Alt_l, den_Cat.
    + apply (den_colonAfter _ H7).
    + apply den_Alt_l, den_v6Seg, H8.
  - intros (Hh & Ht & Hlen). rewrite elided_text.
    destruct hs as [|h1 [|h2 [|h3 [|h4 [|h5 [|h6 [|h7 [|h8 hs]]]]]]]];
      cbn [length] in Hlen; try lia; unfold Net.v6Body.
    + do 7 apply den_Alt_r. apply den_Cat; [apply den_chr|].
      apply den_tailText; [assumption|lia|lia].
    + do 6 apply den_Alt_r. apply den_Alt_l, den_Cat; [apply (den_colonAfter _ Hh)|].
      apply den_tailText; [assumption|lia|lia].
    + do 5 apply den_Alt_r. apply den_Alt_l, den_Cat; [apply (den_colonAfter _ Hh)|].
      apply den_tailText; [assumption|lia|lia].
    + do 4 apply den_Alt_r. apply den_Alt_l, den_Cat; [apply (den_colonAfter _ Hh)|].
      apply den_tailText; [assumption|lia|lia].
    + do 3 apply den_Alt_r. apply den_Alt_l, den_Cat; [apply (den_colonAfter _ Hh)|].
      apply den_tailText; [assumption|lia|lia].
    + do 2 apply den_Alt_r. apply den_Alt_l, den_Cat; [apply (den_colonAfter _ Hh)|].
      apply den_tailText; [assumption|lia|lia].
    + apply den_Alt_r, den_Alt_l, den_Cat; [apply (den_colonAfter _ Hh)|].
      destruct ts as [|t [|t2 ts]]; cbn [length] in Hlen; try lia.
      * apply den_Alt_r, den_Alt_r, den_chr.
      * apply den_Alt_r, den_Alt_l. unfold tailText. rewrite colonBefore_cons.
        unfold colonBefore. cbn [map concatStr]. rewrite append_nil_r.
        apply den_colonSeg. apply Forall_isGroup_inv in Ht as [Ht _]. exact Ht.
    + apply den_Alt_l, den_Cat; [apply (den_colonAfter _ Hh)|].
      destruct ts as [|t ts]; cbn [length] in Hlen; try lia.
      apply den_Alt_r, den_chr.
  - intros (Hg & Hlen & Ha & Hb & Hc & Hd).
    replace (joinColon gs +:+ ":" +:+ dotted a b c d)
      with (colonAfter gs +:+ dotted a b c d)
      by (rewrite <- joinColon_colonAfter by (destruct gs; discriminate);
          rewrite append_assoc; reflexivity).
    do 6 (destruct gs as [|? gs]; [discriminate|]). destruct gs; [|discriminate].
    unfold Net.v6Body. apply den_Alt_r, den_Alt_l, den_Cat; [apply (den_colonAfter _ Hg)|].
    apply den_Alt_l, den_dotted; assumption.
  - intros (Hh & Ht & Hlen & Ha & Hb & Hc & Hd). rewrite elidedV4_text.
    destruct hs as [|h1 [|h2 [|h3 [|h4 [|h5 [|h6 hs]]]]]];
      cbn [length] in Hlen; try lia; unfold Net.v6Body.
    + do 7 apply den_Alt_r. apply den_Cat; [apply den_chr|].
      apply den_tailV4; assumption || lia.
    + do 6 apply den_Alt_r. apply den_Alt_l, den_Cat; [apply (den_colonAfter _ Hh)|].
      apply den_tailV4; assumption || lia.
    + do 5 apply den_Alt_r. apply den_Alt_l, den_Cat; [apply (den_colonAfter _ Hh)|].
      apply den_tailV4; assumption || lia.
    + do 4 apply den_Alt_r. apply den_Alt_l, den_Cat; [apply (den_colonAfter _ Hh)|].
      apply den_tailV4; assumption || lia.
    + do 3 apply den_Alt_r. apply den_Alt_l, den_Cat; [apply (den_colonAfter _ Hh)|].
      apply den_tailV4; assumption || lia.
    + do 2 apply den_Alt_r. apply den_Alt_l, den_Cat; [apply (den_colonAfter _ Hh)|].
      destruct ts as [|t ts]; cbn [length] in Hlen; try lia.
      apply den_Alt_l. unfold colonBefore. cbn [map concatStr]. rewrite append_nil_l.
      apply den_Cat; [apply den_chr|apply den_dotted; assumption].
Qed.

(** ** The characters of the accepted texts *)

Lemma in_allAscii c : In c allAscii.
Proof.
  rewrite <- (ascii_nat_embedding c). unfold allAscii. apply in_map, in_seq.
  pose proof (nat_ascii_bounded c). lia.
Qed.

Lemma everyChar_spec p : everyChar p = true -> forall c, p c = true.
Proof.
  intros H c. unfold everyChar in H. rewrite forallb_forall in H.
  apply H, in_allAscii.
Qed.

Lemma den_within P s : forall r,
  classesWithin P r = true -> den r s -> forallb_str P s = true.
Proof.
  intros r. revert s.
  induction r as [| |p|a IHa b IHb|a IHa b IHb]; intros s Hr Hs; cbn [den classesWithin] in *.
  - contradiction.
  - subst s. reflexivity.
  - destruct Hs as (c & -> & Hc). cbn [forallb_str].
    pose proof (everyChar_spec _ Hr c) as Hi. cbn beta in Hi. rewrite Hc in Hi.
    cbn [implb] in Hi. rewrite Hi. reflexivity.
  - apply andb_true_iff in Hr as [Hra Hrb]. destruct Hs as (s1 & s2 & -> & H1 & H2).
    rewrite forallb_str_append, (IHa _ Hra H1), (IHb _ Hrb H2). reflexivity.
  - apply andb_true_iff in Hr as [Hra Hrb]. destruct Hs as [H1|H2]; eauto.
Qed.

Lemma den_alwaysHas q s : forall r,
  alwaysHas q r = true -> den r s -> forallb_str (fun c => negb (q c)) s = false.
Proof.
  intros r. revert s.
  induction r as [| |p|a IHa b IHb|a IHa b IHb]; intros s Hr Hs; cbn [den alwaysHas] in *.
  - contradiction.
  - discriminate.
  - destruct Hs as (c & -> & Hc). cbn [forallb_str].
    pose proof (everyChar_spec _ Hr c) as Hi. cbn beta in Hi. rewrite Hc in Hi.
    cbn [implb] in Hi. rewrite Hi. reflexivity.
  - destruct Hs as (s1 & s2 & -> & H1 & H2). rewrite forallb_str_append.
    apply orb_true_iff in Hr as [Hra|Hrb].
    + rewrite (IHa _ Hra H1). reflexivity.
    + rewrite (IHb _ Hrb H2). apply andb_false_r.
  - apply andb_true_iff in Hr as [Hra Hrb]. destruct Hs as [H1|H2]; eauto.
Qed.

Lemma beforePercent_none s :
  forallb_str (fun c => negb (Ascii.eqb c "%")) s = true ->
  Net.beforePercent s = s /\ Net.fromPercent s = None.
Proof.
  induction s as [|c s IH]; cbn [forallb_str Net.beforePercent Net.fromPercent]; [auto|].
  intros H. apply andb_true_iff in H as [Hc Hs]. apply negb_true_iff in Hc. rewrite Hc.
  destruct (IH Hs) as [-> ->]. auto.
Qed.

(** A text in the language of the IPv6 expression is an IPv6 address to
    [net.isIP]: it has a colon, so it is no dotted quad, and it has no percent
    sign, so it has no zone. *)
Lemma isIP_v6Body s : den Net.v6Body s -> Net.isIP s = 6%Z.
Proof.
  intros H. unfold Net.isIP, Net.isIPv4, Net.isIPv6.
  assert (H4 : Net.matches Net.v4Str s = false).
  { destruct (Net.matches Net.v4Str s) eqn:E; [|reflexivity].
    apply matches_den in E.
    pose proof (den_within v4Char s Net.v4Str eq_refl E) as Hin.
    pose proof (den_alwaysHas (fun c => Ascii.eqb c ":") s Net.v6Body eq_refl H) as Hout.
    cbn beta in Hout.
    rewrite (forallb_str_impl v4Char (fun c => negb (Ascii.eqb c ":")) s) in Hout;
      [discriminate| |exact Hin].
    intros [[] [] [] [] [] [] [] []]; vm_compute; intros; first [reflexivity|discriminate]. }
  rewrite H4.
  pose proof (den_within v6Char s Net.v6Body eq_refl H) as Hin.
  destruct (beforePercent_none s) as [-> ->].
  { apply (forallb_str_impl v6Char); [|exact Hin].
    intros [[] [] [] [] [] [] [] []]; vm_compute; intros; first [reflexivity|discriminate]. }
  rewrite (den_matches _ _ H). reflexivity.
Qed.

Lemma isIP_renderV6 x : wellFormedV6 x -> Net.isIP (renderV6 x) = 6%Z.
Proof. intros H. apply isIP_v6Body, den_v6Body, H. Qed.

(** ** The texts that [net.isIP] takes for addresses are the text forms *)

Lemma den_times_inv r : forall k s,
  den (Net.times k r) s ->
  exists ss, length ss = k /\ Forall (den r) ss /\ s = concatStr ss.
Proof.
  induction k as [|k IH]; intros s H; cbn [Net.times den] in H.
  - exists []. subst s. auto.
  - destruct H as (s1 & s2 & -> & H1 & H2).
    destruct (IH _ H2) as (ss & Hlen & Hss & ->).
    exists (s1 :: ss). cbn [length concatStr]. auto.
Qed.

Lemma den_upto_inv r : forall m s,
  den (Net.upto m r) s ->
  exists ss, (length ss <= m)%nat /\ Forall (den r) ss /\ s = concatStr ss.
Proof.
  induction m as [|m IH]; intros s H; cbn [Net.upto Net.opt den] in H.
  - exists []. subst s. auto.
  - destruct H as [(s1 & s2 & -> & H1 & H2)| ->].
    + destruct (IH _ H2) as (ss & Hlen & Hss & ->).
      exists (s1 :: ss). cbn [length concatStr]. split; [lia|auto].
    + exists []. cbn [length]. split; [lia|auto].
Qed.

Lemma den_between_inv r m n s :
  den (Net.between m n r) s ->
  exists ss, (m <= length ss <= m + (n - m))%nat /\ Forall (den r) ss /\ s = concatStr ss.
Proof.
  unfold Net.between. cbn [den]. intros (s1 & s2 & -> & H1 & H2).
  destruct (den_times_inv _ _ _ H1) as (a & Ha & Fa & ->).
  destruct (den_upto_inv _ _ _ H2) as (b & Hb & Fb & ->).
  exists (a ++ b). rewrite length_app, concatStr_app.
  split; [lia|]. split; [apply Forall_app; auto|reflexivity].
Qed.

Lemma den_colon_inv s : den Net.colon s -> s = ":".
Proof.
  intros (c & -> & Hc). apply Ascii.eqb_eq in Hc. subst c. reflexivity.
Qed.

Lemma den_chr_inv c s : den (Net.chr c) s -> s = String c "".
Proof.
  intros (x & -> & Hx). apply Ascii.eqb_eq in Hx. subst x. reflexivity.
Qed.

Lemma classes_text p ss :
  Forall (den (Net.Class p)) ss ->
  String.length (concatStr ss) = length ss /\ forallb_str p (concatStr ss) = true.
Proof.
  induction 1 as [|s ss Hs _ [IH1 IH2]]; [auto|].
  destruct Hs as (c & -> & Hc). cbn [concatStr length].
  change (String c "" +:+ concatStr ss) with (String c (concatStr ss)).
  cbn [String.length forallb_str]. rewrite IH1, IH2, Hc. auto.
Qed.

Lemma isHexDigit_hexVal c :
  Net.isHexDigit c = true ->
  match hexVal c with Some _ => true | None => false end = true.
Proof.
  destruct c as [[] [] [] [] [] [] [] []]; vm_compute; intros H;
    first [reflexivity | discriminate].
Qed.

Lemma den_v6Seg_inv g : den Net.v6Seg g -> isGroup g.
Proof.
  intros H. apply den_between_inv in H as (ss & Hlen & Hss & ->).
  destruct (classes_text _ _ Hss) as [Hl Hf]. split.
  - rewrite Hl. lia.
  - apply (forallb_str_impl Net.isHexDigit); [apply isHexDigit_hexVal|exact Hf].
Qed.

Lemma Forall_segColon_inv ss :
  Forall (den Net.segColon) ss ->
  exists gs, Forall isGroup gs /\ length gs = length ss /\ concatStr ss = colonAfter gs.
Proof.
  induction 1 as [|s ss Hs _ (gs & Hg & Hl & He)].
  - exists []. auto.
  - destruct Hs as (g & c & -> & Hg1 & Hc). apply den_colon_inv in Hc. subst c.
    exists (g :: gs). cbn [length concatStr]. rewrite colonAfter_cons, He, Hl.
    split; [constructor; [apply den_v6Seg_inv, Hg1|exact Hg]|auto].
Qed.

Lemma Forall_colonSeg_inv ss :
  Forall (den Net.colonSeg) ss ->
  exists gs, Forall isGroup gs /\ length gs = length ss /\ concatStr ss = colonBefore gs.
Proof.
  induction 1 as [|s ss Hs _ (gs & Hg & Hl & He)].
  - exists []. auto.
  - destruct Hs as (c & g & -> & Hc & Hg1). apply den_colon_inv in Hc. subst c.
    exists (g :: gs). cbn [length concatStr]. rewrite colonBefore_cons, He, Hl.
    split; [constructor; [apply den_v6Seg_inv, Hg1|exact Hg]|auto].
Qed.

Lemma class_cases p c : p c = true -> In c (List.filter p allAscii).
Proof. intros H. apply filter_In. split; [apply in_allAscii|exact H]. Qed.

Lemma den_enum : forall r s, den r s -> In s (enum r).
Proof.
  induction r as [| |p|a IHa b IHb|a IHa b IHb]; intros s H; cbn [den enum] in *.
  - contradiction.
  - left. symmetry. exact H.
  - destruct H as (c & -> & Hc).
    apply (in_map (fun c => String c "")), class_cases, Hc.
  - destruct H as (s1 & s2 & -> & H1 & H2). apply in_flat_map.
    exists s1. split; [apply IHa, H1|].
    apply (in_map (fun s2 => s1 +:+ s2)), IHb, H2.
  - apply in_app_iff. destruct H as [H|H]; [left; apply IHa, H|right; apply IHb, H].
Qed.

(** The strings of the IPv4 segment are the decimal texts of the octets. *)
Lemma den_v4Seg_inv t : den Net.v4Seg t -> exists n, octet n /\ t = numToString n.
Proof.
  intros H. apply den_enum in H.
  assert (forallb
            (fun t => existsb (fun n => String.eqb t (numToString n))
                        (map Z.of_nat (seq 0 256)))
            (enum Net.v4Seg) = true) as Hall by (vm_compute; reflexivity).
  rewrite forallb_forall in Hall. apply Hall in H.
  apply existsb_exists in H as (n & Hin & Heq). apply String.eqb_eq in Heq.
  exists n. split; [|exact Heq].
  apply in_map_iff in Hin as (k & <- & Hk). apply in_seq in Hk. unfold octet. lia.
Qed.

Lemma den_v4Str_inv s :
  den Net.v4Str s ->
  exists a b c d, octet a /\ octet b /\ octet c /\ octet d /\ s = dotted a b c d.
Proof.
  unfold Net.v4Str. cbn [Net.times den].
  intros (s123 & s4 & -> & (p1 & r1 & -> & (t1 & c1 & -> & H1 & C1)
            & (p2 & r2 & -> & (t2 & c2 & -> & H2 & C2)
            & (p3 & r3 & -> & (t3 & c3 & -> & H3 & C3) & ->))) & H4).
  apply den_chr_inv in C1, C2, C3. subst c1 c2 c3.
  apply den_v4Seg_inv in H1 as (a & Ha & ->).
  apply den_v4Seg_inv in H2 as (b & Hb & ->).
  apply den_v4Seg_inv in H3 as (c & Hc & ->).
  apply den_v4Seg_inv in H4 as (d & Hd & ->).
  exists a, b, c, d. repeat (split; [assumption|]).
  unfold dotted. rewrite append_nil_r, !append_assoc. reflexivity.
Qed.

(** The texts that [net.isIP] takes for IPv4 addresses are the dotted
    quads. *)
Lemma isIP_4_inv ip :
  Net.isIP ip = 4%Z ->
  exists a b c d, octet a /\ octet b /\ octet c /\ octet d /\ ip = dotted a b c d.
Proof.
  unfold Net.isIP, Net.isIPv4. destruct (Net.matches Net.v4Str ip) eqn:E.
  - intros _. apply den_v4Str_inv, matches_den, E.
  - destruct (Net.isIPv6 ip); discriminate.
Qed.

Lemma joinColon_last hs g : joinColon (hs ++ [g]) = colonAfter hs +:+ g.
Proof.
  induction hs as [|h hs IH]; [reflexivity|].
  rewrite colonAfter_cons, append_assoc, <- IH, append_assoc.
  destruct hs; reflexivity.
Qed.

Lemma den_tailAlt_inv n t :
  den (Net.Alt (Net.between 1 n Net.colonSeg) Net.colon) t ->
  exists ts, Forall isGroup ts /\ (length ts <= 1 + (n - 1))%nat /\ t = tailText ts.
Proof.
  intros [H|H].
  - apply den_between_inv in H as (ss & Hlen & Hss & ->).
    apply Forall_colonSeg_inv in Hss as (ts & Ht & Hl & ->).
    exists ts. split; [exact Ht|]. split; [lia|].
    destruct ts; [cbn [length] in Hl; lia|reflexivity].
  - apply den_colon_inv in H. subst t. exists []. cbn [length]. split; [constructor|].
    split; [lia|reflexivity].
Qed.

Lemma den_tailV4_inv m t :
  den (Net.Cat (Net.upto m Net.colonSeg) (Net.Cat Net.colon Net.v4Str)) t ->
  exists ts a b c d,
    Forall isGroup ts /\ (length ts <= m)%nat
    /\ octet a /\ octet b /\ octet c /\ octet d
    /\ t = colonBefore ts +:+ ":" +:+ dotted a b c d.
Proof.
  intros (s1 & s2 & -> & H1 & (c0 & s3 & -> & Hc & H3)).
  apply den_colon_inv in Hc. subst c0.
  apply den_upto_inv in H1 as (ss & Hlen & Hss & ->).
  apply Forall_colonSeg_inv in Hss as (ts & Ht & Hl & ->).
  apply den_v4Str_inv in H3 as (a & b & c & d & Ha & Hb & Hc & Hd & ->).
  exists ts, a, b, c, d. rewrite Hl. auto 10.
Qed.

(** Leading groups, then what may follow them in an elided form. *)
Lemma elided_forms hs m n t :
  Forall isGroup hs ->
  (length hs + m <= 5)%nat -> (length hs + (1 + (n - 1)) <= 7)%nat ->
  den (Net.Alt (Net.Cat (Net.upto m Net.colonSeg) (Net.Cat Net.colon Net.v4Str))
         (Net.Alt (Net.between 1 n Net.colonSeg) Net.colon)) t ->
  exists x, wellFormedV6 x
            /\ match hs with [] => ":" | _ :: _ => colonAfter hs end +:+ t = renderV6 x.
Proof.
  intros Hh Hm Hn [H|H].
  - apply den_tailV4_inv in H as (ts & a & b & c & d & Ht & Hl & Ha & Hb & Hc & Hd & ->).
    exists (ElidedV4 hs ts a b c d). cbn [wellFormedV6 renderV6].
    split; [repeat (split; [assumption || lia|]); assumption|].
    rewrite elidedV4_text. destruct hs; reflexivity.
  - apply den_tailAlt_inv in H as (ts & Ht & Hl & ->).
    exists (Elided hs ts). cbn [wellFormedV6 renderV6].
    split; [repeat (split; [assumption || lia|]); lia|].
    rewrite elided_text. destruct hs; reflexivity.
Qed.

Lemma Forall_one {A} (P : A -> Prop) x : P x -> Forall P [x].
Proof. intros H. constructor; [exact H|constructor]. Qed.

Ltac leading H hs Hh Hl :=
  let p := fresh "p" in let t := fresh "t" in
  let Hp := fresh "Hp" in let ss := fresh "ss" in
  let Hlen := fresh "Hlen" in let Hss := fresh "Hss" in
  destruct H as (p & t & -> & Hp & H);
  apply den_times_inv in Hp as (ss & Hlen & Hss & ->);
  apply Forall_segColon_inv in Hss as (hs & Hh & Hl & ->);
  rewrite Hlen in Hl.

Ltac nonempty hs Hl :=
  destruct hs; [cbn [length] in Hl; lia|].

(** Every text in the language of the IPv6 expression is a text form. *)
Lemma den_v6Body_inv s :
  den Net.v6Body s -> exists x, wellFormedV6 x /\ s = renderV6 x.
Proof.
  unfold Net.v6Body. intros [H|[H|[H|[H|[H|[H|[H|H]]]]]]].
  - leading H hs Hh Hl. destruct H as [H|H].
    + apply den_v6Seg_inv in H. exists (Plain (hs ++ [t])). cbn [wellFormedV6 renderV6].
      split; [|symmetry; apply joinColon_last].
      split; [apply Forall_app; split; [exact Hh|apply Forall_one, H]|].
      rewrite length_app. cbn [length]. lia.
    + apply den_colon_inv in H. subst t. exists (Elided hs []).
      cbn [wellFormedV6 renderV6 length].
      split; [split; [exact Hh|split; [constructor|lia]]|].
      rewrite elided_text. nonempty hs Hl. reflexivity.
  - leading H hs Hh Hl. destruct H as [H|[H|H]].
    + apply den_v4Str_inv in H as (a & b & c & d & Ha & Hb & Hc & Hd & ->).
      exists (PlainV4 hs a b c d). cbn [wellFormedV6 renderV6].
      split; [auto 10|].
      rewrite <- joinColon_colonAfter by (intros ->; discriminate).
      rewrite append_assoc. reflexivity.
    + destruct H as (c0 & g & -> & Hc & Hg). apply den_colon_inv in Hc. subst c0.
      apply den_v6Seg_inv in Hg. exists (Elided hs [g]).
      cbn [wellFormedV6 renderV6 length].
      split; [split; [exact Hh|split; [apply Forall_one, Hg|lia]]|].
      rewrite elided_text. nonempty hs Hl. unfold tailText.
      rewrite colonBefore_cons. unfold colonBefore at 1. cbn [map concatStr].
      rewrite append_nil_r. reflexivity.
    + apply den_colon_inv in H. subst t. exists (Elided hs []).
      cbn [wellFormedV6 renderV6 length].
      split; [split; [exact Hh|split; [constructor|lia]]|].
      rewrite elided_text. nonempty hs Hl. reflexivity.
  - leading H hs Hh Hl.
    destruct (elided_forms hs 0 2 t Hh) as (x & Hx & Hr); [lia|lia| |].
    + destruct H as [H|H]; [left|right; exact H].
      exists "", t. split; [reflexivity|]. split; [reflexivity|exact H].
    + exists x. split; [exact Hx|]. rewrite <- Hr. nonempty hs Hl. reflexivity.
  - leading H hs Hh Hl.
    destruct (elided_forms hs 1 3 t Hh) as (x & Hx & Hr); [lia|lia|exact H|].
    exists x. split; [exact Hx|]. rewrite <- Hr. nonempty hs Hl. reflexivity.
  - leading H hs Hh Hl.
    destruct (elided_forms hs 2 4 t Hh) as (x & Hx & Hr); [lia|lia|exact H|].
    exists x. split; [exact Hx|]. rewrite <- Hr. nonempty hs Hl. reflexivity.
  - leading H hs Hh Hl.
    destruct (elided_forms hs 3 5 t Hh) as (x & Hx & Hr); [lia|lia|exact H|].
    exists x. split; [exact Hx|]. rewrite <- Hr. nonempty hs Hl. reflexivity.
  - leading H hs Hh Hl.
    destruct (elided_forms hs 4 6 t Hh) as (x & Hx & Hr); [lia|lia|exact H|].
    exists x. split; [exact Hx|]. rewrite <- Hr. nonempty hs Hl. reflexivity.
  - destruct H as (c0 & t & -> & Hc & H). apply den_colon_inv in Hc. subst c0.
    destruct (elided_forms [] 5 7 t) as (x & Hx & Hr);
      [constructor|cbn [length]; lia|cbn [length]; lia|exact H|].
    exists x. split; [exact Hx|exact Hr].
Qed.

(** The texts without a zone that [net.isIP] takes for IPv6 addresses are
    the text forms. *)
Lemma isIP_6_inv ip :
  Net.isIP ip = 6%Z -> Net.fromPercent ip = None ->
  exists x, wellFormedV6 x /\ ip = renderV6 x.
Proof.
  unfold Net.isIP, Net.isIPv6. intros H Hz.
  destruct (Net.isIPv4 ip); [discriminate|].
  destruct (Net.matches Net.v6Body (Net.beforePercent ip)) eqn:E;
    [|cbn [andb] in H; discriminate].
  assert (Net.beforePercent ip = ip) as Hb.
  { clear -Hz. induction ip as [|c r IH]; [reflexivity|].
    cbn [Net.beforePercent Net.fromPercent] in *.
    destruct (Ascii.eqb c "%"); [discriminate|]. rewrite IH by exact Hz. reflexivity. }
  rewrite Hb in E. apply den_v6Body_inv, matches_den, E.
Qed.

(** Two levels of calls are enough, and more change nothing: the address
    embedded in an IPv4-mapped one is printed as a dotted quad, which the
    IPv4 branch answers. *)
Lemma isPrivateIpFuel_enough ip fuel :
  Fetch.isPrivateIpFuel (S (S fuel)) ip = Some (Fetch.isPrivateIp ip).
Proof.
  assert (forall n, exists r, Fetch.isPrivateIpFuel (S (S n)) ip = Some r
                              /\ Fetch.isPrivateIpFuel 2 ip = Some r) as H.
  { intros n. rewrite !isPrivateIpFuel_unfold.
    destruct (Net.isIP ip =? 4)%Z.
    - destruct (Fetch.ipv4ToInt ip); eauto.
    - destruct (Net.isIP ip =? 6)%Z; [|eauto].
      destruct (Fetch.ipv6ToBigInt ip) as [addr|e]; [|eauto].
      destruct ((addr =? 0) || (addr =? 1))%Z; [eauto|].
      destruct (Z.shiftr addr 32 =? 65535)%Z; [|eauto].
      change 4294967295%Z with (Z.ones 32). rewrite Z.land_ones by lia.
      destruct (ip4OfNumber_dotted (addr mod 2 ^ 32)%Z)
        as (a & b & c & d & Ha & Hb & Hc & Hd & -> & _);
        [apply Z.mod_pos_bound; lia|].
      rewrite !isPrivateIpFuel_dotted by assumption. eauto. }
  destruct (H fuel) as (r & H1 & H2). unfold Fetch.isPrivateIp.
  rewrite H1, H2. reflexivity.
Qed.

Lemma isPrivateIp_dotted a b c d :
  octet a -> octet b -> octet c -> octet d ->
  Fetch.isPrivateIp (dotted a b c d) = Ok (specPrivateV4 (v4num a b c d)).
Proof.
  intros Ha Hb Hc Hd.
  pose proof (isPrivateIpFuel_enough (dotted a b c d) 0) as H.
  rewrite isPrivateIpFuel_dotted in H by assumption. congruence.
Qed.

Lemma isPrivateIp_renderV6 x :
  wellFormedV6 x ->
  Fetch.isPrivateIp (renderV6 x) = Ok (specPrivateV6 (addressOf x)).
Proof.
  intros Hwf.
  pose proof (isPrivateIpFuel_enough (renderV6 x) 0) as H.
  rewrite (isPrivateIpFuel_v6 _ (addressOf x)) in H
    by (apply isIP_renderV6, Hwf || apply ipv6ToBigInt_text, Hwf).
  congruence.
Qed.

(** The classifier answers, and does not throw, on every text that
    [net.isIP] takes for an address and that has no zone. *)
Lemma addresses_classified ip :
  Net.isIP ip <> 0%Z -> Net.fromPercent ip = None -> classified ip.
Proof.
  intros Hip Hz. unfold classified.
  destruct (Z.eq_dec (Net.isIP ip) 4%Z) as [H4|H4].
  - apply isIP_4_inv in H4 as (a & b & c & d & Ha & Hb & Hc & Hd & ->).
    eexists. apply isPrivateIp_dotted; assumption.
  - assert (Net.isIP ip = 6%Z) as H6.
    { unfold Net.isIP in *. destruct (Net.isIPv4 ip); [contradiction|].
      destruct (Net.isIPv6 ip); [reflexivity|contradiction]. }
    apply isIP_6_inv in H6 as (x & Hx & ->); [|exact Hz].
    eexists. apply isPrivateIp_renderV6, Hx.
Qed.

(** ** Texts with a zone *)

Lemma noPercent_append a b : noPercent (a +:+ b) = noPercent a && noPercent b.
Proof. apply forallb_str_append. Qed.

Lemma fromPercent_split ip z :
  Net.fromPercent ip = Some z ->
  ip = Net.beforePercent ip +:+ String "%" z /\ noPercent (Net.beforePercent ip) = true.
Proof.
  induction ip as [|c r IH]; cbn [Net.fromPercent Net.beforePercent]; [discriminate|].
  destruct (Ascii.eqb c "%") eqn:E.
  - intros [= ->]. apply Ascii.eqb_eq in E. subst c. split; reflexivity.
  - intros H. destruct (IH H) as [H1 H2]. rewrite append_cons, <- H1.
    split; [reflexivity|]. unfold noPercent in *. cbn [forallb_str].
    rewrite Ascii.eqb_sym, E, H2. reflexivity.
Qed.

(** A piece cut at a one-character separator keeps the percent sign. *)
Lemma split_go_percent c s :
  c <> "%"%char ->
  forall cur,
    noPercent (pieceOf cur s) = false ->
    Exists (fun p => noPercent p = false) (split_go (String c "") 0 cur s).
Proof.
  intros Hc. induction s as [|x r IH]; intros cur H.
  - cbn [split_go]. unfold pieceOf in H. rewrite append_nil_r in H.
    constructor. exact H.
  - cbn [split_go]. rewrite prefix_char.
    destruct (Ascii.eqb c x) eqn:E.
    + apply Ascii.eqb_eq in E. subst x. cbn [String.length Nat.sub].
      unfold pieceOf in H. rewrite noPercent_append in H.
      destruct (noPercent (string_of_list_ascii (rev cur))) eqn:E1.
      * apply Exists_cons_tl. apply IH. rewrite pieceOf_nil.
        unfold noPercent in H. cbn [andb forallb_str] in H.
        replace (Ascii.eqb "%" c) with false in H
          by (symmetry; apply Ascii.eqb_neq; congruence).
        exact H.
      * apply Exists_cons_hd. exact E1.
    + apply IH. rewrite pieceOf_cons. exact H.
Qed.

Lemma split_percent c s :
  c <> "%"%char -> noPercent s = false ->
  Exists (fun p => noPercent p = false) (split (String c "") s).
Proof. intros Hc H. apply split_go_percent; [exact Hc|exact H]. Qed.

Lemma testHextet_percent g : noPercent g = false -> Fetch.testHextet g = false.
Proof.
  intros H. unfold Fetch.testHextet.
  destruct (forallb_str Fetch.isLowerHexDigit g) eqn:E; [|apply andb_false_r].
  assert (noPercent g = true) as Hn; [|congruence].
  revert E. apply forallb_str_impl. intros c Hc.
  destruct (Ascii.eqb "%" c) eqn:E; [|reflexivity].
  apply Ascii.eqb_eq in E. subst c. discriminate.
Qed.

Lemma testOctet_percent g : noPercent g = false -> Fetch.testOctet g = false.
Proof.
  intros H. unfold Fetch.testOctet.
  destruct (forallb_str Fetch.isDigit g) eqn:E; [|apply andb_false_r].
  assert (noPercent g = true) as Hn; [|congruence].
  revert E. apply forallb_str_impl. intros c Hc.
  destruct (Ascii.eqb "%" c) eqn:E; [|reflexivity].
  apply Ascii.eqb_eq in E. subst c. discriminate.
Qed.

Lemma hextetNums_kind l e : Fetch.hextetNums l = Throw e -> e = Fetch.invalidIPv6.
Proof.
  induction l as [|h l IH]; cbn [Fetch.hextetNums]; [discriminate|].
  destruct (negb (Fetch.testHextet h)); [intros [= <-]; reflexivity|].
  destruct (Fetch.hextetNums l); cbn [rbind]; [discriminate|].
  intros [= <-]. apply IH. reflexivity.
Qed.

Lemma hextetNums_bad l :
  Exists (fun g => Fetch.testHextet g = false) l ->
  Fetch.hextetNums l = Throw Fetch.invalidIPv6.
Proof.
  induction l as [|h l IH]; intros H; [inversion H|].
  cbn [Fetch.hextetNums]. destruct (Fetch.testHextet h) eqn:E; [|reflexivity].
  cbn [negb]. rewrite IH; [reflexivity|].
  inversion H as [? ? Hh|? ? Hl]; subst; [congruence|exact Hl].
Qed.

Lemma groupsOf_percent s :
  noPercent s = false ->
  Fetch.hextetNums (Fetch.groupsOf (Some s)) = Throw Fetch.invalidIPv6.
Proof.
  intros H. unfold Fetch.groupsOf.
  destruct (String.eqb_spec s "") as [->|_]; [discriminate|].
  apply hextetNums_bad.
  pose proof (split_percent ":" s ltac:(discriminate) H) as Hex.
  induction Hex as [p l Hp|p l _ IH]; cbn [List.filter].
  - destruct (String.eqb_spec p "") as [->|_]; [discriminate|].
    cbn [negb]. apply Exists_cons_hd, testHextet_percent, Hp.
  - destruct (negb (String.eqb p "")); [apply Exists_cons_tl|]; exact IH.
Qed.

Lemma ipv4Loop_bad parts :
  Exists (fun p => Fetch.testOctet p = false) parts ->
  forall v, Fetch.ipv4Loop parts v = None.
Proof.
  induction parts as [|p rest IH]; intros H v; [inversion H|].
  cbn [Fetch.ipv4Loop]. destruct (Fetch.testOctet p) eqn:E; [|reflexivity].
  cbn [negb]. destruct (_ || _)%bool; [reflexivity|].
  apply IH. inversion H as [? ? Hh|? ? Hl]; subst; [congruence|exact Hl].
Qed.

Lemma ipv4ToInt_percent s : noPercent s = false -> Fetch.ipv4ToInt s = None.
Proof.
  intros H. unfold Fetch.ipv4ToInt.
  destruct (negb (length (split "." s) =? 4)%nat); [reflexivity|].
  rewrite ipv4Loop_bad; [reflexivity|].
  pose proof (split_percent "." s ltac:(discriminate) H) as Hex.
  eapply List.Exists_impl; [|exact Hex]. intros p. apply testOctet_percent.
Qed.

(** The groups of a text whose first or second piece holds a percent sign
    are refused. *)
Lemma ipv6Rest_percent l emb s :
  split "::" l !! 0%nat = Some s \/ split "::" l !! 1%nat = Some s ->
  noPercent s = false ->
  ipv6Rest l emb = Throw Fetch.invalidIPv6.
Proof.
  intros Hs Hp. unfold ipv6Rest.
  destruct (negb (includes l "::") && _); [reflexivity|].
  destruct Hs as [Hs|Hs].
  - rewrite Hs, groupsOf_percent by exact Hp. reflexivity.
  - destruct (Fetch.hextetNums (Fetch.groupsOf (split "::" l !! 0%nat))) as [hn|e] eqn:Eh;
      cbn [rbind]; [|apply hextetNums_kind in Eh; subst; reflexivity].
    rewrite Hs, groupsOf_percent by exact Hp. reflexivity.
Qed.

Lemma split_go_first s :
  forall cur, exists p ps, split_go "::" 0 cur s = pieceOf cur p :: ps.
Proof.
  induction s as [|c r IH]; intros cur.
  - exists "", []. cbn [split_go]. unfold pieceOf. rewrite append_nil_r. reflexivity.
  - cbn [split_go]. destruct (String.prefix "::" (String c r)).
    + eexists "", _. unfold pieceOf. rewrite append_nil_r. reflexivity.
    + destruct (IH (c :: cur)) as (p & ps & ->).
      exists (String c p), ps. rewrite pieceOf_cons. reflexivity.
Qed.

(** A percent sign that follows a text without "::" falls into the piece
    of that text. *)
Lemma split_go_tame_percent s rest :
  tame s = true ->
  forall cur, exists p ps,
    split_go "::" 0 cur (s +:+ String "%" rest)
    = pieceOf cur (s +:+ String "%" p) :: ps.
Proof.
  induction s as [|c s IH]; intros Ht cur.
  - rewrite append_nil_l. cbn [split_go]. rewrite prefix_dcolon. cbn [Ascii.eqb Bool.eqb andb].
    destruct (split_go_first rest ("%"%char :: cur)) as (p & ps & ->).
    exists p, ps. rewrite pieceOf_cons, append_nil_l. reflexivity.
  - rewrite append_cons. cbn [split_go].
    assert (String.prefix "::" (String c (s +:+ String "%" rest)) = false) as ->.
    { rewrite prefix_dcolon. cbn [tame] in Ht. apply andb_true_iff in Ht as [Ht _].
      destruct (Ascii.eqb ":" c); [|reflexivity].
      destruct s as [|d s]; [discriminate|]. rewrite append_cons.
      apply negb_true_iff in Ht. rewrite Ht. reflexivity. }
    destruct (IH (tame_tail c s Ht) (c :: cur)) as (p & ps & ->).
    exists p, ps. rewrite pieceOf_cons, append_cons. reflexivity.
Qed.

Lemma noPercent_percent a p : noPercent (a +:+ String "%" p) = false.
Proof. rewrite noPercent_append. unfold noPercent at 2. cbn. apply andb_false_r. Qed.

Lemma ipv6Rest_zoned b rest emb :
  oneGap b -> ipv6Rest (b +:+ String "%" rest) emb = Throw Fetch.invalidIPv6.
Proof.
  intros [Hb|(h & t & -> & Hh & Ht)].
  - destruct (split_go_tame_percent b rest Hb []) as (p & ps & E).
    apply (ipv6Rest_percent _ _ (b +:+ String "%" p)); [|apply noPercent_percent].
    left. unfold split. rewrite E. reflexivity.
  - destruct (split_go_tame_percent t rest Ht []) as (p & ps & E).
    apply (ipv6Rest_percent _ _ (t +:+ String "%" p)); [|apply noPercent_percent].
    right. unfold split. rewrite !append_assoc.
    rewrite (split2_mid h (t +:+ String "%" rest) [] Hh), E. reflexivity.
Qed.

Lemma last_colon s :
  noColon s = true \/ exists a b, s = a +:+ String ":" b /\ noColon b = true.
Proof.
  induction s as [|c s IH]; [left; reflexivity|].
  destruct IH as [IH|(a & b & -> & Hb)].
  - destruct (Ascii.eqb ":" c) eqn:E.
    + apply Ascii.eqb_eq in E. subst c. right. exists "", s. auto.
    + left. unfold noColon in *. cbn [forallb_str]. rewrite E, IH. reflexivity.
  - right. exists (String c a), b. auto.
Qed.

Lemma percent_prefix b :
  noPercent b = true ->
  forall z a d,
    b +:+ String "%" z = a +:+ String ":" d -> noPercent d = true ->
    exists r, a = b +:+ String "%" r.
Proof.
  induction b as [|y b IH]; intros Hb z a d E Hd.
  - rewrite append_nil_l in E. destruct a as [|x a].
    + rewrite append_nil_l in E. discriminate.
    + rewrite append_cons in E. injection E as <- E. exists a. reflexivity.
  - rewrite append_cons in E. destruct a as [|x a].
    + rewrite append_nil_l in E. injection E as -> E. subst d.
      rewrite noPercent_percent in Hd. discriminate.
    + rewrite append_cons in E. injection E as <- E.
      unfold noPercent in Hb. cbn [forallb_str] in Hb.
      apply andb_true_iff in Hb as [_ Hb].
      destruct (IH Hb z a d E Hd) as (r & ->). exists r. reflexivity.
Qed.

(** What [ipv6ToBigInt] takes as the groups' text still holds the percent
    sign, when it does not throw before. *)
Lemma ipv6Left_zoned b z :
  noPercent b = true ->
  ipv6Left (b +:+ String "%" z) = Throw Fetch.invalidIPv6
  \/ exists r emb, ipv6Left (b +:+ String "%" z) = Ok (b +:+ String "%" r, emb).
Proof.
  intros Hb. unfold ipv6Left.
  destruct (negb (lastIndexOf (b +:+ String "%" z) "." =? -1)%Z); [|right; eauto].
  destruct (last_colon (b +:+ String "%" z)) as [Hn|(a & d & E & Hd)].
  - left. rewrite (lastIndexOf_absent _ ":" Hn).
    change (sliceFrom (b +:+ String "%" z) (-1 + 1)) with (b +:+ String "%" z).
    rewrite ipv4ToInt_percent by apply noPercent_percent. reflexivity.
  - rewrite E. rewrite (lastIndexOf_last a ":" d Hd), sliceFrom_after.
    destruct (Fetch.ipv4ToInt d) as [v|] eqn:Ev; [|left; reflexivity].
    right. assert (noPercent d = true) as Hp.
    { destruct (noPercent d) eqn:Ep; [reflexivity|].
      rewrite ipv4ToInt_percent in Ev by exact Ep. discriminate. }
    destruct (percent_prefix b Hb z a d E Hp) as (r & ->).
    rewrite sliceTo_before. eexists (r +:+ ":0:0"), _.
    rewrite !append_assoc, append_cons. reflexivity.
Qed.

Lemma tame_noColon s : noColon s = true -> tame s = true.
Proof.
  induction s as [|c s IH]; [reflexivity|]. unfold noColon. cbn [forallb_str tame].
  intros H. apply andb_true_iff in H as [Hc Hs]. apply negb_true_iff in Hc.
  rewrite Hc, (IH Hs). reflexivity.
Qed.

Lemma tame_snoc s t :
  tame s = true -> noColon t = true -> t <> "" -> tame (s +:+ String ":" t) = true.
Proof.
  intros Hs Ht Hne. destruct t as [|x t]; [contradiction|].
  assert (Ascii.eqb ":" x = false) as Hx.
  { unfold noColon in Ht. cbn [forallb_str] in Ht. apply andb_true_iff in Ht as [Ht _].
    apply negb_true_iff, Ht. }
  induction s as [|c s IH].
  - rewrite append_nil_l.
    change (tame (String ":" (String x t)))
      with ((if Ascii.eqb ":" ":" then negb (Ascii.eqb ":" x) else true)
            && tame (String x t)).
    rewrite Ascii.eqb_refl, Hx. cbn [negb andb]. apply tame_noColon, Ht.
  - rewrite append_cons.
    change (tame (String c (s +:+ String ":" (String x t))))
      with ((if Ascii.eqb ":" c
             then match s +:+ String ":" (String x t) with
                  | String d _ => negb (Ascii.eqb ":" d)
                  | EmptyString => false
                  end
             else true) && tame (s +:+ String ":" (String x t))).
    rewrite (IH (tame_tail c s Hs)), andb_true_r.
    cbn [tame] in Hs. apply andb_true_iff in Hs as [Hc _].
    destruct (Ascii.eqb ":" c); [|reflexivity].
    destruct s as [|d s]; [discriminate|]. rewrite append_cons. exact Hc.
Qed.

Lemma plain_noPercent s : forallb_str plainChar s = true -> noPercent s = true.
Proof.
  apply forallb_str_impl. intros c H. unfold plainChar in H.
  repeat (apply andb_true_iff in H as [H ?]).
  rewrite Ascii.eqb_sym. assumption.
Qed.

Lemma joinColon_noPercent gs : lowGroups gs -> noPercent (joinColon gs) = true.
Proof.
  induction 1 as [|g rest Hg _ IH]; [reflexivity|].
  destruct (lowGroup_first g Hg) as (Hplain & _). apply plain_noPercent in Hplain.
  destruct rest as [|g2 rest]; [exact Hplain|].
  rewrite joinColon_cons, noPercent_append, Hplain. exact IH.
Qed.

Lemma dotted_noPercent a b c d :
  octet a -> octet b -> octet c -> octet d ->
  noPercent (dotted a b c d) = true /\ dotted a b c d <> "".
Proof.
  intros Ha Hb Hc Hd.
  destruct (octet_facts a Ha) as (_ & _ & Pa & _).
  destruct (octet_facts b Hb) as (_ & _ & Pb & _).
  destruct (octet_facts c Hc) as (_ & _ & Pc & _).
  destruct (octet_facts d Hd) as (_ & _ & Pd & _).
  apply plain_noPercent in Pa, Pb, Pc, Pd.
  destruct (dotted_shape a b c d Ha Hb Hc Hd) as (_ & _ & _ & rest & E).
  split.
  - unfold dotted. rewrite !noPercent_append, Pa, Pb, Pc, Pd. reflexivity.
  - rewrite E. destruct (numToString a); discriminate.
Qed.

(** The address part of every text form, in lower case. *)
Lemma renderV6_shape x :
  wellFormedV6 x ->
  noPercent (toLowerCase (renderV6 x)) = true /\ oneGap (toLowerCase (renderV6 x)).
Proof.
  intros Hwf.
  destruct x as [gs|hs ts|gs a b c d|hs ts a b c d]; cbn [renderV6 wellFormedV6] in *.
  - destruct Hwf as [Hg Hlen]. destruct (groups_lower gs Hg) as [Hlow _].
    rewrite toLowerCase_joinColon.
    split; [apply joinColon_noPercent, Hlow|left; apply joinColon_tame, Hlow].
  - destruct Hwf as (Hh & Ht & Hlen).
    destruct (groups_lower hs Hh) as [Lh _]. destruct (groups_lower ts Ht) as [Lt _].
    rewrite !toLowerCase_append, !toLowerCase_joinColon.
    change (toLowerCase "::") with "::". split.
    + rewrite !noPercent_append, !joinColon_noPercent by assumption. reflexivity.
    + right. eexists _, _. split; [reflexivity|].
      split; apply joinColon_tame; assumption.
  - destruct Hwf as (Hg & Hlen & Ha & Hb & Hc & Hd).
    destruct (groups_lower gs Hg) as [Hlow _].
    destruct (dotted_shape a b c d Ha Hb Hc Hd) as (Hcol & _ & Elow & _).
    destruct (dotted_noPercent a b c d Ha Hb Hc Hd) as [Hp Hne].
    rewrite !toLowerCase_append, toLowerCase_joinColon, Elow.
    change (toLowerCase ":") with ":". rewrite append_cons, append_nil_l. split.
    + rewrite noPercent_append, joinColon_noPercent by assumption.
      unfold noPercent in *. cbn [forallb_str]. exact Hp.
    + left. apply tame_snoc; [apply joinColon_tame, Hlow|exact Hcol|exact Hne].
  - destruct Hwf as (Hh & Ht & Hlen & Ha & Hb & Hc & Hd).
    destruct (groups_lower hs Hh) as [Lh _]. destruct (groups_lower ts Ht) as [Lt _].
    destruct (dotted_shape a b c d Ha Hb Hc Hd) as (Hcol & _ & Elow & _).
    destruct (dotted_noPercent a b c d Ha Hb Hc Hd) as [Hp Hne].
    rewrite !toLowerCase_append, !toLowerCase_joinColon, map_app. cbn [map].
    rewrite Elow. change (toLowerCase "::") with "::".
    assert (noPercent (joinColon (map toLowerCase ts ++ [dotted a b c d])) = true
            /\ tame (joinColon (map toLowerCase ts ++ [dotted a b c d])) = true) as [Np Tt].
    { destruct (map toLowerCase ts) as [|t0 lts] eqn:Ets.
      - cbn [app joinColon]. split; [exact Hp|apply tame_noColon, Hcol].
      - rewrite joinColon_snoc by discriminate. split.
        + rewrite noPercent_append, joinColon_noPercent by assumption.
          unfold noPercent in *. cbn [forallb_str]. exact Hp.
        + apply tame_snoc; [apply joinColon_tame, Lt|exact Hcol|exact Hne]. }
    split.
    + rewrite !noPercent_append, joinColon_noPercent, Np by assumption. reflexivity.
    + right. eexists _, _. split; [reflexivity|].
      split; [apply joinColon_tame, Lh|exact Tt].
Qed.

(** The parser of the groups refuses every text that [net.isIP] takes for
    an IPv6 address with a zone. *)
Lemma ipv6ToBigInt_zoned ip z :
  Net.isIP ip = 6%Z -> Net.fromPercent ip = Some z ->
  Fetch.ipv6ToBigInt ip = Throw Fetch.invalidIPv6.
Proof.
  intros H6 Hz.
  destruct (fromPercent_split ip z Hz) as [E _].
  assert (exists x, wellFormedV6 x /\ Net.beforePercent ip = renderV6 x) as (x & Hx & Eb).
  { unfold Net.isIP, Net.isIPv6 in H6.
    destruct (Net.isIPv4 ip); [discriminate|].
    destruct (Net.matches Net.v6Body (Net.beforePercent ip)) eqn:Em;
      [|cbn [andb] in H6; discriminate].
    apply den_v6Body_inv, matches_den, Em. }
  destruct (renderV6_shape x Hx) as [Hp Hg].
  rewrite ipv6ToBigInt_halves, E, Eb, toLowerCase_append.
  change (toLowerCase (String "%" z)) with (String "%" (toLowerCase z)).
  destruct (ipv6Left_zoned (toLowerCase (renderV6 x)) (toLowerCase z) Hp)
    as [->|(r & emb & ->)]; cbn [rbind fst snd]; [reflexivity|].
  apply ipv6Rest_zoned, Hg.
Qed.

Lemma isPrivateIp_zoned ip z :
  Net.isIP ip = 6%Z -> Net.fromPercent ip = Some z ->
  Fetch.isPrivateIp ip = Throw Fetch.invalidIPv6.
Proof.
  intros H6 Hz. unfold Fetch.isPrivateIp.
  rewrite isPrivateIpFuel_unfold, H6, (ipv6ToBigInt_zoned ip z H6 Hz). reflexivity.
Qed.

(** The classifier throws nothing else, and on nothing else. *)
Lemma isPrivateIp_answers ip :
  (Net.isIP ip = 6%Z /\ Net.fromPercent ip <> None
   /\ Fetch.isPrivateIp ip = Throw Fetch.invalidIPv6)
  \/ (~ (Net.isIP ip = 6%Z /\ Net.fromPercent ip <> None) /\ classified ip).
Proof.
  destruct (Z.eq_dec (Net.isIP ip) 0%Z) as [H0|H0].
  - right. split; [intros [H _]; congruence|].
    exists true. unfold Fetch.isPrivateIp. rewrite isPrivateIpFuel_unfold, H0. reflexivity.
  - destruct (Net.fromPercent ip) as [z|] eqn:Hz.
    + destruct (Z.eq_dec (Net.isIP ip) 6%Z) as [H6|H6].
      * left. split; [exact H6|]. split; [discriminate|].
        apply (isPrivateIp_zoned ip z H6 Hz).
      * right. split; [intros [H _]; contradiction|].
        assert (Net.isIP ip = 4%Z) as H4.
        { unfold Net.isIP in *. destruct (Net.isIPv4 ip); [reflexivity|].
          destruct (Net.isIPv6 ip); contradiction. }
        apply isIP_4_inv in H4 as (a & b & c & d & Ha & Hb & Hc & Hd & ->).
        eexists. apply isPrivateIp_dotted; assumption.
    + right. split; [intros [_ H]; contradiction|].
      apply addresses_classified; assumption.
Qed.

(** C4, as stated, fails: [net.isIP] takes fe80::1%eth0 for an IPv6
    address, and the address is in fe80::/10, for which the classifier
    answers true when the text has no zone; with the zone it answers
    nothing, it throws INVALID_INPUT. *)
Lemma zone_suffix_rejected :
  Net.isIP "fe80::1%eth0" = 6%Z
  /\ Fetch.isPrivateIp "fe80::1" = Ok true
  /\ Fetch.isPrivateIp "fe80::1%eth0" = Throw Fetch.invalidIPv6
  /\ ~ classified "fe80::1%eth0".
Proof.
  assert (Fetch.isPrivateIp "fe80::1%eth0" = Throw Fetch.invalidIPv6) as E
    by (vm_compute; reflexivity).
  split; [vm_compute; reflexivity|]. split; [vm_compute; reflexivity|].
  split; [exact E|]. intros [b H]. rewrite E in H. discriminate.
Qed.

(** C10. A string that [net.isIP] takes neither for an IPv4 nor for an IPv6
    address is classified as private: [isPrivateIp] returns true. *)
Theorem unparseable_address_is_private (ip : string)
    (Hv4 : Net.isIPv4 ip = false) (Hv6 : Net.isIPv6 ip = false) :
  Net.isIP ip = 0%Z /\ Fetch.isPrivateIp ip = Ok true.
Proof.
  assert (Net.isIP ip = 0%Z) as H0 by (unfold Net.isIP; rewrite Hv4, Hv6; reflexivity).
  split; [exact H0|].
  unfold Fetch.isPrivateIp. rewrite isPrivateIpFuel_unfold, H0. reflexivity.
Qed.

Lemma unparseable_address_is_private_witness :
  Net.isIP "example.com" = 0%Z /\ Fetch.isPrivateIp "example.com" = Ok true.
Proof.
  apply unparseable_address_is_private; vm_compute; reflexivity.
Defined.

(** C4, amended. On every address text without a zone [isPrivateIp]
    answers true exactly on the addresses of the tables. For every dotted
    quad a.b.c.d it returns whether the address is in the IPv4 table of the
    specification (0/8, 10/8, 100.64/10, 127/8, 169.254/16, 172.16/12,
    192.168/16, 192.0.0/24, 192.0.2/24, 198.18/15, 198.51.100/24,
    203.0.113/24, 224/4, 240/4). For every text form of an IPv6 address
    (eight groups, groups around "::", either with a dotted quad as the
    last two groups, digits in either case), which [net.isIP] takes for an
    IPv6 address, it returns whether the address is the unspecified one,
    the loopback, in fc00::/7, fe80::/10, ff00::/8 or 2001:db8::/32, or is
    IPv4-mapped with its embedded address in the IPv4 table. These are all
    the addresses without a zone: a string that [net.isIP] takes for an
    IPv4 address is a dotted quad, and one that it takes for an IPv6
    address and that has no percent sign is one of the text forms. On
    every text that [net.isIP] takes for an IPv6 address and that carries a
    zone (a percent sign and what follows), [isPrivateIp] returns nothing:
    it throws INVALID_INPUT. In particular [isPrivateIp] returns true for
    127.0.0.1, 10.0.0.1, 192.168.1.1, ::1, fc00::1, fe80::1 and false for
    8.8.8.8. *)
Theorem isPrivateIp_matches_tables :
  (forall a b c d,
      octet a -> octet b -> octet c -> octet d ->
      Net.isIP (dotted a b c d) = 4%Z
      /\ Fetch.isPrivateIp (dotted a b c d) = Ok (specPrivateV4 (v4num a b c d)))
  /\ (forall x,
        wellFormedV6 x ->
        Net.isIP (renderV6 x) = 6%Z
        /\ Fetch.isPrivateIp (renderV6 x) = Ok (specPrivateV6 (addressOf x)))
  /\ (forall ip,
        Net.isIP ip = 4%Z ->
        exists a b c d,
          octet a /\ octet b /\ octet c /\ octet d /\ ip = dotted a b c d)
  /\ (forall ip,
        Net.isIP ip = 6%Z -> Net.fromPercent ip = None ->
        exists x, wellFormedV6 x /\ ip = renderV6 x)
  /\ (forall ip,
        zoned ip ->
        Fetch.isPrivateIp ip
        = Throw (ToolError INVALID_INPUT "Invalid IPv6 address" VUndefined))
  /\ (forall ip, classified ip <-> ~ zoned ip)
  /\ Fetch.isPrivateIp "127.0.0.1" = Ok true
  /\ Fetch.isPrivateIp "10.0.0.1" = Ok true
  /\ Fetch.isPrivateIp "192.168.1.1" = Ok true
  /\ Fetch.isPrivateIp "::1" = Ok true
  /\ Fetch.isPrivateIp "fc00::1" = Ok true
  /\ Fetch.isPrivateIp "fe80::1" = Ok true
  /\ Fetch.isPrivateIp "8.8.8.8" = Ok false.
Proof.
  split; [|split; [|split; [exact isIP_4_inv|split; [exact isIP_6_inv|split; [|split]]]]].
  - intros a b c d Ha Hb Hc Hd.
    split; [apply isIP_dotted|apply isPrivateIp_dotted]; assumption.
  - intros x Hwf. split; [apply isIP_renderV6|apply isPrivateIp_renderV6]; exact Hwf.
  - intros ip [H6 Hz]. destruct (Net.fromPercent ip) as [z|] eqn:Ez; [|contradiction].
    apply (isPrivateIp_zoned ip z H6 Ez).
  - intros ip. unfold zoned.
    destruct (isPrivateIp_answers ip) as [(H6 & Hz & E)|[Hn Hc]].
    + split; [|intros Hn; exfalso; apply Hn; split; assumption].
      intros [b Hb]. rewrite E in Hb. discriminate.
    + split; intros _; assumption.
  - repeat split; vm_compute; reflexivity.
Qed.

Lemma isPrivateIp_matches_tables_witness :
  Fetch.isPrivateIp "172.31.255.255" = Ok true
  /\ Fetch.isPrivateIp "172.32.0.0" = Ok false
  /\ Fetch.isPrivateIp "::FFFF:10.0.0.1" = Ok true
  /\ Fetch.isPrivateIp "2606:4700::1111" = Ok false.
Proof.
  destruct isPrivateIp_matches_tables as (H4 & H6 & _).
  split; [|split; [|split]].
  - apply (H4 172 31 255 255)%Z; unfold octet; lia.
  - apply (H4 172 32 0 0)%Z; unfold octet; lia.
  - apply (H6 (ElidedV4 [] ["FFFF"] 10 0 0 1)%Z).
    cbn [wellFormedV6]. unfold octet, isGroup.
    repeat split; try constructor; try (cbn [String.length length]; lia);
      try (repeat constructor; cbn [String.length]; lia); vm_compute; reflexivity.
  - apply (H6 (Elided ["2606"; "4700"] ["1111"])).
    cbn [wellFormedV6]. unfold isGroup.
    repeat split; try (cbn [String.length length]; lia);
      repeat constructor; try (cbn [String.length]; lia); vm_compute; reflexivity.
Defined.

(** ** The addresses of a name *)

Lemma failsWith_any {A B} (e : exn) k :
  failsWith (A := A) (Throw e) k -> failsWith (A := B) (Throw e) k.
Proof. intros (m & d & [= ->]). apply failsWith_Throw. Qed.

Lemma checkAddrs_skips h pre rest :
  allPublic pre -> Fetch.checkAddrs h (pre ++ rest) = Fetch.checkAddrs h rest.
Proof.
  induction 1 as [|x pre Hx _ IH]; [reflexivity|].
  cbn -[Fetch.isPrivateIp]. rewrite Hx. cbn [rbind]. exact IH.
Qed.

Lemma checkAddrs_fails h addrs a :
  In a addrs -> Fetch.isPrivateIp a = Ok true ->
  failsWith (Fetch.checkAddrs h addrs) SSRF_BLOCKED
  \/ failsWith (Fetch.checkAddrs h addrs) INVALID_INPUT.
Proof.
  intros Hin Ha. induction addrs as [|x addrs IH]; [contradiction|].
  cbn -[Fetch.isPrivateIp].
  destruct (isPrivateIp_answers x) as [(_ & _ & ->)|[_ [b Hx]]].
  - right. apply failsWith_Throw.
  - rewrite Hx. cbn [rbind]. destruct b; [left; apply failsWith_Throw|].
    destruct Hin as [->|Hin]; [congruence|auto].
Qed.

(** C5, as stated, fails: the resolver answers a link-local address with a
    zone and then a private address; the classifier throws on the first,
    and the engine fails with INVALID_INPUT, not with SSRF_BLOCKED. *)
Lemma private_address_behind_zoned_one :
  Fetch.lookup zonedPlatform "zoned.example" 0%nat
  = (1%nat, Ok ["fe80::1%eth0"; "10.0.0.1"])
  /\ nonLiteralHost zonedPlatform "http://zoned.example/"
       (sampleURL "http:" "zoned.example" "/")
  /\ Fetch.isPrivateIp "10.0.0.1" = Ok true
  /\ snd (Fetch.assertUrlAllowed zonedPlatform "http://zoned.example/" (0%nat, []))
     = Throw Fetch.invalidIPv6
  /\ failsWith (snd (Fetch.assertUrlAllowed zonedPlatform "http://zoned.example/"
                       (0%nat, []))) INVALID_INPUT
  /\ ~ failsWith (snd (Fetch.assertUrlAllowed zonedPlatform "http://zoned.example/"
                         (0%nat, []))) SSRF_BLOCKED.
Proof.
  assert (snd (Fetch.assertUrlAllowed zonedPlatform "http://zoned.example/" (0%nat, []))
          = Throw Fetch.invalidIPv6) as E by (vm_compute; reflexivity).
  split; [reflexivity|]. split.
  { repeat split; try reflexivity; [left; reflexivity|discriminate]. }
  split; [vm_compute; reflexivity|]. split; [exact E|]. rewrite E. split.
  - apply failsWith_Throw.
  - intros (m & d & H). discriminate.
Qed.

(** C5, amended. For a URL that passes the checks on scheme, userinfo and
    host name and whose host is not a literal address, the policy engine
    asks the resolver for all addresses and checks them in order. A
    failure of the resolution makes it fail with DNS_FAILED. A private
    address anywhere in the list, not only at its head, makes it fail: with
    SSRF_BLOCKED when the addresses ahead of the first private one are
    public, and so whenever the classifier answers for every address of the
    list; with INVALID_INPUT when an IPv6 address with a zone, on which the
    classifier throws, comes after public addresses only; and never with
    another kind. The URL is allowed only when every address is public. *)
Theorem dns_checks_every_address {W : Type} (P : Fetch.Platform W)
    (urlString : string) (u : Fetch.URL) (st : W * list Fetch.event)
    (Hname : nonLiteralHost P urlString u) :
  (forall w' e,
      Fetch.lookup P (Fetch.hostname u) (fst st) = (w', Throw e) ->
      failsWith (snd (Fetch.assertUrlAllowed P urlString st)) DNS_FAILED)
  /\ (forall w' addrs a,
        Fetch.lookup P (Fetch.hostname u) (fst st) = (w', Ok addrs) ->
        In a addrs -> Fetch.isPrivateIp a = Ok true ->
        isOk (snd (Fetch.assertUrlAllowed P urlString st)) = false
        /\ (failsWith (snd (Fetch.assertUrlAllowed P urlString st)) SSRF_BLOCKED
            \/ failsWith (snd (Fetch.assertUrlAllowed P urlString st)) INVALID_INPUT)
        /\ (Forall classified addrs ->
            failsWith (snd (Fetch.assertUrlAllowed P urlString st)) SSRF_BLOCKED))
  /\ (forall w' pre a post,
        Fetch.lookup P (Fetch.hostname u) (fst st) = (w', Ok (pre ++ a :: post)) ->
        allPublic pre ->
        (Fetch.isPrivateIp a = Ok true ->
         failsWith (snd (Fetch.assertUrlAllowed P urlString st)) SSRF_BLOCKED)
        /\ (zoned a ->
            failsWith (snd (Fetch.assertUrlAllowed P urlString st)) INVALID_INPUT))
  /\ (forall w' addrs,
        Fetch.lookup P (Fetch.hostname u) (fst st) = (w', Ok addrs) ->
        (snd (Fetch.assertUrlAllowed P urlString st) = Ok u <-> allPublic addrs)).
Proof.
  rewrite (assertUrlAllowed_name P urlString u st Hname).
  split; [|split; [|split]].
  - intros w' e ->. simpl. apply failsWith_Throw.
  - intros w' addrs a -> Hin Ha.
    pose proof (checkAddrs_blocks (Fetch.hostname u) addrs a Hin Ha) as Hb.
    pose proof (checkAddrs_fails (Fetch.hostname u) addrs a Hin Ha) as Hk.
    pose proof (checkAddrs_private (Fetch.hostname u) addrs a Hin Ha) as Hs.
    destruct (Fetch.checkAddrs (Fetch.hostname u) addrs) as [[]|e];
      [discriminate|]. simpl. split; [reflexivity|]. split.
    + destruct Hk as [Hk|Hk]; [left|right]; exact (failsWith_any _ _ Hk).
    + intros Hc. exact (failsWith_any _ _ (Hs Hc)).
  - intros w' pre a post -> Hpre.
    pose proof (checkAddrs_skips (Fetch.hostname u) pre (a :: post) Hpre) as Hk.
    cbn -[Fetch.isPrivateIp] in Hk. split.
    + intros Ha. rewrite Ha in Hk. cbn [rbind] in Hk. rewrite Hk. cbn [fst snd].
      apply failsWith_Throw.
    + intros [H6 Hz]. destruct (Net.fromPercent a) as [z|] eqn:Ez; [|contradiction].
      rewrite (isPrivateIp_zoned a z H6 Ez) in Hk. cbn [rbind] in Hk. rewrite Hk.
      cbn [fst snd]. apply failsWith_Throw.
  - intros w' addrs ->. rewrite (checkAddrs_public (Fetch.hostname u)).
    destruct (Fetch.checkAddrs (Fetch.hostname u) addrs) as [[]|e]; simpl.
    + split; reflexivity.
    + split; discriminate.
Qed.

Lemma dns_checks_every_address_witness :
  failsWith (snd (Fetch.assertUrlAllowed sampleFetchPlatform "http://decoy.example/"
                    (0%nat, []))) SSRF_BLOCKED
  /\ failsWith (snd (Fetch.assertUrlAllowed sampleFetchPlatform "http://gone.example/"
                       (0%nat, []))) DNS_FAILED
  /\ failsWith (snd (Fetch.assertUrlAllowed zonedPlatform "http://zoned.example/"
                       (0%nat, []))) INVALID_INPUT.
Proof.
  split; [|split].
  - refine (proj1 (proj1 (proj2 (proj2
      (dns_checks_every_address sampleFetchPlatform "http://decoy.example/"
         (sampleURL "http:" "decoy.example" "/") (0%nat, []) _)))
      1%nat ["93.184.216.34"] "10.0.0.1" [] eq_refl _) _).
    + repeat split; try reflexivity; [left; reflexivity|discriminate].
    + repeat constructor.
    + vm_compute. reflexivity.
  - refine (proj1
      (dns_checks_every_address sampleFetchPlatform "http://gone.example/"
         (sampleURL "http:" "gone.example" "/") (0%nat, []) _)
      1%nat (OtherError "getaddrinfo ENOTFOUND") eq_refl).
    repeat split; try reflexivity; [left; reflexivity|discriminate].
  - refine (proj2 (proj1 (proj2 (proj2
      (dns_checks_every_address zonedPlatform "http://zoned.example/"
         (sampleURL "http:" "zoned.example" "/") (0%nat, []) _)))
      1%nat [] "fe80::1%eth0" ["10.0.0.1"] eq_refl _) _).
    + repeat split; try reflexivity; [left; reflexivity|discriminate].
    + constructor.
    + split; [vm_compute; reflexivity|discriminate].
Defined.

(** * Further properties of the code *)

(** ** The parsers *)

Lemma asStrings_Some xs l : Exec.asStrings xs = Some l <-> xs = map VString l.
Proof.
  revert l. induction xs as [|x xs IH]; intros l; simpl.
  - split; [intros [= <-]; reflexivity|]. destruct l; [reflexivity|discriminate].
  - destruct x; try (split; [discriminate|destruct l; discriminate]).
    destruct (Exec.asStrings xs) as [l'|].
    + split.
      * intros [= <-]. simpl. f_equal. apply IH. reflexivity.
      * destruct l as [|a l]; [discriminate|]. intros [= -> H]. f_equal. f_equal.
        apply IH in H. congruence.
    + split; [discriminate|]. destruct l as [|a l]; [discriminate|].
      intros [= -> H]. apply IH in H. discriminate.
Qed.

Lemma checkArgs_Ok args :
  Exec.checkArgs args = Ok tt
  <-> Forall (fun a => (strlen a <= 8192)%Z /\ includes a Exec.NUL = false) args.
Proof.
  induction args as [|a args IH]; cbn [Exec.checkArgs].
  - split; [constructor|reflexivity].
  - rewrite Forall_cons, <- IH. unfold Exec.MAX_ARG_LENGTH.
    destruct (strlen a >? 8192)%Z eqn:El.
    + split; [discriminate|]. intros [[H _] _]. lia.
    + destruct (includes a Exec.NUL) eqn:En.
      * split; [discriminate|]. intros [[_ H] _]. discriminate.
      * split; [intros H; split; [split; [lia|reflexivity]|exact H]|intros [_ H]; exact H].
Qed.

Lemma checkArgs_kind args e :
  Exec.checkArgs args = Throw e -> errorCode e = Some INVALID_INPUT.
Proof.
  induction args as [|a args IH]; cbn [Exec.checkArgs]; [discriminate|].
  destruct (strlen a >? Exec.MAX_ARG_LENGTH)%Z; [intros [= <-]; reflexivity|].
  destruct (includes a Exec.NUL); [intros [= <-]; reflexivity|exact IH].
Qed.

Lemma parseArgs_Ok v args :
  Exec.parseArgs v = Ok args
  <-> ((v = VUndefined /\ args = []) \/ v = VArray (map VString args))
      /\ argsWithinLimits args.
Proof.
  unfold Exec.parseArgs, argsWithinLimits, Exec.MAX_ARGS. split.
  - destruct v as [| | | | |xs|]; try discriminate.
    + intros [= <-]. split; [left; auto|]. split; [simpl; lia|constructor].
    + destruct (Exec.asStrings xs) as [l|] eqn:Es; [|discriminate].
      apply asStrings_Some in Es. subst xs.
      destruct (Z.of_nat (length l) >? 64)%Z eqn:El; [discriminate|].
      destruct (Exec.checkArgs l) as [[]|e] eqn:Ec; [|discriminate].
      intros [= <-]. split; [right; reflexivity|]. split; [lia|].
      apply checkArgs_Ok, Ec.
  - intros [[[-> ->]| ->] [Hl Hf]]; [reflexivity|].
    rewrite (proj2 (asStrings_Some _ _) eq_refl).
    replace (Z.of_nat (length args) >? 64)%Z with false by lia.
    rewrite (proj2 (checkArgs_Ok args) Hf). reflexivity.
Qed.

Lemma parseArgs_kind v e :
  Exec.parseArgs v = Throw e -> errorCode e = Some INVALID_INPUT.
Proof.
  unfold Exec.parseArgs. destruct v as [| | | | |xs|]; try (intros [= <-]; reflexivity).
  destruct (Exec.asStrings xs) as [l|]; [|intros [= <-]; reflexivity].
  destruct (Z.of_nat (length l) >? Exec.MAX_ARGS)%Z; [intros [= <-]; reflexivity|].
  destruct (Exec.checkArgs l) as [[]|e'] eqn:Ec; [discriminate|].
  intros [= <-]. apply (checkArgs_kind l), Ec.
Qed.

Lemma parseBoundedInt_Ok v field min max d n :
  Exec.parseBoundedInt v field min max d = Ok n <-> boundedField v min max d n.
Proof.
  unfold boundedField. split.
  - intros H. apply exec_parseBoundedInt_range in H. destruct H as [[-> ->]|[-> H]]; auto.
  - intros [[-> ->]|[-> H]]; [reflexivity|]. unfold Exec.parseBoundedInt, VInt.
    replace ((n <? min) || (n >? max))%Z with false by lia. reflexivity.
Qed.

Lemma parseBoundedInt_kind v field min max d e :
  Exec.parseBoundedInt v field min max d = Throw e -> errorCode e = Some INVALID_INPUT.
Proof.
  unfold Exec.parseBoundedInt. destruct v as [| | |[n|]| | |]; try (intros [= <-]; reflexivity).
  destruct ((n <? min) || (n >? max))%Z; [intros [= <-]; reflexivity|discriminate].
Qed.

Lemma allowed_command cmd :
  Exec.ALLOWED_COMMANDS_has cmd = true <-> cmd ∈ ["git"; "npm"; "node"].
Proof. unfold Exec.ALLOWED_COMMANDS_has, Exec.ALLOWED_COMMANDS. apply bool_decide_eq_true. Qed.

(** X1. [parseExecToolInput] returns a command exactly for the request
    objects whose command is git, npm or node, whose args are absent (and
    then empty) or an array of at most 64 strings of at most 8192 code
    units without NUL that the command policy lets through, whose timeoutMs
    and maxOutputBytes are absent (and then 60000 and 200000) or integers
    within 1..120000 and 1024..1000000, and whose stdin is absent or a
    string of at most 200000 UTF-8 bytes; the command holds these values. *)
Theorem parseExecToolInput_accepts (raw : value) (c : Exec.ExecCommand) :
  Exec.parseExecToolInput raw = Ok c <-> exists o, raw = VObject o /\ execAccepts o c.
Proof.
  unfold execAccepts. split.
  - unfold Exec.parseExecToolInput.
    destruct raw as [| | | | | |o]; try discriminate.
    destruct (getProp o "command") as [| | | |cmd| |] eqn:Ec; try discriminate.
    destruct (Exec.ALLOWED_COMMANDS_has cmd) eqn:Ea; [|discriminate].
    intros H.
    apply rbind_Ok in H as (a & Ha & H).
    apply rbind_Ok in H as ([] & Hv & H).
    apply rbind_Ok in H as (t & Ht & H).
    apply rbind_Ok in H as (m & Hm & H).
    apply parseArgs_Ok in Ha as [Ha Hlim]. apply allowed_command in Ea.
    apply parseBoundedInt_Ok in Ht, Hm.
    exists o. split; [reflexivity|].
    destruct (getProp o "stdin") as [| | | |s| |] eqn:Es; try discriminate.
    + injection H as <-. cbn [Exec.command Exec.args Exec.stdin Exec.timeoutMs Exec.maxOutputBytes].
      repeat (split; [assumption|]). left. auto.
    + unfold Exec.MAX_STDIN_BYTES in H.
      destruct (negb (String.eqb s "") && (utf8ByteLength s >? 200000)%Z) eqn:El;
        [discriminate|].
      injection H as <-. cbn [Exec.command Exec.args Exec.stdin Exec.timeoutMs Exec.maxOutputBytes].
      repeat (split; [assumption|]). right. exists s. split; [reflexivity|]. split; [reflexivity|].
      destruct (String.eqb s "") eqn:E0; [apply String.eqb_eq in E0; subst s; simpl; lia|].
      simpl in El. lia.
  - intros (o & -> & Hc & Ha & Hargs & Hlim & Hv & Ht & Hm & Hs).
    unfold Exec.parseExecToolInput. rewrite Hc.
    rewrite (proj2 (allowed_command _) Ha).
    rewrite (proj2 (parseArgs_Ok _ _) (conj Hargs Hlim)). cbn [rbind]. rewrite Hv. cbn [rbind].
    unfold Exec.MAX_TIMEOUT_MS, Exec.DEFAULT_TIMEOUT_MS, Exec.MAX_MAX_OUTPUT_BYTES,
      Exec.DEFAULT_MAX_OUTPUT_BYTES.
    rewrite (proj2 (parseBoundedInt_Ok _ _ _ _ _ _) Ht). cbn [rbind].
    rewrite (proj2 (parseBoundedInt_Ok _ _ _ _ _ _) Hm). cbn [rbind].
    destruct c as [cmd args stdin t m]. cbn [Exec.command Exec.args Exec.stdin
      Exec.timeoutMs Exec.maxOutputBytes] in *.
    destruct Hs as [[-> ->]|(s & -> & -> & Hl)]; [reflexivity|].
    unfold Exec.MAX_STDIN_BYTES.
    replace (utf8ByteLength s >? 200000)%Z with false by lia.
    rewrite andb_false_r. reflexivity.
Qed.

Lemma gitLoop_kind args e :
  Exec.gitLoop args = Throw e -> errorCode e = Some DISALLOWED_ARGUMENT.
Proof.
  intros H. destruct (gitLoop_cases args) as [E|(m & d & E)]; rewrite E in H;
    [discriminate|]. injection H as <-. reflexivity.
Qed.

Lemma npmLoop_kind args e :
  Exec.npmLoop args = Throw e -> errorCode e = Some DISALLOWED_ARGUMENT.
Proof.
  intros H. destruct (npmLoop_cases args) as [E|(m & d & E)]; rewrite E in H;
    [discriminate|]. injection H as <-. reflexivity.
Qed.

Lemma validateDisallowedCwdArgs_kind cmd args e :
  Exec.validateDisallowedCwdArgs cmd args = Throw e ->
  errorCode e = Some DISALLOWED_ARGUMENT.
Proof.
  unfold Exec.validateDisallowedCwdArgs.
  destruct (String.eqb cmd "git").
  - destruct (Exec.gitLoop args) as [[]|e'] eqn:E; cbn [rbind].
    + destruct (String.eqb cmd "npm"); [apply npmLoop_kind|discriminate].
    + intros [= <-]. apply (gitLoop_kind args), E.
  - cbn [rbind]. destruct (String.eqb cmd "npm"); [apply npmLoop_kind|discriminate].
Qed.

(** X2. A request that [parseExecToolInput] refuses is refused with a
    classified error of kind INVALID_INPUT, COMMAND_NOT_ALLOWED or
    DISALLOWED_ARGUMENT, and one that [parseFetchToolInput] refuses with
    INVALID_INPUT: neither parser throws anything else. *)
Theorem parsers_throw_classified_errors :
  (forall raw e,
      Exec.parseExecToolInput raw = Throw e ->
      errorCode e = Some INVALID_INPUT
      \/ errorCode e = Some COMMAND_NOT_ALLOWED
      \/ errorCode e = Some DISALLOWED_ARGUMENT)
  /\ (forall raw e,
        Fetch.parseFetchToolInput raw = Throw e -> errorCode e = Some INVALID_INPUT).
Proof.
  split.
  - intros raw e. unfold Exec.parseExecToolInput.
    destruct raw as [| | | | | |o]; try (intros [= <-]; auto).
    destruct (getProp o "command") as [| | | |cmd| |]; try (intros [= <-]; auto).
    destruct (Exec.ALLOWED_COMMANDS_has cmd); [|intros [= <-]; auto].
    destruct (Exec.parseArgs (getProp o "args")) as [a|e1] eqn:Ea; cbn [rbind];
      [|intros [= <-]; left; apply (parseArgs_kind _ _ Ea)].
    destruct (Exec.validateDisallowedCwdArgs cmd a) as [[]|e1] eqn:Ev; cbn [rbind];
      [|intros [= <-]; right; right; apply (validateDisallowedCwdArgs_kind _ _ _ Ev)].
    destruct (Exec.parseBoundedInt (getProp o "timeoutMs") _ _ _ _) as [t|e1] eqn:Et;
      cbn [rbind]; [|intros [= <-]; left; apply (parseBoundedInt_kind _ _ _ _ _ _ Et)].
    destruct (Exec.parseBoundedInt (getProp o "maxOutputBytes") _ _ _ _) as [m|e1] eqn:Em;
      cbn [rbind]; [|intros [= <-]; left; apply (parseBoundedInt_kind _ _ _ _ _ _ Em)].
    destruct (getProp o "stdin") as [| | | |s| |]; try (intros [= <-]; auto).
    destruct (negb (String.eqb s "") && (utf8ByteLength s >? Exec.MAX_STDIN_BYTES)%Z);
      intros [= <-]; auto.
  - intros raw e. unfold Fetch.parseFetchToolInput.
    destruct raw as [| | | | | |o]; try (intros [= <-]; auto).
    destruct (getProp o "url") as [| | | |u| |]; try (intros [= <-]; auto).
    destruct (String.eqb u ""); [intros [= <-]; auto|].
    destruct (Fetch.parseBoundedInt (getProp o "timeoutMs") _ _ _ _) as [t|e1] eqn:Et;
      cbn [rbind]; [|intros [= <-]; apply (parseBoundedInt_kind _ _ _ _ _ _ Et)].
    destruct (Fetch.parseBoundedInt (getProp o "maxBytes") _ _ _ _) as [m|e1] eqn:Em;
      cbn [rbind]; [|intros [= <-]; apply (parseBoundedInt_kind _ _ _ _ _ _ Em)].
    destruct (Fetch.parseBoundedInt (getProp o "maxRedirects") _ _ _ _) as [r|e1] eqn:Er;
      cbn [rbind]; [discriminate|intros [= <-]; apply (parseBoundedInt_kind _ _ _ _ _ _ Er)].
Qed.

(** X3. [parseFetchToolInput] returns a request exactly for the request
    objects whose url is a non-empty string and whose timeoutMs, maxBytes
    and maxRedirects are absent (and then 15000, 500000 and 3) or integers
    within 1..30000, 1024..1000000 and 0..5; the request holds these
    values. *)
Theorem parseFetchToolInput_accepts (raw : value) (r : Fetch.FetchRequest) :
  Fetch.parseFetchToolInput raw = Ok r <-> exists o, raw = VObject o /\ fetchAccepts o r.
Proof.
  unfold fetchAccepts. split.
  - intros H. apply fetch_parse_Ok in H as (o & -> & Hu & Hne & Ht & Hb & Hm).
    exists o. split; [reflexivity|].
    apply (proj1 (parseBoundedInt_Ok _ _ _ _ _ _)) in Ht, Hb, Hm. auto 10.
  - intros (o & -> & Hu & Hne & Ht & Hb & Hm).
    unfold Fetch.parseFetchToolInput. rewrite Hu.
    replace (String.eqb (Fetch.url r) "") with false
      by (symmetry; apply String.eqb_neq, Hne).
    unfold Fetch.MAX_TIMEOUT_MS, Fetch.DEFAULT_TIMEOUT_MS, Fetch.MAX_MAX_BYTES,
      Fetch.DEFAULT_MAX_BYTES, Fetch.MAX_MAX_REDIRECTS, Fetch.DEFAULT_MAX_REDIRECTS.
    change Fetch.parseBoundedInt with Exec.parseBoundedInt.
    rewrite (proj2 (parseBoundedInt_Ok _ _ _ _ _ _) Ht). cbn [rbind].
    rewrite (proj2 (parseBoundedInt_Ok _ _ _ _ _ _) Hb). cbn [rbind].
    rewrite (proj2 (parseBoundedInt_Ok _ _ _ _ _ _) Hm). cbn [rbind].
    destruct r; reflexivity.
Qed.

(** ** The command policy *)

Lemma prefix_split p a : String.prefix p a = true -> exists rest, a = p +:+ rest.
Proof.
  revert a. induction p as [|c p IH]; intros a H.
  - exists a. reflexivity.
  - destruct a as [|x a]; [discriminate|]. simpl in H.
    destruct (ascii_dec c x) as [->|]; [|discriminate].
    destruct (IH a H) as (rest & ->). exists rest. reflexivity.
Qed.

Lemma gitArg_throws a : Exec.gitArg a <> Ok tt -> gitDisallowed a.
Proof.
  unfold Exec.gitArg, Exec.isExact, Exec.isPrefixed, startsWith, gitDisallowed.
  destruct (String.eqb a "-C") eqn:E1; [apply String.eqb_eq in E1; auto|].
  destruct (String.prefix "-C" a) eqn:E2.
  - destruct (strlen a >? 2)%Z eqn:E3.
    + intros _. right. left. apply prefix_split in E2 as (rest & ->). exists rest.
      split; [|reflexivity]. intros ->. vm_compute in E3. discriminate.
    + cbn [andb orb].
      destruct (String.eqb a "--git-dir") eqn:E4; [apply String.eqb_eq in E4; auto|].
      apply prefix_split in E2 as (rest & ->). vm_compute in E4.
      destruct (String.prefix "--git-dir=" ("-C" +:+ rest)) eqn:E5;
        [apply prefix_split in E5 as (r & E5); discriminate|].
      destruct (String.eqb ("-C" +:+ rest) "--work-tree") eqn:E6;
        [apply String.eqb_eq in E6; discriminate|].
      destruct (String.prefix "--work-tree=" ("-C" +:+ rest)) eqn:E7;
        [apply prefix_split in E7 as (r & E7); discriminate|].
      cbn [orb]. congruence.
  - cbn [andb orb].
    destruct (String.eqb a "--git-dir") eqn:E4; [apply String.eqb_eq in E4; auto 10|].
    destruct (String.prefix "--git-dir=" a) eqn:E5;
      [apply prefix_split in E5 as (r & ->); intros _; do 3 right; left; eauto|].
    destruct (String.eqb a "--work-tree") eqn:E6; [apply String.eqb_eq in E6; auto 10|].
    destruct (String.prefix "--work-tree=" a) eqn:E7;
      [apply prefix_split in E7 as (r & ->); intros _; do 5 right; eauto|].
    cbn [orb]. congruence.
Qed.

Lemma npmArg_rejected a next :
  npmRejected a -> failsWith (Exec.npmArg a next) DISALLOWED_ARGUMENT.
Proof.
  intros [H|[H|[H|[H|(v & ->)]]]];
    try (apply npmArg_disallowed; unfold npmDisallowed; tauto).
  destruct (npmArg_cases ("--location=global" +:+ v) next) as [E|]; [exfalso|assumption].
  unfold Exec.npmArg, Exec.isExact, Exec.isPrefixed, startsWith in E.
  rewrite (prefix_append "--location=global" v), !orb_true_r in E.
  destruct (_ || _) in E; discriminate.
Qed.

Lemma npmArg_throws a next :
  Exec.npmArg a next <> Ok tt ->
  npmRejected a \/ (a = "--location" /\ next = Some "global").
Proof.
  unfold Exec.npmArg, Exec.isExact, Exec.isPrefixed, startsWith, npmRejected.
  destruct (String.eqb a "--prefix") eqn:E1; [apply String.eqb_eq in E1; auto|].
  destruct (String.prefix "--prefix=" a) eqn:E2;
    [apply prefix_split in E2 as (r & ->); intros _; left; right; left; eauto|].
  destruct (String.eqb a "--global") eqn:E3; [apply String.eqb_eq in E3; auto 10|].
  destruct (String.eqb a "-g") eqn:E4; [apply String.eqb_eq in E4; auto 10|].
  destruct (String.prefix "--location=global" a) eqn:E5;
    [apply prefix_split in E5 as (r & ->); intros _; left; do 4 right; eauto|].
  cbn [orb].
  destruct (String.eqb a "--location") eqn:E6; [|cbn [andb]; congruence].
  apply String.eqb_eq in E6. destruct next as [n|]; [|cbn [andb]; congruence].
  destruct (String.eqb n "global") eqn:E7; [|cbn [andb]; congruence].
  apply String.eqb_eq in E7. subst. auto.
Qed.

Lemma gitLoop_Ok args :
  Exec.gitLoop args = Ok tt <-> forall a, In a args -> ~ gitDisallowed a.
Proof.
  split.
  - intros H a Hin Ha.
    destruct (gitLoop_In args a Hin (gitArg_disallowed a Ha)) as (m & d & E).
    congruence.
  - induction args as [|b args IH]; intros H; [reflexivity|]. cbn [Exec.gitLoop].
    destruct (Exec.gitArg b) as [[]|e] eqn:E.
    + cbn [rbind]. apply IH. intros a Hin. apply H. right. exact Hin.
    + exfalso. apply (H b); [left; reflexivity|]. apply gitArg_throws. congruence.
Qed.

Lemma npmLoop_Ok args :
  Exec.npmLoop args = Ok tt
  <-> (forall a, In a args -> ~ npmRejected a) /\ ~ hasLocationGlobal args.
Proof.
  split.
  - intros H. split.
    + intros a Hin Ha.
      destruct (npmLoop_In args a Hin (fun next => npmArg_rejected a next Ha)) as (m & d & E).
      congruence.
    + intros (pre & post & ->).
      destruct (npmLoop_location_global pre post) as (m & d & E). congruence.
  - induction args as [|b args IH]; intros [H Hn]; [reflexivity|]. cbn [Exec.npmLoop].
    destruct (Exec.npmArg b (head args)) as [[]|e] eqn:E.
    + cbn [rbind]. apply IH. split.
      * intros a Hin. apply H. right. exact Hin.
      * intros (pre & post & ->). apply Hn. exists (b :: pre), post. reflexivity.
    + exfalso. destruct (npmArg_throws b (head args)) as [Hr|[-> Hg]]; [congruence| |].
      * apply (H b); [left; reflexivity|exact Hr].
      * destruct args as [|g args]; [discriminate|]. injection Hg as ->.
        apply Hn. exists [], args. reflexivity.
Qed.

(** X4. The command policy rejects nothing but what it lists. A git
    argument list passes exactly when none of its arguments is -C,
    -C<path>, --git-dir, --git-dir=..., --work-tree or --work-tree=...; an
    npm argument list passes exactly when none of its arguments is
    --prefix, --prefix=..., -g, --global or starts with --location=global,
    and --location is nowhere followed by global; the arguments of any
    other command, node among them, are not inspected. *)
Theorem command_policy_is_exact :
  (forall args,
      Exec.validateDisallowedCwdArgs "git" args = Ok tt
      <-> forall a, In a args -> ~ gitDisallowed a)
  /\ (forall args,
        Exec.validateDisallowedCwdArgs "npm" args = Ok tt
        <-> (forall a, In a args -> ~ npmRejected a) /\ ~ hasLocationGlobal args)
  /\ (forall cmd args,
        cmd <> "git" -> cmd <> "npm" ->
        Exec.validateDisallowedCwdArgs cmd args = Ok tt).
Proof.
  split; [|split].
  - intros args. rewrite <- gitLoop_Ok. unfold Exec.validateDisallowedCwdArgs.
    cbn [String.eqb Ascii.eqb Bool.eqb andb]. 
    destruct (Exec.gitLoop args) as [[]|e]; cbn [rbind]; split; congruence.
  - intros args. rewrite <- npmLoop_Ok. unfold Exec.validateDisallowedCwdArgs.
    reflexivity.
  - intros cmd args Hg Hn. unfold Exec.validateDisallowedCwdArgs.
    apply String.eqb_neq in Hg, Hn. rewrite Hg, Hn. reflexivity.
Qed.

(** ** The process runner *)

Lemma runExecTool_started P input signal child ns :
  Exec.spawn P (Exec.command input) (Exec.args input) = Ok child ->
  notAborted signal ->
  Exec.runExecTool P input signal ns
  = Exec.await P input (hasSignal signal) child (started input signal) ns.
Proof.
  intros Hs Hn. unfold Exec.runExecTool. rewrite Hs.
  destruct signal as [[|]|]; [exfalso; apply Hn; reflexivity|reflexivity|reflexivity].
Qed.

Lemma await_app_pending P input hs child pre rest :
  Forall pending pre ->
  forall st, exists st',
    Exec.await P input hs child st (pre ++ rest) = Exec.await P input hs child st' rest
    /\ Exec.stdoutCollector st'
       = fold_left Exec.onData (stdoutChunks pre) (Exec.stdoutCollector st)
    /\ Exec.stderrCollector st'
       = fold_left Exec.onData (stderrChunks pre) (Exec.stderrCollector st)
    /\ (Exec.timedOut st = true -> Exec.timedOut st' = true)
    /\ (Exec.timerArmed st = true -> In Exec.TimerFired pre -> Exec.timedOut st' = true)
    /\ (Exec.timedOut st = false -> ~ In Exec.TimerFired pre -> Exec.timedOut st' = false)
    /\ (exists tl, Exec.effects st' = Exec.effects st ++ tl).
Proof.
  induction 1 as [|n pre Hn _ IH]; intros st.
  - exists st. cbn [app stdoutChunks stderrChunks flat_map fold_left].
    repeat split; auto; try contradiction. exists []. rewrite app_nil_r. reflexivity.
  - destruct n as [| |ch|ch|m|code sig]; try contradiction;
      cbn [app Exec.await stdoutChunks stderrChunks flat_map fold_left].
    + destruct (Exec.timerArmed st) eqn:Ea.
      * edestruct IH as (st' & E & Ho & He & Ht1 & Ht2 & Ht3 & (tl & Hx)).
        exists st'. split; [exact E|]. cbn [Exec.stdoutCollector Exec.stderrCollector
          Exec.timedOut Exec.timerArmed Exec.effects] in *.
        split; [exact Ho|]. split; [exact He|].
        split; [auto|]. split; [auto|]. split; [intros _ Hni; exfalso; apply Hni; left; reflexivity|].
        destruct (killProcessGroup_extends P child (Exec.effects st)) as [t1 E1].
        rewrite E1, <- app_assoc in Hx. eauto.
      * destruct (IH st) as (st' & E & Ho & He & Ht1 & Ht2 & Ht3 & Hx).
        exists st'. split; [exact E|]. split; [exact Ho|]. split; [exact He|].
        split; [exact Ht1|]. split; [discriminate|].
        split; [intros _ Hni; exfalso; apply Hni; left; reflexivity|exact Hx].
    + destruct (Exec.abortListening st) eqn:Ea.
      * edestruct IH as (st' & E & Ho & He & Ht1 & Ht2 & Ht3 & (tl & Hx)).
        exists st'. split; [exact E|]. cbn [Exec.stdoutCollector Exec.stderrCollector
          Exec.timedOut Exec.timerArmed Exec.effects] in *.
        split; [exact Ho|]. split; [exact He|]. split; [exact Ht1|].
        split; [intros Hta [Hin|Hin]; [discriminate|auto]|].
        split; [intros Htf Hni; apply Ht3; [exact Htf|intros Hin; apply Hni; right; exact Hin]|].
        destruct (killProcessGroup_extends P child (Exec.effects st)) as [t1 E1].
        rewrite E1, <- app_assoc in Hx. eauto.
      * destruct (IH st) as (st' & E & Ho & He & Ht1 & Ht2 & Ht3 & Hx).
        exists st'. split; [exact E|]. split; [exact Ho|]. split; [exact He|].
        split; [exact Ht1|].
        split; [intros Hta [Hin|Hin]; [discriminate|auto]|].
        split; [intros Htf Hni; apply Ht3; [exact Htf|intros Hin; apply Hni; right; exact Hin]|].
        exact Hx.
    + edestruct IH as (st' & E & Ho & He & Ht1 & Ht2 & Ht3 & Hx).
      exists st'. split; [exact E|]. cbn [Exec.stdoutCollector Exec.stderrCollector
        Exec.timedOut Exec.timerArmed Exec.effects] in *.
      split; [exact Ho|]. split; [exact He|]. split; [exact Ht1|].
      split; [intros Hta [Hin|Hin]; [discriminate|auto]|].
      split; [intros Htf Hni; apply Ht3; [exact Htf|intros Hin; apply Hni; right; exact Hin]|].
      exact Hx.
    + edestruct IH as (st' & E & Ho & He & Ht1 & Ht2 & Ht3 & Hx).
      exists st'. split; [exact E|]. cbn [Exec.stdoutCollector Exec.stderrCollector
        Exec.timedOut Exec.timerArmed Exec.effects] in *.
      split; [exact Ho|]. split; [exact He|]. split; [exact Ht1|].
      split; [intros Hta [Hin|Hin]; [discriminate|auto]|].
      split; [intros Htf Hni; apply Ht3; [exact Htf|intros Hin; apply Hni; right; exact Hin]|].
      exact Hx.
Qed.

Lemma calm_pending pre : Forall calm pre -> Forall pending pre /\ ~ In Exec.TimerFired pre.
Proof.
  induction 1 as [|n pre Hn _ [IH1 IH2]]; [split; [constructor|intros []]|].
  destruct n; try contradiction; (split; [constructor; [exact I|exact IH1]|]);
    intros [H|H]; try discriminate; auto.
Qed.

(** X5. When the child closes with exit code 0 before the timer fired, the
    call returns a result for the command run in /workspace whose stdout
    and stderr are the decoding of the first maxOutputBytes bytes that
    arrived on each stream, with the truncation flag of a stream raised
    whenever it delivered more than that. *)
Theorem exec_success_returns_capped_output (P : Exec.Platform)
    (input : Exec.ExecCommand) (signal : option bool) (child : Exec.Child)
    (pre rest : list Exec.notification) (sig : option string)
    (Hspawn : Exec.spawn P (Exec.command input) (Exec.args input) = Ok child)
    (Hsignal : notAborted signal)
    (Hcap : (0 <= Exec.maxOutputBytes input)%Z)
    (Hpre : Forall calm pre) :
  exists out,
    snd (Exec.runExecTool P input signal (pre ++ Exec.ChildClose (Some 0%Z) sig :: rest))
    = Some (Ok out)
    /\ Exec.o_cwd out = "/workspace"
    /\ Exec.o_command out = Exec.command input
    /\ Exec.o_args out = Exec.args input
    /\ Exec.o_exitCode out = Some 0%Z
    /\ Exec.o_timedOut out = false
    /\ Exec.o_stdout out
       = Exec.decodeUtf8 P (firstn (Z.to_nat (Exec.maxOutputBytes input))
                              (bufferBytes (stdoutChunks pre)))
    /\ Exec.o_stderr out
       = Exec.decodeUtf8 P (firstn (Z.to_nat (Exec.maxOutputBytes input))
                              (bufferBytes (stderrChunks pre)))
    /\ ((Exec.maxOutputBytes input < Exec.byteLength (bufferBytes (stdoutChunks pre)))%Z ->
        Exec.o_stdoutTruncated out = true)
    /\ ((Exec.maxOutputBytes input < Exec.byteLength (bufferBytes (stderrChunks pre)))%Z ->
        Exec.o_stderrTruncated out = true).
Proof.
  rewrite (runExecTool_started P input signal child _ Hspawn Hsignal).
  destruct (calm_pending pre Hpre) as [Hp Hnt].
  destruct (await_app_pending P input (hasSignal signal) child pre
              (Exec.ChildClose (Some 0%Z) sig :: rest) Hp (started input signal))
    as (st' & -> & Ho & He & _ & _ & Ht & _).
  cbn [Exec.await]. unfold Exec.finish. rewrite (Ht eq_refl Hnt).
  eexists. split; [reflexivity|].
  cbn [Exec.o_cwd Exec.o_command Exec.o_args Exec.o_exitCode Exec.o_timedOut
       Exec.o_stdout Exec.o_stderr Exec.o_stdoutTruncated Exec.o_stderrTruncated
       Exec.stats snd].
  rewrite Ho, He. cbn [started Exec.stdoutCollector Exec.stderrCollector].
  destruct (feed_collects _ Hcap (stdoutChunks pre)) as (_ & Hc1 & _ & _ & Hd1).
  destruct (feed_collects _ Hcap (stderrChunks pre)) as (_ & Hc2 & _ & _ & Hd2).
  unfold feed in *. rewrite Hc1, Hc2. auto 12.
Qed.

Lemma exec_success_returns_capped_output_witness :
  exists out,
    snd (Exec.runExecTool sampleExecPlatform sampleCommand None
           ([Exec.StdoutData (Exec.BufferChunk [Byte.x76; Byte.x32; Byte.x30])]
              ++ Exec.ChildClose (Some 0%Z) None :: []))
    = Some (Ok out)
    /\ Exec.o_cwd out = "/workspace"
    /\ Exec.o_command out = "node"
    /\ Exec.o_args out = ["-v"]
    /\ Exec.o_exitCode out = Some 0%Z
    /\ Exec.o_timedOut out = false
    /\ Exec.o_stdout out = "v20"
    /\ Exec.o_stderr out = ""
    /\ ((200000 < 3)%Z -> Exec.o_stdoutTruncated out = true)
    /\ ((200000 < 0)%Z -> Exec.o_stderrTruncated out = true).
Proof.
  apply (exec_success_returns_capped_output sampleExecPlatform sampleCommand None
           {| Exec.pid := Some 4242%Z |}
           [Exec.StdoutData (Exec.BufferChunk [Byte.x76; Byte.x32; Byte.x30])] [] None).
  - reflexivity.
  - discriminate.
  - vm_compute. discriminate.
  - repeat constructor.
Defined.

Lemma await_pending_kill P input hs child p pre rest :
  Exec.pid child = Some p -> p <> 0%Z ->
  Forall pending pre -> In Exec.TimerFired pre ->
  forall st,
    Exec.timerArmed st = true ->
    In (Exec.ProcessKill (- p) "SIGKILL") (fst (Exec.await P input hs child st (pre ++ rest))).
Proof.
  intros Hp Hz. induction 1 as [|n pre Hn _ IH]; intros Hin st Ha; [contradiction|].
  destruct n as [| |ch|ch|m|code sig]; try contradiction; cbn [app Exec.await].
  - rewrite Ha. apply await_keeps_effects. cbn [Exec.effects].
    apply killProcessGroup_kills; assumption.
  - destruct Hin as [Hin|Hin]; [discriminate|].
    destruct (Exec.abortListening st); apply IH; assumption.
  - destruct Hin as [Hin|Hin]; [discriminate|]. apply IH; assumption.
  - destruct Hin as [Hin|Hin]; [discriminate|]. apply IH; assumption.
Qed.

(** X6. Once the timer has fired, the group of the child is killed, and
    when the child then closes the call fails with TIMEOUT whatever the
    exit code, 0 included; the details of the error are the result, with
    timedOut set and the exit code and signal of the close. *)
Theorem exec_timeout_overrides_exit_code (P : Exec.Platform)
    (input : Exec.ExecCommand) (signal : option bool) (child : Exec.Child) (p : Z)
    (pre rest : list Exec.notification) (code : option Z) (sig : option string)
    (Hspawn : Exec.spawn P (Exec.command input) (Exec.args input) = Ok child)
    (Hsignal : notAborted signal)
    (Hpid : Exec.pid child = Some p) (Hp : p <> 0%Z)
    (Hpre : Forall pending pre) (Htimer : In Exec.TimerFired pre) :
  In (Exec.ProcessKill (- p) "SIGKILL")
    (fst (Exec.runExecTool P input signal (pre ++ Exec.ChildClose code sig :: rest)))
  /\ exists out,
      snd (Exec.runExecTool P input signal (pre ++ Exec.ChildClose code sig :: rest))
      = Some (Throw (ToolError TIMEOUT
                       ("Process timed out after " +:+ numToString (Exec.timeoutMs input)
                          +:+ "ms")
                       (Exec.outcomeToValue out)))
      /\ Exec.o_timedOut out = true
      /\ Exec.o_exitCode out = code
      /\ Exec.o_signal out = sig.
Proof.
  rewrite (runExecTool_started P input signal child _ Hspawn Hsignal). split.
  - apply (await_pending_kill P input (hasSignal signal) child p pre _ Hpid Hp Hpre Htimer).
    reflexivity.
  - destruct (await_app_pending P input (hasSignal signal) child pre
                (Exec.ChildClose code sig :: rest) Hpre (started input signal))
      as (st' & -> & _ & _ & _ & Ht & _ & _).
    cbn [Exec.await]. unfold Exec.finish. rewrite (Ht eq_refl Htimer).
    eexists. split; [reflexivity|]. cbn [Exec.o_timedOut Exec.o_exitCode Exec.o_signal].
    auto.
Qed.

Lemma exec_timeout_overrides_exit_code_witness :
  In (Exec.ProcessKill (-4242) "SIGKILL")
    (fst (Exec.runExecTool sampleExecPlatform sampleCommand None
            ([Exec.TimerFired] ++ Exec.ChildClose (Some 0%Z) None :: [])))
  /\ exists out,
      snd (Exec.runExecTool sampleExecPlatform sampleCommand None
             ([Exec.TimerFired] ++ Exec.ChildClose (Some 0%Z) None :: []))
      = Some (Throw (ToolError TIMEOUT
                       ("Process timed out after " +:+ numToString 60000 +:+ "ms")
                       (Exec.outcomeToValue out)))
      /\ Exec.o_timedOut out = true
      /\ Exec.o_exitCode out = Some 0%Z
      /\ Exec.o_signal out = None.
Proof.
  apply (exec_timeout_overrides_exit_code sampleExecPlatform sampleCommand None
           {| Exec.pid := Some 4242%Z |} 4242%Z [Exec.TimerFired] [] (Some 0%Z) None).
  - reflexivity.
  - discriminate.
  - reflexivity.
  - lia.
  - repeat constructor.
  - left. reflexivity.
Defined.

Lemma killProcessGroup_shape P child effs :
  exists tl,
    Exec.killProcessGroup P child effs = effs ++ tl
    /\ Forall (fun e => isKill e /\ killsOnly child e) tl.
Proof.
  unfold Exec.killProcessGroup.
  destruct (Exec.pid child) as [p|] eqn:Hp;
    [|exists []; rewrite app_nil_r; split; [reflexivity|constructor]].
  destruct (p =? 0)%Z eqn:Hz;
    [exists []; rewrite app_nil_r; split; [reflexivity|constructor]|].
  assert (isKill (Exec.ProcessKill (- p) "SIGKILL")
          /\ killsOnly child (Exec.ProcessKill (- p) "SIGKILL")) as Hk.
  { split; [exact I|]. exists p. repeat split; [exact Hp|lia]. }
  destruct (Exec.processKill P effs (- p)%Z); eexists; (split; [reflexivity|]).
  - constructor; [exact Hk|constructor].
  - constructor; [exact Hk|]. constructor; [|constructor]. split; [exact I|reflexivity].
Qed.

(** What waiting adds to the effects: signals to the group of the child,
    then, unless the child failed, the cleanup. *)
Lemma await_shape P input hs child ns :
  forall st effs r,
    Exec.await P input hs child st ns = (effs, r) ->
    exists kills,
      Forall (fun e => isKill e /\ killsOnly child e) kills
      /\ match r with
         | None => effs = Exec.effects st ++ kills
         | Some res =>
             (failsWith res EXEC_FAILED /\ effs = Exec.effects st ++ kills)
             \/ (~ failsWith res EXEC_FAILED
                 /\ effs = Exec.effects st ++ kills
                           ++ Exec.ClearTimeout
                              :: (if hs then [Exec.RemoveAbortListener] else []))
         end.
Proof.
  induction ns as [|n ns IH]; intros st effs r; cbn [Exec.await].
  - intros [= <- <-]. exists []. rewrite app_nil_r. split; [constructor|reflexivity].
  - destruct n as [| |ch|ch|m|code sig].
    + destruct (Exec.timerArmed st); [|apply IH].
      intros H. apply IH in H as (kills & Hk & H). cbn [Exec.effects] in H.
      destruct (killProcessGroup_shape P child (Exec.effects st)) as (t1 & E1 & H1).
      rewrite E1 in H. exists (t1 ++ kills). split; [apply Forall_app; auto|].
      destruct r as [res|]; rewrite <- ?app_assoc in *; exact H.
    + destruct (Exec.abortListening st); [|apply IH].
      intros H. apply IH in H as (kills & Hk & H). cbn [Exec.effects] in H.
      destruct (killProcessGroup_shape P child (Exec.effects st)) as (t1 & E1 & H1).
      rewrite E1 in H. exists (t1 ++ kills). split; [apply Forall_app; auto|].
      destruct r as [res|]; rewrite <- ?app_assoc in *; exact H.
    + intros H. apply IH in H. exact H.
    + intros H. apply IH in H. exact H.
    + intros [= <- <-]. exists []. rewrite app_nil_r. split; [constructor|].
      left. split; [apply failsWith_Throw|reflexivity].
    + unfold Exec.finish.
      assert (forall k m d, k <> EXEC_FAILED ->
                ~ failsWith (A := Exec.ExecOutcome) (Throw (ToolError k m d)) EXEC_FAILED) as Hno.
      { intros k m d Hk (m' & d' & E). congruence. }
      destruct (Exec.timedOut st); [|destruct code as [[| |]|]]; intros [= <- <-];
        exists []; (split; [constructor|]); right; cbn [app];
        (split; [|reflexivity]);
        try (apply Hno; discriminate).
      intros (m' & d' & E). discriminate.
Qed.

Lemma started_effects input signal e :
  In e (Exec.effects (started input signal)) ->
  ~ isKill e /\ ~ isCleanup e
  /\ forall c a d, e = Exec.SpawnCall c a d ->
       c = Exec.command input /\ a = Exec.args input /\ d = "/workspace".
Proof.
  assert (forall x, In x (if hasSignal signal then [Exec.AddAbortListener] else []) ->
                    x = Exec.AddAbortListener) as Hl.
  { intros x. destruct (hasSignal signal); [intros [<-|[]]; reflexivity|intros []]. }
  assert (forall x, In x (match Exec.stdin input with
                          | Some s => [Exec.StdinWrite s]
                          | None => []
                          end) -> exists s, x = Exec.StdinWrite s) as Hs.
  { intros x. destruct (Exec.stdin input); [intros [<-|[]]; eauto|intros []]. }
  cbn [started Exec.effects]. rewrite !in_app_iff. cbn [In].
  intros [[[[<-|[]]|[<-|[]]]|H]|[H|[<-|[]]]];
    try (apply Hl in H; subst e); try (apply Hs in H as (s & ->));
    (split; [intros H0; exact H0|split; [intros H0; exact H0|]]);
    try (intros c a d [=]); auto.
Qed.

Lemma await_no_kill P input hs child ns :
  Forall (fun n => n <> Exec.TimerFired /\ n <> Exec.AbortFired) ns ->
  forall st e,
    In e (fst (Exec.await P input hs child st ns)) ->
    In e (Exec.effects st) \/ isCleanup e.
Proof.
  induction 1 as [|n ns [Hn1 Hn2] _ IH]; intros st e; cbn [Exec.await fst]; [auto|].
  destruct n as [| |ch|ch|m|code sig]; try congruence.
  - intros H. apply IH in H. exact H.
  - intros H. apply IH in H. exact H.
  - cbn [fst]. auto.
  - unfold Exec.finish.
    assert (In e (Exec.effects st ++ [Exec.ClearTimeout]
                    ++ (if hs then [Exec.RemoveAbortListener] else [])) ->
            In e (Exec.effects st) \/ isCleanup e) as Hin.
    { rewrite !in_app_iff. intros [H|[[<-|[]]|H]]; [auto|right; exact I|].
      destruct hs; [destruct H as [<-|[]]; right; exact I|destruct H]. }
    destruct (Exec.timedOut st); [|destruct code as [[| |]|]]; exact Hin.
Qed.

Lemma runner_core P input signal child ns :
  Exec.spawn P (Exec.command input) (Exec.args input) = Ok child ->
  notAborted signal ->
  (forall e, In e (fst (Exec.runExecTool P input signal ns)) -> killsOnly child e)
  /\ (notAborted signal ->
      Forall (fun n => n <> Exec.TimerFired /\ n <> Exec.AbortFired) ns ->
      forall e, In e (fst (Exec.runExecTool P input signal ns)) -> ~ isKill e)
  /\ (forall c a d,
        In (Exec.SpawnCall c a d) (fst (Exec.runExecTool P input signal ns)) ->
        c = Exec.command input /\ a = Exec.args input /\ d = "/workspace").
Proof.
  intros Hspawn Hsig.
  assert (forall e, ~ isKill e -> killsOnly child e) as Hnk.
  { intros [] H; try exact I; exfalso; apply H; exact I. }
  assert (forall e : Exec.effect, isCleanup e -> ~ isKill e) as Hck.
  { intros [] H; try contradiction; intros H0; exact H0. }
  rewrite (runExecTool_started P input signal child ns Hspawn Hsig).
  destruct (Exec.await P input (hasSignal signal) child (started input signal) ns)
    as [effs r] eqn:E.
  pose proof (await_shape P input (hasSignal signal) child ns _ _ _ E) as (kills & Hk & Hs).
  rewrite List.Forall_forall in Hk. cbn [fst].
  assert (forall e, In e effs ->
            In e (Exec.effects (started input signal))
            \/ (isKill e /\ killsOnly child e) \/ isCleanup e) as Hall.
  { intros e Hin.
    assert (effs = Exec.effects (started input signal) ++ kills
            \/ effs = Exec.effects (started input signal) ++ kills
                        ++ Exec.ClearTimeout
                           :: (if hasSignal signal then [Exec.RemoveAbortListener] else []))
      as [->| ->] by (destruct r; [destruct Hs as [[_ ?]|[_ ?]]|]; auto).
    - apply in_app_or in Hin as [Hin|Hin]; auto.
    - apply in_app_or in Hin as [Hin|Hin]; [auto|].
      apply in_app_or in Hin as [Hin|Hin]; [auto|].
      right. right. destruct Hin as [<-|Hin]; [exact I|].
      destruct (hasSignal signal); [destruct Hin as [<-|[]]; exact I|destruct Hin]. }
  split; [|split].
  - intros e Hin. destruct (Hall e Hin) as [H|[[_ H]|H]]; [|exact H|apply Hnk, Hck, H].
    apply Hnk. apply (started_effects input signal e H).
  - intros _ Hns e Hin.
    assert (In e (fst (Exec.await P input (hasSignal signal) child (started input signal) ns)))
      as Hin' by (rewrite E; exact Hin).
    apply (await_no_kill P input (hasSignal signal) child ns Hns) in Hin'.
    destruct Hin' as [H|H]; [apply (started_effects input signal e H)|apply Hck, H].
  - intros c a d Hin. destruct (Hall _ Hin) as [H|[[H _]|H]].
    + destruct (started_effects input signal _ H) as (_ & _ & Hsp).
      apply (Hsp c a d). reflexivity.
    + exfalso. exact H.
    + exfalso. exact H.
Qed.

(** X7. The runner signals nothing but the process group of the child it
    spawned, with SIGKILL, and it does so only after the timer fired or
    the caller's signal aborted: a command that ends on its own is never
    signalled. It calls spawn once, with the command and the arguments of
    the input and /workspace as the working directory. *)
Theorem runner_signals_only_its_child (P : Exec.Platform)
    (input : Exec.ExecCommand) (signal : option bool) (child : Exec.Child)
    (ns : list Exec.notification)
    (Hspawn : Exec.spawn P (Exec.command input) (Exec.args input) = Ok child) :
  (forall e, In e (fst (Exec.runExecTool P input signal ns)) -> killsOnly child e)
  /\ (notAborted signal ->
      Forall (fun n => n <> Exec.TimerFired /\ n <> Exec.AbortFired) ns ->
      forall e, In e (fst (Exec.runExecTool P input signal ns)) -> ~ isKill e)
  /\ (forall c a d,
        In (Exec.SpawnCall c a d) (fst (Exec.runExecTool P input signal ns)) ->
        c = Exec.command input /\ a = Exec.args input /\ d = "/workspace").
Proof.
  assert (forall e, ~ isKill e -> killsOnly child e) as Hnk.
  { intros [] H; try exact I; exfalso; apply H; exact I. }
  assert (forall e : Exec.effect, isCleanup e -> ~ isKill e) as Hck.
  { intros [] H; try contradiction; intros H0; exact H0. }
  destruct signal as [[|]|].
  - (* already aborted: the timer is cleared and the group killed *)
    unfold Exec.runExecTool. rewrite Hspawn. cbn [fst].
    destruct (killProcessGroup_shape P child
                (([Exec.SpawnCall (Exec.command input) (Exec.args input) Exec.WORKSPACE_CWD]
                    ++ [Exec.SetTimeout (Exec.timeoutMs input)]) ++ [Exec.ClearTimeout]))
      as (tl & -> & Htl).
    rewrite List.Forall_forall in Htl.
    split; [|split].
    + intros e Hin. apply in_app_or in Hin as [Hin|Hin]; [|apply Htl, Hin].
      apply Hnk. cbn in Hin. intros Hk.
      destruct Hin as [<-|[<-|[<-|[]]]]; exact Hk.
    + intros Hn. exfalso. apply Hn. reflexivity.
    + intros c a d Hin. apply in_app_or in Hin as [Hin|Hin].
      * cbn in Hin. destruct Hin as [[= <- <- <-]|[[=]|[[=]|[]]]]. auto.
      * exfalso. exact (proj1 (Htl _ Hin)).
  - apply (runner_core P input (Some false) child ns Hspawn). discriminate.
  - apply (runner_core P input None child ns Hspawn). discriminate.
Qed.

Lemma runner_signals_only_its_child_witness :
  (forall e,
      In e (fst (Exec.runExecTool sampleExecPlatform sampleCommand None
                   [Exec.TimerFired; Exec.ChildClose None (Some "SIGKILL")])) ->
      killsOnly {| Exec.pid := Some 4242%Z |} e)
  /\ (notAborted None ->
      Forall (fun n => n <> Exec.TimerFired /\ n <> Exec.AbortFired)
        [Exec.TimerFired; Exec.ChildClose None (Some "SIGKILL")] ->
      forall e,
        In e (fst (Exec.runExecTool sampleExecPlatform sampleCommand None
                     [Exec.TimerFired; Exec.ChildClose None (Some "SIGKILL")])) ->
        ~ isKill e)
  /\ (forall c a d,
        In (Exec.SpawnCall c a d)
          (fst (Exec.runExecTool sampleExecPlatform sampleCommand None
                  [Exec.TimerFired; Exec.ChildClose None (Some "SIGKILL")])) ->
        c = "node" /\ a = ["-v"] /\ d = "/workspace").
Proof.
  apply (runner_signals_only_its_child sampleExecPlatform sampleCommand None
           {| Exec.pid := Some 4242%Z |}
           [Exec.TimerFired; Exec.ChildClose None (Some "SIGKILL")]).
  reflexivity.
Defined.

Lemma await_settles P input hs child ns :
  forall st, snd (Exec.await P input hs child st ns) = None <-> Forall pending ns.
Proof.
  induction ns as [|n ns IH]; intros st; cbn [Exec.await].
  - split; [constructor|reflexivity].
  - rewrite Forall_cons.
    destruct n as [| |ch|ch|m|code sig]; cbn [pending].
    + destruct (Exec.timerArmed st); rewrite IH; tauto.
    + destruct (Exec.abortListening st); rewrite IH; tauto.
    + rewrite IH. tauto.
    + rewrite IH. tauto.
    + cbn [snd]. split; [discriminate|tauto].
    + destruct (Exec.finish P input hs st code sig) as [effs r]. cbn [snd].
      split; [discriminate|tauto].
Qed.

(** X8. Once the child runs, the call is answered when, and only when, the
    child emits close or error: output, the timer and the caller's signal
    leave the call pending, so a timeout is reported only after the killed
    child has closed. *)
Theorem runner_answers_only_when_child_ends (P : Exec.Platform)
    (input : Exec.ExecCommand) (signal : option bool) (child : Exec.Child)
    (ns : list Exec.notification)
    (Hspawn : Exec.spawn P (Exec.command input) (Exec.args input) = Ok child)
    (Hsignal : notAborted signal) :
  snd (Exec.runExecTool P input signal ns) = None <-> Forall pending ns.
Proof.
  rewrite (runExecTool_started P input signal child ns Hspawn Hsignal).
  apply await_settles.
Qed.

Lemma runner_answers_only_when_child_ends_witness :
  snd (Exec.runExecTool sampleExecPlatform sampleCommand (Some false)
         [Exec.StdoutData (Exec.BufferChunk [Byte.x76]); Exec.TimerFired; Exec.AbortFired])
  = None
  <-> Forall pending
        [Exec.StdoutData (Exec.BufferChunk [Byte.x76]); Exec.TimerFired; Exec.AbortFired].
Proof.
  apply (runner_answers_only_when_child_ends sampleExecPlatform sampleCommand (Some false)
           {| Exec.pid := Some 4242%Z |}).
  - reflexivity.
  - discriminate.
Defined.



(** ** The request handlers *)

Ltac lookups :=
  repeat first [ rewrite lookup_insert_eq
               | rewrite lookup_insert_ne by discriminate
               | rewrite lookup_empty ].

Lemma errorResult_envelope code message details :
  isError (errorResult code message details) = true
  /\ field (payload (errorResult code message details)) "ok" = VBool false
  /\ field (field (payload (errorResult code message details)) "error") "code"
     = VString (kindName code)
  /\ field (field (payload (errorResult code message details)) "error") "message"
     = VString message.
Proof.
  unfold errorResult, field, getProp. cbn [isError payload].
  split; [reflexivity|]. split; [lookups; reflexivity|].
  lookups. destruct details; split; lookups; reflexivity.
Qed.

Lemma caught_envelope e :
  isError (caught e) = true
  /\ field (payload (caught e)) "ok" = VBool false
  /\ exists k, field (field (payload (caught e)) "error") "code" = VString (kindName k)
               /\ (forall c, errorCode e = Some c -> k = c).
Proof.
  destruct e as [code message details|message]; cbn [caught].
  - destruct (errorResult_envelope code message details) as (H1 & H2 & H3 & _).
    split; [exact H1|]. split; [exact H2|]. exists code. split; [exact H3|].
    intros c [= <-]. reflexivity.
  - destruct (errorResult_envelope INTERNAL_ERROR message VUndefined) as (H1 & H2 & H3 & _).
    split; [exact H1|]. split; [exact H2|]. exists INTERNAL_ERROR. split; [exact H3|].
    discriminate.
Qed.



Lemma fetch_okResult out :
  isError (okResult (FetchServer.outcomeToValue out)) = false
  /\ field (payload (okResult (FetchServer.outcomeToValue out))) "ok"
     = VBool (Fetch.f_ok out)
  /\ field (payload (okResult (FetchServer.outcomeToValue out))) "status"
     = VInt (Fetch.f_status out)
  /\ field (payload (okResult (FetchServer.outcomeToValue out))) "url"
     = VString (Fetch.f_url out)
  /\ field (payload (okResult (FetchServer.outcomeToValue out))) "body"
     = VString (Fetch.f_body out).
Proof.
  unfold okResult, FetchServer.outcomeToValue, field, getProp. cbn [isError payload].
  split; [reflexivity|].
  repeat split; erewrite lookup_union_Some_l by (lookups; reflexivity); reflexivity.
Qed.

(** X11. When the fetch succeeds, the handler answers without the isError
    flag, with the result spread into the envelope over its ok: true: the
    ok field of the answer is the ok flag of the HTTP response, so a
    response outside 200..299 that is no redirect (a 404) is answered with
    ok: false and no isError. *)
Theorem fetch_handler_ok_is_response_ok {W : Type} (P : Fetch.Platform W)
    (arguments : value) (input : Fetch.FetchRequest) (out : Fetch.FetchOutcome)
    (st st' : W * list Fetch.event)
    (Hparse : Fetch.parseFetchToolInput arguments = Ok input)
    (Hfetch : Fetch.fetchWithGuards P input st = (st', Ok out)) :
  exists r,
    FetchServer.callTool P "fetch" arguments st = (st', r)
    /\ isError r = false
    /\ field (payload r) "ok" = VBool (Fetch.f_ok out)
    /\ field (payload r) "status" = VInt (Fetch.f_status out)
    /\ field (payload r) "url" = VString (Fetch.f_url out)
    /\ field (payload r) "body" = VString (Fetch.f_body out).
Proof.
  unfold FetchServer.callTool. cbn [String.eqb Fetch.FETCH_TOOL_NAME negb].
  change (negb (String.eqb "fetch" "fetch")) with false. cbn iota.
  rewrite Hparse, Hfetch. eexists. split; [reflexivity|]. apply fetch_okResult.
Qed.

Lemma fetch_handler_ok_is_response_ok_witness :
  exists r,
    FetchServer.callTool notFoundPlatform "fetch"
      (obj [("url", VString "https://example.com/")]) (0%nat, [])
    = ((2%nat,
        [Fetch.DnsLookup "example.com" (Ok ["93.184.216.34"]);
         Fetch.PolicyPassed "https://example.com/" (sampleURL "https:" "example.com" "/");
         Fetch.HttpGet "https://example.com/" (Ok (sampleResponse 404 [] []))]), r)
    /\ isError r = false
    /\ field (payload r) "ok" = VBool false
    /\ field (payload r) "status" = VInt 404
    /\ field (payload r) "url" = VString "https://example.com/"
    /\ field (payload r) "body" = VString "".
Proof.
  apply (fetch_handler_ok_is_response_ok notFoundPlatform
           (obj [("url", VString "https://example.com/")])
           (sampleRequest "https://example.com/")
           {| Fetch.f_url := "https://example.com/"; Fetch.f_status := 404;
              Fetch.f_statusText := ""; Fetch.f_ok := false; Fetch.f_headers := ∅;
              Fetch.f_body := ""; Fetch.f_truncated := false; Fetch.f_bytesRead := 0;
              Fetch.f_redirects := [] |}
           (0%nat, [])); vm_compute; reflexivity.
Defined.

(** X12. The fetch handler answers a wrong tool name with UNKNOWN_TOOL and
    arguments that do not parse with the parser's error, in both cases
    before anything reaches the network: no name is resolved, no request
    is issued, the world and the trace are as they were. *)
Theorem fetch_handler_rejects_before_network {W : Type} (P : Fetch.Platform W)
    (name : string) (arguments : value) (st : W * list Fetch.event)
    (Hbad : name <> "fetch" \/ isOk (Fetch.parseFetchToolInput arguments) = false) :
  fst (FetchServer.callTool P name arguments st) = st
  /\ isError (snd (FetchServer.callTool P name arguments st)) = true
  /\ (name <> "fetch" ->
      snd (FetchServer.callTool P name arguments st)
      = errorResult UNKNOWN_TOOL ("Unknown tool: " +:+ name) VUndefined)
  /\ (name = "fetch" ->
      exists e, Fetch.parseFetchToolInput arguments = Throw e
                /\ snd (FetchServer.callTool P name arguments st) = caught e).
Proof.
  unfold FetchServer.callTool, Fetch.FETCH_TOOL_NAME.
  destruct (String.eqb name "fetch") eqn:En; cbn [negb].
  - apply String.eqb_eq in En. destruct Hbad as [Hbad|Hbad]; [contradiction|].
    destruct (Fetch.parseFetchToolInput arguments) as [input|e]; [discriminate|].
    cbn [fst snd]. split; [reflexivity|]. split; [apply caught_envelope|].
    split; [contradiction|]. intros _. eauto.
  - apply String.eqb_neq in En. cbn [fst snd]. split; [reflexivity|].
    split; [reflexivity|]. split; [reflexivity|contradiction].
Qed.

Lemma fetch_handler_rejects_before_network_witness :
  fst (FetchServer.callTool sampleFetchPlatform "fetch"
         (obj [("url", VString "https://example.com/"); ("maxBytes", VInt 10)]) (0%nat, []))
  = (0%nat, [])
  /\ isError (snd (FetchServer.callTool sampleFetchPlatform "fetch"
                     (obj [("url", VString "https://example.com/"); ("maxBytes", VInt 10)])
                     (0%nat, []))) = true
  /\ ("fetch" <> "fetch" ->
      snd (FetchServer.callTool sampleFetchPlatform "fetch"
             (obj [("url", VString "https://example.com/"); ("maxBytes", VInt 10)])
             (0%nat, []))
      = errorResult UNKNOWN_TOOL ("Unknown tool: " +:+ "fetch") VUndefined)
  /\ ("fetch" = "fetch" ->
      exists e,
        Fetch.parseFetchToolInput
          (obj [("url", VString "https://example.com/"); ("maxBytes", VInt 10)]) = Throw e
        /\ snd (FetchServer.callTool sampleFetchPlatform "fetch"
                  (obj [("url", VString "https://example.com/"); ("maxBytes", VInt 10)])
                  (0%nat, [])) = caught e).
Proof.
  apply (fetch_handler_rejects_before_network sampleFetchPlatform "fetch"
           (obj [("url", VString "https://example.com/"); ("maxBytes", VInt 10)])
           (0%nat, [])).
  right. vm_compute. reflexivity.
Defined.

(** ** The network policy *)

(** X13. A URL that does not parse, has a scheme other than http and https,
    carries userinfo, has no host name or has a blocked one is refused
    with INVALID_URL or SSRF_BLOCKED before the resolver is asked:
    the world and the trace are left as they were. *)
Theorem policy_rejects_statically_without_lookup {W : Type} (P : Fetch.Platform W)
    (urlString : string) (st : W * list Fetch.event)
    (Hbad : forall u, ~ staticallyAllowed P urlString u) :
  fst (Fetch.assertUrlAllowed P urlString st) = st
  /\ (failsWith (snd (Fetch.assertUrlAllowed P urlString st)) INVALID_URL
      \/ failsWith (snd (Fetch.assertUrlAllowed P urlString st)) SSRF_BLOCKED).
Proof.
  unfold Fetch.assertUrlAllowed, Fetch.throw.
  destruct (Fetch.parseURL P urlString) as [u|] eqn:Hp;
    [|split; [reflexivity|left; apply failsWith_Throw]].
  destruct (negb (String.eqb (Fetch.protocol u) "http:")
            && negb (String.eqb (Fetch.protocol u) "https:")) eqn:Hs;
    [split; [reflexivity|left; apply failsWith_Throw]|].
  destruct (negb (String.eqb (Fetch.username u) "")
            || negb (String.eqb (Fetch.password u) "")) eqn:Hu;
    [split; [reflexivity|left; apply failsWith_Throw]|].
  destruct (String.eqb (Fetch.hostname u) "") eqn:Hh;
    [split; [reflexivity|left; apply failsWith_Throw]|].
  destruct (Fetch.isBlockedHostname (Fetch.hostname u)) eqn:Hb;
    [split; [reflexivity|right; apply failsWith_Throw]|].
  exfalso. apply (Hbad u). repeat split; auto.
  - apply andb_false_iff in Hs as [Hs|Hs]; apply negb_false_iff, String.eqb_eq in Hs; auto.
  - apply orb_false_iff in Hu as [Hu _]. apply negb_false_iff, String.eqb_eq in Hu. exact Hu.
  - apply orb_false_iff in Hu as [_ Hu]. apply negb_false_iff, String.eqb_eq in Hu. exact Hu.
  - apply String.eqb_neq. exact Hh.
Qed.

Lemma policy_rejects_statically_without_lookup_witness :
  fst (Fetch.assertUrlAllowed sampleFetchPlatform "ftp://example.com/" (0%nat, []))
  = (0%nat, [])
  /\ (failsWith (snd (Fetch.assertUrlAllowed sampleFetchPlatform "ftp://example.com/"
                        (0%nat, []))) INVALID_URL
      \/ failsWith (snd (Fetch.assertUrlAllowed sampleFetchPlatform "ftp://example.com/"
                           (0%nat, []))) SSRF_BLOCKED).
Proof.
  apply (policy_rejects_statically_without_lookup sampleFetchPlatform "ftp://example.com/").
  intros u (Hp & _). vm_compute in Hp. discriminate.
Defined.

(** X14. A URL that passes the static checks and whose host is a dotted
    quad is decided by the IPv4 table alone, without asking the resolver:
    it is refused with SSRF_BLOCKED when the address is in the table and
    allowed otherwise. *)
Theorem literal_ipv4_host_decided_by_table {W : Type} (P : Fetch.Platform W)
    (urlString : string) (u : Fetch.URL) (st : W * list Fetch.event) (a b c d : Z)
    (Hstatic : staticallyAllowed P urlString u)
    (Hhost : Fetch.hostname u = dotted a b c d)
    (Ha : octet a) (Hb : octet b) (Hc : octet c) (Hd : octet d) :
  Fetch.assertUrlAllowed P urlString st
  = if specPrivateV4 (v4num a b c d)
    then (st, Throw (ToolError SSRF_BLOCKED "Blocked IP address"
                       (VObject (<["host" := VString (dotted a b c d)]> ∅))))
    else ((fst st, snd st ++ [Fetch.PolicyPassed urlString u]), Ok u).
Proof.
  destruct Hstatic as (Hp & Hs & Hu & Hpw & Hh & Hbl).
  unfold Fetch.assertUrlAllowed. rewrite Hp, Hu, Hpw, Hbl.
  replace (negb (String.eqb (Fetch.protocol u) "http:")
           && negb (String.eqb (Fetch.protocol u) "https:")) with false
    by (destruct Hs as [-> | ->]; reflexivity).
  replace (String.eqb (Fetch.hostname u) "") with false
    by (symmetry; apply String.eqb_neq, Hh).
  rewrite Hhost, isIP_dotted by assumption.
  cbn [String.eqb negb orb andb Z.eqb].
  unfold Fetch.bind, Fetch.lift, Fetch.emit, Fetch.ret, Fetch.throw.
  rewrite isPrivateIp_dotted by assumption.
  destruct (specPrivateV4 (v4num a b c d)); reflexivity.
Qed.

Lemma literal_ipv4_host_decided_by_table_witness :
  Fetch.assertUrlAllowed sampleFetchPlatform "http://10.0.0.1/admin" (0%nat, [])
  = if specPrivateV4 (v4num 10 0 0 1)
    then ((0%nat, []), Throw (ToolError SSRF_BLOCKED "Blocked IP address"
                                (VObject (<["host" := VString (dotted 10 0 0 1)]> ∅))))
    else ((fst (0%nat, @nil Fetch.event),
           snd (0%nat, @nil Fetch.event)
             ++ [Fetch.PolicyPassed "http://10.0.0.1/admin"
                   (sampleURL "http:" "10.0.0.1" "/admin")]),
          Ok (sampleURL "http:" "10.0.0.1" "/admin")).
Proof.
  apply (literal_ipv4_host_decided_by_table sampleFetchPlatform "http://10.0.0.1/admin"
           (sampleURL "http:" "10.0.0.1" "/admin") (0%nat, []) 10 0 0 1)%Z;
    try (unfold octet; lia); try reflexivity.
  repeat split; try reflexivity; [left; reflexivity|discriminate].
Defined.

Lemma lowerChar_idem c : lowerChar (lowerChar c) = lowerChar c.
Proof. destruct c as [[] [] [] [] [] [] [] []]; vm_compute; reflexivity. Qed.

Lemma lowerChar_dot c : Ascii.eqb (lowerChar c) "." = Ascii.eqb c ".".
Proof. destruct c as [[] [] [] [] [] [] [] []]; vm_compute; reflexivity. Qed.

Lemma toLowerCase_idem s : toLowerCase (toLowerCase s) = toLowerCase s.
Proof.
  induction s as [|c s IH]; [reflexivity|]. cbn [toLowerCase].
  rewrite lowerChar_idem, IH. reflexivity.
Qed.

Lemma toLowerCase_length s : String.length (toLowerCase s) = String.length s.
Proof. induction s as [|c s IH]; [reflexivity|]. cbn [toLowerCase String.length]. lia. Qed.

Lemma toLowerCase_drop n : forall s, drop_str n (toLowerCase s) = toLowerCase (drop_str n s).
Proof.
  induction n as [|n IH]; intros s; [reflexivity|].
  destruct s as [|c s]; [reflexivity|]. cbn [toLowerCase drop_str]. apply IH.
Qed.

Lemma toLowerCase_take n : forall s, take_str n (toLowerCase s) = toLowerCase (take_str n s).
Proof.
  induction n as [|n IH]; intros s; [reflexivity|].
  destruct s as [|c s]; [reflexivity|]. cbn [toLowerCase take_str]. rewrite IH. reflexivity.
Qed.

Lemma toLowerCase_is_dot s : String.eqb (toLowerCase s) "." = String.eqb s ".".
Proof.
  destruct s as [|c [|d s]]; try reflexivity.
  - cbn [toLowerCase String.eqb]. rewrite lowerChar_dot. reflexivity.
  - cbn [toLowerCase String.eqb]. destruct (Ascii.eqb _ _), (Ascii.eqb _ _); reflexivity.
Qed.

Lemma endsWith_dot_lower s : endsWith (toLowerCase s) "." = endsWith s ".".
Proof.
  unfold endsWith. rewrite toLowerCase_length, toLowerCase_drop, toLowerCase_is_dot.
  reflexivity.
Qed.

Lemma sliceTo_lower s : sliceTo (toLowerCase s) (-1) = toLowerCase (sliceTo s (-1)).
Proof.
  unfold sliceTo, strlen. cbn [Z.ltb Z.compare]. rewrite toLowerCase_length.
  apply toLowerCase_take.
Qed.

Lemma normalizeHostname_lower h :
  Fetch.normalizeHostname (toLowerCase h) = Fetch.normalizeHostname h.
Proof.
  unfold Fetch.normalizeHostname. rewrite endsWith_dot_lower.
  destruct (endsWith h "."); [rewrite sliceTo_lower|]; apply toLowerCase_idem.
Qed.

Lemma endsWith_append a b : endsWith (a +:+ b) b = true.
Proof.
  unfold endsWith.
  assert (String.length (a +:+ b) = String.length a + String.length b)%nat as Hl.
  { induction a as [|x a IH]; [reflexivity|]. rewrite append_cons. cbn [String.length]. lia. }
  rewrite Hl. replace (String.length a + String.length b - String.length b)%nat
    with (String.length a) by lia.
  rewrite drop_str_append, String.eqb_refl.
  replace (String.length b <=? String.length a + String.length b)%nat with true
    by (symmetry; apply Nat.leb_le; lia).
  reflexivity.
Qed.

Lemma normalizeHostname_dot h :
  Fetch.normalizeHostname (h +:+ ".") = toLowerCase h.
Proof.
  unfold Fetch.normalizeHostname. rewrite endsWith_append.
  unfold sliceTo, strlen. cbn [Z.ltb Z.compare].
  assert (String.length (h +:+ ".") = S (String.length h)) as Hl.
  { induction h as [|x h IH]; [reflexivity|]. rewrite append_cons. cbn [String.length]. lia. }
  rewrite Hl. replace (Z.to_nat (Z.of_nat (S (String.length h)) + -1)) with (String.length h)
    by lia.
  rewrite take_str_append. reflexivity.
Qed.

Lemma length_append_str a b :
  String.length (a +:+ b) = (String.length a + String.length b)%nat.
Proof.
  induction a as [|x a IH]; [reflexivity|]. rewrite append_cons. cbn [String.length]. lia.
Qed.

Lemma drop_str_append_plus a b k :
  drop_str (String.length a + k) (a +:+ b) = drop_str k b.
Proof.
  induction a as [|x a IH]; [reflexivity|]. rewrite append_cons. exact IH.
Qed.

Lemma endsWith_append_suffix a b suf :
  (String.length suf <= String.length b)%nat ->
  endsWith (a +:+ b) suf = endsWith b suf.
Proof.
  intros H. unfold endsWith. rewrite length_append_str.
  replace (String.length a + String.length b - String.length suf)%nat
    with (String.length a + (String.length b - String.length suf))%nat by lia.
  rewrite drop_str_append_plus.
  replace (String.length suf <=? String.length a + String.length b)%nat with true
    by (symmetry; apply Nat.leb_le; lia).
  replace (String.length suf <=? String.length b)%nat with true
    by (symmetry; apply Nat.leb_le; lia).
  reflexivity.
Qed.

(** X15. The host name blocklist does not depend on the case of the
    letters nor on one trailing dot, and it matches by suffix: every name
    that ends in .local or .internal, whatever comes before, is blocked,
    and so is localhost. *)
Theorem blocklist_ignores_case_and_trailing_dot :
  (forall h, Fetch.isBlockedHostname (toLowerCase h) = Fetch.isBlockedHostname h)
  /\ (forall h,
        endsWith h "." = false ->
        Fetch.isBlockedHostname (h +:+ ".") = Fetch.isBlockedHostname h)
  /\ (forall p,
        Fetch.isBlockedHostname (p +:+ ".local") = true
        /\ Fetch.isBlockedHostname (p +:+ ".internal") = true)
  /\ Fetch.isBlockedHostname "localhost" = true.
Proof.
  split; [|split; [|split]].
  - intros h. unfold Fetch.isBlockedHostname. rewrite normalizeHostname_lower. reflexivity.
  - intros h Hd. unfold Fetch.isBlockedHostname. rewrite normalizeHostname_dot.
    unfold Fetch.normalizeHostname. rewrite Hd. reflexivity.
  - intros p. unfold Fetch.isBlockedHostname, Fetch.normalizeHostname.
    rewrite !endsWith_append_suffix by (cbn [String.length]; lia).
    change (endsWith ".local" ".") with false. change (endsWith ".internal" ".") with false.
    cbv iota. rewrite !toLowerCase_append.
    change (toLowerCase ".local") with ".local".
    change (toLowerCase ".internal") with ".internal".
    rewrite !endsWith_append. rewrite orb_true_r.
    split; destruct (String.eqb _ "localhost"); reflexivity.
  - vm_compute. reflexivity.
Qed.

(** ** The headers of the result *)

Lemma headersToRecord_fold headers : forall (acc : gmap string string) k,
  k <> "__proto__" ->
  fold_left (fun out kv =>
               let k := toLowerCase (fst kv) in
               if String.eqb k "__proto__" then out else <[k := snd kv]> out)
    headers acc !! k
  = match find (fun kv => String.eqb (toLowerCase (fst kv)) k) (rev headers) with
    | Some kv => Some (snd kv)
    | None => acc !! k
    end.
Proof.
  induction headers as [|h rest IH] using rev_ind; intros acc k Hk.
  - reflexivity.
  - rewrite fold_left_app, rev_app_distr. cbn [fold_left rev app find].
    destruct (String.eqb_spec (toLowerCase (fst h)) k) as [E|Hne].
    + rewrite E. replace (String.eqb k "__proto__") with false
        by (symmetry; apply String.eqb_neq, Hk).
      apply lookup_insert_eq.
    + destruct (String.eqb (toLowerCase (fst h)) "__proto__"); [apply IH, Hk|].
      rewrite lookup_insert_ne by exact Hne. apply IH, Hk.
Qed.

Lemma headersToRecord_proto headers : forall (acc : gmap string string),
  fold_left (fun out kv =>
               let k := toLowerCase (fst kv) in
               if String.eqb k "__proto__" then out else <[k := snd kv]> out)
    headers acc !! "__proto__"
  = acc !! "__proto__".
Proof.
  induction headers as [|h rest IH] using rev_ind; intros acc; [reflexivity|].
  rewrite fold_left_app. cbn [fold_left].
  destruct (String.eqb_spec (toLowerCase (fst h)) "__proto__") as [E|Hne]; [apply IH|].
  rewrite lookup_insert_ne by exact Hne. apply IH.
Qed.

(** X16. The headers of the result are keyed by the lower-cased names: the
    value under a key is that of the last header whose lower-cased name is
    the key, except that nothing is ever stored under __proto__, which on
    an object literal is the inherited accessor; a key that is not in
    lower case is never present, and a header whose lower-cased name is
    not __proto__ is found under that name whatever case it was sent in. *)
Theorem headersToRecord_last_wins (headers : list (string * string)) (k : string) :
  Fetch.headersToRecord headers !! k
  = (if String.eqb k "__proto__" then None
     else snd <$> find (fun kv => String.eqb (toLowerCase (fst kv)) k) (rev headers))
  /\ (toLowerCase k <> k -> Fetch.headersToRecord headers !! k = None)
  /\ (forall name v rest,
         headers = rest ++ [(name, v)] ->
         toLowerCase name <> "__proto__" ->
         Fetch.headersToRecord headers !! toLowerCase name = Some v).
Proof.
  assert (Fetch.headersToRecord headers !! k
          = (if String.eqb k "__proto__" then None
             else snd <$> find (fun kv => String.eqb (toLowerCase (fst kv)) k)
                            (rev headers))) as H.
  { unfold Fetch.headersToRecord.
    destruct (String.eqb_spec k "__proto__") as [->|Hk].
    - rewrite headersToRecord_proto. apply lookup_empty.
    - rewrite headersToRecord_fold by exact Hk.
      destruct (find _ _); [reflexivity|apply lookup_empty]. }
  split; [exact H|]. split.
  - intros Hk. rewrite H. destruct (String.eqb k "__proto__"); [reflexivity|].
    destruct (find _ _) as [kv|] eqn:E; [|reflexivity].
    apply find_some in E as [_ E]. apply String.eqb_eq in E.
    exfalso. apply Hk. rewrite <- E. apply toLowerCase_idem.
  - intros name v rest -> Hn. unfold Fetch.headersToRecord.
    rewrite headersToRecord_fold, rev_app_distr by exact Hn.
    cbn [rev app find fst snd]. rewrite String.eqb_refl. reflexivity.
Qed.

(** ** The guarded redirect fetcher *)

Lemma foldHextets_kind hs : forall acc e,
  Fetch.foldHextets hs acc = Throw e -> errorCode e = None.
Proof.
  induction hs as [|[h|] hs IH]; intros acc e; cbn [Fetch.foldHextets].
  - discriminate.
  - apply IH.
  - intros [= <-]. reflexivity.
Qed.

Ltac split_if :=
  match goal with
  | |- context [if ?c then _ else _] => destruct c
  end.

Lemma ipv6ToBigInt_kind ip e :
  Fetch.ipv6ToBigInt ip = Throw e ->
  errorCode e = Some INVALID_INPUT \/ errorCode e = None.
Proof.
  rewrite ipv6ToBigInt_halves.
  destruct (ipv6Left (toLowerCase ip)) as [[l emb]|e1] eqn:El; cbn [rbind fst snd].
  - unfold ipv6Rest.
    split_if; [intros [= <-]; auto|].
    destruct (Fetch.hextetNums (Fetch.groupsOf (split "::" l !! 0%nat))) as [hn|e1] eqn:Eh;
      cbn [rbind]; [|intros [= <-]; apply hextetNums_kind in Eh; subst; auto].
    destruct (Fetch.hextetNums (Fetch.groupsOf (split "::" l !! 1%nat))) as [tn|e1] eqn:Et;
      cbn [rbind]; [|intros [= <-]; apply hextetNums_kind in Et; subst; auto].
    destruct (includes l "::").
    + split_if; cbn [rbind]; [intros [= <-]; auto|].
      split_if; [intros [= <-]; auto|].
      intros H. right. apply (foldHextets_kind _ _ _ H).
    + cbn [rbind]. split_if; [intros [= <-]; auto|].
      intros H. right. apply (foldHextets_kind _ _ _ H).
  - intros [= <-]. unfold ipv6Left in El.
    match type of El with context [if ?c then _ else _] => destruct c end; [|discriminate].
    destruct (Fetch.ipv4ToInt _); [discriminate|]. injection El as <-. auto.
Qed.

Lemma isPrivateIpFuel_kind : forall fuel ip e,
  Fetch.isPrivateIpFuel fuel ip = Some (Throw e) ->
  errorCode e = Some INVALID_INPUT \/ errorCode e = None.
Proof.
  induction fuel as [|fuel IH]; intros ip e; [discriminate|].
  rewrite isPrivateIpFuel_unfold.
  destruct (Net.isIP ip =? 4)%Z; [destruct (Fetch.ipv4ToInt ip); discriminate|].
  destruct (Net.isIP ip =? 6)%Z; [|discriminate].
  destruct (Fetch.ipv6ToBigInt ip) as [addr|e1] eqn:E;
    [|intros [= <-]; apply (ipv6ToBigInt_kind ip), E].
  destruct ((addr =? 0) || (addr =? 1))%Z; [discriminate|].
  destruct (Z.shiftr addr 32 =? 65535)%Z; [apply IH|discriminate].
Qed.

Lemma isPrivateIp_kind ip e :
  Fetch.isPrivateIp ip = Throw e ->
  errorCode e = Some INVALID_INPUT \/ errorCode e = None.
Proof.
  unfold Fetch.isPrivateIp.
  destruct (Fetch.isPrivateIpFuel 2 ip) as [r|] eqn:E; [|intros [= <-]; auto].
  intros ->. apply (isPrivateIpFuel_kind 2 ip), E.
Qed.

Lemma checkAddrs_kind h addrs e :
  Fetch.checkAddrs h addrs = Throw e ->
  errorCode e = Some SSRF_BLOCKED \/ errorCode e = Some INVALID_INPUT \/ errorCode e = None.
Proof.
  induction addrs as [|a addrs IH]; cbn [Fetch.checkAddrs]; [discriminate|].
  destruct (Fetch.isPrivateIp a) as [[|]|e1] eqn:E; cbn [rbind].
  - intros [= <-]. auto.
  - exact IH.
  - intros [= <-]. right. apply (isPrivateIp_kind a), E.
Qed.

(** The kinds of the errors of the policy. *)
Lemma assertUrlAllowed_events {W} (P : Fetch.Platform W) urlString st :
  exists mid w1,
    (mid = [] \/ exists h a, mid = [Fetch.DnsLookup h a])
    /\ match snd (Fetch.assertUrlAllowed P urlString st) with
       | Ok u =>
           fst (Fetch.assertUrlAllowed P urlString st)
           = (w1, snd st ++ mid ++ [Fetch.PolicyPassed urlString u])
       | Throw e =>
           fst (Fetch.assertUrlAllowed P urlString st) = (w1, snd st ++ mid)
           /\ errorCode e <> Some TOO_MANY_REDIRECTS
           /\ errorCode e <> Some ABORTED
           /\ errorCode e <> Some FETCH_FAILED
       end.
Proof.
  assert (forall k m d,
            k = INVALID_URL \/ k = SSRF_BLOCKED \/ k = DNS_FAILED ->
            fst (st, @Throw Fetch.URL (ToolError k m d)) = (fst st, snd st ++ [])
            /\ errorCode (ToolError k m d) <> Some TOO_MANY_REDIRECTS
            /\ errorCode (ToolError k m d) <> Some ABORTED
            /\ errorCode (ToolError k m d) <> Some FETCH_FAILED) as Hstop.
  { intros k m d Hk. rewrite app_nil_r. destruct st. cbn.
    split; [reflexivity|]. destruct Hk as [->|[->| ->]]; repeat split; discriminate. }
  unfold Fetch.assertUrlAllowed, Fetch.throw.
  destruct (Fetch.parseURL P urlString) as [u|] eqn:Hp;
    [|exists [], (fst st); split; [auto|apply Hstop; auto]].
  split_if; [exists [], (fst st); split; [auto|apply Hstop; auto]|].
  split_if; [exists [], (fst st); split; [auto|apply Hstop; auto]|].
  split_if; [exists [], (fst st); split; [auto|apply Hstop; auto]|].
  split_if; [exists [], (fst st); split; [auto|apply Hstop; auto]|].
  split_if.
  - unfold Fetch.bind, Fetch.lift, Fetch.emit, Fetch.ret.
    destruct (Fetch.isPrivateIp (Fetch.hostname u)) as [[|]|e] eqn:Hpriv; cbn [fst snd].
    + exists [], (fst st). split; [auto|apply Hstop; auto].
    + exists [], (fst st). split; [auto|reflexivity].
    + exists [], (fst st). split; [auto|]. rewrite app_nil_r. destruct st. cbn.
      split; [reflexivity|].
      destruct (isPrivateIp_kind _ _ Hpriv) as [-> | ->]; repeat split; discriminate.
  - unfold Fetch.bind, Fetch.lift, Fetch.emit, Fetch.ret.
    destruct (Fetch.lookup P (Fetch.hostname u) (fst st)) as [w' [addrs|e]]; cbn [fst snd].
    + exists [Fetch.DnsLookup (Fetch.hostname u) (Ok addrs)], w'. split; [eauto|].
      destruct (Fetch.checkAddrs (Fetch.hostname u) addrs) as [[]|e] eqn:Hc; cbn [fst snd].
      * rewrite <- app_assoc. reflexivity.
      * split; [reflexivity|].
        destruct (checkAddrs_kind _ _ _ Hc) as [-> |[-> | ->]]; repeat split; discriminate.
    + exists [Fetch.DnsLookup (Fetch.hostname u) (Throw e)], w'. split; [eauto|].
      split; [reflexivity|]. repeat split; discriminate.
Qed.

Lemma readLoop_kind maxBytes s : forall kept tr n e,
  Fetch.readLoop maxBytes s kept tr n = Throw e -> errorCode e = None.
Proof.
  induction s as [|[v|] rest IH|m]; intros kept tr n e; cbn [Fetch.readLoop].
  - discriminate.
  - split_if; [discriminate|]. split_if; [discriminate|]. apply IH.
  - apply IH.
  - intros [= <-]. reflexivity.
Qed.

Lemma readBodyText_kind {W} (P : Fetch.Platform W) response maxBytes e :
  Fetch.readBodyText P response maxBytes = Throw e -> errorCode e = None.
Proof.
  unfold Fetch.readBodyText. destruct (Fetch.body response) as [s|]; [|discriminate].
  destruct (Fetch.readLoop maxBytes s [] false 0) as [r|e1] eqn:E; cbn [rbind];
    [discriminate|]. intros [= <-]. apply (readLoop_kind _ _ _ _ _ _ E).
Qed.

(** One iteration of the loop: it stops before a request, or after one, or
    follows a redirect. *)
Lemma fetchLoop_S {W} (P : Fetch.Platform W) fetchFn input n current redirects st :
  exists mid w1,
    (mid = [] \/ exists h a, mid = [Fetch.DnsLookup h a])
    /\ ((exists e pp,
           Fetch.fetchLoop P fetchFn input (S n) current redirects st
           = ((w1, snd st ++ mid ++ pp), Throw e)
           /\ (pp = [] \/ exists u, pp = [Fetch.PolicyPassed current u])
           /\ errorCode e <> Some TOO_MANY_REDIRECTS)
        \/ (exists w2 u answer res,
              Fetch.fetchLoop P fetchFn input (S n) current redirects st
              = ((w2, snd st ++ mid
                        ++ [Fetch.PolicyPassed current u; Fetch.HttpGet (Fetch.href u) answer]),
                 res)
              /\ match res with
                 | Ok out =>
                     exists response,
                       answer = Ok response
                       /\ Fetch.isRedirectStatus (Fetch.status response) = false
                       /\ Fetch.f_url out = Fetch.href u
                       /\ Fetch.f_status out = Fetch.status response
                       /\ Fetch.f_ok out = Fetch.ok response
                       /\ Fetch.f_redirects out = redirects
                       /\ Fetch.f_headers out = Fetch.headersToRecord (Fetch.headers response)
                       /\ Fetch.readBodyText P response (Fetch.maxBytes input)
                          = Ok {| Fetch.t_body := Fetch.f_body out;
                                  Fetch.t_truncated := Fetch.f_truncated out;
                                  Fetch.t_bytesRead := Fetch.f_bytesRead out |}
                 | Throw e => errorCode e <> Some TOO_MANY_REDIRECTS
                 end)
        \/ (exists w2 u response location nextUrl,
              Fetch.isRedirectStatus (Fetch.status response) = true
              /\ Fetch.headersGet (Fetch.headers response) "location" = Some location
              /\ location <> ""
              /\ Fetch.resolveURL P location u = Some nextUrl
              /\ Fetch.fetchLoop P fetchFn input (S n) current redirects st
                 = Fetch.fetchLoop P fetchFn input n (Fetch.href nextUrl)
                     (redirects ++ [(Fetch.status response, Fetch.href nextUrl)])
                     (w2, snd st ++ mid
                            ++ [Fetch.PolicyPassed current u;
                                Fetch.HttpGet (Fetch.href u) (Ok response)]))).
Proof.
  destruct (assertUrlAllowed_events P current st) as (mid & w1 & Hmid & Hres).
  exists mid, w1. split; [exact Hmid|].
  remember (Fetch.fetchLoop P fetchFn input (S n) current redirects st) as r eqn:Hr.
  cbn [Fetch.fetchLoop] in Hr. unfold Fetch.bind at 1 in Hr.
  destruct (Fetch.assertUrlAllowed P current st) as [st1 [u|e]]; cbn [fst snd] in Hres.
  2:{ left. destruct Hres as (-> & Hk & _). exists e, []. rewrite app_nil_r. auto. }
  subst st1.
  assert (Hreq :
    forall r',
      r' = Fetch.bind (Fetch.httpGet fetchFn (Fetch.href u))
             (fun response =>
                if Fetch.isRedirectStatus (Fetch.status response)
                then
                  match Fetch.headersGet (Fetch.headers response) "location" with
                  | Some location =>
                      if (location =? "")%string
                      then Fetch.throw
                             (ToolError FETCH_FAILED
                                "Redirect response missing Location header"
                                (VObject (<["status":=VInt (Fetch.status response)]> ∅)))
                      else
                        match Fetch.resolveURL P location u with
                        | Some nextUrl =>
                            Fetch.fetchLoop P fetchFn input n (Fetch.href nextUrl)
                              (redirects ++ [(Fetch.status response, Fetch.href nextUrl)])
                        | None => Fetch.throw (OtherError "Invalid URL")
                        end
                  | None =>
                      Fetch.throw
                        (ToolError FETCH_FAILED
                           "Redirect response missing Location header"
                           (VObject (<["status":=VInt (Fetch.status response)]> ∅)))
                  end
                else
                  Fetch.bind
                    (Fetch.lift (Fetch.readBodyText P response (Fetch.maxBytes input)))
                    (fun t =>
                       Fetch.ret
                         {| Fetch.f_url := Fetch.href u;
                            Fetch.f_status := Fetch.status response;
                            Fetch.f_statusText := Fetch.statusText response;
                            Fetch.f_ok := Fetch.ok response;
                            Fetch.f_headers :=
                              Fetch.headersToRecord (Fetch.headers response);
                            Fetch.f_body := Fetch.t_body t;
                            Fetch.f_truncated := Fetch.t_truncated t;
                            Fetch.f_bytesRead := Fetch.t_bytesRead t;
                            Fetch.f_redirects := redirects |}))
             (w1, snd st ++ mid ++ [Fetch.PolicyPassed current u]) ->
      (exists w2 u0 answer res,
          r' = ((w2, snd st ++ mid
                      ++ [Fetch.PolicyPassed current u0;
                          Fetch.HttpGet (Fetch.href u0) answer]), res)
          /\ match res with
             | Ok out =>
                 exists response,
                   answer = Ok response
                   /\ Fetch.isRedirectStatus (Fetch.status response) = false
                   /\ Fetch.f_url out = Fetch.href u0
                   /\ Fetch.f_status out = Fetch.status response
                   /\ Fetch.f_ok out = Fetch.ok response
                   /\ Fetch.f_redirects out = redirects
                   /\ Fetch.f_headers out = Fetch.headersToRecord (Fetch.headers response)
                   /\ Fetch.readBodyText P response (Fetch.maxBytes input)
                      = Ok {| Fetch.t_body := Fetch.f_body out;
                              Fetch.t_truncated := Fetch.f_truncated out;
                              Fetch.t_bytesRead := Fetch.f_bytesRead out |}
             | Throw e => errorCode e <> Some TOO_MANY_REDIRECTS
             end)
      \/ (exists w2 u0 response location nextUrl,
            Fetch.isRedirectStatus (Fetch.status response) = true
            /\ Fetch.headersGet (Fetch.headers response) "location" = Some location
            /\ location <> ""
            /\ Fetch.resolveURL P location u0 = Some nextUrl
            /\ r' = Fetch.fetchLoop P fetchFn input n (Fetch.href nextUrl)
                      (redirects ++ [(Fetch.status response, Fetch.href nextUrl)])
                      (w2, snd st ++ mid
                             ++ [Fetch.PolicyPassed current u0;
                                 Fetch.HttpGet (Fetch.href u0) (Ok response)]))).
  { intros r' Hr'. unfold Fetch.bind at 1, Fetch.httpGet in Hr'. cbn [fst snd] in Hr'.
    assert (Htr : forall a, (snd st ++ mid ++ [Fetch.PolicyPassed current u])
                            ++ [Fetch.HttpGet (Fetch.href u) a]
                            = snd st ++ mid ++ [Fetch.PolicyPassed current u;
                                                Fetch.HttpGet (Fetch.href u) a]).
    { intros a. rewrite <- !app_assoc. reflexivity. }
    destruct (fetchFn (Fetch.href u) w1) as [w2 [response|e]]; rewrite Htr in Hr'.
    2:{ left. eexists w2, u, _, _. split; [exact Hr'|]. discriminate. }
    destruct (Fetch.isRedirectStatus (Fetch.status response)) eqn:Hred.
    - destruct (Fetch.headersGet (Fetch.headers response) "location") as [location|] eqn:Hl.
      2:{ left. eexists w2, u, _, _. split; [exact Hr'|]. discriminate. }
      destruct (String.eqb_spec location "") as [->|Hne].
      { left. eexists w2, u, _, _. split; [exact Hr'|]. discriminate. }
      destruct (Fetch.resolveURL P location u) as [nextUrl|] eqn:Hn.
      2:{ left. eexists w2, u, _, _. split; [exact Hr'|]. discriminate. }
      right. exists w2, u, response, location, nextUrl. auto.
    - left. unfold Fetch.bind, Fetch.lift, Fetch.ret in Hr'.
      destruct (Fetch.readBodyText P response (Fetch.maxBytes input)) as [t|e] eqn:Hb;
        cbn beta iota in Hr'.
      + eexists w2, u, _, _. split; [exact Hr'|]. exists response. cbn. destruct t. repeat split; auto.
      + eexists w2, u, _, _. split; [exact Hr'|].
        cbn beta iota.         rewrite (readBodyText_kind _ _ _ _ Hb). discriminate. }
  unfold Fetch.bind at 1, Fetch.checkSignal in Hr. cbn [fst snd] in Hr.
  destruct (Fetch.signalAborted P) as [ab|].
  - destruct (ab w1).
    + left. exists (ToolError ABORTED "Request aborted" VUndefined),
        [Fetch.PolicyPassed current u].
      split; [exact Hr|]. split; [eauto|discriminate].
    + right. apply Hreq. exact Hr.
  - right. apply Hreq. exact Hr.
Qed.

Lemma requestsOf_app a b : requestsOf (a ++ b) = requestsOf a ++ requestsOf b.
Proof. apply flat_map_app. Qed.

Lemma validatedOf_app a b : validatedOf (a ++ b) = validatedOf a ++ validatedOf b.
Proof. apply flat_map_app. Qed.

Lemma lookupsOf_app a b : lookupsOf (a ++ b) = lookupsOf a ++ lookupsOf b.
Proof. apply flat_map_app. Qed.

Lemma lookup_events mid :
  mid = [] \/ (exists h a, mid = [Fetch.DnsLookup h a]) ->
  requestsOf mid = [] /\ validatedOf mid = [] /\ (length (lookupsOf mid) <= 1)%nat.
Proof. intros [->|(h & a & ->)]; cbn; auto. Qed.

(** What a run of the loop adds to the trace, and how its result relates to
    it. *)
Lemma fetchLoop_run {W} (P : Fetch.Platform W) fetchFn input :
  forall n current redirects st,
  exists added,
    snd (fst (Fetch.fetchLoop P fetchFn input n current redirects st)) = snd st ++ added
    /\ (length (requestsOf added) <= length (validatedOf added))%nat
    /\ (length (validatedOf added) <= n)%nat
    /\ (length (lookupsOf added) <= n)%nat
    /\ match snd (Fetch.fetchLoop P fetchFn input n current redirects st) with
       | Ok out =>
           exists new rs response,
             Fetch.f_redirects out = redirects ++ new
             /\ map fst (validatedOf added) = current :: map snd new
             /\ map fst (requestsOf added)
                = map (fun v => Fetch.href (snd v)) (validatedOf added)
             /\ requestsOf added = rs ++ [(Fetch.f_url out, Ok response)]
             /\ Forall2 redirected rs new
             /\ Fetch.f_status out = Fetch.status response
             /\ Fetch.f_ok out = Fetch.ok response
             /\ Fetch.isRedirectStatus (Fetch.status response) = false
             /\ Fetch.f_headers out = Fetch.headersToRecord (Fetch.headers response)
             /\ Fetch.readBodyText P response (Fetch.maxBytes input)
                = Ok {| Fetch.t_body := Fetch.f_body out;
                        Fetch.t_truncated := Fetch.f_truncated out;
                        Fetch.t_bytesRead := Fetch.f_bytesRead out |}
       | Throw e =>
           errorCode e = Some TOO_MANY_REDIRECTS ->
           exists new,
             length (requestsOf added) = n
             /\ Forall2 redirected (requestsOf added) new
             /\ e = ToolError TOO_MANY_REDIRECTS "Too many redirects"
                      (VObject (<["maxRedirects" := VInt (Fetch.maxRedirects input)]>
                                  (<["redirects" :=
                                       Fetch.redirectsToValue (redirects ++ new)]> ∅)))
       end.
Proof.
  induction n as [|n IH]; intros current redirects st.
  - exists []. cbn. rewrite app_nil_r. repeat split; auto.
    intros _. exists []. rewrite app_nil_r. repeat split; auto.
  - destruct (fetchLoop_S P fetchFn input n current redirects st)
      as (mid & w1 & Hmid & [(e & pp & -> & Hpp & Hk)
                            |[(w2 & u & answer & res & -> & Hres)
                             |(w2 & u & response & location & nextUrl
                               & Hred & Hl & Hne & Hn & ->)]]);
      destruct (lookup_events mid Hmid) as (Hrq & Hv & Hlk).
    + exists (mid ++ pp). cbn [fst snd].
      rewrite requestsOf_app, validatedOf_app, lookupsOf_app, Hrq, Hv, !length_app.
      destruct Hpp as [->|(u & ->)]; cbn; repeat split; try lia; intros; contradiction.
    + exists (mid ++ [Fetch.PolicyPassed current u; Fetch.HttpGet (Fetch.href u) answer]).
      cbn [fst snd].
      rewrite requestsOf_app, validatedOf_app, lookupsOf_app, Hrq, Hv, !length_app.
      cbn. repeat split; try lia.
      destruct res as [out|e]; [|intros; contradiction].
      destruct Hres as (response & -> & Hnr & Hu & Hs & Ho & Hr & Hh & Hb).
      exists [], [], response. rewrite app_nil_r, Hu. cbn. repeat split; auto.
    + destruct (IH (Fetch.href nextUrl)
                  (redirects ++ [(Fetch.status response, Fetch.href nextUrl)])
                  (w2, snd st ++ mid
                         ++ [Fetch.PolicyPassed current u;
                             Fetch.HttpGet (Fetch.href u) (Ok response)]))
        as (added & Htr & Hle & Hvn & Hln & Hres).
      exists ((mid ++ [Fetch.PolicyPassed current u;
                       Fetch.HttpGet (Fetch.href u) (Ok response)]) ++ added).
      cbn [fst snd] in Htr. rewrite Htr, <- !app_assoc.
      split; [reflexivity|].
      rewrite !requestsOf_app, !validatedOf_app, !lookupsOf_app, Hrq, Hv, !length_app.
      cbn [app requestsOf validatedOf lookupsOf flat_map length].
      repeat split; try lia.
      assert (Hone : redirected (Fetch.href u, Ok response)
                       (Fetch.status response, Fetch.href nextUrl)).
      { exists response. cbn. auto. }
      destruct (snd (Fetch.fetchLoop P fetchFn input n (Fetch.href nextUrl)
                       (redirects ++ [(Fetch.status response, Fetch.href nextUrl)])
                       (w2, snd st ++ mid
                              ++ [Fetch.PolicyPassed current u;
                                  Fetch.HttpGet (Fetch.href u) (Ok response)])))
        as [out|e].
      * destruct Hres as (new & rs & last & Hr & Hvs & Hts & Hrs & Hf & Hs & Ho & Hnr & Hh & Hb).
        exists ((Fetch.status response, Fetch.href nextUrl) :: new),
          ((Fetch.href u, Ok response) :: rs), last.
        rewrite Hr, <- app_assoc. cbn [map fst snd app].
        rewrite Hvs, Hts, Hrs. repeat split; auto.
      * intros He. destruct (Hres He) as (new & Hlen & Hf & ->).
        exists ((Fetch.status response, Fetch.href nextUrl) :: new).
        rewrite <- app_assoc. cbn [app length]. repeat split; auto. lia.
Qed.

(** ** The guarded fetcher as a whole *)

(** X17. A parsed request costs at most maxRedirects + 1 validations, and
    so at most 6: the fetcher only adds to the trace, every request it
    sends follows a validation of its own, and it asks the resolver at most
    once per validation. *)
Theorem fetch_work_is_bounded {W} (P : Fetch.Platform W) (raw : value)
    (input : Fetch.FetchRequest) (st : W * list Fetch.event)
    (Hparse : Fetch.parseFetchToolInput raw = Ok input) :
  exists added,
    snd (fst (Fetch.fetchWithGuards P input st)) = snd st ++ added
    /\ (length (requestsOf added) <= length (validatedOf added))%nat
    /\ (Z.of_nat (length (validatedOf added)) <= Fetch.maxRedirects input + 1)%Z
    /\ (Z.of_nat (length (lookupsOf added)) <= Fetch.maxRedirects input + 1)%Z
    /\ (length (validatedOf added) <= 6)%nat
    /\ (length (lookupsOf added) <= 6)%nat.
Proof.
  apply fetch_parse_Ok in Hparse as (o & -> & _ & _ & _ & _ & Hm).
  apply fetch_parseBoundedInt_range in Hm.
  unfold Fetch.MAX_MAX_REDIRECTS, Fetch.DEFAULT_MAX_REDIRECTS in Hm.
  assert (0 <= Fetch.maxRedirects input <= 5)%Z as Hr
    by (destruct Hm as [[_ ->]|[_ ?]]; lia).
  unfold Fetch.fetchWithGuards. destruct (Fetch.fetchImpl P) as [fetchFn|].
  - destruct (fetchLoop_run P fetchFn input (Z.to_nat (Fetch.maxRedirects input + 1))
                (Fetch.url input) [] st) as (added & Htr & Hle & Hv & Hl & _).
    exists added. repeat split; auto; lia.
  - exists []. cbn. rewrite app_nil_r. repeat split; auto; lia.
Qed.

Lemma fetch_work_is_bounded_witness :
  exists added,
    snd (fst (Fetch.fetchWithGuards sampleFetchPlatform
                (sampleRequest "http://public.example/start") (0%nat, [])))
    = [] ++ added
    /\ (length (requestsOf added) <= length (validatedOf added))%nat
    /\ (Z.of_nat (length (validatedOf added)) <= 3 + 1)%Z
    /\ (Z.of_nat (length (lookupsOf added)) <= 3 + 1)%Z
    /\ (length (validatedOf added) <= 6)%nat
    /\ (length (lookupsOf added) <= 6)%nat.
Proof.
  apply (fetch_work_is_bounded sampleFetchPlatform
           (obj [("url", VString "http://public.example/start")])
           (sampleRequest "http://public.example/start") (0%nat, [])).
  vm_compute. reflexivity.
Defined.

(** X18. When the fetcher returns a result, the targets validated were the
    URL of the request followed by the locations of the redirects it
    reports, each request went to the URL just validated, every request but
    the last was answered by the redirect status reported for it, and the
    result gives the URL, status, ok flag, headers and body of the last
    response, whose status is no redirect. *)
Theorem fetch_result_describes_last_response {W} (P : Fetch.Platform W)
    (input : Fetch.FetchRequest) (st : W * list Fetch.event) (out : Fetch.FetchOutcome)
    (Hok : snd (Fetch.fetchWithGuards P input st) = Ok out) :
  exists added rs response,
    snd (fst (Fetch.fetchWithGuards P input st)) = snd st ++ added
    /\ map fst (validatedOf added) = Fetch.url input :: map snd (Fetch.f_redirects out)
    /\ map fst (requestsOf added) = map (fun v => Fetch.href (snd v)) (validatedOf added)
    /\ requestsOf added = rs ++ [(Fetch.f_url out, Ok response)]
    /\ Forall2 redirected rs (Fetch.f_redirects out)
    /\ Fetch.f_status out = Fetch.status response
    /\ Fetch.f_ok out = Fetch.ok response
    /\ Fetch.isRedirectStatus (Fetch.f_status out) = false
    /\ Fetch.f_headers out = Fetch.headersToRecord (Fetch.headers response)
    /\ Fetch.readBodyText P response (Fetch.maxBytes input)
       = Ok {| Fetch.t_body := Fetch.f_body out;
               Fetch.t_truncated := Fetch.f_truncated out;
               Fetch.t_bytesRead := Fetch.f_bytesRead out |}.
Proof.
  unfold Fetch.fetchWithGuards in *. destruct (Fetch.fetchImpl P) as [fetchFn|];
    [|discriminate].
  destruct (fetchLoop_run P fetchFn input (Z.to_nat (Fetch.maxRedirects input + 1))
              (Fetch.url input) [] st) as (added & Htr & _ & _ & _ & Hres).
  rewrite Hok in Hres.
  destruct Hres as (new & rs & response & Hr & Hvs & Hts & Hrs & Hf & Hs & Ho & Hnr & Hh & Hb).
  cbn [app] in Hr. subst new.
  exists added, rs, response. rewrite Hs. auto 12.
Qed.

Lemma fetch_result_describes_last_response_witness :
  exists out,
    snd (Fetch.fetchWithGuards sampleFetchPlatform (sampleRequest "https://example.com/")
           (0%nat, [])) = Ok out
    /\ Fetch.f_status out = 200%Z
    /\ exists added rs response,
         snd (fst (Fetch.fetchWithGuards sampleFetchPlatform
                     (sampleRequest "https://example.com/") (0%nat, []))) = [] ++ added
         /\ map fst (validatedOf added)
            = "https://example.com/" :: map snd (Fetch.f_redirects out)
         /\ map fst (requestsOf added)
            = map (fun v => Fetch.href (snd v)) (validatedOf added)
         /\ requestsOf added = rs ++ [(Fetch.f_url out, Ok response)]
         /\ Forall2 redirected rs (Fetch.f_redirects out)
         /\ Fetch.f_status out = Fetch.status response
         /\ Fetch.f_ok out = Fetch.ok response
         /\ Fetch.isRedirectStatus (Fetch.f_status out) = false
         /\ Fetch.f_headers out = Fetch.headersToRecord (Fetch.headers response)
         /\ Fetch.readBodyText sampleFetchPlatform response 500000
            = Ok {| Fetch.t_body := Fetch.f_body out;
                    Fetch.t_truncated := Fetch.f_truncated out;
                    Fetch.t_bytesRead := Fetch.f_bytesRead out |}.
Proof.
  eexists. split; [vm_compute; reflexivity|]. split; [reflexivity|].
  apply (fetch_result_describes_last_response sampleFetchPlatform
           (sampleRequest "https://example.com/") (0%nat, [])).
  vm_compute. reflexivity.
Defined.



(** X20. Under a caller's signal that is already aborted the fetcher sends
    no request at all and fails; once the first target has passed the
    policy, the failure is ABORTED. *)
Theorem aborted_signal_sends_no_request {W} (P : Fetch.Platform W)
    (aborted : W -> bool) (input : Fetch.FetchRequest) (st : W * list Fetch.event)
    (Hsignal : Fetch.signalAborted P = Some aborted)
    (Haborted : forall w, aborted w = true) :
  exists added e,
    snd (fst (Fetch.fetchWithGuards P input st)) = snd st ++ added
    /\ requestsOf added = []
    /\ snd (Fetch.fetchWithGuards P input st) = Throw e
    /\ (validatedOf added <> [] -> e = ToolError ABORTED "Request aborted" VUndefined).
Proof.
  unfold Fetch.fetchWithGuards. destruct (Fetch.fetchImpl P) as [fetchFn|].
  2:{ eexists [], _. cbn. rewrite app_nil_r. repeat split; auto.
      intros H; exfalso; apply H; reflexivity. }
  destruct (Z.to_nat (Fetch.maxRedirects input + 1)) as [|n].
  { eexists [], _. cbn. rewrite app_nil_r. repeat split; auto.
    intros H; exfalso; apply H; reflexivity. }
  destruct (assertUrlAllowed_events P (Fetch.url input) st) as (mid & w1 & Hmid & Hres).
  destruct (lookup_events mid Hmid) as (Hrq & Hv & _).
  remember (Fetch.fetchLoop P fetchFn input (S n) (Fetch.url input) [] st) as r eqn:Hr.
  cbn [Fetch.fetchLoop] in Hr. unfold Fetch.bind at 1 in Hr.
  destruct (Fetch.assertUrlAllowed P (Fetch.url input) st) as [st1 [u|e]];
    cbn [fst snd] in Hres.
  - subst st1. unfold Fetch.bind at 1, Fetch.checkSignal in Hr. cbn [fst snd] in Hr.
    rewrite Hsignal, Haborted in Hr. subst r. cbn [fst snd].
    exists (mid ++ [Fetch.PolicyPassed (Fetch.url input) u]),
      (ToolError ABORTED "Request aborted" VUndefined).
    rewrite requestsOf_app, Hrq. repeat split; auto.
  - destruct Hres as (Hst & _). subst r st1. exists mid, e. cbn [fst snd].
    repeat split; auto. rewrite Hv. intros H; exfalso; apply H; reflexivity.
Qed.

Lemma aborted_signal_sends_no_request_witness :
  exists added e,
    snd (fst (Fetch.fetchWithGuards abortedPlatform (sampleRequest "https://example.com/")
                (0%nat, []))) = [] ++ added
    /\ requestsOf added = []
    /\ snd (Fetch.fetchWithGuards abortedPlatform (sampleRequest "https://example.com/")
              (0%nat, [])) = Throw e
    /\ (validatedOf added <> [] -> e = ToolError ABORTED "Request aborted" VUndefined).
Proof.
  apply (aborted_signal_sends_no_request abortedPlatform (fun _ => true)
           (sampleRequest "https://example.com/") (0%nat, [])).
  - reflexivity.
  - reflexivity.
Defined.

(** ** Hosts in brackets *)

Lemma matches_Void s : Net.matches Net.Void s = false.
Proof. induction s as [|c s IH]; [reflexivity|exact IH]. Qed.

Lemma isIP_bracket s : Net.isIP (String "[" s) = 0%Z.
Proof.
  unfold Net.isIP, Net.isIPv4, Net.isIPv6.
  cbn [Net.beforePercent]. change (Ascii.eqb "[" "%") with false. cbn iota.
  cbn [Net.matches].
  replace (Net.deriv "[" Net.v4Str) with Net.Void by (vm_compute; reflexivity).
  replace (Net.deriv "[" Net.v6Body) with Net.Void by (vm_compute; reflexivity).
  rewrite !matches_Void. reflexivity.
Qed.

(** X21. A host in brackets, which is how the URL class prints an IPv6
    literal, is never taken for an address: [net.isIP] answers 0 for it, so
    a URL with such a host that passes the static checks is not decided by
    the address tables but sent to the resolver, and the policy fails with
    DNS_FAILED when the resolver does not know the name. *)
Theorem bracketed_host_goes_to_resolver {W} (P : Fetch.Platform W)
    (urlString : string) (u : Fetch.URL) (st : W * list Fetch.event) (s : string)
    (Hstatic : staticallyAllowed P urlString u)
    (Hhost : Fetch.hostname u = String "[" s) :
  Net.isIP (Fetch.hostname u) = 0%Z
  /\ exists answer rest,
       snd (Fetch.lookup P (Fetch.hostname u) (fst st)) = answer
       /\ snd (fst (Fetch.assertUrlAllowed P urlString st))
          = snd st ++ Fetch.DnsLookup (Fetch.hostname u) answer :: rest
       /\ (isOk answer = false ->
           failsWith (snd (Fetch.assertUrlAllowed P urlString st)) DNS_FAILED).
Proof.
  assert (Net.isIP (Fetch.hostname u) = 0%Z) as Hip
    by (rewrite Hhost; apply isIP_bracket).
  split; [exact Hip|].
  rewrite (assertUrlAllowed_name P urlString u st (conj Hstatic Hip)).
  destruct (Fetch.lookup P (Fetch.hostname u) (fst st)) as [w' [addrs|e]]; cbn [fst snd].
  - destruct (Fetch.checkAddrs (Fetch.hostname u) addrs); cbn [fst snd].
    + eexists _, _. split; [reflexivity|]. rewrite <- app_assoc.
      split; [reflexivity|discriminate].
    + eexists _, []. split; [reflexivity|]. split; [reflexivity|discriminate].
  - eexists _, []. split; [reflexivity|]. split; [reflexivity|].
    intros _. apply failsWith_Throw.
Qed.

Lemma bracketed_host_goes_to_resolver_witness :
  Net.isIP "[::1]" = 0%Z
  /\ exists answer rest,
       snd (Fetch.lookup bracketPlatform "[::1]" 0%nat) = answer
       /\ snd (fst (Fetch.assertUrlAllowed bracketPlatform "http://[::1]/" (0%nat, [])))
          = [] ++ Fetch.DnsLookup "[::1]" answer :: rest
       /\ (isOk answer = false ->
           failsWith (snd (Fetch.assertUrlAllowed bracketPlatform "http://[::1]/"
                             (0%nat, []))) DNS_FAILED).
Proof.
  apply (bracketed_host_goes_to_resolver bracketPlatform "http://[::1]/"
           (sampleURL "http:" "[::1]" "/") (0%nat, []) "::1]").
  - repeat split; try reflexivity; [left; reflexivity|discriminate].
  - reflexivity.
Defined.
